(* ===== verification/_CoqProject ===== *)
-Q . S2P
Prelude.v
Kernel.v
Wp.v
Sim.v
Wait.v
Sched.v
Calls.v
Resume.v
Linear.v
User.v
Queue.v
Keypad.v
Mirror.v
Storage.v
StorageProps.v
StorageSpec.v
StorageCalls.v
StorageTorn.v
StorageApp.v
MultiChar.v
MultiCharCalls.v
Skeleton.v
Poll.v
PollApps.v
Readers.v
WaitCalls.v
ReaderApp.v
Temperature.v
Light.v
Atomics.v
Irq.v
Apps.v
IrqApp.v
LinkedList.v
Sensor.v
Leds.v
SensorApp.v
Kthread.v
Threads.v
Timers.v
Deferred.v
Signals.v
Misc.v
PlainCalls.v
Platform.v
Power.v
Alloc.v
Vfs.v
Lifetimes.v
Sysfs.v
Bindings.v
Demos.v
