(* ===== verification/Prelude.v ===== *)
(** * Linux device-driver examples: a verification library

    The repository is a course of small Linux kernel modules, one directory
    per topic under src/, most of them a character device with a user program
    next to it. The modules share no code across directories; inside one,
    several files are linked or loaded together and call each other (a device
    on top of a queue, a device on top of a mirror). This library models the
    modules with logic of their own and proves what they do, the mistakes that
    the code has included.

    ** The execution model (Kernel.v)

    A driver function becomes a computation of type [M W D A]. Its state
    [kst W D] has the driver's static variables [D], the rest of the system
    [W], the locks this thread holds and the ledger, the resources the module
    has acquired and not given back. It ends in [Done] with a result or in
    [Oops u], where [u] names the undefined behaviour reached: an access outside an array,
    a NULL or error pointer used, a string without its terminator, a mutex
    locked twice, a lock or a resource released that is not held, a
    resource released while another one needs it, a [_Bool] that is neither 0
    nor 1. Running out of fuel is an [Oops] too, so no theorem holds because a
    loop did not end.

    [W] is abstract. What the code calls in the kernel is a class of
    operations on it, and the laws a theorem needs are a second class that
    states the documented behaviour of those calls:
      - [UserAccess]/[UserAccessOk] (Kernel.v, Wp.v): copy_from_user and
        copy_to_user move a prefix and return how much is missing;
      - [Signals]: mutex_lock_interruptible may be interrupted;
      - [Grants]: every registration may be refused with an error number;
      - [FileIO]: kernel_write may fail or write less than it was given;
      - the wait functions and simple_read_from_buffer (Wait.v), the list
        macros (LinkedList.v), registers, device tree and number parsing
        (Sensor.v, Leds.v), each next to the module that uses it.
    Sim.v has an instance of the first group, a simulated system with mapped
    user memory and scripted answers; the witnesses run the theorems on it.
    Wp.v has the proof rules: [wp m Q s] says that [m] from [s] does not reach
    [Oops] and ends in a result and state with [Q]; [wp_auto] executes a
    handler symbolically.

    ** Programs, threads and schedules

    A user program (User.v) is a computation over the driver's state and what
    it has printed: [drive] enters a handler, [store] and [load] access the
    program's own memory, an open file is a resource on the ledger.
    What happens in an order that the code does not choose is a schedule, a
    list of turns of actors (Sched.v). [exec] runs a finite one; theorems about
    it are invariants of every interleaving. [runs] follows an infinite one;
    [fair_eventually] reduces a liveness claim to a measure and a helper, the
    actor whose next turn brings the measure down. Kthread.v has the threads
    a module starts and stops on top of that, Calls.v the calls of handlers
    that overlap because they take no lock.
    Calls of handlers with locks overlap in Resume.v: a handler is a [prog], a
    tree of steps and requests for mutexes, [run] does its steps one after the
    other, a [pool] has any number of calls under way. [safe] judges one call
    by what it relies on and guarantees (a rely-guarantee logic); calls that
    are [safe] can overlap in any order ([pool_safe]) and return
    ([pool_returns]). Linear.v is for calls that are one critical section:
    [alone] is a triple for the part of the state that the mutex protects, and
    [pool_linear] says that overlapping calls take effect one after the other,
    in the order of [history].

    ** Data

    A C integer is a [Z] with its wrap-around written where the code can
    reach it ([uwrap], [swrap]); an [int] or [long] exchanged with the user is
    its little-endian bytes. A fixed-size array is a list of its size, read
    and written through [in_bounds], [sub], [upd], [zget] and [zset]. A user
    address is a [Z]. A handler of read or write returns the result with the
    new file position. The VFS limits a transfer to MAX_RW_COUNT bytes and
    keeps the position non-negative: [vfs_ok] states that where a theorem
    needs it, and [length_check_wraps] shows what happens without it.

    ** Which file models which source

      - Prelude.v: integers, bytes, decimal printing, arrays, lists.
      - Kernel.v, Wp.v, Sim.v, Wait.v, Sched.v, Calls.v, Resume.v, Linear.v,
        Kthread.v, User.v: the models above.
      - Queue.v: 002_char_keypad_driver/queue_kernel.c and .h. [queue] is the
        struct, [contents] the abstraction, [Spec] the bounded queue it
        implements. The race of queue_empty with enqueue is a step relation.
      - Keypad.v: keypad_helper_kernel.c, which owns the one queue and calls
        Queue.v, and key_kernel.c, the character device on top of it.
      - Mirror.v: 003_char_block_storage_device/storage_mirror_kernel.c.
      - Storage.v: storage_kernel.c, which calls Mirror.v through [zoom]; a
        [disk] pairs the static variables of both. [op] lists the entry
        points and [run_op] runs one. StorageProps.v holds the theorems,
        StorageSpec.v the abstract device that it implements,
        StorageApp.v the program storage_user.c. StorageCalls.v has the same
        handlers cut into memory accesses (suffix _p), for calls that overlap;
        StorageTorn.v the one pair of calls that may not.
      - Temperature.v: module [Atomic] is 004_temp_sens_atomic/temp_kernel.c,
        module [Log] is 001_temp_log/driver.c with helper.c.
      - Light.v: 005_atomic_light/light_kernel.c.
      - Atomics.v: overlapping calls of temp_kernel.c ([TempCalls]) and
        light_kernel.c ([LightCalls]), one atomic access per step.
      - Leds.v: module [Rgb] is 006_led_sysfs_attr/led_rgb_sysfs_attr.c,
        module [Gpio] is 007_gpiod_sysfs_led/gpiod_led_sysfs.c, module [Pin]
        is 019_pltdrv_dt_gpios/sensor_pltdrv.c.
      - MultiChar.v: 010_multi_char_driver/driver.c, an indexed array of
        devices, each with its own mutex, and their sysfs attributes;
        MultiCharCalls.v: the same handlers cut into memory accesses.
      - Skeleton.v: 011_chrdev_skeleton/driver.c.
      - Readers.v: 012_multi_reader_wait/driver.c; ReaderApp.v: app.c, its
        main thread, two reader threads and their timeouts as actors, whose
        calls of the driver are the steps of WaitCalls.v.
      - Poll.v: 014_poll_select/poll.c; PollApps.v: poll_app.c, select_app.c
        and epoll_app.c.
      - WaitCalls.v: the reads and writes of 012 ([ReaderCalls]) and 014
        ([PollCalls]), which take no lock, for calls that overlap byte by byte;
        PlainCalls.v: those of 011 ([SkeletonCalls]) and 001's misc.c
        ([MiscCalls]).
      - Platform.v: 015_platform_driver_demo, both modules, on an interface of
        the platform bus; the registration of 016's sensor_pltdvc.c.
      - Sensor.v: modules [Plat], [Dt] and [Of] are sensor_pltdrv.c of
        016_platform_sensor_data, 017_platform_sys_dt and 018_pltdrv_dt_ofread;
        SensorApp.v: the four sensor_app.c of 016 to 019, three of them
        against an interface that the drivers of Sensor.v implement.
      - Irq.v: 021_interrupt_handler/irq_handler_kernel.c; IrqApp.v: the
        program irq_handler_user.c.
      - Apps.v: key_user.c of 002, temp_user.c of 004, light_user.c of 005 and
        user_app.c of 001, a module each.
      - LinkedList.v: 024_linked_list/list.c.
      - Threads.v: modules [Counter] (023_katomic/atomic.c), [Pair]
        (026_kthread/thread.c) and [Locked] (001_driver_misc/kThread.c).
      - Timers.v: modules [Wheel] (028_ktimer) and [Hr] (029_hrt_ktimer).
      - Deferred.v: modules [Completion] (030_kcompletion/kcomp.c) and
        [Tasklet] (031_softirqs/softirq1.c and 032_tasklet/task.c).
      - Signals.v: modules [Keyboard] (022_keyboard_interrupt) and [Signal]
        (027_sig_send/sigdrv.c) and [SigApp] (sigusr.c).
      - Misc.v: 001_driver_misc/misc.c.
      - Power.v: 020_power_management, the driver and its user program.
      - Alloc.v: 008_dynamic_memalloc/kmalloc.c and vmalloc.c.
      - Demos.v: 000_hello_world/hello.c and hexdump.c, init_exit_data.c and
        panic.c of 001_driver_misc, on the kernel log.
      - Sysfs.v: the attribute tables of nine drivers, and what programs do
        with the attributes; Bindings.v: the struct platform_driver of seven
        drivers and the life of a device on the bus.
      - Vfs.v: the struct file_operations of eleven drivers and sessions of
        calls on an open file; Lifetimes.v: insmod, open files and rmmod of
        these drivers, with their init and exit functions.
    Definitions keep the names of the C functions; a [Record] is a struct or
    the static variables of a file, and [x0] the initial value of [x].

    ** What the theorems show

      - Safety of whole drivers: every entry point of the two-device driver
        runs without undefined behaviour from every well-formed state, leaves
        locks and ledger balanced and the state well-formed
        ([mydev_op_isolated]); so does every entry point of the storage device
        but one, the backup command, whose only undefined behaviour is to read
        on behind a path that the caller has not terminated
        ([storage_op_safe]). Where the paths are terminated and no call
        overwrites one, any number of calls may overlap access by access
        ([storage_calls_safe]).
      - What the system expects of a driver: five tables keep the contract of
        read(2) and write(2) ([Conforms], [sessions_confined]), six break it
        ([unconfined_tables]); which drivers can be loaded, opened, closed
        and unloaded in any order ([owner_pins]). Eight attribute tables keep
        the contract of sysfs ([attributes_answer]), three of them only if
        the register block of the sensor is as long as the code takes it to
        be; the colour of 006 does not ([color_unsafe]). With such a block
        four platform drivers survive any order of binding, unbinding, sleep
        and accesses ([lifecycle_safe]), two leave something behind
        ([leaky_bindings]).
      - Invariants over sequences: a locked sector never changes, and four of
        the eight can never be unlocked ([locked_sector_immutable],
        [high_sector_locked_forever]); along any history of requests without
        a reset the interrupt counters agree with the requests made, and none
        is lost ([deferred_work_counts]).
      - Refinement: the storage device is a vault of eight sectors
        ([storage_refines_vault]); the ring buffer is a bounded queue
        ([queue_implements_fifo]); three sensor drivers implement the interface
        that their program relies on ([sensor_app_session]); overlapping calls
        of the two-device driver are linearizable ([mydev_linearizable]); a
        handler cut into steps is the handler in one piece when it runs alone
        ([run_call], [run_call_alone]).
      - Every interleaving: no increment of a shared counter is lost, with
        atomics or under a mutex ([atomic_final_value], [worker_counts]);
        alerts counted by overlapping writes ([alerts_between]); what reads
        and writes without a lock still guarantee ([readers_overlap],
        [polls_overlap], [skeleton_overlap], [misc_overlap]); timers on their
        grid ([hrt_on_grid]); the readers of 012, byte by byte
        ([readers_session]); probe and remove in turn
        ([probe_remove_alternate]).
      - Progress under fair schedules: unloading returns ([atomic_unload],
        [thread_unload]), the timer goes on firing ([timer_keeps_firing]), the
        completion is waited for to the end ([completion_init_returns]), the
        tasklet runs once ([tasklet_runs_once]), main of app.c returns
        ([readers_return], if malloc and pthread_create succeed), calls
        without a lock return ([temp_calls_return]), and so do calls that wait
        for each other's mutexes ([storage_calls_return],
        [mydev_calls_return]).
      - Whole programs on top of the drivers: what they print and leave behind,
        and that they close what they open ([storage_user_session],
        [irq_app_session], [key_app_session], [temp_app_session],
        [epoll_main_closes]); epoll and select rounds agree
        ([epoll_select_equivalent]).
      - Results of handlers on every branch, errors included, and round trips
        through user memory: write then read in Storage, MultiChar, Skeleton,
        Poll, Light, Sensor; two readers per message in Readers.
      - Loading and unloading: whichever acquisition fails, a load gives back
        what it took, and an unload gives back everything ([*_load_unload],
        [of_probe_remove]).
      - Behaviour of the mistakes: what the code does where it does not do
        what it means to is a theorem as well, with the input that shows it
        ([queue_empty_race_corrupts], [length_check_wraps],
        [backup_path_unterminated], [mydev_gap_exposes_old_bytes],
        [poll_reader_loses_message], [poll_init_error_path],
        [color_store_bounds], [threshold_check_answers], [mirror_torn],
        [message_torn], [served_to_four], [message_lost], [count_lost],
        [refused_registrations] and others).

    ** Fuel

    Draining a queue takes at most 64 dequeues and one that fails: 65. Each
    round of the backup loop writes at least one of 4096 bytes or leaves the
    loop: 4097. The sweep over the linked list visits each node once: the
    length of the list. Decimal printing splits off one digit per round: log2 of the number
    plus one rounds. A write to an attribute takes at least one byte per
    round: the length of the text. That the fuel is enough is part of the
    theorems, since the other outcome would be [Oops], or no answer. Counted
    loops ([for_]) need none.

    ** Concurrency

    In the sequential theorems a handler runs as one step. That this is what
    a handler that locks from its first access to its last looks like is a
    theorem for the two-device driver ([mydev_linearizable]); the storage
    device, whose mirror is copied without the lock of its source, has its
    safety proved step by step ([storage_calls_safe]) and its exception shown,
    for every sector, every two contents and every byte at which the write can
    get between ([mirror_torn]). A step there is one byte of a buffer, one variable, or one
    transfer to or from user memory. Other interleavings are modelled where
    the code leaves a window: queue_empty against enqueue (Queue.v), other threads during a wait
    (Wait.v, Readers.v, Poll.v), interrupt, tasklet, work item and user
    requests in any order (Irq.v, IrqApp.v), threads against each other and
    against unloading (Threads.v, Deferred.v), timer callbacks against
    unloading (Timers.v), the threads of a program (ReaderApp.v), and handlers
    that use atomics or plain variables without a lock (Atomics.v,
    WaitCalls.v, PlainCalls.v). A read of WaitCalls.v that runs alone does what Readers.v
    says ([read_alone]).

    ** Not modelled

      - 013: notes.
      - 009 and 025 do not compile (a missing semicolon and undeclared names;
        vmalloc with two arguments and an assignment to an array), and neither
        does 031's softirq2.c, which uses a softirq that no header defines.
      - How the platform bus matches devices to drivers: Bindings.v starts
        with a device that the bus has matched.
      - printk and the other messages to the log where no theorem is about
        them, module parameters other than keymap, memory ordering of atomics
        weaker than sequential consistency, the Makefiles and the device tree
        sources. *)

From stdpp Require Export base numbers list option strings gmap relations.
From Stdlib Require Export ZArith Lia.
From Stdlib Require Strings.Byte.

#[export] Set Default Goal Selector "!".
#[global] Open Scope Z_scope.

(** ** Machine integers: a w-bit C integer is a [Z] with explicit wrap-around *)

(** Conversion to an unsigned w-bit type. *)
Definition uwrap (w z : Z) : Z := z mod 2 ^ w.

(** Conversion to a signed w-bit (two's complement) type. *)
Definition swrap (w z : Z) : Z := (z + 2 ^ (w - 1)) mod 2 ^ w - 2 ^ (w - 1).

Abbreviation u8 := (uwrap 8).
Abbreviation u32 := (uwrap 32).
Abbreviation u64 := (uwrap 64).
Abbreviation s32 := (swrap 32).
Abbreviation s64 := (swrap 64).

Definition INT_MIN : Z := - 2 ^ 31.
Definition INT_MAX : Z := 2 ^ 31 - 1.
Definition is_int (z : Z) : Prop := INT_MIN <= z <= INT_MAX.

Lemma uwrap_small w z : 0 <= z < 2 ^ w -> uwrap w z = z.
Proof. apply Z.mod_small. Qed.

Lemma uwrap_range w z : 0 <= w -> 0 <= uwrap w z < 2 ^ w.
Proof. intros Hw. apply Z.mod_pos_bound. lia. Qed.

Lemma swrap_small w z : 0 < w -> - 2 ^ (w - 1) <= z < 2 ^ (w - 1) -> swrap w z = z.
Proof.
  intros Hw Hz. unfold swrap.
  replace (2 ^ w) with (2 * 2 ^ (w - 1)).
  - rewrite Z.mod_small; lia.
  - rewrite <- Z.pow_succ_r by lia. f_equal; lia.
Qed.

Lemma swrap_range w z : 0 < w -> - 2 ^ (w - 1) <= swrap w z < 2 ^ (w - 1).
Proof.
  intros Hw. unfold swrap.
  replace (2 ^ w) with (2 * 2 ^ (w - 1)).
  - pose proof (Z.mod_pos_bound (z + 2 ^ (w - 1)) (2 * 2 ^ (w - 1))). lia.
  - rewrite <- Z.pow_succ_r by lia. f_equal; lia.
Qed.

Lemma swrap_add_l w y z : swrap w (swrap w z + y) = swrap w (z + y).
Proof.
  unfold swrap. set (m := 2 ^ w). set (h := 2 ^ (w - 1)).
  replace ((z + h) mod m - h + y + h) with ((z + h) mod m + y) by lia.
  rewrite Zplus_mod_idemp_l. do 2 f_equal. lia.
Qed.

Lemma swrap_idem w z : 0 < w -> swrap w (swrap w z) = swrap w z.
Proof. intros Hw. apply swrap_small; [done | by apply swrap_range]. Qed.

Lemma u64_small z : 0 <= z < 18446744073709551616 -> u64 z = z.
Proof. apply (uwrap_small 64). Qed.

Lemma s32_small z : is_int z -> s32 z = z.
Proof. intros Hz. apply (swrap_small 32); [lia | unfold is_int, INT_MIN, INT_MAX in Hz; lia]. Qed.

Lemma s64_small z : - 9223372036854775808 <= z < 9223372036854775808 -> s64 z = z.
Proof. apply (swrap_small 64). lia. Qed.

(** ** Error numbers (include/uapi/asm-generic/errno-base.h and errno.h) *)

Definition EPERM : Z := 1.
Definition ENOENT : Z := 2.
Definition EIO : Z := 5.
Definition EAGAIN : Z := 11.
Definition ENOMEM : Z := 12.
Definition EFAULT : Z := 14.
Definition EINVAL : Z := 22.
Definition ENOTTY : Z := 25.
Definition ENOSPC : Z := 28.
Definition ETIMEDOUT : Z := 110.
Definition ERESTARTSYS : Z := 512.

(** ** Ioctl numbers (include/uapi/asm-generic/ioctl.h) *)

Definition _IOC_NONE : Z := 0.
Definition _IOC_WRITE : Z := 1.
Definition _IOC_READ : Z := 2.

Definition _IOC (dir type nr size : Z) : Z :=
  Z.lor (Z.shiftl dir 30) (Z.lor (Z.shiftl size 16) (Z.lor (Z.shiftl type 8) nr)).
Definition _IO (type nr : Z) : Z := _IOC _IOC_NONE type nr 0.
Definition _IOR (type nr size : Z) : Z := _IOC _IOC_READ type nr size.
Definition _IOW (type nr size : Z) : Z := _IOC _IOC_WRITE type nr size.
Definition _IOWR (type nr size : Z) : Z := _IOC (Z.lor _IOC_READ _IOC_WRITE) type nr size.

Definition sizeof_int : Z := 4.
Definition sizeof_ptr : Z := 8.

(** [lia] with the defining equations of the divisions in the context. *)
Ltac dlia := Z.to_euclidean_division_equations; lia.

(** ** Bytes *)

Abbreviation byte := Byte.byte.

#[export] Instance byte_eq_dec : EqDecision byte := Byte.byte_eq_dec.
#[export] Instance byte_inhabited : Inhabited byte := populate Byte.x00.

Abbreviation NUL := Byte.x00.

(** The low eight bits of a C integer, and the unsigned value of a byte. *)
Definition byte_of_Z (z : Z) : byte := default NUL (Byte.of_N (Z.to_N (u8 z))).
Definition byte_val (b : byte) : Z := Z.of_N (Byte.to_N b).

(** The bytes of a string literal, without a terminator. *)
Definition bytes_of (s : string) : list byte := String.list_byte_of_string s.

Lemma byte_val_range b : 0 <= byte_val b < 256.
Proof. unfold byte_val. pose proof (Byte.to_N_bounded b). lia. Qed.

Lemma byte_of_val b : byte_of_Z (byte_val b) = b.
Proof.
  unfold byte_of_Z. rewrite uwrap_small by apply byte_val_range.
  unfold byte_val. by rewrite N2Z.id, Byte.of_to_N.
Qed.

Lemma byte_val_of z : byte_val (byte_of_Z z) = u8 z.
Proof.
  unfold byte_of_Z, byte_val. pose proof (uwrap_range 8 z ltac:(lia)) as Hr.
  destruct (Byte.of_N (Z.to_N (u8 z))) as [b|] eqn:Hb; simpl.
  - apply Byte.to_of_N in Hb. lia.
  - apply Byte.of_N_None_iff in Hb. lia.
Qed.

(** *** Little-endian encoding of integers in memory *)

Fixpoint le_bytes (n : nat) (z : Z) : list byte :=
  match n with
  | O => []
  | S n => byte_of_Z z :: le_bytes n (z / 256)
  end.

Fixpoint le_val (bs : list byte) : Z :=
  match bs with
  | [] => 0
  | b :: bs => byte_val b + 256 * le_val bs
  end.

Lemma length_le_bytes n z : length (le_bytes n z) = n.
Proof. revert z. induction n as [|n IH]; intros z; simpl; [done | by rewrite IH]. Qed.

Lemma le_val_bytes n z : le_val (le_bytes n z) = z mod 256 ^ Z.of_nat n.
Proof.
  revert z. induction n as [|n IH]; intros z; simpl.
  - by rewrite Z.mod_1_r.
  - rewrite IH, byte_val_of. unfold uwrap. change (2 ^ 8) with 256.
    replace (Z.of_nat (S n)) with (1 + Z.of_nat n) by lia.
    rewrite Z.pow_add_r by lia. change (256 ^ 1) with 256.
    rewrite Z.rem_mul_r by lia. lia.
Qed.

(** An [int] stored in and loaded from four bytes. *)
Definition int_bytes (z : Z) : list byte := le_bytes 4 z.
Definition bytes_int (bs : list byte) : Z := s32 (le_val bs).

Lemma length_int_bytes z : length (int_bytes z) = 4%nat.
Proof. apply length_le_bytes. Qed.

Lemma bytes_int_of z : bytes_int (int_bytes z) = s32 z.
Proof.
  unfold bytes_int, int_bytes. rewrite le_val_bytes. unfold swrap.
  change (256 ^ Z.of_nat 4) with (2 ^ 32). by rewrite Zplus_mod_idemp_l.
Qed.

(** An [int] survives a store followed by a load. *)
Lemma int_roundtrip z : is_int z -> bytes_int (int_bytes z) = z.
Proof. intros Hz. rewrite bytes_int_of. by apply s32_small. Qed.

#[global] Arguments uwrap : simpl never.
#[global] Arguments swrap : simpl never.
#[global] Arguments int_bytes : simpl never.
#[global] Arguments bytes_int : simpl never.

(** ** C strings and decimal formatting *)

(** The characters of the string at the start of an array, [None] when the
    array holds no terminator and the scan would leave it. *)
Fixpoint cstr (bs : list byte) : option (list byte) :=
  match bs with
  | [] => None
  | b :: bs => if decide (b = NUL) then Some [] else (b ::.) <$> cstr bs
  end.

(** The bytes in front of the first terminator, all of them without one: what
    [printf] writes for [%.*s] and [strncpy] copies. *)
Fixpoint until_nul (b : list byte) : list byte :=
  match b with
  | [] => []
  | c :: b => if bool_decide (c = NUL) then [] else c :: until_nul b
  end.

(** The characters [printf] writes for [%d], [%u], [%lu] and [%zu]: the
    decimal digits, the least significant one split off first. *)
Fixpoint digits (fuel : nat) (z : Z) : list byte :=
  match fuel with
  | O => []
  | S fuel => (if z <? 10 then [] else digits fuel (z / 10)) ++ [byte_of_Z (48 + z mod 10)]
  end.

Definition dec (z : Z) : list byte :=
  let n := S (Z.to_nat (Z.log2 (Z.abs z))) in
  if z <? 0 then Byte.x2d :: digits n (- z) else digits n z.

(** The number a string of digits denotes. *)
Definition of_digits (s : list byte) : Z := foldl (fun n c => 10 * n + (byte_val c - 48)) 0 s.

Lemma of_digits_digits n z : 0 <= z < 10 ^ Z.of_nat n -> of_digits (digits n z) = z.
Proof.
  revert z. induction n as [|n IH]; intros z Hz; [simpl in *; unfold of_digits; simpl; lia|].
  unfold of_digits. cbn [digits]. rewrite foldl_app. cbn [foldl].
  pose proof (Z.mod_pos_bound z 10 ltac:(lia)).
  rewrite byte_val_of, uwrap_small by lia. destruct (Z.ltb_spec z 10).
  - cbn [foldl]. rewrite Z.mod_small by lia. lia.
  - fold (of_digits (digits n (z / 10))). rewrite IH; [dlia|].
    rewrite Nat2Z.inj_succ, Z.pow_succ_r in Hz by lia. split; [dlia|].
    apply Z.div_lt_upper_bound; lia.
Qed.

(** Printing a non-negative number loses nothing. *)
Lemma dec_roundtrip z : 0 <= z -> of_digits (dec z) = z.
Proof.
  intros Hz. unfold dec. destruct (Z.ltb_spec z 0); [lia|]. apply of_digits_digits.
  rewrite Z.abs_eq by lia. split; [done|].
  destruct (decide (z = 0)) as [->|]; [done|]. pose proof (Z.log2_spec z ltac:(lia)).
  pose proof (Z.log2_nonneg z). rewrite Nat2Z.inj_succ, Z2Nat.id by done.
  apply Z.lt_le_trans with (2 ^ Z.succ (Z.log2 z)); [lia|]. apply Z.pow_le_mono_l. lia.
Qed.

Lemma length_digits n k z :
  (0 < k)%nat -> 0 <= z < 10 ^ Z.of_nat k -> (length (digits n z) <= k)%nat.
Proof.
  revert k z. induction n as [|n IH]; intros k z Hk Hz; [simpl; lia|].
  cbn [digits]. rewrite length_app. cbn [length]. destruct (Z.ltb_spec z 10); [simpl; lia|].
  destruct k as [|k]; [lia|]. rewrite Nat2Z.inj_succ, Z.pow_succ_r in Hz by lia.
  destruct k as [|k]; [simpl in Hz; lia|].
  assert (length (digits n (z / 10)) <= S k)%nat; [|lia].
  apply IH; [lia|]. split; [dlia|]. apply Z.div_lt_upper_bound; lia.
Qed.

Lemma length_dec k z : (0 < k)%nat -> 0 <= z < 10 ^ Z.of_nat k -> (length (dec z) <= k)%nat.
Proof.
  intros Hk Hz. unfold dec. destruct (Z.ltb_spec z 0); [lia|]. by apply length_digits.
Qed.

Definition LF : byte := Byte.x0a.

(** ** Arrays: fixed-size C arrays as lists indexed by [Z] *)

Section Arrays.
Context {A : Type}.
Implicit Types (l data : list A).

Definition zlen l : Z := Z.of_nat (length l).

(** [off .. off+len) lies inside an array of [size] elements. *)
Definition in_bounds (off len size : Z) : bool :=
  (0 <=? off) && (0 <=? len) && (off + len <=? size).

(** The [len] elements from [off], and the array with [data] written at
    [off]; both are used under [in_bounds]. *)
Definition sub (off len : Z) l : list A :=
  take (Z.to_nat len) (drop (Z.to_nat off) l).
Definition upd (off : Z) data l : list A :=
  take (Z.to_nat off) l ++ data ++ drop (Z.to_nat off + length data) l.

Definition zget l (i : Z) : option A :=
  if 0 <=? i then l !! Z.to_nat i else None.
Definition zset l (i : Z) (x : A) : option (list A) :=
  if in_bounds i 1 (zlen l) then Some (<[Z.to_nat i := x]> l) else None.

Lemma in_bounds_spec off len size :
  in_bounds off len size = true <-> 0 <= off /\ 0 <= len /\ off + len <= size.
Proof. unfold in_bounds. rewrite !andb_true_iff, !Z.leb_le. tauto. Qed.

Lemma in_bounds_true off len size :
  0 <= off -> 0 <= len -> off + len <= size -> in_bounds off len size = true.
Proof. intros. by apply in_bounds_spec. Qed.

Lemma zlen_nonneg l : 0 <= zlen l.
Proof. unfold zlen. lia. Qed.

Lemma zlen_nil : zlen [] = 0.
Proof. done. Qed.

Lemma zlen_app l1 l2 : zlen (l1 ++ l2) = zlen l1 + zlen l2.
Proof. unfold zlen. rewrite length_app. lia. Qed.

Lemma zlen_replicate n (x : A) : zlen (replicate n x) = Z.of_nat n.
Proof. unfold zlen. by rewrite length_replicate. Qed.

Lemma zlen_insert l i x : zlen (<[i:=x]> l) = zlen l.
Proof. unfold zlen. by rewrite length_insert. Qed.

Lemma zlen_sub off len l :
  0 <= off -> 0 <= len -> off + len <= zlen l -> zlen (sub off len l) = len.
Proof. unfold zlen, sub. intros. rewrite length_take, length_drop. lia. Qed.

Lemma zlen_upd off data l :
  0 <= off -> off + zlen data <= zlen l -> zlen (upd off data l) = zlen l.
Proof.
  unfold zlen, upd. intros. rewrite !length_app, length_take, length_drop. lia.
Qed.

Lemma lookup_upd off data l (i : nat) :
  0 <= off -> off + zlen data <= zlen l ->
  upd off data l !! i =
    if decide (off <= Z.of_nat i < off + zlen data)
    then data !! (i - Z.to_nat off)%nat else l !! i.
Proof.
  unfold zlen, upd. intros Hoff Hlen. case_decide as Hi.
  - rewrite lookup_app_r by (rewrite length_take; lia).
    rewrite length_take, lookup_app_l by lia. f_equal. lia.
  - destruct (decide (Z.of_nat i < off)).
    + rewrite lookup_app_l by (rewrite length_take; lia).
      by rewrite lookup_take_lt by lia.
    + rewrite lookup_app_r by (rewrite length_take; lia).
      rewrite length_take, lookup_app_r by lia.
      rewrite lookup_drop. f_equal. lia.
Qed.

Lemma lookup_sub off len l (i : nat) :
  0 <= off -> 0 <= len ->
  sub off len l !! i =
    if decide (Z.of_nat i < len) then l !! (Z.to_nat off + i)%nat else None.
Proof.
  unfold sub. intros. case_decide.
  - rewrite lookup_take_lt by lia. by rewrite lookup_drop.
  - apply lookup_take_ge. lia.
Qed.

(** Reading back what was written. *)
Lemma sub_upd_eq off data l :
  0 <= off -> off + zlen data <= zlen l -> sub off (zlen data) (upd off data l) = data.
Proof.
  intros Hoff Hlen. pose proof (zlen_nonneg data). apply list_eq. intros i.
  rewrite lookup_sub, lookup_upd by lia. case_decide as Hi.
  - rewrite decide_True by lia. f_equal. lia.
  - symmetry. apply lookup_ge_None. unfold zlen in Hi. lia.
Qed.

Lemma sub_upd_n off n data l :
  zlen data = n -> 0 <= off -> off + n <= zlen l -> sub off n (upd off data l) = data.
Proof. intros <-. apply sub_upd_eq. Qed.

(** A write leaves every disjoint range as it was. *)
Lemma sub_upd_disjoint off' len' off data l :
  0 <= off -> off + zlen data <= zlen l -> 0 <= off' -> 0 <= len' ->
  off' + len' <= off \/ off + zlen data <= off' ->
  sub off' len' (upd off data l) = sub off' len' l.
Proof.
  intros Hoff Hlen Hoff' Hlen' Hdis. apply list_eq. intros i.
  rewrite !lookup_sub, lookup_upd by lia. case_decide; [|done].
  rewrite decide_False; [done | lia].
Qed.

(** The prefix that ends where a write ended. *)
Lemma sub_upd_prefix off data l :
  0 <= off -> off + zlen data <= zlen l ->
  sub 0 (off + zlen data) (upd off data l) = sub 0 off l ++ data.
Proof.
  unfold zlen, sub, upd. intros. rewrite Z2Nat.inj_0, !drop_0, app_assoc.
  apply take_app_length'. rewrite length_app, length_take. lia.
Qed.

Lemma sub_all l : sub 0 (zlen l) l = l.
Proof. unfold sub, zlen. rewrite drop_0. apply take_ge. lia. Qed.

Lemma sub_all_n n l : zlen l = n -> sub 0 n l = l.
Proof. intros <-. apply sub_all. Qed.

Lemma zget_Some l i x : zget l i = Some x -> 0 <= i < zlen l.
Proof.
  unfold zget, zlen. destruct (Z.leb_spec 0 i); [|done].
  intros Hl%lookup_lt_Some. lia.
Qed.

Lemma zget_in l i : 0 <= i < zlen l -> is_Some (zget l i).
Proof.
  unfold zget, zlen. intros Hi. destruct (Z.leb_spec 0 i); [|lia].
  apply lookup_lt_is_Some. lia.
Qed.

Lemma zset_in l i x : 0 <= i < zlen l -> zset l i x = Some (<[Z.to_nat i := x]> l).
Proof. intros Hi. unfold zset. rewrite in_bounds_true; [done | lia..]. Qed.

Lemma zget_insert l i j x :
  0 <= i < zlen l -> 0 <= j ->
  zget (<[Z.to_nat i := x]> l) j = if decide (i = j) then Some x else zget l j.
Proof.
  unfold zget, zlen. intros Hi Hj. destruct (Z.leb_spec 0 j); [|lia]. case_decide.
  - subst. apply list_lookup_insert_eq. lia.
  - apply list_lookup_insert_ne. lia.
Qed.
End Arrays.

(** Storing a list byte by byte. *)
Lemma upd_split {A} off (x : A) (xs l : list A) :
  0 <= off -> off + zlen (x :: xs) <= zlen l ->
  upd (off + 1) xs (upd off [x] l) = upd off (x :: xs) l.
Proof.
  intros Ho Hl. change (zlen (x :: xs)) with (Z.of_nat (S (length xs))) in Hl.
  assert (E1 : zlen [x] = 1) by done. assert (E2 : zlen (x :: xs) = zlen xs + 1) by (unfold zlen; simpl; lia).
  assert (E3 : zlen xs = Z.of_nat (length xs)) by done.
  apply list_eq. intros i. rewrite !lookup_upd by (rewrite ?zlen_upd; lia).
  repeat case_decide; try lia; try done.
  - replace (i - Z.to_nat off)%nat with (S (i - Z.to_nat (off + 1))) by lia. done.
  - by replace (i - Z.to_nat off)%nat with 0%nat by lia.
Qed.

(** The string at the start of an array that holds a terminator. *)
Lemma cstr_bounded (bs : list byte) k :
  zget bs k = Some NUL -> exists s, cstr bs = Some s /\ zlen s <= k.
Proof.
  revert k. induction bs as [|b bs IH]; intros k Hk; simpl.
  { unfold zget in Hk. destruct (0 <=? k); done. }
  pose proof (zget_Some _ _ _ Hk). case_decide; [exists []; split; [done | unfold zlen; simpl; lia]|].
  destruct (decide (k = 0)) as [->|Hk0]; [by injection Hk|].
  destruct (IH (k - 1)) as (s & -> & Hs).
  { unfold zget in *. destruct (Z.leb_spec 0 k); [|lia]. destruct (Z.leb_spec 0 (k - 1)); [|lia].
    replace (Z.to_nat k) with (S (Z.to_nat (k - 1))) in Hk by lia. done. }
  exists (b :: s). split; [done|]. unfold zlen in *. simpl. lia.
Qed.

Lemma cstr_prefix (bs s : list byte) : cstr bs = Some s -> sub 0 (zlen s) bs = s.
Proof.
  unfold sub, zlen. rewrite Z2Nat.inj_0, drop_0, Nat2Z.id.
  revert s. induction bs as [|b bs IH]; intros s; simpl; [done|]. case_decide.
  - by intros [= <-].
  - destruct (cstr bs) as [s'|]; [|done]. intros [= <-]. simpl. f_equal. by apply IH.
Qed.

Lemma zlen_until_nul (b : list byte) : zlen (until_nul b) <= zlen b.
Proof.
  induction b as [|c b IH]; simpl; [done|]. unfold zlen in *. case_bool_decide; simpl; lia.
Qed.

Lemma cstr_until_nul (b r : list byte) : cstr (b ++ NUL :: r) = Some (until_nul b).
Proof.
  induction b as [|c b IH]; simpl; [done|]. case_decide as Hc; case_bool_decide; try done.
  by rewrite IH.
Qed.

Lemma until_nul_app (b r : list byte) : until_nul (until_nul b ++ NUL :: r) = until_nul b.
Proof.
  induction b as [|c b IH]; simpl; [done|]. case_bool_decide as Hc; simpl; [done|].
  rewrite bool_decide_false by done. by rewrite IH.
Qed.

Lemma until_nul_idem (b : list byte) : until_nul (until_nul b) = until_nul b.
Proof.
  induction b as [|c b IH]; simpl; [done|]. case_bool_decide as Hc; simpl; [done|].
  rewrite bool_decide_false by done. by rewrite IH.
Qed.

(** Bytes copied to the front of an array and terminated right behind. *)
Lemma cstr_terminated (bs l : list byte) count :
  zlen bs = count -> count < zlen l ->
  cstr (<[Z.to_nat count := NUL]> (upd 0 bs l)) = Some (until_nul bs).
Proof.
  intros Hb Hc. unfold upd. simpl. destruct (drop (length bs) l) as [|c r] eqn:E.
  { apply (f_equal zlen) in E. unfold zlen in *. rewrite length_drop in E. simpl in E. lia. }
  replace (Z.to_nat count) with (length bs + 0)%nat by (unfold zlen in Hb; lia).
  rewrite insert_app_r. simpl. apply cstr_until_nul.
Qed.

(** *** Text: decimal numbers hold no terminator *)

Definition is_digit (c : byte) : Prop := 48 <= byte_val c <= 57.

Lemma digits_all n z : 0 <= z -> Forall is_digit (digits n z).
Proof.
  revert z. induction n as [|n IH]; intros z Hz; [constructor|]. cbn [digits].
  apply Forall_app. split; [destruct (z <? 10); [constructor | apply IH; dlia]|].
  constructor; [|constructor]. unfold is_digit. pose proof (Z.mod_pos_bound z 10 ltac:(lia)).
  rewrite byte_val_of, uwrap_small by lia. lia.
Qed.

Lemma dec_text z : Forall (fun c => c <> NUL) (dec z).
Proof.
  assert (Hd : forall n z, 0 <= z -> Forall (fun c => c <> NUL) (digits n z)).
  { intros n z' Hz. eapply Forall_impl; [by apply digits_all|]. intros c [Hc _] ->. by apply Hc. }
  unfold dec. destruct (Z.ltb_spec z 0); [constructor; [done|]|]; apply Hd; lia.
Qed.

Lemma cstr_text (l r : list byte) :
  Forall (fun c => c <> NUL) l -> cstr (l ++ r) = (fun s => l ++ s) <$> cstr r.
Proof.
  induction 1 as [|c l Hc _ IH]; simpl; [by destruct (cstr r)|].
  rewrite decide_False, IH by done. by destruct (cstr r).
Qed.

(** What is behind a terminator does not count. *)
Lemma cstr_app_nul (l r : list byte) : cstr (l ++ NUL :: r) = cstr (l ++ [NUL]).
Proof. induction l as [|b l IH]; simpl; [done|]. by rewrite IH. Qed.

#[global] Arguments replicate : simpl never.
#[global] Arguments sub : simpl never.
#[global] Arguments upd : simpl never.
#[global] Arguments zget : simpl never.
#[global] Arguments zset : simpl never.
#[global] Arguments in_bounds : simpl never.

Create Rewrite HintDb arr.
#[export] Hint Rewrite @zlen_app @zlen_replicate @zlen_insert @zlen_nil : arr.
#[export] Hint Rewrite @zlen_sub @zlen_upd using lia : arr.

(** Removing the first occurrence of an element, [None] when there is none. *)
Fixpoint remove_one {A} `{EqDecision A} (x : A) (l : list A) : option (list A) :=
  match l with
  | [] => None
  | y :: l => if decide (x = y) then Some l else (y ::.) <$> remove_one x l
  end.

Lemma remove_one_head {A} `{EqDecision A} (x : A) l : remove_one x (x :: l) = Some l.
Proof. simpl. by rewrite decide_True. Qed.
