(* ===== verification/Kernel.v ===== *)
(** * The execution model: handlers as state transformers over a kernel world

    A driver function becomes a computation of type [M W D A]: [D] is the
    driver's own static state, [W] the rest of the kernel and of user space.
    [W] stays abstract: what the code calls in the kernel is a class of
    operations on it, and the theorems hold for every instance that satisfies
    the documented laws. A C operation with undefined behaviour (an access
    outside an array, a release of something not owned, a mutex locked twice
    by the same thread) ends the computation with [Oops]. *)

From S2P Require Import Prelude.

(** ** State, outcomes and the monad *)

Inductive lock := Lock (name : string) (index : Z).

#[export] Instance lock_eq_dec : EqDecision lock.
Proof. solve_decision. Defined.

(** What a module acquires from the kernel and has to give back. *)
Inductive resource :=
  | Region                              (** alloc_chrdev_region *)
  | Cdev (i : Z)                        (** cdev_add *)
  | Class_                              (** class_create *)
  | Device (minor : Z)                  (** device_create *)
  | DevFile (minor : Z) (attr : string) (** device_create_file *)
  | SysGroup                            (** sysfs_create_group *)
  | Heap (block : string)               (** kmalloc, kcalloc, vmalloc *)
  | OpenFile                            (** filp_open *)
  | Fd (name : string)                  (** open, epoll_create1 *)
  | MiscDev                             (** misc_register *)
  | Kobject                             (** kobject_create_and_add *)
  | Gpio (name : string)                (** gpiod_get *)
  | IrqLine (irq : Z) (dev_id : string) (** request_irq *).

#[export] Instance resource_eq_dec : EqDecision resource.
Proof. solve_decision. Defined.

(** [needs r r']: while [r] exists the kernel may use [r']. A device belongs
    to its class, an attribute file and an attribute group to their device; a
    cdev that is part of an allocated structure to that block. *)
Definition needs (r r' : resource) : bool :=
  match r, r' with
  | Device _, Class_ => true
  | DevFile m _, Device m' => bool_decide (m = m')
  | SysGroup, Device _ => true
  | Cdev _, Heap _ => true
  | _, _ => false
  end.

Inductive ub :=
  | OutOfBounds | NullDeref | BadPointer | Unterminated | Deadlock | NotHeld
  | NotOwned | StillInUse | OutOfFuel | InvalidBool.

Inductive outcome (A : Type) := Done (a : A) | Oops (u : ub).
Arguments Done {A}.
Arguments Oops {A}.

Record kst (W D : Type) := KSt {
  drv : D;                  (** the driver's static variables *)
  world : W;                (** the rest of the system *)
  held : list lock;         (** locks this thread holds *)
  ledger : list resource;   (** what the module owns *)
}.
Arguments KSt {W D}.
Arguments drv {W D}.
Arguments world {W D}.
Arguments held {W D}.
Arguments ledger {W D}.

Definition M (W D A : Type) : Type := kst W D -> outcome (A * kst W D).

#[export] Instance M_ret {W D} : MRet (M W D) := fun A a σ => Done (a, σ).
#[export] Instance M_bind {W D} : MBind (M W D) := fun A B f m σ =>
  match m σ with
  | Done (a, σ') => f a σ'
  | Oops u => Oops u
  end.

Section Ops.
Context {W D : Type}.
Implicit Types (σ : kst W D).

Definition set_drv (s : D) σ : kst W D := KSt s (world σ) (held σ) (ledger σ).
Definition set_world (w : W) σ : kst W D := KSt (drv σ) w (held σ) (ledger σ).
Definition set_held (h : list lock) σ : kst W D := KSt (drv σ) (world σ) h (ledger σ).
Definition set_ledger (l : list resource) σ : kst W D := KSt (drv σ) (world σ) (held σ) l.

Definition oops {A} (u : ub) : M W D A := fun _ => Oops u.
Definition get : M W D D := fun σ => Done (drv σ, σ).
Definition modify (f : D -> D) : M W D unit := fun σ => Done (tt, set_drv (f (drv σ)) σ).

(** An expression that is undefined behaviour when it has no value. *)
Definition value {A} (u : ub) (o : option A) : M W D A :=
  match o with Some a => mret a | None => oops u end.

(** Running a component that owns a part [E] of the state: a call into
    another source file, with its own static variables. *)
Definition zoom {E A} (proj : D -> E) (put : E -> D -> D) (m : M W E A) : M W D A :=
  fun σ =>
    match m (KSt (proj (drv σ)) (world σ) (held σ) (ledger σ)) with
    | Done (a, KSt e w h l) => Done (a, KSt (put e (drv σ)) w h l)
    | Oops u => Oops u
    end.

(** A call into the kernel that changes the world only. *)
Definition call {A} (f : W -> A * W) : M W D A := fun σ =>
  let '(a, w) := f (world σ) in Done (a, set_world w σ).

(** [for (j = i; j < i + n; j++) body(j)]; [Some r] is an early [return]. *)
Fixpoint for_ {A} (n : nat) (i : Z) (body : Z -> M W D (option A)) : M W D (option A) :=
  match n with
  | O => mret None
  | S n =>
      r ← body i;
      match r with
      | Some a => mret (Some a)
      | None => for_ n (i + 1) body
      end
  end.

(** *** Locks: taking a held lock and releasing one not held are errors *)
Definition lock_it (l : lock) : M W D unit := fun σ =>
  if decide (l ∈ held σ) then Oops Deadlock else Done (tt, set_held (l :: held σ) σ).

Definition unlock (l : lock) : M W D unit := fun σ =>
  match remove_one l (held σ) with
  | Some h => Done (tt, set_held h σ)
  | None => Oops NotHeld
  end.

(** *** Resources *)
Definition own (r : resource) : M W D unit := fun σ =>
  Done (tt, set_ledger (r :: ledger σ) σ).

Definition release (r : resource) : M W D unit := fun σ =>
  match remove_one r (ledger σ) with
  | Some l =>
      if existsb (fun r' => needs r' r) l then Oops StillInUse
      else Done (tt, set_ledger l σ)
  | None => Oops NotOwned
  end.
End Ops.

(** ** What the drivers call: classes of kernel operations *)

(** copy_from_user, copy_to_user and get_user. A user address is a [Z]; the
    number returned is the count of bytes that could not be copied. For
    [copy_from_user] the list is what the destination holds afterwards. *)
Class UserAccess (W : Type) := {
  k_copy_from_user : Z -> Z -> W -> Z * list byte * W;
  k_copy_to_user : Z -> list byte -> W -> Z * W;
}.

(** mutex_lock_interruptible: 0, or nonzero when a signal interrupts. *)
Class Signals (W : Type) := {
  k_lock_interruptible : lock -> W -> Z * W;
}.

(** The registration functions: 0 when the resource is granted. *)
Class Grants (W : Type) := {
  k_grant : resource -> W -> Z * W;
}.

(** filp_open and kernel_write on the file a module has open. An open
    returns 0 or an error number; a write of [data] at [pos] returns its
    result and the new position. *)
Class FileIO (W : Type) := {
  k_filp_open : list byte -> W -> Z * W;
  k_kernel_write : list byte -> Z -> W -> Z * Z * W;
}.

Definition IS_ERR (p : Z) : bool := negb (p =? 0).
Definition PTR_ERR (p : Z) : Z := p.

Section Calls.
Context {W D : Type}.

Definition copy_from_user `{UserAccess W} (src n : Z) : M W D (Z * list byte) :=
  call (k_copy_from_user src n).
Definition copy_to_user `{UserAccess W} (dst : Z) (data : list byte) : M W D Z :=
  call (k_copy_to_user dst data).

Definition mutex_lock (l : lock) : M W D unit := lock_it l.
Definition mutex_unlock (l : lock) : M W D unit := unlock l.
Definition mutex_lock_interruptible `{Signals W} (l : lock) : M W D Z :=
  rc ← call (k_lock_interruptible l);
  if rc =? 0 then lock_it l;; mret 0 else mret rc.

(** A function that returns 0 and registers [r], or an error number. *)
Definition acquire `{Grants W} (r : resource) : M W D Z :=
  rc ← call (k_grant r);
  if rc =? 0 then own r;; mret 0 else mret rc.

Definition alloc_chrdev_region `{Grants W} : M W D Z := acquire Region.
Definition unregister_chrdev_region : M W D unit := release Region.
Definition cdev_add `{Grants W} (i : Z) : M W D Z := acquire (Cdev i).
Definition cdev_del (i : Z) : M W D unit := release (Cdev i).
Definition class_destroy : M W D unit := release Class_.
Definition device_destroy (minor : Z) : M W D unit := release (Device minor).
Definition device_create_file `{Grants W} (m : Z) (attr : string) : M W D Z :=
  acquire (DevFile m attr).
Definition device_remove_file (m : Z) (attr : string) : M W D unit :=
  release (DevFile m attr).
Definition sysfs_create_group `{Grants W} : M W D Z := acquire SysGroup.
Definition sysfs_remove_group : M W D unit := release SysGroup.

(** The path is read up to its terminator. *)
Definition filp_open `{FileIO W} (path : list byte) : M W D Z :=
  name ← value Unterminated (cstr path);
  rc ← call (k_filp_open name);
  if rc =? 0 then own OpenFile;; mret 0 else mret rc.
Definition filp_close : M W D unit := release OpenFile.
Definition kernel_write `{FileIO W} (data : list byte) (pos : Z) : M W D (Z * Z) :=
  call (k_kernel_write data pos).

(** class_create and device_create return a pointer or ERR_PTR(e): the
    error number is 0 exactly when the pointer is valid. *)
Definition class_create `{Grants W} : M W D Z := acquire Class_.
Definition device_create `{Grants W} (minor : Z) : M W D Z := acquire (Device minor).
(** A device cannot be created in a class that is an error pointer. *)
Definition device_create_in `{Grants W} (cl minor : Z) : M W D Z :=
  if IS_ERR cl then oops BadPointer else device_create minor.
End Calls.
