(* ===== verification/Wp.v ===== *)
(** * Weakest preconditions, the laws of the kernel operations, automation

    [wp m Q σ]: run from [σ], the handler [m] ends without undefined
    behaviour in a result and a state that satisfy [Q]. One rule per
    primitive; [wp_auto] runs a handler symbolically with them. *)

From S2P Require Import Prelude Kernel.

Definition wp {W D A} (m : M W D A) (Q : A -> kst W D -> Prop) (σ : kst W D) : Prop :=
  match m σ with
  | Done (a, σ') => Q a σ'
  | Oops _ => False
  end.

Section Rules.
Context {W D : Type}.
Implicit Types (σ : kst W D) (d : D) (w : W) (h : list lock) (l : list resource).

Lemma wp_mono {A} (m : M W D A) (P Q : A -> kst W D -> Prop) σ :
  wp m P σ -> (forall a σ', P a σ' -> Q a σ') -> wp m Q σ.
Proof. unfold wp. destruct (m σ) as [[a σ']|]; eauto. Qed.

Lemma wp_conj {A} (m : M W D A) (P Q : A -> kst W D -> Prop) σ :
  wp m P σ -> wp m Q σ -> wp m (fun a σ' => P a σ' /\ Q a σ') σ.
Proof. unfold wp. by destruct (m σ) as [[a σ']|]. Qed.

Lemma wp_bind {A B} (m : M W D A) (f : A -> M W D B) Q σ :
  wp m (fun a => wp (f a) Q) σ -> wp (m ≫= f) Q σ.
Proof. unfold wp, mbind, M_bind. destruct (m σ) as [[a σ']|]; done. Qed.

(** Two equations for exact runs. *)
Lemma bind_done {A B} (m : M W D A) (f : A -> M W D B) a σ σ' :
  m σ = Done (a, σ') -> (m ≫= f) σ = f a σ'.
Proof. unfold mbind, M_bind. by intros ->. Qed.

Lemma bind_oops {A B} (m : M W D A) (f : A -> M W D B) u σ :
  m σ = Oops u -> (m ≫= f) σ = Oops u.
Proof. unfold mbind, M_bind. by intros ->. Qed.

Lemma bind_get {B} (f : D -> M W D B) σ : (get ≫= f) σ = f (drv σ) σ.
Proof. done. Qed.

Lemma bind_ret {A B} (a : A) (f : A -> M W D B) σ : (mret a ≫= f) σ = f a σ.
Proof. done. Qed.

Lemma wp_ret {A} (a : A) Q σ : Q a σ -> wp (mret a) Q σ.
Proof. done. Qed.

Lemma wp_get Q σ : Q (drv σ) σ -> wp get Q σ.
Proof. done. Qed.

Lemma wp_modify f Q σ : Q tt (set_drv (f (drv σ)) σ) -> wp (modify f) Q σ.
Proof. done. Qed.

Lemma wp_value {A} u (a : A) Q σ : Q a σ -> wp (value u (Some a)) Q σ.
Proof. done. Qed.

Lemma wp_call {A} (f : W -> A * W) Q σ :
  (forall a w, f (world σ) = (a, w) -> Q a (set_world w σ)) -> wp (call f) Q σ.
Proof. unfold wp, call. destruct (f (world σ)) as [a w]. eauto. Qed.

(** The loop rule: [I] holds before each iteration, [Q] on each exit. *)
Lemma wp_for {A} (I : Z -> kst W D -> Prop) (Q : option A -> kst W D -> Prop) n i body σ :
  I i σ ->
  (forall j σ', i <= j < i + Z.of_nat n -> I j σ' ->
    wp (body j) (fun r σ'' =>
      match r with None => I (j + 1) σ'' | Some _ => Q r σ'' end) σ') ->
  (forall σ', I (i + Z.of_nat n) σ' -> Q None σ') ->
  wp (for_ n i body) Q σ.
Proof.
  revert i σ. induction n as [|n IH]; intros i σ Hi Hbody Hend; simpl.
  - apply wp_ret, Hend. by rewrite Z.add_0_r.
  - apply wp_bind. eapply wp_mono; [apply Hbody; [lia | done]|].
    intros [a|] σ' Hr; simpl; [by apply wp_ret|]. apply IH; [done | |].
    + intros j σ'' Hj. apply Hbody. lia.
    + intros σ''. replace (i + 1 + Z.of_nat n) with (i + Z.of_nat (S n)) by lia. apply Hend.
Qed.

Lemma wp_lock_it k Q d w h l :
  k ∉ h -> Q tt (KSt d w (k :: h) l) -> wp (lock_it k) Q (KSt d w h l).
Proof. intros Hk HQ. unfold wp, lock_it. simpl. by rewrite decide_False. Qed.

Lemma wp_unlock k Q d w h l :
  Q tt (KSt d w h l) -> wp (unlock k) Q (KSt d w (k :: h) l).
Proof. intros HQ. unfold wp, unlock. simpl held. by rewrite remove_one_head. Qed.

Lemma wp_mutex_lock_interruptible `{Signals W} k Q d w h l :
  k ∉ h ->
  (forall w', k_lock_interruptible k w = (0, w') -> Q 0 (KSt d w' (k :: h) l)) ->
  (forall rc w', rc <> 0 -> k_lock_interruptible k w = (rc, w') -> Q rc (KSt d w' h l)) ->
  wp (mutex_lock_interruptible k) Q (KSt d w h l).
Proof.
  intros Hk H0 H1. apply wp_bind, wp_call. intros rc w' E. simpl in *.
  destruct (Z.eqb_spec rc 0) as [->|].
  - apply wp_bind, wp_lock_it; [done|]. apply wp_ret. eauto.
  - apply wp_ret. by apply H1.
Qed.

Lemma wp_acquire `{Grants W} r Q d w h l :
  (forall w', k_grant r w = (0, w') -> Q 0 (KSt d w' h (r :: l))) ->
  (forall rc w', rc <> 0 -> k_grant r w = (rc, w') -> Q rc (KSt d w' h l)) ->
  wp (acquire r) Q (KSt d w h l).
Proof.
  intros H0 H1. apply wp_bind, wp_call. intros rc w' E. simpl in *.
  destruct (Z.eqb_spec rc 0) as [->|].
  - apply wp_bind. unfold wp, own. simpl. apply H0. done.
  - apply wp_ret. by apply H1.
Qed.

Lemma wp_release r Q d w h l l' :
  remove_one r l = Some l' -> existsb (fun r' => needs r' r) l' = false ->
  Q tt (KSt d w h l') -> wp (release r) Q (KSt d w h l).
Proof. intros H1 H2 HQ. unfold wp, release. simpl. by rewrite H1, H2. Qed.

(** Giving back the latest resource, when nothing can depend on it. *)
Lemma wp_release_last r Q d w h l :
  (forall r', needs r' r = false) ->
  Q tt (KSt d w h l) -> wp (release r) Q (KSt d w h (r :: l)).
Proof.
  intros Hn HQ. eapply wp_release; [apply remove_one_head | | done].
  clear HQ. induction l as [|r' l IH]; simpl; [done|]. by rewrite Hn, IH.
Qed.

Lemma wp_filp_open `{FileIO W} path name Q d w h l :
  cstr path = Some name ->
  (forall w', k_filp_open name w = (0, w') -> Q 0 (KSt d w' h (OpenFile :: l))) ->
  (forall rc w', rc <> 0 -> k_filp_open name w = (rc, w') -> Q rc (KSt d w' h l)) ->
  wp (filp_open path) Q (KSt d w h l).
Proof.
  intros Hp H0 H1. unfold filp_open. rewrite Hp. apply wp_bind, wp_value, wp_bind, wp_call.
  intros rc w' E. simpl in *. destruct (Z.eqb_spec rc 0) as [->|].
  - apply wp_bind. unfold wp, own. simpl. by apply H0.
  - apply wp_ret. by apply H1.
Qed.

Lemma wp_zoom {E A} (proj : D -> E) put (m : M W E A) Q d w h l :
  wp m (fun a (σ : kst W E) => Q a (KSt (put (drv σ) d) (world σ) (held σ) (ledger σ)))
     (KSt (proj d) w h l) ->
  wp (zoom proj put m) Q (KSt d w h l).
Proof.
  unfold wp, zoom. simpl. destruct (m _) as [[a [e w' h' l']]|]; done.
Qed.
End Rules.

(** ** Documented behaviour of the kernel operations *)

(** The contents of user memory, compared address by address. *)
Class UserMem (W : Type) := umem : W -> Z -> byte.

Definition mem_eq : relation (Z -> byte) := pointwise_relation Z eq.
Infix "≡ₘ" := mem_eq (at level 70).
#[export] Instance mem_eq_equiv : Equivalence mem_eq.
Proof. unfold mem_eq. apply _. Qed.

Definition uread (f : Z -> byte) (src n : Z) : list byte :=
  (fun i => f (src + i)) <$> seqZ 0 n.

Definition uwrite (f : Z -> byte) (dst : Z) (data : list byte) (a : Z) : byte :=
  if decide (0 <= a - dst < zlen data) then default NUL (zget data (a - dst)) else f a.

#[global] Arguments uread : simpl never.

#[export] Instance uread_proper : Proper (mem_eq ==> eq ==> eq ==> eq) uread.
Proof.
  intros f g Hfg src ? <- n ? <-. unfold uread. apply list_fmap_ext.
  intros i x _. apply Hfg.
Qed.

#[export] Instance uwrite_proper : Proper (mem_eq ==> eq ==> eq ==> mem_eq) uwrite.
Proof.
  intros f g Hfg dst ? <- data ? <- a. unfold uwrite. case_decide; [done | apply Hfg].
Qed.

(** copy_from_user copies a prefix and fills the rest of the destination with
    zeros; copy_to_user copies a prefix. Both return what is missing. *)
Class UserAccessOk (W : Type) `{UserAccess W} `{UserMem W} : Prop := {
  cfu_ok src n w r bs w' :
    0 <= n -> k_copy_from_user src n w = (r, bs, w') ->
    0 <= r <= n /\ bs = uread (umem w) src (n - r) ++ replicate (Z.to_nat r) NUL /\
    umem w' ≡ₘ umem w;
  ctu_ok dst data w r w' :
    k_copy_to_user dst data w = (r, w') ->
    0 <= r <= zlen data /\
    umem w' ≡ₘ uwrite (umem w) dst (take (Z.to_nat (zlen data - r)) data);
}.

(** Waiting for a mutex does not touch this process's memory. *)
Class SignalsOk (W : Type) `{Signals W} `{UserMem W} : Prop := {
  lock_ok k w rc w' : k_lock_interruptible k w = (rc, w') -> umem w' ≡ₘ umem w;
}.

(** Registration functions return 0 or a negative error number. *)
Class GrantsOk (W : Type) `{Grants W} : Prop := {
  grant_ok r w rc w' : k_grant r w = (rc, w') -> rc <= 0;
}.

(** The bytes of the open file. A successful open truncates it; a write at its
    end of [rc > 0] bytes appends them and advances the position by [rc]. *)
Class FileData (W : Type) := filedata : W -> list byte.

Class FileIOOk (W : Type) `{FileIO W} `{Signals W} `{FileData W} : Prop := {
  open_ok name w w' : k_filp_open name w = (0, w') -> filedata w' = [];
  write_ok data pos w rc pos' w' :
    k_kernel_write data pos w = (rc, pos', w') -> pos = zlen (filedata w) -> 0 < rc ->
    rc <= zlen data /\ pos' = pos + rc /\
    filedata w' = filedata w ++ take (Z.to_nat rc) data;
  lock_file_ok k w rc w' :
    k_lock_interruptible k w = (rc, w') -> filedata w' = filedata w;
}.

(** What the VFS guarantees to [read] and [write] handlers (rw_verify_area
    and MAX_RW_COUNT): a non-negative position and a count below 2^31. *)
Definition MAX_RW_COUNT : Z := 2147479552.
Definition vfs_ok (pos count : Z) : Prop :=
  0 <= pos < 2 ^ 63 /\ 0 <= count <= MAX_RW_COUNT.

(** The [int] at a user address. *)
Definition user_int {W} `{UserMem W} (w : W) (a : Z) : Z := bytes_int (uread (umem w) a 4).

Lemma user_int_mem {W} `{UserMem W} (w1 w2 : W) a :
  umem w1 ≡ₘ umem w2 -> user_int w1 a = user_int w2 a.
Proof. intros E. unfold user_int. by rewrite E. Qed.

Lemma length_uread f src n : 0 <= n -> zlen (uread f src n) = n.
Proof. intros. unfold zlen, uread. rewrite length_fmap, length_seqZ. lia. Qed.

Section UserAccessFacts.
Context {W : Type} `{UserAccessOk W}.

Lemma cfu_zlen src n w r bs w' :
  0 <= n -> k_copy_from_user src n w = (r, bs, w') -> zlen bs = n.
Proof.
  intros Hn (Hr & -> & _)%cfu_ok; [|done].
  rewrite zlen_app, length_uread, zlen_replicate; lia.
Qed.

Lemma cfu_mem src n w r bs w' :
  0 <= n -> k_copy_from_user src n w = (r, bs, w') -> umem w' ≡ₘ umem w.
Proof. intros Hn (_ & _ & Hw)%cfu_ok; done. Qed.

(** A complete copy delivers the user's bytes. *)
Lemma cfu_full src n w bs w' :
  0 <= n -> k_copy_from_user src n w = (0, bs, w') ->
  bs = uread (umem w) src n /\ umem w' ≡ₘ umem w.
Proof.
  intros Hn (_ & -> & Hw)%cfu_ok; [|done]. rewrite Z.sub_0_r. simpl.
  by rewrite app_nil_r.
Qed.

Lemma ctu_full dst data w w' :
  k_copy_to_user dst data w = (0, w') -> umem w' ≡ₘ uwrite (umem w) dst data.
Proof.
  intros [_ Hw]%ctu_ok. rewrite take_ge in Hw; [done | unfold zlen; lia].
Qed.

(** copy_to_user writes nowhere else. *)
Lemma ctu_outside dst data w r w' a :
  k_copy_to_user dst data w = (r, w') -> a < dst \/ dst + zlen data <= a ->
  umem w' a = umem w a.
Proof.
  intros [Hr Hm]%ctu_ok Ha. rewrite (Hm a). unfold uwrite. apply decide_False.
  assert (zlen (take (Z.to_nat (zlen data - r)) data) <= zlen data).
  { unfold zlen. rewrite length_take. lia. }
  lia.
Qed.
End UserAccessFacts.

(** Reading back a part of what was written. *)
Lemma uread_uwrite_sub f dst data k n :
  0 <= k -> 0 <= n -> k + n <= zlen data ->
  uread (uwrite f dst data) (dst + k) n = sub k n data.
Proof.
  intros Hk Hn Hle. apply list_eq. intros i. rewrite lookup_sub by done. unfold uread.
  rewrite list_lookup_fmap. case_decide as Hi.
  - rewrite lookup_seqZ_lt by lia. simpl. unfold uwrite. rewrite decide_True by lia.
    unfold zget. destruct (Z.leb_spec 0 (dst + k + (0 + Z.of_nat i) - dst)); [|lia].
    replace (Z.to_nat (dst + k + (0 + Z.of_nat i) - dst)) with (Z.to_nat k + i)%nat by lia.
    destruct (lookup_lt_is_Some_2 data (Z.to_nat k + i)) as [x ->]; [|done].
    unfold zlen in *. lia.
  - by rewrite lookup_seqZ_ge by lia.
Qed.

Lemma uread_uwrite f dst data : uread (uwrite f dst data) dst (zlen data) = data.
Proof.
  pose proof (zlen_nonneg data). pose proof (uread_uwrite_sub f dst data 0 (zlen data)) as E.
  rewrite Z.add_0_r in E. rewrite E by lia. apply sub_all.
Qed.

Lemma uread_uwrite_n f dst data n : zlen data = n -> uread (uwrite f dst data) dst n = data.
Proof. intros <-. apply uread_uwrite. Qed.

(** ** Automation *)

Ltac wp_red :=
  unfold set_drv, set_world, set_held, set_ledger; cbn [drv world held ledger fst snd].

(** Lengths are non-negative. *)
Ltac pose_zlen :=
  repeat match goal with
  | |- context [zlen ?l] =>
      lazymatch goal with
      | _ : 0 <= zlen l |- _ => fail
      | _ => pose proof (zlen_nonneg l)
      end
  end.

Ltac wp_test b :=
  lazymatch b with
  | (?x <=? ?y) => destruct (Z.leb_spec x y)
  | (?x <? ?y) => destruct (Z.ltb_spec x y)
  | (?x =? ?y) => destruct (Z.eqb_spec x y)
  | bool_decide ?P => destruct (bool_decide_reflect P)
  | negb ?c => wp_test c
  | in_bounds ?o ?n ?s =>
      first [ rewrite (in_bounds_true o n s) by (pose_zlen; lia)
            | let E := fresh "Hib" in destruct (in_bounds o n s) eqn:E ]
  | _ => let E := fresh "E" in destruct b eqn:E
  end.

(** One step of symbolic execution; acquisitions and lock requests branch. *)
Ltac wp_step :=
  lazymatch goal with
  | |- wp (mbind _ _) _ _ => apply wp_bind
  | |- wp (mret _) _ _ => apply wp_ret; wp_red
  | |- wp get _ _ => apply wp_get; wp_red
  | |- wp (modify _) _ _ => apply wp_modify; wp_red
  | |- wp (value _ (Some _)) _ _ => apply wp_value; wp_red
  | |- wp (mutex_lock_interruptible _) _ _ =>
      apply wp_mutex_lock_interruptible;
      [ try solve [eauto with kern] | let w' := fresh "w" in let E := fresh "Hlock" in intros w' E
        | let rc := fresh "rc" in let w' := fresh "w" in
          let N := fresh "Hrc" in let E := fresh "Hlock" in intros rc w' N E ]
  | |- wp (mutex_lock _) _ _ => apply wp_lock_it; [ try solve [eauto with kern] | ]
  | |- wp (mutex_unlock _) _ _ => apply wp_unlock
  | |- wp (copy_from_user _ _) _ _ =>
      apply wp_call; wp_red;
      let r := fresh "r" in let bs := fresh "bs" in
      let w' := fresh "w" in let E := fresh "Hcfu" in intros [r bs] w' E
  | |- wp (copy_to_user _ _) _ _ =>
      apply wp_call; wp_red;
      let r := fresh "r" in let w' := fresh "w" in
      let E := fresh "Hctu" in intros r w' E
  | |- wp (if ?b then _ else _) _ _ => wp_test b; simpl negb; cbv iota; try congruence
  | |- wp (acquire _) _ _ =>
      apply wp_acquire;
      [ let w' := fresh "w" in let E := fresh "Hgr" in intros w' E
      | let rc := fresh "rc" in let w' := fresh "w" in
        let N := fresh "Hrc" in let E := fresh "Hgr" in intros rc w' N E ]
  | |- wp (filp_open _) _ _ =>
      eapply wp_filp_open;
      [ eassumption
      | let w' := fresh "w" in let E := fresh "Hopen" in intros w' E
      | let rc := fresh "rc" in let w' := fresh "w" in
        let N := fresh "Hrc" in let E := fresh "Hopen" in intros rc w' N E ]
  | |- wp filp_close _ _ => unfold filp_close
  | |- wp (kernel_write _ _) _ _ =>
      apply wp_call; wp_red;
      let rc := fresh "rc" in let pos := fresh "pos" in let w' := fresh "w" in
      let E := fresh "Hkw" in intros [rc pos] w' E
  | |- wp (release _) _ _ => 
      first [ apply wp_release_last; [ intros []; reflexivity | ]
            | eapply wp_release; [reflexivity | reflexivity | ] ]
  end; cbv beta; wp_red.

Ltac wp_auto := repeat wp_step.

(** Registration calls by their resource. *)
Ltac unfold_kernel :=
  unfold alloc_chrdev_region, unregister_chrdev_region, cdev_add, cdev_del, class_create,
    class_destroy, device_create, device_destroy, device_create_file, device_remove_file,
    sysfs_create_group, sysfs_remove_group, IS_ERR, PTR_ERR.

(** Failed registrations have a negative number. *)
Ltac use_grants :=
  repeat match goal with
  | E : k_grant _ _ = (?rc, _) |- _ =>
      lazymatch goal with
      | _ : rc <= 0 |- _ => fail
      | _ => pose proof (grant_ok _ _ _ _ E)
      end
  end.

Lemma lock_not_in_nil (k : lock) : k ∉ [].
Proof. apply not_elem_of_nil. Qed.

Create HintDb kern.
#[export] Hint Resolve lock_not_in_nil : kern.
