(* ===== verification/Sim.v ===== *)
(** * A concrete kernel world

    An executable instance of the kernel operations: user memory is a finite
    map whose missing addresses fault, and the answers to lock requests and
    registrations come from two lists (0, success, once a list is exhausted).
    It shows that the documented laws are satisfiable and runs the witnesses. *)

From S2P Require Import Prelude Kernel Wp.

Record sim := Sim {
  sim_mem : gmap Z byte;
  sim_locks : list Z;
  sim_grants : list Z;
  sim_file : list byte;
  sim_io : list Z;
}.

Definition set_mem (m : gmap Z byte) (w : sim) : sim :=
  Sim m (sim_locks w) (sim_grants w) (sim_file w) (sim_io w).
Definition set_locks (l : list Z) (w : sim) : sim :=
  Sim (sim_mem w) l (sim_grants w) (sim_file w) (sim_io w).
Definition set_grants (g : list Z) (w : sim) : sim :=
  Sim (sim_mem w) (sim_locks w) g (sim_file w) (sim_io w).
Definition set_file (f : list byte) (io : list Z) (w : sim) : sim :=
  Sim (sim_mem w) (sim_locks w) (sim_grants w) f io.

(** The longest mapped prefix of [n] bytes at [a]. *)
Fixpoint read_mapped (n : nat) (m : gmap Z byte) (a : Z) : list byte :=
  match n with
  | O => []
  | S n => match m !! a with
           | Some b => b :: read_mapped n m (a + 1)
           | None => []
           end
  end.

(** Writes up to the first unmapped address; returns what is left over. *)
Fixpoint write_mapped (data : list byte) (m : gmap Z byte) (a : Z) : Z * gmap Z byte :=
  match data with
  | [] => (0, m)
  | b :: data' => match m !! a with
                  | Some _ => write_mapped data' (<[a := b]> m) (a + 1)
                  | None => (zlen data, m)
                  end
  end.

#[export] Instance sim_user : UserAccess sim := {
  k_copy_from_user src n w :=
    let bs := read_mapped (Z.to_nat n) (sim_mem w) src in
    let r := n - zlen bs in
    (r, bs ++ replicate (Z.to_nat r) NUL, w);
  k_copy_to_user dst data w :=
    let '(r, m) := write_mapped data (sim_mem w) dst in
    (r, set_mem m w);
}.

#[export] Instance sim_signals : Signals sim := {
  k_lock_interruptible _ w :=
    match sim_locks w with
    | [] => (0, w)
    | rc :: rcs => (rc, set_locks rcs w)
    end;
}.

(** A registration answer is an error number or 0, so a positive entry of
    the list counts as 0. *)
#[export] Instance sim_grant : Grants sim := {
  k_grant _ w :=
    match sim_grants w with
    | [] => (0, w)
    | rc :: rcs => (Z.min rc 0, set_grants rcs w)
    end;
}.

(** Opens succeed; each entry of [sim_io] answers one write: a positive entry
    bounds the bytes accepted, another entry is the error returned. *)
#[export] Instance sim_fileio : FileIO sim := {
  k_filp_open _ w := (0, set_file [] (sim_io w) w);
  k_kernel_write data pos w :=
    match sim_io w with
    | [] => (zlen data, pos + zlen data, set_file (sim_file w ++ data) [] w)
    | rc :: io =>
        if 0 <? rc then
          let n := Z.min rc (zlen data) in
          (n, pos + n, set_file (sim_file w ++ take (Z.to_nat n) data) io w)
        else (rc, pos, set_file (sim_file w) io w)
    end;
}.

#[export] Instance sim_filedata : FileData sim := sim_file.

#[export] Instance sim_umem : UserMem sim := fun w a => default NUL (sim_mem w !! a).

Lemma read_mapped_len n m a : 0 <= zlen (read_mapped n m a) <= Z.of_nat n.
Proof.
  revert a. unfold zlen. induction n as [|n IH]; intros a; simpl; [lia|].
  destruct (m !! a); simpl; [|lia]. specialize (IH (a + 1)). lia.
Qed.

Lemma uread_cons f src n :
  0 <= n -> uread f src (n + 1) = f src :: uread f (src + 1) n.
Proof.
  intros Hn. unfold uread. rewrite seqZ_cons by lia. rewrite fmap_cons.
  f_equal; [f_equal; lia|]. rewrite <- (fmap_add_seqZ 1 0).
  replace (Z.pred (n + 1)) with n by lia. rewrite <- list_fmap_compose.
  apply list_fmap_ext. intros i x _. simpl. f_equal. lia.
Qed.

Lemma read_mapped_uread n m a :
  read_mapped n m a = uread (fun a => default NUL (m !! a)) a (zlen (read_mapped n m a)).
Proof.
  revert a. induction n as [|n IH]; intros a; simpl; [done|].
  destruct (m !! a) as [b|] eqn:E; [|done].
  replace (zlen (b :: _)) with (zlen (read_mapped n m (a + 1)) + 1) by (unfold zlen; simpl; lia).
  rewrite uread_cons by apply zlen_nonneg. rewrite E. simpl. f_equal. apply IH.
Qed.

Lemma write_mapped_ok data m a :
  let '(r, m') := write_mapped data m a in
  0 <= r <= zlen data /\
  forall x, default NUL (m' !! x) =
    uwrite (fun x => default NUL (m !! x)) a (take (Z.to_nat (zlen data - r)) data) x.
Proof.
  assert (Hnil : forall f a x, uwrite f a [] x = f x).
  { intros f' a' x. unfold uwrite. rewrite decide_False; [done | unfold zlen; simpl; lia]. }
  revert m a. induction data as [|b data IH]; intros m a; simpl.
  { split; [unfold zlen; simpl; lia|]. intros x. by rewrite Hnil. }
  destruct (m !! a) as [b0|] eqn:E.
  2:{ split; [unfold zlen; simpl; lia|]. intros x. rewrite Z.sub_diag. simpl. by rewrite Hnil. }
  specialize (IH (<[a:=b]> m) (a + 1)).
  destruct (write_mapped data (<[a:=b]> m) (a + 1)) as [r m'].
  destruct IH as [Hr Hx]. split; [unfold zlen in *; simpl; lia|]. intros x.
  rewrite Hx. unfold zlen in Hr.
  replace (Z.to_nat (zlen (b :: data) - r)) with (S (Z.to_nat (zlen data - r)))
    by (unfold zlen; simpl; lia).
  set (pre := take _ data). simpl take. fold pre. unfold uwrite.
  replace (zlen (b :: pre)) with (zlen pre + 1) by (unfold zlen; simpl; lia).
  destruct (decide (x = a)) as [->|Hne].
  - rewrite decide_False, decide_True by (pose proof (zlen_nonneg pre); lia).
    rewrite lookup_insert_eq, Z.sub_diag. done.
  - rewrite lookup_insert_ne by done. unfold zget.
    destruct (decide (0 <= x - (a + 1) < zlen pre)).
    + rewrite decide_True by lia.
      destruct (Z.leb_spec 0 (x - (a + 1))); [|lia].
      destruct (Z.leb_spec 0 (x - a)); [|lia].
      replace (Z.to_nat (x - a)) with (S (Z.to_nat (x - (a + 1)))) by lia. done.
    + rewrite decide_False by lia. done.
Qed.

#[export] Instance sim_user_ok : UserAccessOk sim.
Proof.
  split.
  - intros src n w r bs w' Hn [= <- <- <-].
    pose proof (read_mapped_len (Z.to_nat n) (sim_mem w) src).
    split; [lia|]. split; [|done]. f_equal.
    replace (n - (n - _)) with (zlen (read_mapped (Z.to_nat n) (sim_mem w) src)) by lia.
    apply read_mapped_uread.
  - intros dst data w r w' Hw. simpl in Hw.
    pose proof (write_mapped_ok data (sim_mem w) dst) as Hm.
    destruct (write_mapped data (sim_mem w) dst) as [r0 m]. injection Hw as <- <-. done.
Qed.

#[export] Instance sim_signals_ok : SignalsOk sim.
Proof. split. intros k w rc w'. simpl. by destruct (sim_locks w); intros [= <- <-]. Qed.

#[export] Instance sim_grants_ok : GrantsOk sim.
Proof. split. intros r w rc w'. simpl. destruct (sim_grants w); intros [= <- <-]; lia. Qed.

#[export] Instance sim_fileio_ok : FileIOOk sim.
Proof.
  split.
  - by intros name w w' [= <-].
  - intros data pos w rc pos' w' Hk _ Hrc. simpl in Hk. destruct (sim_io w) as [|rc0 io].
    + injection Hk as <- <- <-. unfold zlen. rewrite Nat2Z.id, firstn_all. by split_and!.
    + destruct (Z.ltb_spec 0 rc0); injection Hk as <- <- <-; [|lia].
      split_and!; [lia | done | done].
  - intros k w rc w'. simpl. by destruct (sim_locks w); intros [= <- <-].
Qed.

(** A world in which [data] is mapped at [a] and everything is granted. *)
Definition sim_at (a : Z) (data : list byte) : sim :=
  Sim (snd (foldl (fun '(i, m) b => (i + 1, <[i := b]> m)) (a, ∅) data)) [] [] [] [].
