(* ===== verification/Wait.v ===== *)
(** * Waiting for a condition, and reading from a kernel buffer

    wait_event_interruptible and its timeout variant let other threads run:
    the driver's variables may change while the caller sleeps. What the
    others do is the parameter [others], a relation on the driver's state;
    the laws are those of linux/wait.h and of simple_read_from_buffer. *)

From S2P Require Import Prelude Kernel Wp Sim.

(** The condition is a test of the driver's variables. *)
Class Waiting (W D : Type) := {
  k_wait_event : (D -> bool) -> D * W -> Z * (D * W);
  k_wait_event_timeout : (D -> bool) -> Z -> D * W -> Z * (D * W);
}.

(** simple_read_from_buffer(to, count, ppos, from, available), where [from]
    is the list of the available bytes: the result and the position. *)
Class SimpleRead (W : Type) := {
  k_simple_read : Z -> Z -> Z -> list byte -> W -> Z * Z * W;
}.

Section Calls.
Context {W D : Type}.

Definition in_state {A} (f : D * W -> A * (D * W)) : M W D A := fun σ =>
  let '(a, (d, w)) := f (drv σ, world σ) in Done (a, KSt d w (held σ) (ledger σ)).

Definition wait_event_interruptible `{Waiting W D} (cond : D -> bool) : M W D Z :=
  in_state (k_wait_event cond).
Definition wait_event_interruptible_timeout `{Waiting W D} (cond : D -> bool) (t : Z) : M W D Z :=
  in_state (k_wait_event_timeout cond t).
Definition simple_read_from_buffer `{SimpleRead W} (to count pos : Z) (from : list byte)
  : M W D (Z * Z) :=
  call (k_simple_read to count pos from).
End Calls.

(** The condition is tested first, so a wait that need not sleep returns at
    once; otherwise other threads run until the wait is over. *)
Class WaitingOk (W D : Type) (others : relation D) `{Waiting W D} `{UserMem W} : Prop := {
  wait_ready cond d w : cond d = true -> k_wait_event cond (d, w) = (0, (d, w));
  wait_done cond d w rc d' w' :
    k_wait_event cond (d, w) = (rc, (d', w')) ->
    rtc others d d' /\ umem w' ≡ₘ umem w /\
    (rc = 0 /\ cond d' = true \/ rc = - ERESTARTSYS);
  timeout_ready cond t d w :
    cond d = true -> 0 < t -> k_wait_event_timeout cond t (d, w) = (t, (d, w));
  timeout_done cond t d w rc d' w' :
    k_wait_event_timeout cond t (d, w) = (rc, (d', w')) ->
    rtc others d d' /\ umem w' ≡ₘ umem w /\
    (0 < rc /\ cond d' = true \/ rc = 0 /\ cond d' = false \/ rc = - ERESTARTSYS);
}.

Class SimpleReadOk (W : Type) `{SimpleRead W} `{UserMem W} : Prop := {
  simple_read_ok to count pos from w rc pos' w' :
    0 <= pos -> 0 <= count ->
    k_simple_read to count pos from w = (rc, pos', w') ->
    (rc < 0 /\ pos' = pos /\ pos < zlen from /\ 0 < count /\ umem w' ≡ₘ umem w) \/
    (0 <= rc /\ rc <= count /\ pos' = pos + rc /\
     (rc = 0 <-> zlen from <= pos \/ count = 0) /\
     (0 < rc -> pos + rc <= zlen from) /\
     umem w' ≡ₘ uwrite (umem w) to (sub pos rc from));
}.

(** It writes nowhere outside the buffer. *)
Lemma simple_read_outside `{SimpleReadOk W} to count pos from (w : W) rc pos' w' x :
  k_simple_read to count pos from w = (rc, pos', w') -> 0 <= pos -> 0 <= count ->
  x < to \/ to + count <= x -> umem w' x = umem w x.
Proof.
  intros E Hp Hc Hx. apply simple_read_ok in E; [|done..].
  destruct E as [(_ & _ & _ & _ & Hm)|(Hrc & Hle & _ & _ & Hlen & Hm)]; [by apply Hm|].
  rewrite (Hm x). unfold uwrite. apply decide_False.
  assert (zlen (sub pos rc from) <= rc).
  { unfold sub, zlen. rewrite length_take. lia. }
  lia.
Qed.

(** The operations as rules of symbolic execution. *)
Section Rules.
Context {W D : Type} {others : relation D} `{WaitingOk W D others}.

Lemma wp_wait_ready cond Q (d : D) (w : W) h l :
  cond d = true -> Q 0 (KSt d w h l) ->
  wp (wait_event_interruptible cond) Q (KSt d w h l).
Proof.
  intros Hc HQ. unfold wp, wait_event_interruptible, in_state. simpl.
  by rewrite (wait_ready cond d w Hc).
Qed.

Lemma wp_timeout_ready cond t Q (d : D) (w : W) h l :
  cond d = true -> 0 < t -> Q t (KSt d w h l) ->
  wp (wait_event_interruptible_timeout cond t) Q (KSt d w h l).
Proof.
  intros Hc Ht HQ. unfold wp, wait_event_interruptible_timeout, in_state. simpl.
  by rewrite (timeout_ready cond t d w Hc Ht).
Qed.

Lemma wp_wait cond Q (d : D) (w : W) h l :
  (forall rc d' w', rtc others d d' -> umem w' ≡ₘ umem w ->
     rc = 0 /\ cond d' = true \/ rc = - ERESTARTSYS -> Q rc (KSt d' w' h l)) ->
  wp (wait_event_interruptible cond) Q (KSt d w h l).
Proof.
  intros HQ. unfold wp, wait_event_interruptible, in_state. simpl.
  destruct (k_wait_event cond (d, w)) as [rc [d' w']] eqn:E.
  apply wait_done in E as (? & ? & ?). by apply HQ.
Qed.

Lemma wp_timeout cond t Q (d : D) (w : W) h l :
  (forall rc d' w', rtc others d d' -> umem w' ≡ₘ umem w ->
     0 < rc /\ cond d' = true \/ rc = 0 /\ cond d' = false \/ rc = - ERESTARTSYS ->
     Q rc (KSt d' w' h l)) ->
  wp (wait_event_interruptible_timeout cond t) Q (KSt d w h l).
Proof.
  intros HQ. unfold wp, wait_event_interruptible_timeout, in_state. simpl.
  destruct (k_wait_event_timeout cond t (d, w)) as [rc [d' w']] eqn:E.
  apply timeout_done in E as (? & ? & ?). by apply HQ.
Qed.
End Rules.

(** An invariant of every step of the other threads survives a wait. *)
Lemma others_keep {D} (others : relation D) (I : D -> Prop) d d' :
  (forall a b, others a b -> I a -> I b) -> rtc others d d' -> I d -> I d'.
Proof. intros Hs Hr. induction Hr; eauto. Qed.

(** ** The concrete world: no other threads, so a wait that would sleep is
    interrupted or times out *)

#[export] Instance sim_waiting (D : Type) : Waiting sim D := {
  k_wait_event cond '(d, w) := (if cond d then 0 else - ERESTARTSYS, (d, w));
  k_wait_event_timeout cond t '(d, w) := (if cond d then Z.max t 1 else 0, (d, w));
}.

#[export] Instance sim_waiting_ok (D : Type) (others : relation D) : WaitingOk sim D others.
Proof.
  split; simpl.
  - by intros cond d w ->.
  - intros cond d w rc d' w' [= <- <- <-]. split; [apply rtc_refl|]. split; [done|].
    destruct (cond d); auto.
  - intros cond t d w -> Ht. by rewrite Z.max_l by lia.
  - intros cond t d w rc d' w' [= <- <- <-]. split; [apply rtc_refl|]. split; [done|].
    destruct (cond d); [left; split; [lia | done] | right; by left].
Qed.

#[export] Instance sim_simple_read : SimpleRead sim := {
  k_simple_read to count pos from w :=
    if (pos <? 0) then (- EINVAL, pos, w)
    else if (zlen from <=? pos) || (count =? 0) then (0, pos, w)
    else
      let n := Z.min count (zlen from - pos) in
      let '(r, w') := k_copy_to_user to (sub pos n from) w in
      if r =? n then (- EFAULT, pos, w') else (n - r, pos + (n - r), w');
}.

Lemma take_sub (pos n k : Z) (l : list byte) :
  0 <= k <= n -> take (Z.to_nat k) (sub pos n l) = sub pos k l.
Proof.
  intros Hk. unfold sub. rewrite take_take. f_equal. lia.
Qed.

#[export] Instance sim_simple_read_ok : SimpleReadOk sim.
Proof.
  split. intros to count pos from w rc pos' w' Hp Hc. unfold k_simple_read, sim_simple_read.
  destruct (Z.ltb_spec pos 0); [lia|].
  destruct (Z.leb_spec (zlen from) pos) as [Hle|Hlt]; simpl orb; cbv iota.
  { intros [= <- <- <-]. right. split_and!; try lia; try tauto.
    intros x. unfold uwrite. rewrite decide_False; [done|]. change (zlen (sub pos 0 from)) with 0. lia. }
  destruct (Z.eqb_spec count 0) as [->|Hc0].
  { intros [= <- <- <-]. right. split_and!; try lia; try tauto.
    intros x. unfold uwrite. rewrite decide_False; [done|]. change (zlen (sub pos 0 from)) with 0. lia. }
  set (n := count `min` (zlen from - pos)). assert (Hn : 0 < n <= zlen from - pos) by lia.
  destruct (k_copy_to_user to (sub pos n from) w) as [r w''] eqn:E.
  apply ctu_ok in E as [Hr Hm]. rewrite zlen_sub in Hr, Hm by lia.
  destruct (Z.eqb_spec r n) as [->|]; intros [= <- <- <-].
  - left. split_and!; try (done || lia). intros x. rewrite (Hm x), Z.sub_diag. unfold uwrite.
    rewrite decide_False; [done|]. change (zlen (take (Z.to_nat 0) (sub pos n from))) with 0. lia.
  - right. split_and!; try lia. by rewrite take_sub in Hm by lia.
Qed.
