(* ===== verification/Sched.v ===== *)
(** * Schedules: programs that run next to each other

    Several actors (threads, interrupt handlers, the user who loads and
    unloads a module) take steps in an order that the scheduler chooses. A
    step that is not possible yet leaves the state as it is; a step with
    undefined behaviour ends the run. Invariants are proved over every finite
    schedule, progress over every infinite schedule that is fair. *)

From S2P Require Import Prelude Kernel.

Section Sched.
Context {T S : Type} (step : T -> S -> option (outcome S)).
Implicit Types (t : T) (s : S) (c : outcome S) (sched : nat -> T).

(** One turn of the actor [t]; [None] is a blocked actor. *)
Definition move c t : outcome S :=
  match c with
  | Done s => default (Done s) (step t s)
  | Oops u => Oops u
  end.

Definition exec (ts : list T) c : outcome S := foldl move c ts.

(** The first [n] turns of an infinite schedule. *)
Fixpoint runs sched (n : nat) c : outcome S :=
  match n with
  | O => c
  | Datatypes.S n => move (runs sched n c) (sched n)
  end.

(** Only the actors in [A] have turns, and each of them has another one after
    every point of time. *)
Definition fair_among (A : T -> Prop) sched : Prop :=
  (forall n, A (sched n)) /\ forall t n, A t -> exists m, (n <= m)%nat /\ sched m = t.

Definition fair sched : Prop := fair_among (fun _ => True) sched.

Lemma exec_app ts1 ts2 c : exec (ts1 ++ ts2) c = exec ts2 (exec ts1 c).
Proof. apply foldl_app. Qed.

Lemma runs_exec sched n c : runs sched n c = exec (sched <$> seq 0 n) c.
Proof.
  induction n as [|n IH]; [done|]. rewrite seq_S, fmap_app, exec_app, <- IH. done.
Qed.

(** An invariant of the states between two turns. *)
Definition holds (I : S -> Prop) c : Prop :=
  match c with Done s => I s | Oops _ => True end.

Lemma exec_inv (I : S -> Prop) ts c :
  (forall t s s', I s -> step t s = Some (Done s') -> I s') ->
  holds I c -> holds I (exec ts c).
Proof.
  intros Hstep. revert c. induction ts as [|t ts IH]; intros c Hc; simpl; [done|].
  apply IH. destruct c as [s|u]; simpl in *; [|done].
  destruct (step t s) as [[s'|u]|] eqn:E; simpl; [eauto | done | done].
Qed.

(** The same when the invariant rules out undefined behaviour. *)
Lemma exec_safe (I : S -> Prop) ts s :
  (forall t s c', I s -> step t s = Some c' -> exists s', c' = Done s' /\ I s') ->
  I s -> exists s', exec ts (Done s) = Done s' /\ I s'.
Proof.
  intros Hstep. revert s. induction ts as [|t ts IH]; intros s Hs; simpl; [eauto|].
  destruct (step t s) as [c'|] eqn:E; simpl; [|eauto].
  destruct (Hstep t s c' Hs E) as (s' & -> & Hs'). eauto.
Qed.

(** Progress under a fair schedule: as long as the goal is not reached, one
    actor, the helper, brings the measure down with its next turn, and the
    turns of the others neither raise the measure nor change the helper.
    [I n s] is the invariant with at most [n] units of work left. *)
Section Bounded.
Context (goal : outcome S -> Prop) `{!forall c, Decision (goal c)}.
Context (A : T -> Prop) (I : nat -> S -> Prop) (helper : S -> T).

Definition bounded_turn t n s : Prop :=
  goal (move (Done s) t) \/
  exists s' n', move (Done s) t = Done s' /\ I n' s' /\
    ((n' < n)%nat \/ t <> helper s /\ (n' <= n)%nat /\ helper s' = helper s).

Definition bounded_progress : Prop := forall t n s, A t -> I n s -> ~ goal (Done s) ->
  A (helper s) /\ bounded_turn t n s.

Lemma helper_turn sched c0 d k n s :
  fair_among A sched -> bounded_progress -> runs sched k c0 = Done s -> I n s -> ~ goal (Done s) ->
  sched (k + d)%nat = helper s ->
  exists m, (k <= m)%nat /\ (goal (runs sched m c0) \/
    exists s' n', runs sched m c0 = Done s' /\ I n' s' /\ (n' < n)%nat).
Proof.
  intros [HA _] Hp. revert k n s. induction d as [|d IH]; intros k n s Hr HI Hg Hh.
  all: destruct (Hp (sched k) n s (HA k) HI Hg)
      as [_ [Hgoal | (s' & n' & Hs' & HI' & [Hlt | (Hne & Hle & Heq)])]];
    rewrite <- Hr in *; change (move (runs sched k c0) (sched k)) with (runs sched (1 + k) c0) in *;
    [ by (exists (1 + k)%nat; split; [lia | left]) |
      by (exists (1 + k)%nat; split; [lia | right; exists s', n']) | ].
  - by rewrite Nat.add_0_r in Hh.
  - destruct (decide (goal (Done s'))) as [Hg'|Hg'].
    { exists (1 + k)%nat. split; [lia|]. left. by rewrite Hs'. }
    destruct (IH (1 + k)%nat n' s' Hs' HI' Hg') as (m & Hm & [Hgm | (s2 & n2 & Hr2 & HI2 & Hlt)]).
    { rewrite Heq, <- Hh. f_equal. lia. }
    + exists m. split; [lia | by left].
    + exists m. split; [lia|]. right. exists s2, n2. split_and!; [done | done | lia].
Qed.

Lemma bounded_eventually_from sched c0 k n s :
  fair_among A sched -> bounded_progress -> runs sched k c0 = Done s -> I n s ->
  exists m, (k <= m)%nat /\ goal (runs sched m c0).
Proof.
  intros Hf Hp. revert k s. induction n as [n IH] using lt_wf_ind. intros k s Hr HI.
  destruct (decide (goal (Done s))) as [Hg|Hg]; [exists k; by rewrite Hr|].
  assert (Hh : A (helper s)) by (destruct Hf as [HA _]; by apply (Hp (sched k) n s (HA k))).
  destruct (proj2 Hf (helper s) k Hh) as (m & Hm & Hm').
  destruct (helper_turn sched c0 (m - k) k n s Hf Hp Hr HI Hg)
    as (m' & Hmm' & [Hg' | (s' & n' & Hr' & HI' & Hlt)]).
  { by replace (k + (m - k))%nat with m by lia. }
  - by exists m'.
  - destruct (IH _ Hlt m' s' Hr' HI') as (m2 & ? & ?). exists m2. split; [lia | done].
Qed.

Lemma bounded_eventually sched n s :
  fair_among A sched -> bounded_progress -> I n s -> exists k, goal (runs sched k (Done s)).
Proof.
  intros Hf Hp HI.
  destruct (bounded_eventually_from sched (Done s) 0 n s Hf Hp eq_refl HI) as (k & _ & Hk). eauto.
Qed.
End Bounded.

(** The same with a measure computed from the state. *)
Section Progress.
Context (goal : outcome S -> Prop) `{!forall c, Decision (goal c)}.
Context (A : T -> Prop) (I : S -> Prop) (mu : S -> nat) (helper : S -> T).

Definition good_turn t s : Prop :=
  goal (move (Done s) t) \/
  exists s', move (Done s) t = Done s' /\ I s' /\
    ((mu s' < mu s)%nat \/ t <> helper s /\ (mu s' <= mu s)%nat /\ helper s' = helper s).

Definition progresses : Prop := forall t s, A t -> I s -> ~ goal (Done s) ->
  A (helper s) /\ good_turn t s.

(** The usual reasons for a turn to be good. *)
Lemma good_goal t s c : step t s = Some c -> goal c -> good_turn t s.
Proof. intros Hst Hg. left. simpl. by rewrite Hst. Qed.
Lemma good_down t s s' : step t s = Some (Done s') -> I s' -> (mu s' < mu s)%nat -> good_turn t s.
Proof. intros Hst HI Hm. right. exists s'. simpl. rewrite Hst. auto. Qed.
Lemma good_blocked t s : step t s = None -> I s -> t <> helper s -> good_turn t s.
Proof. intros Hst HI Hh. right. exists s. simpl. rewrite Hst. split_and!; auto. Qed.

Definition at_measure (n : nat) (s : S) : Prop := I s /\ mu s = n.

Lemma progresses_bounded : progresses -> bounded_progress goal A at_measure helper.
Proof.
  intros Hp t n s Ht [HI <-] Hg. destruct (Hp t s Ht HI Hg) as [HA [Hgoal | (s' & E & HI' & Hm)]].
  - by split; [|left].
  - split; [done|]. right. exists s', (mu s'). by split_and!.
Qed.

Lemma fair_eventually_from sched c0 n s :
  fair_among A sched -> progresses -> runs sched n c0 = Done s -> I s ->
  exists m, (n <= m)%nat /\ goal (runs sched m c0).
Proof.
  intros Hf Hp Hr HI.
  by eapply (bounded_eventually_from goal A at_measure helper); [| apply progresses_bounded | |].
Qed.

Lemma fair_eventually sched s :
  fair_among A sched -> progresses -> I s -> exists n, goal (runs sched n (Done s)).
Proof.
  intros Hf Hp HI.
  destruct (fair_eventually_from sched (Done s) 0 s Hf Hp eq_refl HI) as (n & _ & Hn). eauto.
Qed.
End Progress.
End Sched.

(** A schedule that takes the actors in turn. *)
Definition round_robin {T} (ts : list T) (t0 : T) (n : nat) : T :=
  default t0 (ts !! (n mod length ts)%nat).

Lemma round_robin_fair {T} (ts : list T) (t0 : T) :
  t0 ∈ ts -> fair_among (fun t => t ∈ ts) (round_robin ts t0).
Proof.
  intros H0. assert (Hlen : (0 < length ts)%nat) by (destruct ts; [by apply not_elem_of_nil in H0 | simpl; lia]).
  split.
  - intros n. unfold round_robin.
    destruct (lookup_lt_is_Some_2 ts (n mod length ts)) as [t Ht]; [apply Nat.mod_upper_bound; lia|].
    rewrite Ht. by eapply list_elem_of_lookup_2.
  - intros t n Ht. destruct (list_elem_of_lookup_1 _ _ Ht) as [i Hi].
    pose proof (lookup_lt_Some _ _ _ Hi) as Hlt.
    exists (i + n * length ts)%nat. split; [nia|].
    unfold round_robin. rewrite Nat.Div0.mod_add, Nat.mod_small by lia. by rewrite Hi.
Qed.

Lemma round_robin_all {T} (ts : list T) (t0 : T) :
  (forall t, t ∈ ts) -> fair (round_robin ts t0).
Proof.
  intros Hall. destruct (round_robin_fair ts t0 (Hall t0)) as [_ H]. split; [done|]. auto.
Qed.

(** Calls numbered from 0, in turn. *)
Lemma round_robin_below n :
  (0 < n)%nat -> fair_among (fun i => (i < n)%nat) (round_robin (seq 0 n) 0%nat).
Proof.
  intros Hn. assert (Hs : forall i, i ∈ seq 0 n <-> (i < n)%nat) by (intros i; rewrite elem_of_seq; lia).
  destruct (round_robin_fair (seq 0 n) 0%nat) as [H1 H2]; [by apply Hs|].
  split; [intros k; by apply Hs|]. intros t k Ht. apply H2. by apply Hs.
Qed.
