(* ===== verification/Calls.v ===== *)
(** * Calls of a driver that overlap

    Several calls of handlers that take no lock run at the same time, each one
    access to the shared variables after the other. A call is an element of
    [L], its handler with the point it has reached; [next] is its next access. *)

From S2P Require Import Prelude Kernel Sched.

Section Calls.
Context {S L : Type} (next : L -> S -> option (L * S)).

(** The shared variables and the calls, by number. *)
Record conc := Conc { shared : S; calls : list L }.

(** One access of call [i]; nothing when it has returned. *)
Definition call_step (i : nat) (c : conc) : option (outcome conc) :=
  match calls c !! i with
  | Some l =>
      match next l (shared c) with
      | Some (l', s') => Some (Done (Conc s' (<[i := l']> (calls c))))
      | None => None
      end
  | None => None
  end.

Definition returned (c : conc) : Prop := Forall (fun l => forall s, next l s = None) (calls c).

(** An invariant of every interleaving; no access is undefined. *)
Lemma calls_inv (I : conc -> Prop) (ts : list nat) (c : conc) :
  (forall s ls i l l' s', I (Conc s ls) -> ls !! i = Some l -> next l s = Some (l', s') ->
     I (Conc s' (<[i := l']> ls))) ->
  I c -> exists c', exec call_step ts (Done c) = Done c' /\ I c'.
Proof.
  intros Hstep. apply exec_safe. intros i [s ls] c' Hc E. unfold call_step in E. simpl in E.
  destruct (ls !! i) as [l|] eqn:Hl; [|done]. destruct (next l s) as [[l' s']|] eqn:Hn; [|done].
  injection E as <-. eexists. split; [done|]. by eapply Hstep.
Qed.

(** What an access does not change of its call, the calls keep. *)
Lemma kept_insert {R} (f : L -> R) (rs : list R) ls i l l' :
  f <$> ls = rs -> ls !! i = Some l -> f l' = f l -> f <$> <[i := l']> ls = rs.
Proof.
  intros <- Hi E. rewrite list_fmap_insert, E. apply list_insert_id. by rewrite list_lookup_fmap, Hi.
Qed.

(** ** Sums over the calls *)

Definition total (f : L -> Z) (ls : list L) : Z := foldr (fun l n => f l + n) 0 ls.

Lemma total_cons f l ls : total f (l :: ls) = f l + total f ls.
Proof. done. Qed.

Lemma total_insert f ls i l l' :
  ls !! i = Some l -> total f (<[i := l']> ls) = total f ls - f l + f l'.
Proof.
  revert i. induction ls as [|x ls IH]; intros [|i] E; simpl in *; try done.
  - injection E as ->. lia.
  - rewrite (IH _ E). lia.
Qed.

Lemma total_nonneg f ls : (forall l, 0 <= f l) -> 0 <= total f ls.
Proof. intros H. induction ls as [|x ls IH]; [done|]. rewrite total_cons. specialize (H x). lia. Qed.

Lemma total_ext f g ls : (forall l, f l = g l) -> total f ls = total g ls.
Proof. intros H. induction ls as [|x ls IH]; [done|]. by rewrite !total_cons, H, IH. Qed.

Lemma total_const f n ls : (forall l, l ∈ ls -> f l = n) -> total f ls = n * zlen ls.
Proof.
  induction ls as [|x ls IH]; intros H; simpl; [unfold zlen; simpl; lia|].
  rewrite (H x (list_elem_of_here _ _)), (IH (fun l Hl => H l (list_elem_of_further _ _ _ Hl))).
  unfold zlen. simpl. lia.
Qed.

(** ** Every call returns *)

Section Return.
Context (left : L -> nat).
Hypothesis next_left : forall l s l' s', next l s = Some (l', s') -> (left l' < left l)%nat.
Hypothesis next_total : forall l s, (0 < left l)%nat -> next l s <> None.

(** The first call that has accesses left. *)
Fixpoint first_left (ls : list L) : nat :=
  match ls with
  | l :: ls => if decide (left l = 0%nat) then Datatypes.S (first_left ls) else 0%nat
  | [] => 0%nat
  end.

(** The accesses that are left. *)
Definition work (ls : list L) : nat := foldr (fun l n => left l + n)%nat 0%nat ls.

Lemma work_insert ls i l l' :
  ls !! i = Some l ->
  (work (<[i := l']> ls) + left l = work ls + left l')%nat.
Proof.
  revert i. induction ls as [|x ls IH]; intros [|i] E; simpl in *; try done.
  - injection E as ->. lia.
  - specialize (IH _ E). lia.
Qed.

Lemma first_left_spec ls :
  work ls <> 0%nat -> exists l, ls !! first_left ls = Some l /\ (0 < left l)%nat.
Proof.
  induction ls as [|x ls IH]; simpl; [done|]. intros H. destruct (decide (left x = 0%nat)) as [E|E].
  - simpl. apply IH. lia.
  - exists x. split; [done | lia].
Qed.

Lemma first_left_same ls i l l' :
  ls !! i = Some l -> i <> first_left ls -> (left l' < left l)%nat ->
  first_left (<[i := l']> ls) = first_left ls.
Proof.
  revert i. induction ls as [|x ls IH]; intros [|i] E Hi Hl; simpl in *; try done.
  - injection E as ->. destruct (decide (left l = 0%nat)); [lia | done].
  - destruct (decide (left x = 0%nat)); [f_equal; apply (IH i); auto | done].
Qed.

Lemma calls_return (sched : nat -> nat) (c : conc) :
  fair_among (fun i => (i < length (calls c))%nat) sched ->
  exists n, match runs call_step sched n (Done c) with
            | Done c' => work (calls c') = 0%nat
            | Oops _ => False
            end.
Proof.
  intros Hf.
  set (goal := fun r : outcome conc => match r with Done c' => work (calls c') = 0%nat | Oops _ => False end).
  assert (Hdec : forall r, Decision (goal r)) by (intros [c'|u]; simpl; apply _).
  apply (fair_eventually call_step goal (fun i => (i < length (calls c))%nat)
           (fun c' => length (calls c') = length (calls c)) (fun c' => work (calls c')) (fun c' => first_left (calls c'))
           sched c Hf); [|done].
  intros i [s ls] Hi HI Hg. simpl in *.
  destruct (first_left_spec ls Hg) as (lf & Hlf & Hpos).
  split; [rewrite <- HI; by eapply lookup_lt_Some|].
  destruct (lookup_lt_is_Some_2 ls i) as [l Hl]; [lia|].
  destruct (next l s) as [[l' s']|] eqn:Hn.
  - assert (E : call_step i (Conc s ls) = Some (Done (Conc s' (<[i := l']> ls))))
      by (unfold call_step; simpl; by rewrite Hl, Hn).
    eapply good_down; [exact E | simpl; by rewrite length_insert|].
    simpl. pose proof (work_insert ls i l l' Hl). pose proof (next_left _ _ _ _ Hn). lia.
  - assert (E : call_step i (Conc s ls) = None) by (unfold call_step; simpl; by rewrite Hl, Hn).
    eapply good_blocked; [done.. |]. intros Hi2. simpl in Hi2. subst i. rewrite Hlf in Hl. injection Hl as <-. by apply (next_total lf s).
Qed.
End Return.
End Calls.

Arguments Conc {S L}.
Arguments shared {S L}.
Arguments calls {S L}.
