(* ===== verification/Resume.v ===== *)
(** * Handlers cut into steps: calls that overlap under mutexes

    A handler as a resumption: [Act m k] does [m] in one step and goes on with
    [k], [Acq k f] waits for the mutex [k]. [run] does the steps one after the
    other, which is what the handler does when nobody interferes. A [pool] has
    any number of calls under way on one driver; a turn of a call is one step.
    [safe] is a rely-guarantee judgement for one call; calls that satisfy it
    can overlap in any order ([pool_safe]) and all return ([pool_returns]). *)

From S2P Require Import Prelude Kernel Wp Sched.

Inductive prog (W D A : Type) : Type :=
  | Ret (a : A)
  | Act (B : Type) (m : M W D B) (k : B -> prog W D A)
  | Acq (l : lock) (intr : bool) (k : Z -> prog W D A).
Arguments Ret {W D A}.
Arguments Act {W D A B}.
Arguments Acq {W D A}.

Fixpoint prog_bind {W D A B} (f : A -> prog W D B) (p : prog W D A) : prog W D B :=
  match p with
  | Ret a => f a
  | Act m k => Act m (fun b => prog_bind f (k b))
  | Acq l intr k => Acq l intr (fun rc => prog_bind f (k rc))
  end.

#[export] Instance prog_ret {W D} : MRet (prog W D) := fun A a => Ret a.
#[export] Instance prog_bind_inst {W D} : MBind (prog W D) := fun A B f p => prog_bind f p.

Definition act {W D A} (m : M W D A) : prog W D A := Act m Ret.

(** mutex_lock, and mutex_lock_interruptible with its result. *)
Definition lock_p {W D} (l : lock) : prog W D unit := Acq l false (fun _ => Ret tt).
Definition lock_intr_p {W D} (l : lock) : prog W D Z := Acq l true Ret.
Definition unlock_p {W D} (l : lock) : prog W D unit := act (mutex_unlock l).

(** [for (j = i; j < i + n; j++) body(j)], as [for_]. *)
Fixpoint for_p {W D A} (n : nat) (i : Z) (body : Z -> prog W D (option A)) : prog W D (option A) :=
  match n with
  | O => Ret None
  | S n =>
      r ← body i;
      match r with
      | Some a => Ret (Some a)
      | None => for_p n (i + 1) body
      end
  end.

(** ** One call on its own *)

Definition meq {W D A} (m1 m2 : M W D A) : Prop := forall σ, m1 σ = m2 σ.
Infix "≡ₑ" := meq (at level 70).

#[export] Instance meq_equiv {W D A} : Equivalence (@meq W D A).
Proof. split; [by intros m σ | by intros m n E σ | by intros m n o E1 E2 σ; rewrite E1]. Qed.

Lemma bind_meq {W D A B} (m1 m2 : M W D A) (f1 f2 : A -> M W D B) :
  m1 ≡ₑ m2 -> (forall a, f1 a ≡ₑ f2 a) -> (m1 ≫= f1) ≡ₑ (m2 ≫= f2).
Proof. intros Hm Hf σ. unfold mbind, M_bind. rewrite Hm. destruct (m2 σ) as [[a σ']|]; [apply Hf | done]. Qed.

Lemma bind_assoc_meq {W D A B C} (m : M W D A) (f : A -> M W D B) (g : B -> M W D C) :
  ((m ≫= f) ≫= g) ≡ₑ (m ≫= fun a => f a ≫= g).
Proof. intros σ. unfold mbind, M_bind. by destruct (m σ) as [[a σ']|]. Qed.

Section Run.
Context {W D : Type} `{Signals W}.

Definition acquire_m (l : lock) (intr : bool) : M W D Z :=
  if intr then mutex_lock_interruptible l else mutex_lock l;; mret 0.

Fixpoint run {A} (p : prog W D A) : M W D A :=
  match p with
  | Ret a => mret a
  | Act m k => m ≫= fun b => run (k b)
  | Acq l intr k => acquire_m l intr ≫= fun rc => run (k rc)
  end.

Lemma run_bind {A B} (p : prog W D A) (f : A -> prog W D B) :
  run (p ≫= f) ≡ₑ (run p ≫= fun a => run (f a)).
Proof.
  induction p as [a | C m k IH | l intr k IH]; intros σ; [done | |]; simpl.
  all: rewrite bind_assoc_meq; apply bind_meq; [done | apply IH].
Qed.

Lemma run_act {A B} (m : M W D A) (f : A -> prog W D B) :
  run (act m ≫= f) ≡ₑ (m ≫= fun a => run (f a)).
Proof. done. Qed.

Lemma run_for {A} n i (body : Z -> prog W D (option A)) (body' : Z -> M W D (option A)) :
  (forall j, run (body j) ≡ₑ body' j) -> run (for_p n i body) ≡ₑ for_ n i body'.
Proof.
  intros Hb. revert i. induction n as [|n IH]; intros i; [done|]. cbn [for_p for_].
  rewrite run_bind. apply bind_meq; [done|]. intros [a|]; [done | apply IH].
Qed.
Lemma bind_at {A B} (m1 m2 : M W D A) (f1 f2 : A -> M W D B) σ :
  m1 σ = m2 σ -> (forall a d w h l, f1 a (KSt d w h l) = f2 a (KSt d w h l)) -> (m1 ≫= f1) σ = (m2 ≫= f2) σ.
Proof.
  intros Hm Hf. unfold mbind, M_bind. rewrite Hm. destruct (m2 σ) as [[a [d w h l]]|]; [apply Hf | done].
Qed.

Lemma run_act_at {A B} (m : M W D A) (f : A -> prog W D B) σ :
  run (act m ≫= f) σ = (m ≫= fun a => run (f a)) σ.
Proof. done. Qed.
Lemma run_unlock_at {B} k (f : unit -> prog W D B) σ :
  run (unlock_p k ≫= f) σ = (mutex_unlock k ≫= fun a => run (f a)) σ.
Proof. done. Qed.
Lemma run_lock_intr_at {B} k (f : Z -> prog W D B) σ :
  run (lock_intr_p k ≫= f) σ = (mutex_lock_interruptible k ≫= fun a => run (f a)) σ.
Proof. done. Qed.
Lemma run_lock_at {B} k (f : unit -> prog W D B) σ :
  run (lock_p k ≫= f) σ = (mutex_lock k ≫= fun a => run (f a)) σ.
Proof.
  change (run (lock_p k ≫= f) σ) with (((mutex_lock k;; mret 0) ≫= fun _ : Z => run (f tt)) σ).
  rewrite bind_assoc_meq. unfold mbind, M_bind. by destruct (mutex_lock k σ) as [[[] ?]|].
Qed.

(** Waiting for a mutex leaves the variables alone. *)
Lemma bind_lock_intr_at {B} k (f1 f2 : Z -> M W D B) d w h l :
  (forall rc w h, f1 rc (KSt d w h l) = f2 rc (KSt d w h l)) ->
  (mutex_lock_interruptible k ≫= f1) (KSt d w h l) = (mutex_lock_interruptible k ≫= f2) (KSt d w h l).
Proof.
  intros Hf. unfold mutex_lock_interruptible, call, mbind, M_bind. simpl.
  destruct (k_lock_interruptible k w) as [rc w']. destruct (rc =? 0); [|by apply Hf].
  unfold lock_it. simpl. case_decide; [done | by apply Hf].
Qed.

End Run.

(** What copy_from_user leaves is as long as what was asked for. *)
Lemma bind_cfu_at {W D B} `{UserAccessOk W} src n (f1 f2 : Z * list byte -> M W D B) d w h l :
  0 <= n ->
  (forall r bs w, zlen bs = n -> f1 (r, bs) (KSt d w h l) = f2 (r, bs) (KSt d w h l)) ->
  (copy_from_user src n ≫= f1) (KSt d w h l) = (copy_from_user src n ≫= f2) (KSt d w h l).
Proof.
  intros Hn Hf. unfold copy_from_user, call, mbind, M_bind. simpl.
  destruct (k_copy_from_user src n w) as [[r bs] w'] eqn:E. apply Hf. by eapply cfu_zlen.
Qed.

(** Both sides do the same, step by step. *)
Ltac same_step :=
  first
    [ reflexivity
    | progress (rewrite ?bind_get; cbn [drv])
    | rewrite run_act_at | rewrite run_unlock_at | rewrite run_lock_intr_at | rewrite run_lock_at
    | rewrite bind_assoc_meq
    | match goal with
      | |- run (if ?b then _ else _) _ = _ => destruct b
      | |- run (let '(_, _) := ?p in _) _ = _ => destruct p
      | |- run (match ?o with Some _ => _ | None => _ end) _ = _ => destruct o
      end
    | apply bind_at; [reflexivity | intros ? ? ? ? ?] ].
Ltac same := repeat same_step.


(** ** Calls that overlap *)

Section Pool.
Context {W D A : Type} `{Signals W}.

(** A call under way: what it has left to do, the mutexes it holds, what it
    has acquired (an open file). *)
Record thread := Thread {
  code : prog W D A;
  t_held : list lock;
  t_ledger : list resource;
}.
Record pool := Pool { p_drv : D; p_world : W; threads : list thread }.

Definition owned (l : lock) (t : thread) : bool := bool_decide (l ∈ t_held t).

(** Some other call holds the mutex. *)
Definition taken (i : nat) (l : lock) (ts : list thread) : bool :=
  existsb (owned l) (delete i ts).

Definition resume {B} (i : nat) (p : pool) (t : thread) (m : M W D B) (k : B -> prog W D A) : outcome pool :=
  match m (KSt (p_drv p) (p_world p) (t_held t) (t_ledger t)) with
  | Done (b, σ) =>
      Done (Pool (drv σ) (world σ) (<[i := Thread (k b) (held σ) (ledger σ)]> (threads p)))
  | Oops u => Oops u
  end.

(** A step of call [i]. Nothing happens when it has returned or waits for a
    mutex that another call holds; a signal may end an interruptible wait. *)
Definition pool_step (i : nat) (p : pool) : option (outcome pool) :=
  t ← threads p !! i;
  match code t with
  | Ret _ => None
  | Act m k => Some (resume i p t m k)
  | Acq l intr k =>
      if taken i l (threads p) then
        if intr then
          let '(rc, w) := k_lock_interruptible l (p_world p) in
          if rc =? 0 then None
          else Some (Done (Pool (p_drv p) w (<[i := Thread (k rc) (t_held t) (t_ledger t)]> (threads p))))
        else None
      else Some (resume i p t (acquire_m l intr) k)
  end.

Definition calls_of (ps : list (prog W D A)) : list thread := (fun p => Thread p [] []) <$> ps.

(** *** Rely and guarantee

    [R h]: what other calls may do to the driver's variables while this one
    holds the mutexes [h]. [G h]: what a step of a call that holds [h] does.
    [WInv] is what every step keeps of the rest of the system. *)
Context (Inv : D -> Prop) (WInv : W -> Prop) (R G : list lock -> D -> D -> Prop).

Fixpoint safe (p : prog W D A) (Q : A -> list lock -> list resource -> D -> Prop)
    (h : list lock) (l : list resource) (d : D) : Prop :=
  forall d', R h d d' -> Inv d' ->
  match p with
  | Ret a => Q a h l d'
  | Act m k =>
      forall w, WInv w ->
        wp m (fun b σ => held σ ⊆ h /\ WInv (world σ) /\ Inv (drv σ) /\ G h d' (drv σ) /\
                         safe (k b) Q (held σ) (ledger σ) (drv σ)) (KSt d' w h l)
  | Acq k intr f =>
      h = [] /\ safe (f 0) Q [k] l d' /\ (intr = true -> forall rc, rc <> 0 -> safe (f rc) Q [] l d')
  end.

(** A call gives back every mutex and every resource. *)
Definition clean (_ : A) (h : list lock) (l : list resource) (_ : D) : Prop := h = [] /\ l = [].

Hypothesis R_pre : forall h, PreOrder (R h).
Hypothesis G_refl : forall h d, Inv d -> G h d d.
Hypothesis G_R : forall h h' d d', h ## h' -> Inv d -> G h d d' -> R h' d d'.
Hypothesis WInv_lock : forall l w rc w', WInv w -> k_lock_interruptible l w = (rc, w') -> WInv w'.

Lemma safe_rely p Q h l d d' : R h d d' -> safe p Q h l d -> safe p Q h l d'.
Proof. intros HR Hp. destruct p; intros d2 HR2; apply Hp; by etrans. Qed.

Lemma safe_now p Q h l d :
  (forall d', R h d d' -> Inv d' -> safe p Q h l d') -> safe p Q h l d.
Proof. intros Hp. destruct p; intros d' HR Hd'; by apply (Hp d' HR Hd'). Qed.

Definition apart (ts : list thread) : Prop :=
  forall i j t u, ts !! i = Some t -> ts !! j = Some u -> i <> j -> t_held t ## t_held u.

Definition thread_safe (d : D) (t : thread) : Prop :=
  safe (code t) clean (t_held t) (t_ledger t) d.

Record pool_ok (p : pool) : Prop := {
  p_inv : Inv (p_drv p);
  p_winv : WInv (p_world p);
  p_apart : apart (threads p);
  p_safe : forall i t, threads p !! i = Some t -> thread_safe (p_drv p) t;
}.

Lemma taken_false i l ts j t :
  taken i l ts = false -> ts !! j = Some t -> i <> j -> l ∉ t_held t.
Proof.
  intros Ht Hj Hij Hl. apply not_true_iff_false in Ht. apply Ht.
  apply existsb_exists. exists t. split; [|by apply bool_decide_eq_true].
  apply list_elem_of_In. destruct (decide (j < i)%nat).
  - eapply list_elem_of_lookup_2. by rewrite (list_lookup_delete_lt ts i j).
  - destruct j as [|j]; [lia|].
    eapply (list_elem_of_lookup_2 _ j). by rewrite list_lookup_delete_ge by lia.
Qed.

(** The step of one call keeps the others safe. *)
Lemma pool_ok_step p i t t' d w :
  pool_ok p -> threads p !! i = Some t -> Inv d -> WInv w -> G (t_held t) (p_drv p) d ->
  (forall j u, threads p !! j = Some u -> i <> j -> t_held t' ## t_held u) ->
  thread_safe d t' -> pool_ok (Pool d w (<[i := t']> (threads p))).
Proof.
  intros [Hi Hw Ha Hs] Ht Hd Hw' HG Hdis Ht'. pose proof (lookup_lt_Some _ _ _ Ht) as Hlt.
  split; simpl; [done | done | |].
  - intros j k u v Hj Hk Hne. apply list_lookup_insert_Some in Hj, Hk.
    destruct Hj as [(-> & <- & _)|[Hij Hj]], Hk as [(-> & <- & _)|[Hik Hk]]; [done | | |].
    + by eapply Hdis.
    + intros x Hx Hx'. by apply (Hdis j u Hj (not_eq_sym Hne) x).
    + by eapply Ha.
  - intros j u Hj. apply list_lookup_insert_Some in Hj as [(-> & <- & _)|[Hij Hj]]; [done|].
    eapply safe_rely; [|by eapply Hs]. eapply G_R; [| done | exact HG]. by eapply Ha.
Qed.

(** What a step of a pool comes down to. *)
Definition step_ok (p : pool) (i : nat) (t : thread) (p' : pool) : Prop :=
  pool_ok p' /\ G (t_held t) (p_drv p) (p_drv p') /\
  exists t', threads p' = <[i := t']> (threads p) /\
    match code t with
    | Ret _ => False
    | Act m k => exists b, code t' = k b
    | Acq l intr k => exists rc, code t' = k rc
    end.

(** Asking for a free mutex while holding none. *)
Lemma acquire_free (l : lock) intr (d : D) (w : W) L :
  exists rc w', acquire_m l intr (KSt d w [] L) = Done (rc, KSt d w' (if rc =? 0 then [l] else []) L) /\
                (rc <> 0 -> intr = true) /\ (WInv w -> WInv w').
Proof.
  unfold acquire_m, mutex_lock_interruptible, mutex_lock, call, mbind, M_bind. destruct intr; simpl.
  - destruct (k_lock_interruptible l w) as [rc w'] eqn:E. simpl. exists rc, w'.
    split; [by destruct (Z.eqb_spec rc 0) as [->|]|]. split; [done|]. intros Hw. by eapply WInv_lock.
  - by exists 0, w.
Qed.

(** A step of a call that waits for a mutex: it gets it, is interrupted, or
    nothing happens. *)
Lemma acquire_step p i t l intr k c :
  pool_ok p -> threads p !! i = Some t -> code t = Acq l intr k -> pool_step i p = Some c ->
  exists rc w, c = Done (Pool (p_drv p) w (<[i := Thread (k rc) (if rc =? 0 then [l] else []) (t_ledger t)]> (threads p))) /\
    (rc = 0 -> taken i l (threads p) = false) /\ (rc <> 0 -> intr = true) /\ WInv w.
Proof.
  intros Hp Ht Hc E. unfold pool_step in E. rewrite Ht in E. simpl in E. rewrite Hc in E.
  pose proof (p_safe _ Hp i t Ht) as Hs. unfold thread_safe in Hs. rewrite Hc in Hs.
  destruct (Hs (p_drv p) (PreOrder_Reflexive _) (p_inv _ Hp)) as (Hh & _ & _). rewrite Hh in *.
  destruct (taken i l (threads p)).
  - destruct intr; [|done]. destruct (k_lock_interruptible l (p_world p)) as [rc w] eqn:Hk.
    apply WInv_lock in Hk; [|apply Hp].
    destruct (Z.eqb_spec rc 0) as [|Hrc]; [done|]. injection E as <-.
    exists rc, w. by rewrite (proj2 (Z.eqb_neq rc 0) Hrc).
  - injection E as <-. unfold resume. rewrite Hh.
    destruct (acquire_free l intr (p_drv p) (p_world p) (t_ledger t)) as (rc & w' & -> & Hn & Hw).
    exists rc, w'. split_and!; auto. apply Hw, Hp.
Qed.

Lemma pool_step_ok p i c :
  pool_ok p -> pool_step i p = Some c ->
  exists t p', threads p !! i = Some t /\ c = Done p' /\ step_ok p i t p'.
Proof.
  intros Hp E. destruct (threads p !! i) as [t|] eqn:Ht; [|unfold pool_step in E; by rewrite Ht in E].
  exists t. pose proof (p_safe _ Hp i t Ht) as Hs. unfold thread_safe in Hs.
  pose proof (p_apart _ Hp i) as Ha. pose proof (p_inv _ Hp) as Hd.
  unfold step_ok. destruct (code t) as [a | B m k | l intr k] eqn:Hc.
  - unfold pool_step in E. rewrite Ht in E. simpl in E. by rewrite Hc in E.
  - unfold pool_step in E. rewrite Ht in E. simpl in E. rewrite Hc in E. injection E as <-. unfold resume.
    specialize (Hs (p_drv p) (PreOrder_Reflexive _) Hd (p_world p) (p_winv _ Hp)). unfold wp in Hs.
    destruct (m _) as [[b [d w h l]]|]; [|done]. destruct Hs as (Hh & Hw & Hd' & HG & Hk). simpl in *.
    eexists. split; [done|]. split; [done|]. split; [|split; [done | eexists; split; [done | by exists b]]].
    eapply pool_ok_step; [done.. | | done]. intros j u Hj Hij. simpl.
    pose proof (Ha j t u Ht Hj Hij) as Hdis. intros x Hx Hxu. by apply (Hdis x); [apply Hh|].
  - destruct (acquire_step p i t l intr k c Hp Ht Hc E) as (rc & w & -> & Hfree & Hint & Hw).
    destruct (Hs (p_drv p) (PreOrder_Reflexive _) Hd) as (_ & Hgot & Hno).
    eexists. split; [done|]. split; [done|]. split; [|split; [by apply G_refl | eexists; split; [done | by exists rc]]].
    eapply pool_ok_step; [done.. | by apply G_refl | |]; simpl.
    + intros j u Hj Hij x Hx. destruct (Z.eqb_spec rc 0) as [->|]; [|by apply not_elem_of_nil in Hx].
      apply list_elem_of_singleton in Hx. subst x. eapply taken_false; eauto.
    + unfold thread_safe. simpl. destruct (Z.eqb_spec rc 0) as [->|]; [done | by apply Hno; [apply Hint|]].
Qed.

(** *** Any number of calls, in any order *)

Lemma pool_start (d : D) (w : W) (ps : list (prog W D A)) :
  Inv d -> WInv w -> Forall (fun p => safe p clean [] [] d) ps -> pool_ok (Pool d w (calls_of ps)).
Proof.
  intros Hd Hw Hps. split; simpl; [done | done | |].
  - intros i j t u Hi _ _ x Hx. unfold calls_of in Hi. rewrite list_lookup_fmap in Hi.
    destruct (ps !! i); simplify_eq/=. by apply not_elem_of_nil in Hx.
  - intros i t Hi. unfold calls_of in Hi. rewrite list_lookup_fmap in Hi.
    destruct (ps !! i) as [p|] eqn:Hp; simplify_eq/=. unfold thread_safe. simpl.
    rewrite Forall_forall in Hps. apply Hps. by eapply list_elem_of_lookup_2.
Qed.

Lemma pool_safe (ts : list nat) (p : pool) :
  pool_ok p -> exists p', exec pool_step ts (Done p) = Done p' /\ pool_ok p'.
Proof.
  apply exec_safe. intros i q c Hq E.
  destruct (pool_step_ok q i c Hq E) as (t & q' & _ & -> & Hq' & _). eauto.
Qed.

(** *** Every call returns *)

(** At most [n] steps are left. *)
Fixpoint within (n : nat) (p : prog W D A) {struct p} : Prop :=
  match p with
  | Ret _ => True
  | Act m k => match n with O => False | S n => forall b, within n (k b) end
  | Acq l intr k => match n with O => False | S n => forall rc, within n (k rc) end
  end.

Definition returned (t : thread) : bool := match code t with Ret _ => true | _ => false end.
Definition all_returned (c : outcome pool) : Prop :=
  match c with Done p => Forall (fun t => returned t = true) (threads p) | Oops _ => False end.
#[export] Instance all_returned_dec c : Decision (all_returned c).
Proof. destruct c; simpl; apply _. Defined.

(** A call that can move: the first that has not returned or, when that one
    waits for a mutex, the call that holds it. *)
Definition helper (p : pool) : nat :=
  match list_find (fun t => returned t = false) (threads p) with
  | Some (i, t) =>
      match code t with
      | Acq l _ _ =>
          if taken i l (threads p)
          then default i (fst <$> list_find (fun t => owned l t = true) (threads p)) else i
      | _ => i
      end
  | None => 0%nat
  end.

Definition work_left (n : nat) (p : pool) : Prop :=
  pool_ok p /\ exists ns, Forall2 (fun t m => within m (code t)) (threads p) ns /\ sum_list ns = n.

Lemma holder_moves p j u l :
  pool_ok p -> threads p !! j = Some u -> l ∈ t_held u -> pool_step j p <> None.
Proof.
  intros Hp Hj Hl. pose proof (p_safe _ Hp j u Hj) as Hs. unfold thread_safe in Hs.
  unfold pool_step. rewrite Hj. simpl.
  destruct (code u) as [a | B m k | l' intr k]; [| done |].
  all: destruct (Hs (p_drv p) (PreOrder_Reflexive _) (p_inv _ Hp)) as (Hh & _);
       rewrite Hh in Hl; by apply not_elem_of_nil in Hl.
Qed.

Lemma pool_helper_moves p :
  pool_ok p -> ~ all_returned (Done p) ->
  (helper p < length (threads p))%nat /\ pool_step (helper p) p <> None.
Proof.
  intros Hp Hg. unfold helper.
  destruct (list_find (fun t => returned t = false) (threads p)) as [[i t]|] eqn:Hf.
  2:{ exfalso. apply Hg. simpl. apply list_find_None in Hf. eapply Forall_impl; [exact Hf|].
      intros u Hu. simpl in Hu. by destruct (returned u). }
  apply list_find_Some in Hf as (Hi & Hr & _). simpl in Hr. pose proof (lookup_lt_Some _ _ _ Hi) as Hlt.
  assert (Hself : (forall l intr k, code t = Acq l intr k -> taken i l (threads p) = false) ->
                  (i < length (threads p))%nat /\ pool_step i p <> None).
  { intros Hfree. split; [done|]. unfold pool_step. rewrite Hi. simpl. unfold returned in Hr.
    destruct (code t) as [a | B m k | l intr k] eqn:Hc; [done | done |]. by rewrite (Hfree l intr k eq_refl). }
  destruct (code t) as [a | B m k | l intr k] eqn:Hc; [by apply Hself | by apply Hself |].
  destruct (taken i l (threads p)) eqn:Htk.
  2:{ apply Hself. by intros l' intr' k' [= <- <- <-]. }
  destruct (list_find (fun t => owned l t = true) (threads p)) as [[j u]|] eqn:Hj; simpl.
  - apply list_find_Some in Hj as (Hj & Hl & _). apply bool_decide_eq_true in Hl.
    split; [by eapply lookup_lt_Some | by eapply holder_moves].
  - exfalso. apply list_find_None in Hj. unfold taken in Htk. apply existsb_exists in Htk as (u & Hu & Hl).
    apply list_elem_of_In, list_elem_of_delete_inv in Hu. by apply (proj1 (Forall_forall _ _) Hj u).
Qed.

Lemma sum_list_insert (ns : list nat) i n m :
  ns !! i = Some n -> (sum_list (<[i := m]> ns) + n = sum_list ns + m)%nat.
Proof.
  revert i. induction ns as [|k ns IH]; intros [|i] E; simpl in *; try done.
  - injection E as ->. lia.
  - specialize (IH _ E). lia.
Qed.

(** A step uses up one unit of work. *)
Lemma step_works n p i c :
  work_left n p -> pool_step i p = Some c ->
  exists p' n', c = Done p' /\ length (threads p') = length (threads p) /\ work_left n' p' /\ (n' < n)%nat.
Proof.
  intros (Hp & ns & Hns & <-) E.
  destruct (pool_step_ok p i c Hp E) as (t & p' & Ht & -> & Hp' & _ & t' & Hts & Hk).
  destruct (Forall2_lookup_l _ _ _ _ _ Hns Ht) as (m & Hm & Hw).
  assert (Hw' : exists m', within m' (code t') /\ m = S m').
  { destruct (code t) as [a | B mm k | l intr k]; [done | |]; destruct Hk as [b ->];
      destruct m as [|m]; try done; exists m; (split; [apply Hw | done]). }
  destruct Hw' as (m' & Hw' & ->).
  exists p', (sum_list (<[i := m']> ns)). split; [done|]. split; [by rewrite Hts, length_insert|].
  split; [|pose proof (sum_list_insert ns i (S m') m' Hm); lia].
  split; [done|]. exists (<[i := m']> ns). split; [|done]. rewrite Hts. by apply Forall2_insert.
Qed.

Lemma pool_returns (sched : nat -> nat) n p :
  work_left n p -> fair_among (fun i => (i < length (threads p))%nat) sched ->
  exists k, all_returned (runs pool_step sched k (Done p)).
Proof.
  intros Hw Hf.
  apply (bounded_eventually pool_step all_returned (fun i => (i < length (threads p))%nat)
           (fun n q => work_left n q /\ length (threads q) = length (threads p)) helper sched n p Hf); [|done].
  intros i m q Hi [Hq Hlen] Hg. destruct (pool_helper_moves q (proj1 Hq) Hg) as [Hlt Hmv].
  split; [by rewrite <- Hlen|]. right. simpl. destruct (pool_step i q) as [c|] eqn:E; simpl.
  - destruct (step_works m q i c Hq E) as (q' & n' & -> & Hl & Hq' & Hn').
    exists q', n'. split; [done|]. split; [split; [done | congruence] | by left].
  - exists q, m. split; [done|]. split; [done|]. right. split; [by intros -> | done].
Qed.
End Pool.

(** ** Turns of one call in a row *)

Section Solo.
Context {W D A : Type} `{Signals W}.

(** A step of a call that asks for mutexes in [P] only. *)
Inductive moves (P : lock -> Prop) : prog W D A * kst W D -> prog W D A * kst W D -> Prop :=
  | moves_act B (m : M W D B) k σ b σ' : m σ = Done (b, σ') -> moves P (Act m k, σ) (k b, σ')
  | moves_acq l intr k σ rc σ' :
      P l -> acquire_m l intr σ = Done (rc, σ') -> moves P (Acq l intr k, σ) (k rc, σ').

Lemma delete_insert_same {X} i (x : X) (xs : list X) : delete i (<[i:=x]> xs) = delete i xs.
Proof. revert i. induction xs as [|y xs IH]; intros [|i]; simpl; try done. f_equal. apply IH. Qed.

(** In a pool where nobody else holds a mutex of [P]. *)
Lemma pool_moves P i (p : pool) t c' σ' :
  threads p !! i = Some t -> (forall l, P l -> taken i l (threads p) = false) ->
  rtc (moves P) (code t, KSt (p_drv p) (p_world p) (t_held t) (t_ledger t)) (c', σ') ->
  exists ts, exec pool_step ts (Done p) =
    Done (Pool (drv σ') (world σ') (<[i := Thread c' (held σ') (ledger σ')]> (threads p))).
Proof.
  intros Ht HP Hr. remember (code t, _) as x eqn:Ex. remember (c', σ') as y eqn:Ey.
  revert p t Ht HP Ex. induction Hr as [x | x x1 y Hm _ IH]; intros p t Ht HP Ex.
  - rewrite Ex in Ey. injection Ey as <- <-. exists []. destruct p, t. simpl in *. by rewrite list_insert_id.
  - subst x. assert (Hstep : exists c1 σ1, x1 = (c1, σ1) /\ pool_step i p =
        Some (Done (Pool (drv σ1) (world σ1) (<[i := Thread c1 (held σ1) (ledger σ1)]> (threads p))))).
    { inversion Hm as [B m k σ b σ1 Hb Ec | l intr k σ rc σ1 Hl Hrc Ec]; subst;
        unfold pool_step; rewrite Ht; simpl; rewrite <- Ec, ?HP by done; unfold resume;
        eexists; eexists; (split; [done|]); by rewrite ?Hb, ?Hrc. }
    destruct Hstep as (c1 & σ1 & -> & Hs).
    destruct (IH Ey (Pool (drv σ1) (world σ1) (<[i := Thread c1 (held σ1) (ledger σ1)]> (threads p)))
                (Thread c1 (held σ1) (ledger σ1))) as [ts Hts]; simpl.
    + apply list_lookup_insert_eq. by eapply lookup_lt_Some.
    + intros l Hl. unfold taken. rewrite delete_insert_same. by apply HP.
    + by destruct σ1.
    + exists (i :: ts). change (exec pool_step (i :: ts) (Done p)) with (exec pool_step ts (move pool_step (Done p) i)).
      simpl move. rewrite Hs. simpl. rewrite Hts. simpl. by rewrite list_insert_insert_eq.
Qed.
End Solo.

Section SoloBind.
Context {W D A B : Type} `{Signals W}.

Lemma moves_bind P (f : A -> prog W D B) (p p' : prog W D A) σ σ' :
  rtc (moves P) (p, σ) (p', σ') -> rtc (moves P) (p ≫= f, σ) (p' ≫= f, σ').
Proof.
  intros Hr. remember (p, σ) as x eqn:Ex. remember (p', σ') as y eqn:Ey. revert p σ Ex.
  induction Hr as [x | x x1 y Hm _ IH]; intros p σ ->; [by injection Ey as -> ->|].
  destruct x1 as [p1 σ1]. eapply rtc_l; [|by apply IH]. clear IH Ey.
  inversion Hm as [C m k s b s1 Hb | l intr k s rc s1 Hl Hrc]; subst.
  - exact (moves_act P C m (fun b => k b ≫= f) _ _ _ Hb).
  - exact (moves_acq P l intr (fun rc => k rc ≫= f) _ _ _ Hl Hrc).
Qed.

Lemma moves_ret P (f : A -> prog W D B) (p : prog W D A) a σ σ' y :
  rtc (moves P) (p, σ) (Ret a, σ') -> rtc (moves P) (f a, σ') y -> rtc (moves P) (p ≫= f, σ) y.
Proof. intros Hp Hf. etrans; [by apply (moves_bind P f) in Hp | exact Hf]. Qed.

(** A part that asks for no mutex. *)
Fixpoint lockfree (p : prog W D A) : Prop :=
  match p with Ret _ => True | Act m k => forall b, lockfree (k b) | Acq _ _ _ => False end.

Lemma run_moves P (p : prog W D A) σ a σ' :
  lockfree p -> run p σ = Done (a, σ') -> rtc (moves P) (p, σ) (Ret a, σ').
Proof.
  revert σ. induction p as [a0 | C m k IH | l intr k IH]; intros σ Hl Hr; [| |done].
  - injection Hr as -> ->. done.
  - simpl in Hr. unfold mbind, M_bind in Hr. destruct (m σ) as [[b σ1]|] eqn:E; [|done].
    eapply rtc_l; [by apply moves_act|]. by apply IH.
Qed.
End SoloBind.

(** ** Composing judgements *)

Section Compose.
Context {W D : Type}.
Context (Inv : D -> Prop) (WInv : W -> Prop) (R G : list lock -> D -> D -> Prop).
Hypothesis R_pre : forall h, PreOrder (R h).
Local Abbreviation safe p := (safe Inv WInv R G p).

Lemma safe_bind {A B} (p : prog W D A) (f : A -> prog W D B) Q h l d :
  safe p (fun a h l d => safe (f a) Q h l d) h l d -> safe (p ≫= f) Q h l d.
Proof.
  revert h l d. induction p as [a | C m k IH | lk intr k IH]; intros h l d Hp; simpl.
  - apply safe_now; [exact R_pre|]. intros d' HR Hd'. by apply Hp.
  - intros d' HR Hd' w Hw. eapply wp_mono; [by apply Hp|].
    intros b σ (? & ? & ? & ? & Hk). split_and!; auto. by apply IH.
  - intros d' HR Hd'. destruct (Hp d' HR Hd') as (Hh & H0 & Hn).
    split; [done|]. split; [by apply IH|]. intros Hi rc Hrc. by apply IH, Hn.
Qed.

Lemma safe_mono {A} (p : prog W D A) (Q Q' : A -> list lock -> list resource -> D -> Prop) h l d :
  safe p Q h l d -> (forall a h l d, Q a h l d -> Q' a h l d) -> safe p Q' h l d.
Proof.
  intros Hp HQ. revert h l d Hp. induction p as [a | B m k IH | lk intr k IH]; intros h l d Hp d' HR Hd'.
  - by apply HQ, Hp.
  - intros w Hw. eapply wp_mono; [by apply Hp|]. intros b σ (? & ? & ? & ? & Hk). split_and!; auto.
  - destruct (Hp d' HR Hd') as (Hh & H0 & Hn).
    split; [done|]. split; [by apply IH|]. intros Hi rc Hrc. by apply IH, Hn.
Qed.

(** A step, and a request for a mutex. *)
Lemma safe_step {A B} (m : M W D B) (f : B -> prog W D A) Q h l d :
  (forall d', R h d d' -> Inv d' -> forall w, WInv w ->
     wp m (fun b σ => held σ ⊆ h /\ WInv (world σ) /\ Inv (drv σ) /\ G h d' (drv σ) /\
                      safe (f b) Q (held σ) (ledger σ) (drv σ)) (KSt d' w h l)) ->
  safe (act m ≫= f) Q h l d.
Proof. done. Qed.

Lemma safe_lock {A} k (f : unit -> prog W D A) Q l d :
  (forall d', R [] d d' -> Inv d' -> safe (f tt) Q [k] l d') -> safe (lock_p k ≫= f) Q [] l d.
Proof. intros Hf d' HR Hd'. by split_and!; [| apply Hf |]. Qed.

Lemma safe_lock_intr {A} k (f : Z -> prog W D A) Q l d :
  (forall d', R [] d d' -> Inv d' ->
     safe (f 0) Q [k] l d' /\ forall rc, rc <> 0 -> safe (f rc) Q [] l d') ->
  safe (lock_intr_p k ≫= f) Q [] l d.
Proof. intros Hf d' HR Hd'. destruct (Hf d' HR Hd'). by split_and!. Qed.

Lemma safe_ret {A} (a : A) (Q : A -> list lock -> list resource -> D -> Prop) h l d :
  (forall d', R h d d' -> Inv d' -> Q a h l d') -> safe (Ret a : prog W D A) Q h l d.
Proof. done. Qed.

(** The loop rule, for an invariant that the other calls keep. *)
Lemma safe_for {A} (I : Z -> list lock -> list resource -> D -> Prop)
    (Q : option A -> list lock -> list resource -> D -> Prop) n i
    (body : Z -> prog W D (option A)) h l d :
  I i h l d ->
  (forall j h l d, i <= j < i + Z.of_nat n -> I j h l d ->
     safe (body j) (fun r h l d =>
       match r with
       | None => I (j + 1) h l d
       | Some _ => forall d', R h d d' -> Inv d' -> Q r h l d'
       end) h l d) ->
  (forall h l d, I (i + Z.of_nat n) h l d -> Q None h l d) ->
  (forall j h l d d', I j h l d -> R h d d' -> Inv d' -> I j h l d') ->
  safe (for_p n i body) Q h l d.
Proof.
  intros Hi Hb Hq Hst. revert i h l d Hi Hb Hq. induction n as [|n IH]; intros i h l d Hi Hb Hq.
  - apply safe_ret. intros d' HR Hd'. apply Hq. rewrite Z.add_0_r. by eapply Hst.
  - cbn [for_p]. apply safe_bind. eapply safe_mono; [by apply Hb; [lia|]|].
    intros [a|] h' l' d' Hr; simpl; [|].
    + by apply safe_ret.
    + apply IH; [done | |].
      * intros j h2 l2 d3 Hj. apply Hb. lia.
      * intros h2 l2 d3. replace (i + 1 + Z.of_nat n) with (i + Z.of_nat (S n)) by lia. apply Hq.
Qed.
End Compose.

(** ** Bounds on the number of steps *)

Section Within.
Context {W D : Type}.

Lemma within_mono {A} n m (p : prog W D A) : (n <= m)%nat -> within n p -> within m p.
Proof.
  revert n m. induction p as [a | B c k IH | l intr k IH]; intros [|n] [|m] Hle Hp; simpl in *; try done; try lia.
  all: intros b; eapply IH; [|apply Hp]; lia.
Qed.

Lemma within_bind {A B} n m (p : prog W D A) (f : A -> prog W D B) :
  within n p -> (forall a, within m (f a)) -> within (n + m) (p ≫= f).
Proof.
  intros Hp Hf. revert n Hp. induction p as [a | C c k IH | l intr k IH]; intros n Hp.
  - eapply within_mono; [|apply Hf]. lia.
  - destruct n as [|n]; [done|]. intros b. by apply IH.
  - destruct n as [|n]; [done|]. intros rc. by apply IH.
Qed.

Lemma within_for {A} n k i (body : Z -> prog W D (option A)) :
  (forall j, within n (body j)) -> within (k * n) (for_p k i body).
Proof.
  intros Hb. revert i. induction k as [|k IH]; intros i; [done|]. cbn [for_p Nat.mul].
  apply within_bind; [apply Hb|]. intros [a|]; [by destruct (k * n)%nat | apply IH].
Qed.

Lemma within_ret {A} (a : A) : within 0 (mret a : prog W D A).
Proof. exact I. Qed.

Lemma within_act {A B} n (m : M W D B) (f : B -> prog W D A) :
  (forall b, within n (f b)) -> within (S n) (act m ≫= f).
Proof. done. Qed.

Lemma within_last {A} (m : M W D A) : within 1 (act m).
Proof. done. Qed.

Lemma within_unlock {A} n k (f : unit -> prog W D A) :
  (forall b, within n (f b)) -> within (S n) (unlock_p k ≫= f).
Proof. intros Hf. exact Hf. Qed.

Lemma within_lock {A} n k (f : unit -> prog W D A) : within n (f tt) -> within (S n) (lock_p k ≫= f).
Proof. by intros Hf rc. Qed.

Lemma within_lock_intr {A} n k (f : Z -> prog W D A) :
  (forall rc, within n (f rc)) -> within (S n) (lock_intr_p k ≫= f).
Proof. intros Hf. exact Hf. Qed.

Lemma within_if {A} n m (b : bool) (p q : prog W D A) :
  within n p -> within m q -> within (Nat.max n m) (if b then p else q).
Proof. intros Hp Hq. destruct b; (eapply within_mono; [|eassumption]); lia. Qed.

Lemma within_option {A X} n m (o : option X) (p : X -> prog W D A) q :
  (forall x, within n (p x)) -> within m q ->
  within (Nat.max n m) (match o with Some x => p x | None => q end).
Proof. intros Hp Hq. destruct o; (eapply within_mono; [|by eauto]); lia. Qed.
End Within.

(** A bound for a program without loops. *)
Ltac bound :=
  cbv zeta;
  lazymatch goal with
  | |- within _ (mret _) => apply within_ret
  | |- within _ (act _ ≫= _) => eapply within_act; intros ?; bound
  | |- within _ (act _) => apply within_last
  | |- within _ (unlock_p _) => apply within_last
  | |- within _ (unlock_p _ ≫= _) => eapply within_unlock; intros ?; bound
  | |- within _ (lock_p _ ≫= _) => eapply within_lock; bound
  | |- within _ (lock_intr_p _ ≫= _) => eapply within_lock_intr; intros ?; bound
  | |- within _ (if _ then _ else _) => first [eapply within_if | eapply within_option; [intros ?|]]; bound
  | |- within _ (let '(_, _) := ?b in _) => destruct b; bound
  | |- within _ (match _ with _ => _ end) => eapply within_option; [intros ?|]; bound
  | |- within _ (_ ≫= _) => eapply within_bind; [bound | intros ?; bound]
  | |- _ => eauto with within
  end.
Create HintDb within.


(** ** A component's handler as a part of a larger driver *)

Section Zoom.
Context {W D E : Type} `{Signals W} (proj : D -> E) (put : E -> D -> D).
Context (put_proj : forall d, put (proj d) d = d).
Context (proj_put : forall e d, proj (put e d) = e).
Context (put_put : forall e e' d, put e (put e' d) = put e d).

Fixpoint zoom_p {A} (p : prog W E A) : prog W D A :=
  match p with
  | Ret a => Ret a
  | Act m k => Act (zoom proj put m) (fun b => zoom_p (k b))
  | Acq l intr k => Acq l intr (fun rc => zoom_p (k rc))
  end.

Lemma zoom_bind {A B} (m : M W E A) (f : A -> M W E B) :
  zoom proj put (m ≫= f) ≡ₑ (zoom proj put m ≫= fun a => zoom proj put (f a)).
Proof.
  intros [d w h l]. unfold zoom, mbind, M_bind. simpl.
  destruct (m _) as [[a [e w' h' l']]|]; [|done]. simpl. rewrite proj_put.
  destruct (f a _) as [[b [e2 w2 h2 l2]]|]; [|done]. by rewrite put_put.
Qed.

Lemma zoom_meq {A} (m1 m2 : M W E A) : m1 ≡ₑ m2 -> zoom proj put m1 ≡ₑ zoom proj put m2.
Proof. intros Hm σ. unfold zoom. by rewrite Hm. Qed.

Lemma zoom_acquire l intr : zoom proj put (acquire_m (D := E) l intr) ≡ₑ acquire_m l intr.
Proof.
  intros [d w h L]. unfold zoom, acquire_m. destruct intr.
  - unfold mutex_lock_interruptible, call, mbind, M_bind. simpl.
    destruct (k_lock_interruptible l w) as [rc w']. simpl. unfold set_world. simpl.
    destruct (rc =? 0); simpl; [|by rewrite put_proj].
    unfold lock_it, set_held. simpl. case_decide; [done|]. simpl. by rewrite put_proj.
  - unfold mutex_lock, lock_it, mbind, M_bind, set_held. simpl. case_decide; [done|]. simpl. by rewrite put_proj.
Qed.

Lemma run_zoom {A} (p : prog W E A) : run (zoom_p p) ≡ₑ zoom proj put (run p).
Proof.
  induction p as [a | B m k IH | l intr k IH].
  - intros [d w h L]. unfold zoom. simpl. by rewrite put_proj.
  - simpl. rewrite zoom_bind. by apply bind_meq.
  - simpl. rewrite zoom_bind. apply bind_meq; [symmetry; apply zoom_acquire | done].
Qed.

Lemma within_zoom {A} n (p : prog W E A) : within n p -> within n (zoom_p p).
Proof.
  revert n. induction p as [a | B m k IH | l intr k IH]; intros [|n] Hp; simpl in *; try done.
  all: intros b; by apply IH.
Qed.
End Zoom.

Lemma safe_zoom_bind {W D E A B} (proj : D -> E) put (Inv : D -> Prop) (WInv : W -> Prop)
    (R G : list lock -> D -> D -> Prop) (R_pre : forall h, PreOrder (R h))
    (p : prog W E A) (f : A -> prog W E B) Q h l d :
  safe Inv WInv R G (zoom_p proj put p) (fun a h l d => safe Inv WInv R G (zoom_p proj put (f a)) Q h l d) h l d ->
  safe Inv WInv R G (zoom_p proj put (p ≫= f)) Q h l d.
Proof.
  revert h l d. induction p as [a | C m k IH | lk intr k IH]; intros h l d Hp; simpl.
  - apply safe_now; [exact R_pre|]. intros d' HR Hd'. by apply Hp.
  - intros d' HR Hd' w Hw. eapply wp_mono; [by apply Hp|].
    intros b σ (? & ? & ? & ? & Hk). split_and!; auto. by apply IH.
  - intros d' HR Hd'. destruct (Hp d' HR Hd') as (Hh & H0 & Hn).
    split; [done|]. split; [by apply IH|]. intros Hi rc Hrc. by apply IH, Hn.
Qed.
