(* ===== verification/Linear.v ===== *)
(** * Calls whose work is one critical section take effect one after the other

    A call that asks for a mutex, does everything while it holds it and
    returns ([sectioned]) can overlap with any number of others: they behave
    as if each had run alone, at the moment it released its mutex
    ([pool_linear]). [history] lists the calls in that order, [view] is the
    part of the driver's variables that a mutex protects; [alone] is a Hoare
    triple for a critical section in terms of that part. *)

From S2P Require Import Prelude Kernel Wp Sched Resume.

Section Linear.
Context {W D A X : Type} `{Signals W}.
Local Abbreviation P := (prog W D A).
Local Abbreviation thread := (thread (W := W) (D := D) (A := A)).
Local Abbreviation pool := (pool (W := W) (D := D) (A := A)).

(** ** The order in which calls take effect *)

Record event := Event { who : nat; on : lock; what : A }.

(** The call [i] that has released its mutex in the step from [p] to [p']. *)
Definition released (i : nat) (p p' : pool) : list event :=
  match threads p !! i, threads p' !! i with
  | Some t, Some t' =>
      match t_held t, t_held t', code t' with
      | [l], [], Ret a => [Event i l a]
      | _, _, _ => []
      end
  | _, _ => []
  end.

Fixpoint history (ts : list nat) (p : pool) : list event :=
  match ts with
  | [] => []
  | i :: ts =>
      match pool_step i p with
      | Some (Done p') => released i p p' ++ history ts p'
      | Some (Oops _) => []
      | None => history ts p
      end
  end.

(** A longer run continues the history. *)
Lemma history_app ts1 ts2 p :
  history ts1 p `prefix_of` history (ts1 ++ ts2) p.
Proof.
  revert p. induction ts1 as [|i ts1 IH]; intros p; [apply prefix_nil|]. simpl.
  destruct (pool_step i p) as [[p'|]|]; [by apply prefix_app, IH | done | apply IH].
Qed.

(** ** One call *)

Context (Inv : D -> Prop) (view : lock -> D -> X).

(** The rest of a call that holds [l], when it starts with [x] in the part
    of [l] and nobody interferes with that part: it keeps [Inv], leaves what
    other mutexes protect alone, and as soon as it has released [l] it returns
    a result and leaves a part that satisfy [Q]. *)
Fixpoint alone (l : lock) (p : P) (x : X) (Q : A -> X -> Prop) : Prop :=
  match p with
  | Act m k => forall d w, Inv d -> view l d = x ->
      wp m (fun b σ => Inv (drv σ) /\ (forall l', l' <> l -> view l' (drv σ) = view l' d) /\ ledger σ = [] /\
              (held σ = [l] /\ alone l (k b) (view l (drv σ)) Q \/
               held σ = [] /\ exists a, k b = Ret a /\ Q a (view l (drv σ)))) (KSt d w [l] [])
  | _ => False
  end.

(** A call with the effect [eff]. *)
Definition sectioned (p : P) (eff : X -> A -> X -> Prop) : Prop :=
  match p with
  | Ret _ => True
  | Act _ _ => False
  | Acq l intr k => (forall x, alone l (k 0) x (eff x)) /\
                    (intr = true -> forall rc, rc <> 0 -> exists a, k rc = Ret a)
  end.

Lemma alone_mono l p x (Q Q' : A -> X -> Prop) :
  (forall a x', Q a x' -> Q' a x') -> alone l p x Q -> alone l p x Q'.
Proof.
  intros HQ. revert x. induction p as [a | B m k IH | l' intr k IH]; intros x Hp; [done | | done].
  intros d w Hd Hx. eapply wp_mono; [by apply Hp|].
  intros b σ (? & ? & ? & [[? Ha]|(? & a & ? & ?)]); split_and!; auto. right. split; [done|]. exists a. auto.
Qed.

Lemma sectioned_mono p (eff eff' : X -> A -> X -> Prop) :
  (forall x a x', eff x a x' -> eff' x a x') -> sectioned p eff -> sectioned p eff'.
Proof.
  intros He. destruct p as [| | l intr k]; [done.. |]. intros [Ha Hr]. split; [|done].
  intros x. eapply alone_mono; [by apply He | apply Ha].
Qed.

(** Others do not touch what my mutexes protect, nor do I touch the rest. *)
Definition keeps (h : list lock) (d d' : D) : Prop := forall l, l ∈ h -> view l d' = view l d.
Definition only (h : list lock) (d d' : D) : Prop := forall l, l ∉ h -> view l d' = view l d.

Lemma keeps_pre h : PreOrder (keeps h).
Proof. split; [done|]. intros d1 d2 d3 H1 H2 l Hl. by rewrite H2, H1. Qed.

Lemma only_keeps h h' d d' : h ## h' -> Inv d -> only h d d' -> keeps h' d d'.
Proof. intros Hh _ Ho l Hl. apply Ho. intros Hl'. by apply (Hh l). Qed.

Local Abbreviation secure p := (safe Inv (fun _ : W => True) keeps only p clean).

Lemma alone_safe l p Q d : alone l p (view l d) Q -> secure p [l] [] d.
Proof.
  revert d. induction p as [a | B m k IH | l' intr k IH]; intros d Hp; [done | | done].
  intros d' HR Hd' w _. eapply wp_mono; [apply Hp; [done | by apply HR; left]|].
  intros b σ (Hi & Hv & Hl & Hc).
  assert (Ho : only [l] d' (drv σ)) by (intros l' Hl'; apply Hv; intros ->; apply Hl'; by left).
  destruct Hc as [[Hh Hg]|[Hh (a & Ha & _)]]; rewrite Hh, Hl; split_and!; try done.
  - by apply IH.
  - intros x Hx. by apply not_elem_of_nil in Hx.
  - by rewrite Ha.
Qed.

Lemma sectioned_safe p eff d : sectioned p eff -> secure p [] [] d.
Proof.
  destruct p as [a | B m k | l intr k]; intros Hp d' _ Hd'; [done | done |]. destruct Hp as [Hg Hr].
  split; [done|]. split; [by eapply alone_safe|]. intros Hi rc Hrc. by destruct (Hr Hi rc Hrc) as [a ->].
Qed.

(** ** A pool *)

Context (ps : list P) (eff : nat -> X -> A -> X -> Prop) (d0 : D).

(** The calls of [es] under [l], one after the other. *)
Fixpoint chain (l : lock) (es : list event) (x x' : X) : Prop :=
  match es with
  | [] => x' = x
  | e :: es => if decide (on e = l) then exists x1, eff (who e) x (what e) x1 /\ chain l es x1 x' else chain l es x x'
  end.

Lemma chain_snoc l es e x x' x'' :
  on e = l -> chain l es x x' -> eff (who e) x' (what e) x'' -> chain l (es ++ [e]) x x''.
Proof.
  intros He. revert x. induction es as [|f es IH]; intros x Hc Hn; simpl in *.
  - subst x'. rewrite decide_True by done. eauto.
  - case_decide; [destruct Hc as (x1 & ? & ?); eauto | eauto].
Qed.

Lemma chain_other l es es' x x' :
  (forall e, e ∈ es' -> on e <> l) -> chain l es x x' -> chain l (es ++ es') x x'.
Proof.
  intros He. revert x. induction es as [|f es IH]; intros x Hc; simpl in *.
  - subst x'. induction es' as [|e es' IH]; simpl; [done|].
    rewrite decide_False by (apply He; by left). apply IH. intros f Hf. apply He. by right.
  - case_decide; [destruct Hc as (x1 & ? & ?); eauto | eauto].
Qed.

(** How call [i], which began as [q], has returned [a]. *)
Definition finished (es : list event) (i : nat) (q : P) (a : A) : Prop :=
  match q with
  | Ret a' => a' = a
  | Act _ _ => False
  | Acq l intr k => Event i l a ∈ es \/ ~ (i ∈ who <$> es) /\ intr = true /\ exists rc, rc <> 0 /\ k rc = Ret a
  end.

(** Call [i] has not started, is inside its critical section, or is over. *)
Definition phase (es : list event) (d : D) (i : nat) (q : P) (t : thread) : Prop :=
  t_ledger t = [] /\
  (code t = q /\ t_held t = [] /\ sectioned q (eff i) /\ ~ (i ∈ who <$> es) \/
   (exists l intr k x0, q = Acq l intr k /\ t_held t = [l] /\ ~ (i ∈ who <$> es) /\
      chain l es (view l d0) x0 /\ alone l (code t) (view l d) (eff i x0)) \/
   (exists a, code t = Ret a /\ t_held t = [] /\ finished es i q a)).

Definition free (l : lock) (ts : list thread) : Prop := forall i t, ts !! i = Some t -> l ∉ t_held t.

Record linear (es : list event) (p : pool) : Prop := {
  ln_phase : forall i t, threads p !! i = Some t -> exists q, ps !! i = Some q /\ phase es (p_drv p) i q t;
  ln_once : NoDup (who <$> es);
  ln_over : forall e, e ∈ es -> exists t intr k, threads p !! who e = Some t /\ code t = Ret (what e) /\
                                                ps !! who e = Some (Acq (on e) intr k);
  ln_free : forall l, free l (threads p) -> chain l es (view l d0) (view l (p_drv p));
}.

(** What a step of another call may do to a call. *)
Lemma phase_other es es' d d' i q t :
  phase es d i q t -> (forall e, e ∈ es' -> who e <> i /\ on e ∉ t_held t) ->
  (forall l, l ∈ t_held t -> view l d' = view l d) -> phase (es ++ es') d' i q t.
Proof.
  intros [Hl Hp] He Hv.
  assert (Hnot : ~ (i ∈ who <$> es) -> i ∉ (who <$> es ++ es')).
  { intros Hi Hin. rewrite fmap_app in Hin. apply elem_of_app in Hin as [|Hin]; [done|].
    apply list_elem_of_fmap in Hin as (e & -> & Hin). by destruct (He e Hin). }
  split; [done|]. destruct Hp as [(? & ? & ? & Hi)|[(l & intr & k & x0 & Hq & Hh & Hi & Hc & Hn)|(a & Ha & Hh & Hf)]].
  - left. auto.
  - right; left. exists l, intr, k, x0. rewrite Hh in *. split_and!; auto.
    + apply chain_other; [|done]. intros e Hin Hon. destruct (He e Hin) as [_ Hno]. apply Hno.
      rewrite Hon. by left.
    + rewrite Hv by by left. done.
  - right; right. exists a. split_and!; try done. destruct q as [| | l intr k]; simpl in *; try done.
    destruct Hf as [Hf|(Hi & ? & ?)]; [left; apply elem_of_app; by left | right; auto].
Qed.

(** Call [i] goes from [t] to [t'] and adds [es'] to the history. *)
Lemma linear_step es es' p i t t' d w q :
  linear es p -> apart (threads p) -> threads p !! i = Some t -> ps !! i = Some q ->
  phase (es ++ es') d i q t' ->
  (forall e, e ∈ es' -> who e = i /\ on e ∈ t_held t /\ code t' = Ret (what e) /\
                        exists intr k, q = Acq (on e) intr k) ->
  NoDup (who <$> es ++ es') ->
  (forall e, e ∈ es -> who e <> i) ->
  (forall l, l ∉ t_held t -> view l d = view l (p_drv p)) ->
  (forall l, l ∈ t_held t -> l ∉ t_held t' -> chain l (es ++ es') (view l d0) (view l d)) ->
  linear (es ++ es') (Pool d w (<[i := t']> (threads p))).
Proof.
  intros [Hph Hon Hov Hfr] Hap Ht Hq Hp' He Hnd Hes Hv Hl.
  pose proof (lookup_lt_Some _ _ _ Ht) as Hlt. split; simpl; [| done | |].
  - intros j u Hj. apply list_lookup_insert_Some in Hj as [(-> & <- & _)|[Hij Hj]]; [by exists q|].
    destruct (Hph j u Hj) as (q' & Hq' & Hu). exists q'. split; [done|].
    eapply phase_other; [exact Hu | |].
    + intros e Hin. destruct (He e Hin) as (-> & Hon' & _). split; [done|].
      intros Hin'. by eapply (Hap i j t u).
    + intros l Hin. apply Hv. intros Hin'. by eapply (Hap i j t u).
  - intros e Hin. apply elem_of_app in Hin as [Hin|Hin].
    + rewrite list_lookup_insert_ne by (intros ->; by apply (Hes e Hin)). by apply Hov.
    + destruct (He e Hin) as (-> & _ & Hc & intr & k & ->). exists t', intr, k.
      split; [by rewrite list_lookup_insert_eq | done].
  - intros l Hf. assert (Hl' : l ∉ t_held t').
    { apply (Hf i). by rewrite list_lookup_insert_eq. }
    destruct (decide (l ∈ t_held t)) as [Hin|Hin]; [by apply Hl|].
    rewrite Hv by done. apply chain_other.
    + intros e Hin' <-. by destruct (He e Hin') as (_ & ? & _).
    + apply Hfr. intros j u Hj. destruct (decide (j = i)) as [->|Hji].
      * by replace u with t by congruence.
      * apply (Hf j). by rewrite list_lookup_insert_ne.
Qed.

Local Abbreviation fine := (pool_ok (A := A) Inv (fun _ : W => True) keeps only).

(** The phase of a call that asks for a mutex: it has not started. *)
Lemma phase_acq es d i q t l intr k :
  phase es d i q t -> code t = Acq l intr k ->
  q = Acq l intr k /\ t_held t = [] /\ t_ledger t = [] /\ (forall x, alone l (k 0) x (eff i x)) /\ ~ (i ∈ who <$> es) /\
  (intr = true -> forall rc, rc <> 0 -> exists a, k rc = Ret a).
Proof.
  intros [Hl Hp] Hc. rewrite Hc in Hp.
  destruct Hp as [(<- & Hh & [Hg Hr] & Hi)|[(l' & intr' & k' & x0 & _ & _ & _ & _ & [])|(a & Ha & _)]]; done.
Qed.

(** The phase of a call about to do a step: it is inside. *)
Lemma phase_act {B} es d i q t (m : M W D B) k :
  phase es d i q t -> code t = Act m k ->
  exists l intr k0 x0, q = Acq l intr k0 /\ t_held t = [l] /\ t_ledger t = [] /\
    ~ (i ∈ who <$> es) /\ chain l es (view l d0) x0 /\ alone l (Act m k) (view l d) (eff i x0).
Proof.
  intros [Hl Hp] Hc. rewrite Hc in Hp.
  destruct Hp as [(<- & _ & [] & _)|[(l & intr & k0 & x0 & Hp)|(a & Ha & _)]]; [|done].
  destruct Hp as (-> & Hh & Hi & Hch & Hn). by exists l, intr, k0, x0.
Qed.

(** Asking for the mutex: got or interrupted. *)
Lemma linear_acquire es p i t l intr k rc w :
  linear es p -> fine p -> threads p !! i = Some t -> code t = Acq l intr k ->
  (rc = 0 -> taken i l (threads p) = false) -> (rc <> 0 -> intr = true) ->
  linear es (Pool (p_drv p) w (<[i := Thread (k rc) (if rc =? 0 then [l] else []) (t_ledger t)]> (threads p))).
Proof.
  intros Hlin Hp Ht Hc Hfree Hint. destruct (ln_phase _ _ Hlin i t Ht) as (q & Hq & Hph).
  destruct (phase_acq _ _ _ _ _ _ _ _ Hph Hc) as (-> & Hh & Hl & Hg & Hi & Hr).
  rewrite <- (app_nil_r es). eapply linear_step; [done | by eapply p_apart | done | exact Hq | | | | | done |].
  - rewrite app_nil_r. split; [done|]. simpl. destruct (Z.eqb_spec rc 0) as [->|Hrc].
    + right; left. exists l, intr, k, (view l (p_drv p)). split_and!; try done.
      apply ln_free; [done|]. intros j u Hj. destruct (decide (i = j)) as [<-|Hij].
      * replace u with t by congruence. rewrite Hh. apply not_elem_of_nil.
      * by eapply taken_false; eauto.
    + right; right. destruct (Hr (Hint Hrc) rc Hrc) as [a Ha]. exists a. split_and!; try done.
      right. split_and!; eauto.
  - intros e He. by apply not_elem_of_nil in He.
  - rewrite app_nil_r. apply Hlin.
  - intros e He <-. apply Hi. by apply list_elem_of_fmap_2.
  - intros l' Hl'. rewrite Hh in Hl'. by apply not_elem_of_nil in Hl'.
Qed.

(** A step inside the critical section, the last one included. *)
Lemma linear_act {B} es p i t (m : M W D B) k b σ :
  linear es p -> fine p -> threads p !! i = Some t -> code t = Act m k ->
  m (KSt (p_drv p) (p_world p) (t_held t) (t_ledger t)) = Done (b, σ) ->
  let p' := Pool (drv σ) (world σ) (<[i := Thread (k b) (held σ) (ledger σ)]> (threads p)) in
  linear (es ++ released i p p') p'.
Proof.
  intros Hlin Hp Ht Hc Hm p'. destruct (ln_phase _ _ Hlin i t Ht) as (q & Hq & Hph).
  destruct (phase_act _ _ _ _ _ _ _ Hph Hc) as (l & intr & k0 & x0 & -> & Hh & Hl & Hi & Hch & Hn).
  pose proof (p_inv _ _ _ _ _ Hp) as Hd. rewrite Hh, Hl in Hm.
  pose proof (Hn (p_drv p) (p_world p) Hd eq_refl) as Hw. unfold wp in Hw. rewrite Hm in Hw.
  destruct Hw as (Hd' & Hv & Hl' & Hcase).
  assert (Hes : forall e, e ∈ es -> who e <> i).
  { intros e He <-. apply Hi. by apply list_elem_of_fmap_2. }
  assert (Hview : forall l', l' ∉ t_held t -> view l' (drv σ) = view l' (p_drv p)).
  { intros l' Hl2. apply Hv. intros ->. apply Hl2. rewrite Hh. by left. }
  unfold released, p'. simpl. rewrite Ht, list_lookup_insert_eq by (by eapply lookup_lt_Some). simpl. rewrite Hh.
  destruct Hcase as [[Hh' Hg']|[Hh' (a & Ha & He)]]; rewrite Hh'.
  - eapply linear_step; [done | by eapply p_apart | done | exact Hq | | | | done | done |].
    + rewrite app_nil_r. split; [done|]. right; left. exists l, intr, k0, x0. by split_and!.
    + intros e He. by apply not_elem_of_nil in He.
    + rewrite app_nil_r. apply Hlin.
    + rewrite Hh. intros l2 H2 H3. done.
  - rewrite Ha.
    eapply linear_step; [done | by eapply p_apart | done | exact Hq | | | | done | done |].
    + split; [done|]. right; right. exists a. split_and!; try done. left. apply elem_of_app. right. by left.
    + intros e Hin. apply list_elem_of_singleton in Hin as ->. simpl. split_and!; [done | | done | by exists intr, k0].
      rewrite Hh. by left.
    + rewrite fmap_app. apply NoDup_app. split_and!; [apply Hlin | | apply NoDup_singleton].
      intros j Hj Hj'. apply list_elem_of_singleton in Hj'. simpl in Hj'. by subst j.
    + rewrite Hh. intros l2 H2 _. apply list_elem_of_singleton in H2 as ->.
      by eapply chain_snoc.
Qed.

Lemma linear_turn es p i c :
  linear es p -> fine p -> pool_step i p = Some c ->
  exists p', c = Done p' /\ fine p' /\ linear (es ++ released i p p') p'.
Proof.
  intros Hlin Hp E.
  destruct (pool_step_ok Inv (fun _ => True) keeps only keeps_pre ltac:(done) only_keeps ltac:(done) p i c Hp E) as (t & p' & Ht & -> & Hp' & _).
  exists p'. split; [done|]. split; [done|]. destruct (code t) as [a | B m k | l intr k] eqn:Hc.
  - unfold pool_step in E. rewrite Ht in E. simpl in E. by rewrite Hc in E.
  - unfold pool_step in E. rewrite Ht in E. simpl in E. rewrite Hc in E. unfold resume in E.
    destruct (m _) as [[b σ]|] eqn:Hm; [|done]. injection E as <-. by eapply linear_act.
  - destruct (acquire_step Inv (fun _ => True) keeps only keeps_pre ltac:(done) p i t l intr k _ Hp Ht Hc E) as (rc & w & [= ->] & Hfree & Hint & _).
    replace (released _ _ _) with (@nil event); [rewrite app_nil_r; by eapply linear_acquire|].
    unfold released. simpl. rewrite Ht, list_lookup_insert_eq by (by eapply lookup_lt_Some).
    destruct (ln_phase _ _ Hlin i t Ht) as (q & Hq & Hph).
    by destruct (phase_acq _ _ _ _ _ _ _ _ Hph Hc) as (_ & -> & _).
Qed.

(** The pool runs on, whatever the schedule, and the history accounts for
    every call and for the variables. *)
Lemma linear_run ts es p :
  linear es p -> fine p ->
  exists p', exec pool_step ts (Done p) = Done p' /\ fine p' /\ linear (es ++ history ts p) p'.
Proof.
  revert es p. induction ts as [|i ts IH]; intros es p Hlin Hp.
  - exists p. simpl. by rewrite app_nil_r.
  - simpl. destruct (pool_step i p) as [c|] eqn:E; simpl.
    + destruct (linear_turn es p i c Hlin Hp E) as (p1 & -> & Hp1 & Hl1). simpl.
      rewrite app_assoc. by apply IH.
    + by apply IH.
Qed.

Lemma linear_start w :
  (forall i p, ps !! i = Some p -> sectioned p (eff i)) -> linear [] (Pool d0 w (calls_of ps)).
Proof.
  intros Hps. split; simpl; [| constructor | |].
  - intros i t Hi. unfold calls_of in Hi. rewrite list_lookup_fmap in Hi.
    destruct (ps !! i) as [q|] eqn:Hq; simplify_eq/=. exists q. split; [done|]. split; [done|].
    left. split_and!; try done; [by apply Hps | apply not_elem_of_nil].
  - intros e He. by apply not_elem_of_nil in He.
  - done.
Qed.

Lemma pool_linear w ts :
  Inv d0 -> (forall i p, ps !! i = Some p -> sectioned p (eff i)) ->
  exists p, exec pool_step ts (Done (Pool d0 w (calls_of ps))) = Done p /\ fine p /\
            linear (history ts (Pool d0 w (calls_of ps))) p.
Proof.
  intros Hd Hps. apply (linear_run ts []); [by apply linear_start|].
  apply pool_start; [done | done |]. apply Forall_lookup. intros i q Hq. by eapply sectioned_safe, Hps.
Qed.
End Linear.
