(* ===== verification/User.v ===== *)
(** * User programs

    A program runs as a computation over a driver's state and its own output:
    it opens the device file, calls the handlers of the driver model and
    prints. Its variables whose address it hands to the driver live in user
    memory, at addresses that are parameters; printed lines are values of a
    type of the program. *)

From S2P Require Import Prelude Kernel Wp Sim.

(** A store by the program to its own memory. *)
Class UserStore (W : Type) := { k_store : Z -> list byte -> W -> W }.
Class UserStoreOk (W : Type) `{UserStore W} `{UserMem W} : Prop := {
  store_ok a bs w : umem (k_store a bs w) ≡ₘ uwrite (umem w) a bs;
}.

(** A request for a resource leaves the program's memory alone. *)
Class GrantsFrame (W : Type) `{Grants W} `{UserMem W} : Prop := {
  grant_frame r w rc w' : k_grant r w = (rc, w') -> umem w' ≡ₘ umem w;
}.

(** The driver and what the program has printed. *)
Record proc (D O : Type) := Proc { dev : D; out : list O }.
Arguments Proc {D O}.
Arguments dev {D O}.
Arguments out {D O}.

Section Program.
Context {W : Type}.

Definition store {D} `{UserStore W} (a : Z) (bs : list byte) : M W D unit :=
  call (fun w => (tt, k_store a bs w)).
Definition load {D} `{UserMem W} (a n : Z) : M W D (list byte) :=
  call (fun w => (uread (umem w) a n, w)).
Definition open_file {D} `{Grants W} (name : string) : M W D Z := acquire (Fd name).
Definition close_file {D} (name : string) : M W D unit := release (Fd name).

Context {D O : Type}.

(** A system call that enters the driver. *)
Definition drive {A} (m : M W D A) : M W (proc D O) A :=
  zoom dev (fun d x => Proc d (out x)) m.
Definition print (o : O) : M W (proc D O) unit :=
  modify (fun x => Proc (dev x) (out x ++ [o])).
End Program.

(** ** Rules *)

Section Rules.
Context {W D O : Type}.

Lemma wp_drive {A} (m : M W D A) (o : list O) Q d w h l :
  wp m (fun a σ => Q a (KSt (Proc (drv σ) o) (world σ) (held σ) (ledger σ))) (KSt d w h l) ->
  wp (drive m) Q (KSt (Proc d o) w h l).
Proof. intros Hm. apply wp_zoom. exact Hm. Qed.

Lemma wp_print (p : O) (o : list O) Q (d : D) (w : W) h l :
  Q tt (KSt (Proc d (o ++ [p])) w h l) -> wp (print p) Q (KSt (Proc d o) w h l).
Proof. done. Qed.

Lemma wp_store `{UserStoreOk W} a bs Q (x : D) (w : W) h l :
  (forall w', umem w' ≡ₘ uwrite (umem w) a bs -> Q tt (KSt x w' h l)) ->
  wp (store a bs) Q (KSt x w h l).
Proof. intros HQ. apply wp_call. intros [] w' [= <-]. apply HQ, store_ok. Qed.

Lemma wp_load `{UserMem W} a n Q (x : D) (w : W) h l :
  Q (uread (umem w) a n) (KSt x w h l) -> wp (load a n) Q (KSt x w h l).
Proof. intros HQ. apply wp_call. by intros bs w' [= <- <-]. Qed.
End Rules.

(** A step and its continuation can be taken together. *)
Lemma wp_assoc {W D A B C} (m : M W D A) (f : A -> M W D B) (g : B -> M W D C) Q σ :
  wp ((m ≫= f) ≫= g) Q σ -> wp (m ≫= (fun a => f a ≫= g)) Q σ.
Proof. unfold wp, mbind, M_bind. by destruct (m σ) as [[]|]. Qed.

(** ** The contents of user memory *)

Lemma uread_app f a n m :
  0 <= n -> 0 <= m -> uread f a (n + m) = uread f a n ++ uread f (a + n) m.
Proof.
  intros Hn Hm. unfold uread. rewrite seqZ_app by lia. rewrite fmap_app. f_equal.
  replace (seqZ (0 + n) m) with (Z.add n <$> seqZ 0 m) by (rewrite fmap_add_seqZ; f_equal; lia).
  rewrite <- list_fmap_compose. apply list_fmap_ext. intros i x _. simpl. f_equal. lia.
Qed.

Lemma uread_uwrite_before f a n dst data :
  a + n <= dst -> uread (uwrite f dst data) a n = uread f a n.
Proof.
  intros Hle. unfold uread. apply list_fmap_ext. intros i x Hx.
  apply lookup_seqZ in Hx as [-> Hi]. unfold uwrite. rewrite decide_False by lia. done.
Qed.

(** The bytes of a variable keep their value while another one is written. *)
Lemma uread_uwrite_apart f a n dst data :
  a + n <= dst \/ dst + zlen data <= a -> uread (uwrite f dst data) a n = uread f a n.
Proof.
  intros Hd. unfold uread. apply list_fmap_ext. intros i x Hx.
  apply lookup_seqZ in Hx as [-> Hi]. unfold uwrite. rewrite decide_False by lia. done.
Qed.

(** Overwriting the front of a variable. *)
Lemma uread_uwrite_front f a n data :
  zlen data <= n -> uread (uwrite f a data) a n = data ++ uread f (a + zlen data) (n - zlen data).
Proof.
  intros Hn. pose proof (zlen_nonneg data).
  replace n with (zlen data + (n - zlen data)) at 1 by lia.
  rewrite uread_app, uread_uwrite by lia. f_equal. apply uread_uwrite_apart. lia.
Qed.

Lemma zget_uread f a n k : 0 <= k < n -> zget (uread f a n) k = Some (f (a + k)).
Proof.
  intros Hk. unfold zget, uread. rewrite (proj2 (Z.leb_le 0 k)) by lia.
  rewrite list_lookup_fmap, lookup_seqZ_lt by lia. simpl. do 2 f_equal. lia.
Qed.

(** What was just stored. *)
Lemma uread_stored (f g : Z -> byte) a data n :
  g ≡ₘ uwrite f a data -> zlen data = n -> uread g a n = data.
Proof. intros -> Hn. by apply uread_uwrite_n. Qed.

(** ** The concrete world *)

(** The program's own memory is mapped wherever it writes. *)
Fixpoint put_bytes (data : list byte) (m : gmap Z byte) (a : Z) : gmap Z byte :=
  match data with [] => m | b :: data => put_bytes data (<[a := b]> m) (a + 1) end.

#[export] Instance sim_store : UserStore sim := {
  k_store a bs w := set_mem (put_bytes bs (sim_mem w) a) w;
}.

Lemma put_bytes_ok data m a x :
  default NUL (put_bytes data m a !! x) = uwrite (fun x => default NUL (m !! x)) a data x.
Proof.
  revert m a. induction data as [|b data IH]; intros m a; simpl.
  - unfold uwrite. by rewrite decide_False by (unfold zlen; simpl; lia).
  - rewrite IH. unfold uwrite.
    replace (zlen (b :: data)) with (zlen data + 1) by (unfold zlen; simpl; lia).
    pose proof (zlen_nonneg data). destruct (decide (x = a)) as [->|Hne].
    + rewrite decide_False, decide_True by lia. by rewrite lookup_insert_eq, Z.sub_diag.
    + rewrite lookup_insert_ne by done. repeat case_decide; try lia; [|done].
      unfold zget. destruct (Z.leb_spec 0 (x - (a + 1))), (Z.leb_spec 0 (x - a)); try lia.
      by replace (Z.to_nat (x - a)) with (S (Z.to_nat (x - (a + 1)))) by lia.
Qed.

#[export] Instance sim_store_ok : UserStoreOk sim.
Proof. split. intros a bs w x. apply put_bytes_ok. Qed.

#[export] Instance sim_frame : GrantsFrame sim.
Proof. split. intros r w rc w'. simpl. by destruct (sim_grants w); intros [= <- <-]. Qed.

(** ** Symbolic execution of a program *)

Ltac up_step :=
  lazymatch goal with
  | |- wp (print _) _ _ => apply wp_print; wp_red
  | |- wp (store _ _) _ _ => apply wp_store; let w' := fresh "w" in let E := fresh "Hst" in intros w' E; wp_red
  | |- wp (load _ _) _ _ => apply wp_load; wp_red
  | |- wp (drive _) _ _ => apply wp_drive; wp_red
  | _ => wp_step
  end.
