(* ===== verification/Queue.v ===== *)
(** * 002_char_keypad_driver: the key queue (queue_kernel.c, queue_kernel.h)

    Module [Spec] is a bounded first-in first-out list. The ring buffer of the
    code implements it: [contents] is the abstraction function, [queue_ok] the
    invariant, [enqueue_refines] and [dequeue_refines] the refinement lemmas.
    The last part models [queue_empty] running against a concurrent
    [enqueue]: its final stores are made without the lock. *)

From S2P Require Import Prelude Kernel Wp.

Definition QUEUE_SIZE : Z := 64.

(** ** The promise: a FIFO of at most [QUEUE_SIZE] bytes *)
Module Spec.
Definition push (x : byte) (l : list byte) : Z * list byte :=
  if zlen l =? QUEUE_SIZE then (-1, l) else (0, l ++ [x]).

Definition pop (l : list byte) : Z * option byte * list byte :=
  match l with
  | [] => (-1, None, [])
  | x :: l => (0, Some x, l)
  end.

Lemma push_bounded x l : zlen l <= QUEUE_SIZE -> zlen (push x l).2 <= QUEUE_SIZE.
Proof.
  unfold push. destruct (Z.eqb_spec (zlen l) QUEUE_SIZE); simpl; [done|].
  rewrite zlen_app. unfold zlen in *. simpl. lia.
Qed.
End Spec.

(** ** The ring buffer *)

Record queue := Queue {
  items : list byte;
  front : Z;
  rear : Z;
  count : Z;
}.

Definition q_lock : lock := Lock "keyQueue.lock" 0.

Section Ops.
Context {W : Type}.

Definition queue_module_init : M W queue Z := mret 0.
Definition queue_module_exit : M W queue unit := mret tt.

Definition queue_init : M W queue unit :=
  modify (fun q => Queue (items q) 0 0 0).

Definition enqueue (item : byte) : M W queue Z :=
  mutex_lock q_lock;;
  q ← get;
  if count q =? QUEUE_SIZE then
    mutex_unlock q_lock;; mret (-1)
  else
    its ← value OutOfBounds (zset (items q) (rear q) item);
    modify (fun q => Queue its (front q) (Z.rem (s32 (rear q + 1)) QUEUE_SIZE)
                           (s32 (count q + 1)));;
    mutex_unlock q_lock;; mret 0.

(** The second component is what is stored through [item], if anything. *)
Definition dequeue : M W queue (Z * option byte) :=
  mutex_lock q_lock;;
  q ← get;
  if count q =? 0 then
    mutex_unlock q_lock;; mret (-1, None)
  else
    c ← value OutOfBounds (zget (items q) (front q));
    modify (fun q => Queue (items q) (Z.rem (s32 (front q + 1)) QUEUE_SIZE) (rear q)
                           (s32 (count q - 1)));;
    mutex_unlock q_lock;; mret (0, Some c).

(** while (dequeue(q, &item) == 0) {}; the fuel bounds the iterations. *)
Fixpoint drain (fuel : nat) : M W queue unit :=
  match fuel with
  | O => oops OutOfFuel
  | S fuel => r ← dequeue; if r.1 =? 0 then drain fuel else mret tt
  end.

Definition reset_count : M W queue unit :=
  modify (fun q => Queue (items q) (front q) (rear q) 0).
Definition reset_rear : M W queue unit :=
  modify (fun q => Queue (items q) (front q) 0 (count q)).
Definition reset_front : M W queue unit :=
  modify (fun q => Queue (items q) 0 (rear q) (count q)).

(** q->front = q->rear = q->count = 0 stores right to left. *)
Definition queue_empty : M W queue unit :=
  drain (Z.to_nat QUEUE_SIZE + 1);; reset_count;; reset_rear;; reset_front.
End Ops.

(** ** Invariant and abstraction *)

Definition queue_ok (q : queue) : Prop :=
  zlen (items q) = QUEUE_SIZE /\ 0 <= front q < QUEUE_SIZE /\
  0 <= count q <= QUEUE_SIZE /\ rear q = (front q + count q) mod QUEUE_SIZE.

(** The queued bytes, oldest first. *)
Definition contents (q : queue) : list byte :=
  (fun i => default NUL (zget (items q) ((front q + i) mod QUEUE_SIZE))) <$> seqZ 0 (count q).

Lemma zlen_contents q : 0 <= count q -> zlen (contents q) = count q.
Proof. intros. unfold zlen, contents. rewrite length_fmap, length_seqZ. lia. Qed.

Lemma mod_add_cancel a i j :
  0 <= i < QUEUE_SIZE -> 0 <= j < QUEUE_SIZE ->
  (a + i) mod QUEUE_SIZE = (a + j) mod QUEUE_SIZE -> i = j.
Proof.
  unfold QUEUE_SIZE. intros Hi Hj E.
  pose proof (Z.div_mod (a + i) 64). pose proof (Z.div_mod (a + j) 64).
  pose proof (Z.mod_pos_bound (a + i) 64). pose proof (Z.mod_pos_bound (a + j) 64). lia.
Qed.

Lemma contents_push q x :
  queue_ok q -> count q < QUEUE_SIZE ->
  contents (Queue (<[Z.to_nat (rear q) := x]> (items q)) (front q)
                  ((rear q + 1) mod QUEUE_SIZE) (count q + 1)) = contents q ++ [x].
Proof.
  intros (Hits & Hf & Hc & Hr) Hlt. unfold contents. simpl.
  assert (0 <= rear q < QUEUE_SIZE) by (rewrite Hr; apply Z.mod_pos_bound; done).
  rewrite seqZ_app by lia. rewrite fmap_app. change (seqZ (0 + count q) 1) with [0 + count q].
  simpl. f_equal.
  - apply list_fmap_ext. intros i y Hy%lookup_seqZ. destruct Hy as [-> Hy].
    rewrite zget_insert by (rewrite ?Hits; try apply Z.mod_pos_bound; done).
    rewrite decide_False; [done|]. rewrite Hr. intros E%mod_add_cancel; lia.
  - rewrite zget_insert by (rewrite ?Hits; try apply Z.mod_pos_bound; done).
    rewrite decide_True; [done|]. by rewrite Hr, Z.add_0_l.
Qed.

Lemma contents_pop q x l :
  queue_ok q -> contents q = x :: l ->
  0 < count q /\ zget (items q) (front q) = Some x /\
  contents (Queue (items q) ((front q + 1) mod QUEUE_SIZE) (rear q) (count q - 1)) = l.
Proof.
  intros (Hits & Hf & Hc & Hr) E.
  assert (0 < count q) as Hpos.
  { pose proof (zlen_contents q ltac:(lia)) as Hl. rewrite E in Hl.
    unfold zlen in Hl. simpl in Hl. lia. }
  unfold contents in *. rewrite seqZ_cons in E by lia. rewrite fmap_cons in E.
  injection E as Ex El. rewrite Z.add_0_r, Z.mod_small in Ex by done. split; [done|]. split.
  - destruct (zget_in (items q) (front q)) as [y Hy]; [lia|]. rewrite Hy in Ex. by subst.
  - rewrite <- El. simpl. rewrite <- (fmap_add_seqZ 1 0). rewrite <- list_fmap_compose.
    apply list_fmap_ext. intros i y _. simpl. do 2 f_equal.
    rewrite Zplus_mod_idemp_l. f_equal. lia.
Qed.

(** ** Each operation against the specification *)

(** The state after an operation: [q] changed, everything else as before. *)
Definition only_queue {W} (l : list byte) (σ0 σ : kst W queue) : Prop :=
  queue_ok (drv σ) /\ contents (drv σ) = l /\
  world σ = world σ0 /\ held σ = held σ0 /\ ledger σ = ledger σ0.

Lemma rem_mod_64 a : 0 <= a < 128 -> Z.rem (s32 (a + 1)) QUEUE_SIZE = (a + 1) mod QUEUE_SIZE.
Proof.
  intros Ha. unfold QUEUE_SIZE. rewrite s32_small by (unfold is_int, INT_MIN, INT_MAX; lia).
  apply Z.rem_mod_nonneg; lia.
Qed.

Section Refinement.
Context {W : Type}.
Implicit Types (σ : kst W queue).

Lemma queue_init_spec q (w : W) h l :
  zlen (items q) = QUEUE_SIZE ->
  wp queue_init (fun _ => only_queue [] (KSt q w h l)) (KSt q w h l).
Proof.
  intros Hq. unfold queue_init. wp_auto. unfold only_queue, queue_ok. simpl.
  unfold QUEUE_SIZE in *. split_and!; try done; lia.
Qed.

Lemma enqueue_spec x σ :
  queue_ok (drv σ) -> q_lock ∉ held σ ->
  wp (enqueue x) (fun r σ' =>
    r = (Spec.push x (contents (drv σ))).1 /\
    only_queue (Spec.push x (contents (drv σ))).2 σ σ') σ.
Proof.
  destruct σ as [q w h l]. simpl. intros Hq Hl. unfold enqueue, Spec.push.
  pose proof Hq as (Hits & Hf & Hc & Hr). rewrite zlen_contents by lia.
  assert (0 <= rear q < QUEUE_SIZE) by (rewrite Hr; apply Z.mod_pos_bound; done).
  wp_auto.
  - by split_and!.
  - rewrite zset_in by lia. wp_auto.
    split; [done|]. unfold only_queue. simpl.
    unfold is_int, INT_MIN, INT_MAX, QUEUE_SIZE in *.
    rewrite rem_mod_64, s32_small by (unfold is_int, INT_MIN, INT_MAX; lia).
    split.
    + unfold queue_ok, QUEUE_SIZE. simpl. rewrite zlen_insert, Hr.
      split_and!; try lia. rewrite Zplus_mod_idemp_l. f_equal. lia.
    + split; [|done]. apply contents_push; [done | unfold QUEUE_SIZE; lia].
Qed.

Lemma dequeue_spec σ :
  queue_ok (drv σ) -> q_lock ∉ held σ ->
  wp dequeue (fun r σ' =>
    r = (Spec.pop (contents (drv σ))).1 /\
    only_queue (Spec.pop (contents (drv σ))).2 σ σ') σ.
Proof.
  destruct σ as [q w h l]. simpl. intros Hq Hl. unfold dequeue.
  pose proof Hq as (Hits & Hf & Hc & Hr).
  wp_auto.
  - assert (contents q = []) as ->.
    { apply nil_length_inv. pose proof (zlen_contents q). unfold zlen in *. lia. }
    unfold only_queue. simpl. split_and!; try done.
    apply nil_length_inv. pose proof (zlen_contents q). unfold zlen in *. lia.
  - destruct (contents q) as [|x lq] eqn:E.
    { pose proof (zlen_contents q ltac:(lia)) as Hz. rewrite E in Hz.
      unfold zlen in Hz. simpl in Hz. lia. }
    destruct (contents_pop q x lq Hq E) as (Hpos & Hget & Hl').
    rewrite Hget. wp_auto. simpl. split; [done|]. unfold only_queue. simpl.
    unfold QUEUE_SIZE in *.
    rewrite rem_mod_64, s32_small by (unfold is_int, INT_MIN, INT_MAX; lia).
    split; [|done]. unfold queue_ok, QUEUE_SIZE. simpl.
    pose proof (Z.mod_pos_bound (front q + 1) 64).
    split_and!; try lia. rewrite Hr, Zplus_mod_idemp_l. f_equal. lia.
Qed.

Lemma drain_spec fuel σ :
  queue_ok (drv σ) -> q_lock ∉ held σ -> count (drv σ) < Z.of_nat fuel ->
  wp (drain fuel) (fun _ => only_queue [] σ) σ.
Proof.
  revert σ. induction fuel as [|fuel IH]; intros σ Hq Hl Hc.
  { destruct Hq as (_ & _ & ? & _). lia. }
  simpl. apply wp_bind. eapply wp_mono; [by apply dequeue_spec|].
  intros r σ' [-> (Hq' & Hcont & Hw & Hh & Hled)].
  pose proof (zlen_contents (drv σ) ltac:(destruct Hq as (_ & _ & ? & _); lia)) as Hlen.
  pose proof (zlen_contents (drv σ') ltac:(destruct Hq' as (_ & _ & ? & _); lia)) as Hlen'.
  destruct (contents (drv σ)) as [|x lq] eqn:E; simpl in *.
  - apply wp_ret. by split_and!.
  - rewrite Hcont in Hlen'. eapply wp_mono; [apply IH; rewrite ?Hh; [done..|]|].
    + unfold zlen in *. simpl in *. lia.
    + intros _ σ'' (Hq'' & Hc'' & Hw'' & Hh'' & Hl'').
      unfold only_queue. rewrite Hw'', Hh'', Hl''. done.
Qed.

Lemma queue_empty_spec σ :
  queue_ok (drv σ) -> q_lock ∉ held σ ->
  wp queue_empty (fun _ => only_queue [] σ) σ.
Proof.
  intros Hq Hl. unfold queue_empty. apply wp_bind.
  eapply wp_mono; [apply drain_spec; [done..|]|].
  - destruct Hq as (_ & _ & ? & _). unfold QUEUE_SIZE in *. lia.
  - intros _ [q' w' h' l'] (Hq' & Hc & Hw & Hh & Hled). simpl in *. subst.
    unfold reset_count, reset_rear, reset_front. wp_auto.
    destruct Hq' as (Hits & _). unfold only_queue, queue_ok, QUEUE_SIZE in *. simpl.
    split_and!; try done; lia.
Qed.
End Refinement.

(** ** Whole histories *)

Inductive qop := Enqueue (x : byte) | Dequeue | Clear.

Definition run_op {W} (o : qop) : M W queue (Z * option byte) :=
  match o with
  | Enqueue x => r ← enqueue x; mret (r, None)
  | Dequeue => dequeue
  | Clear => queue_empty;; mret (0, None)
  end.

Fixpoint run_ops {W} (os : list qop) : M W queue (list (Z * option byte)) :=
  match os with
  | [] => mret []
  | o :: os => r ← run_op o; rs ← run_ops os; mret (r :: rs)
  end.

Definition spec_op (o : qop) (l : list byte) : Z * option byte * list byte :=
  match o with
  | Enqueue x => ((Spec.push x l).1, None, (Spec.push x l).2)
  | Dequeue => Spec.pop l
  | Clear => (0, None, [])
  end.

Fixpoint spec_ops (os : list qop) (l : list byte) : list (Z * option byte) * list byte :=
  match os with
  | [] => ([], l)
  | o :: os =>
      let '(r, l') := spec_op o l in
      let '(rs, l'') := spec_ops os l' in (r :: rs, l'')
  end.

Lemma run_op_spec {W} o (σ : kst W queue) :
  queue_ok (drv σ) -> q_lock ∉ held σ ->
  wp (run_op o) (fun r σ' =>
    r = (spec_op o (contents (drv σ))).1 /\
    only_queue (spec_op o (contents (drv σ))).2 σ σ') σ.
Proof.
  intros Hq Hl. destruct o as [x| |]; simpl.
  - apply wp_bind. eapply wp_mono; [by apply enqueue_spec|].
    intros r σ' [-> H]. by apply wp_ret.
  - by apply dequeue_spec.
  - apply wp_bind. eapply wp_mono; [by apply queue_empty_spec|].
    intros [] σ' H. by apply wp_ret.
Qed.

Lemma run_ops_spec {W} os (σ : kst W queue) :
  queue_ok (drv σ) -> q_lock ∉ held σ ->
  wp (run_ops os) (fun rs σ' =>
    rs = (spec_ops os (contents (drv σ))).1 /\
    only_queue (spec_ops os (contents (drv σ))).2 σ σ') σ.
Proof.
  revert σ. induction os as [|o os IH]; intros σ Hq Hl; simpl.
  { apply wp_ret. by split_and!. }
  apply wp_bind. eapply wp_mono; [by apply run_op_spec|].
  intros r σ' [-> (Hq' & Hc & Hw & Hh & Hled)].
  destruct (spec_op o (contents (drv σ))) as [r l'] eqn:E. simpl in *.
  apply wp_bind. eapply wp_mono; [apply IH; [done | by rewrite Hh]|].
  intros rs σ'' [-> (Hq'' & Hc'' & Hw'' & Hh'' & Hled'')]. apply wp_ret.
  rewrite Hc in *. destruct (spec_ops os l') as [rs l'']. simpl in *.
  unfold only_queue. rewrite Hw'', Hh'', Hled''. done.
Qed.

(** The static [keyQueue] before initialisation: all zero. *)
Definition keyQueue0 : queue := Queue (replicate 64 NUL) 0 0 0.

Lemma queue_ok_init : queue_ok keyQueue0.
Proof. unfold queue_ok, QUEUE_SIZE. by split_and!. Qed.

(** ** queue_empty against a concurrent enqueue

    The clearing thread holds the lock only inside each [dequeue]; its last
    three stores are made without it. An enqueue takes the lock for its whole
    body, so it is one step; it may fall between any two steps of the other. *)

Inductive clear_pc := Draining | StoreCount | StoreRear | StoreFront | Cleared.

Definition runs {A} (m : M unit queue A) (q : queue) (a : A) (q' : queue) : Prop :=
  m (KSt q tt [] []) = Done (a, KSt q' tt [] []).

Inductive race_step : queue * clear_pc -> queue * clear_pc -> Prop :=
  | race_dequeue q c q' :
      runs dequeue q (0, Some c) q' -> race_step (q, Draining) (q', Draining)
  | race_drained q q' :
      runs dequeue q (-1, None) q' -> race_step (q, Draining) (q', StoreCount)
  | race_count q q' :
      runs reset_count q tt q' -> race_step (q, StoreCount) (q', StoreRear)
  | race_rear q q' :
      runs reset_rear q tt q' -> race_step (q, StoreRear) (q', StoreFront)
  | race_front q q' :
      runs reset_front q tt q' -> race_step (q, StoreFront) (q', Cleared)
  | race_enqueue x r q q' p :
      runs (enqueue x) q r q' -> race_step (q, p) (q', p).

(** What every interleaving keeps: indices and count inside the array. *)
Definition queue_safe (q : queue) : Prop :=
  zlen (items q) = QUEUE_SIZE /\ 0 <= front q < QUEUE_SIZE /\
  0 <= rear q < QUEUE_SIZE /\ 0 <= count q <= QUEUE_SIZE.

Lemma runs_wp {A} (m : M unit queue A) q a q' Q :
  runs m q a q' -> wp m Q (KSt q tt [] []) -> Q a (KSt q' tt [] []).
Proof. unfold runs, wp. by intros ->. Qed.

Lemma enqueue_safe x q :
  queue_safe q -> wp (enqueue x) (fun _ σ => queue_safe (drv σ)) (KSt q tt [] []).
Proof.
  intros Hs. pose proof Hs as (Hits & Hf & Hr & Hc). unfold enqueue.
  wp_auto; [done|]. rewrite zset_in by lia. wp_auto. unfold queue_safe, QUEUE_SIZE in *. simpl.
  rewrite rem_mod_64, s32_small by (unfold is_int, INT_MIN, INT_MAX; lia).
  rewrite zlen_insert. pose proof (Z.mod_pos_bound (rear q + 1) 64).
  unfold QUEUE_SIZE. split_and!; lia.
Qed.

Lemma dequeue_safe q :
  queue_safe q -> wp dequeue (fun _ σ => queue_safe (drv σ)) (KSt q tt [] []).
Proof.
  intros Hs. pose proof Hs as (Hits & Hf & Hr & Hc). unfold dequeue.
  wp_auto; [done|]. destruct (zget_in (items q) (front q)) as [y ->]; [lia|].
  wp_auto. unfold queue_safe, QUEUE_SIZE in *. simpl.
  rewrite rem_mod_64, s32_small by (unfold is_int, INT_MIN, INT_MAX; lia).
  pose proof (Z.mod_pos_bound (front q + 1) 64). unfold QUEUE_SIZE. split_and!; lia.
Qed.

Lemma reset_safe q :
  queue_safe q ->
  queue_safe (Queue (items q) (front q) (rear q) 0) /\
  queue_safe (Queue (items q) (front q) 0 (count q)) /\
  queue_safe (Queue (items q) 0 (rear q) (count q)).
Proof. unfold queue_safe, QUEUE_SIZE. simpl. intros. split_and!; lia. Qed.

Lemma race_step_safe q p q' p' :
  race_step (q, p) (q', p') -> queue_safe q -> queue_safe q'.
Proof.
  intros Hs Hq.
  inversion Hs as [? ? ? Hr|? ? Hr|? ? Hr|? ? Hr|? ? Hr|? ? ? ? ? Hr]; subst.
  1, 2: exact (runs_wp _ _ _ _ _ Hr (dequeue_safe q Hq)).
  1, 2, 3: injection Hr as <-; by apply reset_safe.
  exact (runs_wp _ _ _ _ _ Hr (enqueue_safe _ q Hq)).
Qed.

(** ** Properties *)

(** C6. From the zeroed static queue, any sequence of [enqueue], [dequeue]
    and [queue_empty] calls returns exactly what a first-in first-out list
    bounded by 64 returns, ends with that list as its contents, and leaves the
    lock free: the ring arithmetic never loses, duplicates or reorders. *)
Theorem queue_implements_fifo {W} (w : W) (os : list qop) :
  wp (queue_init;; run_ops os)
     (fun rs σ => rs = (spec_ops os []).1 /\ contents (drv σ) = (spec_ops os []).2 /\
                  queue_ok (drv σ) /\ held σ = [] /\ ledger σ = [])
     (KSt keyQueue0 w [] []).
Proof.
  apply wp_bind. eapply wp_mono; [by apply queue_init_spec|].
  intros _ σ (Hq & Hc & _ & Hh & Hled).
  eapply wp_mono; [apply run_ops_spec; [done | rewrite Hh; apply lock_not_in_nil]|].
  intros rs σ' [-> (Hq' & Hc' & _ & Hh' & Hled')]. rewrite Hc in *. simpl in *.
  split_and!; congruence.
Qed.

Lemma queue_ok_safe q : queue_ok q -> queue_safe q.
Proof.
  intros (? & ? & ? & Hr). unfold queue_safe. split_and!; try lia.
  - rewrite Hr. by apply Z.mod_pos_bound.
  - rewrite Hr. by apply Z.mod_pos_bound.
Qed.

(** However the unlocked stores of [queue_empty] interleave with
    concurrent enqueues, the indices stay inside the array, so an enqueue or a
    dequeue made in any state reached is free of out-of-bounds accesses. *)
Theorem queue_race_in_bounds q q' p' :
  queue_ok q -> rtc race_step (q, Draining) (q', p') ->
  queue_safe q' /\
  (forall x, wp (enqueue x) (fun _ σ => queue_safe (drv σ)) (KSt q' tt [] [])) /\
  wp dequeue (fun _ σ => queue_safe (drv σ)) (KSt q' tt [] []).
Proof.
  intros Hq%queue_ok_safe Hr. cut (queue_safe q').
  { intros Hq'. split_and!; [done | | by apply dequeue_safe]. intros x. by apply enqueue_safe. }
  remember (q, Draining) as s eqn:Es. remember (q', p') as s' eqn:Es'.
  assert (queue_safe s.1) as Hs by by rewrite Es.
  replace q' with s'.1 by by rewrite Es'. clear Es Es' Hq.
  induction Hr as [|[q1 p1] [q2 p2] s'' Hstep _ IH]; [done|].
  apply IH. by eapply race_step_safe.
Qed.

(** The queue after one byte went through it: empty, with indices at 1. *)
Definition used_queue : queue :=
  Queue (<[0%nat := Byte.x61]> (replicate 64 NUL)) 1 1 0.

(** What one interleaving leaves behind. *)
Definition corrupted_queue : queue :=
  Queue (<[1%nat := Byte.x78]> (<[0%nat := Byte.x61]> (replicate 64 NUL))) 0 0 1.

Lemma corrupted_reachable :
  rtc race_step (used_queue, Draining) (corrupted_queue, Cleared).
Proof.
  eapply rtc_l. { apply race_drained. vm_compute. reflexivity. }
  eapply rtc_l. { apply race_count. vm_compute. reflexivity. }
  eapply rtc_l. { apply (race_enqueue Byte.x78 0). vm_compute. reflexivity. }
  eapply rtc_l. { apply race_rear. vm_compute. reflexivity. }
  eapply rtc_l. { apply race_front. vm_compute. reflexivity. }
  apply rtc_refl.
Qed.

Lemma queue_race_in_bounds_witness :
  queue_ok used_queue /\ queue_safe corrupted_queue.
Proof.
  assert (queue_ok used_queue) as H by (unfold queue_ok, QUEUE_SIZE; by split_and!).
  split; [exact H|].
  exact (proj1 (queue_race_in_bounds used_queue corrupted_queue Cleared H corrupted_reachable)).
Defined.

(** C35. The unlocked stores of [queue_empty] do race: from a well-formed
    empty queue (a byte ['a'] was queued and consumed), clearing it while
    another thread successfully enqueues ['x'] ends with one byte counted,
    the consumed ['a'] delivered a second time and ['x'] lost, and the ring
    invariant broken. *)
Theorem queue_empty_race_corrupts :
  queue_ok used_queue /\ contents used_queue = [] /\
  exists q, rtc race_step (used_queue, Draining) (q, Cleared) /\
            contents q = [Byte.x61] /\ ~ queue_ok q.
Proof.
  split; [unfold queue_ok, QUEUE_SIZE; by split_and!|]. split; [done|].
  exists corrupted_queue. split; [apply corrupted_reachable|]. split; [done|].
  intros (_ & _ & _ & Hr). by vm_compute in Hr.
Qed.
