(* ===== verification/Keypad.v ===== *)
(** * 002_char_keypad_driver: the keypad helper and its character device

    keypad_helper_kernel.c owns the one queue and fills it from the [keymap]
    parameter; key_kernel.c is the character device on top of it. *)

From S2P Require Import Prelude Kernel Wp Sim Queue.

Definition CLEAR_BUF : Z := _IO 97 17.

Section Keypad.
Context {W : Type} `{UserAccess W}.

(** ** keypad_helper_kernel.c *)

Definition keypad_inject_event (key : byte) : M W queue unit :=
  enqueue key;; mret tt.

(** What is stored through [key]; nothing when the queue is empty. *)
Definition keypad_get_event : M W queue (option byte) :=
  r ← dequeue; mret r.2.

Definition keypad_clear_queue : M W queue unit := queue_empty.

(** for (i = 0; keymap[i]; i++) enqueue(&keyQueue, keymap[i]) *)
Fixpoint inject_keymap (keymap : list byte) : M W queue unit :=
  match keymap with
  | [] => mret tt
  | c :: keymap =>
      if bool_decide (c = NUL) then mret tt
      else enqueue c;; inject_keymap keymap
  end.

Definition keypad_init (keymap : option (list byte)) : M W queue Z :=
  queue_init;;
  match keymap with
  | Some s => inject_keymap s;; mret 0
  | None => mret 0
  end.

Definition keypad_exit : M W queue unit := mret tt.

(** ** key_kernel.c *)

(** [junk] is the indeterminate value of the local [char val]. *)
Definition device_read (junk : byte) (usr_buf len off : Z) : M W queue Z :=
  o ← keypad_get_event;
  let val := default junk o in
  r ← copy_to_user usr_buf [val];
  if negb (r =? 0) then mret (- EFAULT) else mret 1.

Definition device_write (usr_buf len off : Z) : M W queue Z :=
  '(r, bs) ← copy_from_user usr_buf 1;
  if negb (r =? 0) then mret (- EFAULT)
  else val ← value OutOfBounds (zget bs 0);
       keypad_inject_event val;; mret 1.

Definition device_open : M W queue Z := mret 0.
Definition device_release : M W queue Z := mret 0.

Definition device_ioctl (cmd arg : Z) : M W queue Z :=
  if cmd =? CLEAR_BUF then keypad_clear_queue;; mret 0 else mret 0.
End Keypad.

Section Module_.
Context {W D : Type} `{Grants W}.

(** The results of class_create, cdev_add and device_create are not read. *)
Definition temp_init : M W D Z :=
  cl ← class_create;
  rc ← alloc_chrdev_region;
  if rc =? 0 then cdev_add 0;; device_create_in cl 0;; mret 0
  else mret 0.

Definition temp_exit : M W D unit :=
  device_destroy 0;; class_destroy;; cdev_del 0;; unregister_chrdev_region.
End Module_.

(** ** Lemmas *)

Section Facts.
Context {W : Type} `{UserAccessOk W}.
Implicit Types (σ : kst W queue).

Lemma keypad_get_event_spec σ :
  queue_ok (drv σ) -> q_lock ∉ held σ ->
  wp keypad_get_event (fun o σ' =>
    o = head (contents (drv σ)) /\ only_queue (tail (contents (drv σ))) σ σ') σ.
Proof.
  intros Hq Hl. unfold keypad_get_event. apply wp_bind.
  eapply wp_mono; [by apply dequeue_spec|]. intros r σ' [-> Hq']. apply wp_ret.
  by destruct (contents (drv σ)).
Qed.

Lemma inject_keymap_spec s σ :
  queue_ok (drv σ) -> q_lock ∉ held σ ->
  wp (inject_keymap s) (fun _ =>
    only_queue (foldl (fun l c => (Spec.push c l).2) (contents (drv σ))
                      (default s (cstr s))) σ) σ.
Proof.
  revert σ. induction s as [|c s IH]; intros σ Hq Hl; simpl.
  { apply wp_ret. by split_and!. }
  destruct (bool_decide_reflect (c = NUL)) as [->|Hc].
  { rewrite decide_True by done. apply wp_ret. by split_and!. }
  rewrite decide_False by done. apply wp_bind.
  eapply wp_mono; [by apply enqueue_spec|]. intros r σ' [_ (Hq' & Hc' & Hw & Hh & Hled)].
  eapply wp_mono; [apply IH; [done | by rewrite Hh]|].
  intros [] σ'' (Hq'' & Hc'' & Hw'' & Hh'' & Hled''). unfold only_queue.
  rewrite Hw'', Hh'', Hled'', Hc'', Hc'. split_and!; try done.
  by destruct (cstr s).
Qed.
End Facts.

(** Pushing a whole list keeps what fits. *)
Lemma push_all (s l : list byte) :
  zlen l <= QUEUE_SIZE ->
  foldl (fun l c => (Spec.push c l).2) l s = take (Z.to_nat QUEUE_SIZE) (l ++ s).
Proof.
  unfold QUEUE_SIZE, zlen. revert l. induction s as [|c s IH]; intros l Hl; simpl.
  - rewrite app_nil_r, take_ge; [done | lia].
  - unfold Spec.push at 2. unfold QUEUE_SIZE, zlen.
    destruct (Z.eqb_spec (Z.of_nat (length l)) 64); simpl snd.
    + rewrite IH by lia. rewrite !take_app_le by lia. done.
    + rewrite IH by (rewrite length_app; simpl; lia). by rewrite <- app_assoc.
Qed.

(** ** Properties *)

(** Loading the helper with a [keymap] string leaves the queue holding
    the characters up to the terminator, oldest first, cut at 64: the rest of
    a longer map is dropped although every enqueue result is ignored and the
    load reports success. *)
Theorem keypad_init_contents {W} `{UserAccess W} (w : W) (keymap : option (list byte)) :
  wp (keypad_init keymap)
     (fun rc σ =>
        rc = 0 /\ queue_ok (drv σ) /\ held σ = [] /\
        contents (drv σ) =
          match keymap with
          | Some s => take 64 (default s (cstr s))
          | None => []
          end)
     (KSt keyQueue0 w [] []).
Proof.
  unfold keypad_init. apply wp_bind. eapply wp_mono; [by apply queue_init_spec|].
  intros [] σ (Hq & Hc & _ & Hh & _).
  destruct keymap as [s|]; [|by apply wp_ret].
  apply wp_bind. eapply wp_mono;
    [apply inject_keymap_spec; [done | rewrite Hh; apply lock_not_in_nil]|].
  intros [] σ' (Hq' & Hc' & _ & Hh' & _). apply wp_ret. split_and!; try done.
  - by rewrite Hh'.
  - rewrite Hc', Hc, push_all by done. done.
Qed.

(** A read of the device delivers the oldest queued byte whatever length
    is asked for, and returns 1. When the queue is empty it still returns 1
    and delivers the uninitialised stack byte; when the copy to user space
    fails, the byte has already left the queue and is lost. *)
Theorem device_read_delivers {W} `{UserAccessOk W} (junk : byte) (dst len off : Z)
    (σ : kst W queue) (Hq : queue_ok (drv σ)) (Hl : q_lock ∉ held σ) :
  wp (device_read junk dst len off)
     (fun rc σ' =>
        (rc = 1 \/ rc = - EFAULT) /\
        contents (drv σ') = tail (contents (drv σ)) /\
        queue_ok (drv σ') /\ held σ' = held σ /\
        (rc = 1 -> umem (world σ') ≡ₘ
                   uwrite (umem (world σ)) dst [default junk (head (contents (drv σ)))])) σ.
Proof.
  unfold device_read. apply wp_bind.
  eapply wp_mono; [by apply keypad_get_event_spec|].
  intros o [q w h l] [-> (Hq' & Hc & Hw & Hh & _)]. simpl in *. subst. wp_auto.
  - subst. split_and!; auto. intros _. by apply ctu_full.
  - split_and!; auto. unfold EFAULT. lia.
Qed.

Definition keypad_user : sim := sim_at 100 [NUL; NUL; NUL; NUL].

Lemma device_read_delivers_witness :
  wp (device_read Byte.x5a 100 4 0)
     (fun rc σ' => (rc = 1 \/ rc = - EFAULT) /\ contents (drv σ') = [] /\
        queue_ok (drv σ') /\ held σ' = [] /\
        (rc = 1 -> umem (world σ') ≡ₘ uwrite (umem keypad_user) 100 [Byte.x5a]))
     (KSt keyQueue0 keypad_user [] []).
Proof.
  exact (device_read_delivers Byte.x5a 100 4 0 (KSt keyQueue0 keypad_user [] [])
           queue_ok_init (lock_not_in_nil q_lock)).
Defined.

(** The clear command empties the queue, every other command number
    leaves it unchanged, and all of them report success. *)
Theorem device_ioctl_clears {W} `{UserAccessOk W} (cmd arg : Z) (σ : kst W queue)
    (Hq : queue_ok (drv σ)) (Hl : q_lock ∉ held σ) :
  wp (device_ioctl cmd arg)
     (fun rc σ' =>
        rc = 0 /\ queue_ok (drv σ') /\ held σ' = held σ /\
        contents (drv σ') = if cmd =? CLEAR_BUF then [] else contents (drv σ)) σ.
Proof.
  unfold device_ioctl. destruct (cmd =? CLEAR_BUF).
  - apply wp_bind. eapply wp_mono; [by apply queue_empty_spec|].
    intros [] σ' (Hq' & Hc & _ & Hh & _). by apply wp_ret.
  - by apply wp_ret.
Qed.

Lemma device_ioctl_clears_witness :
  wp (device_ioctl CLEAR_BUF 0)
     (fun rc σ' => rc = 0 /\ queue_ok (drv σ') /\ held σ' = [] /\
                   contents (drv σ') = [])
     (KSt keyQueue0 keypad_user [] []).
Proof.
  exact (device_ioctl_clears CLEAR_BUF 0 (KSt keyQueue0 keypad_user [] [])
           queue_ok_init (lock_not_in_nil q_lock)).
Defined.
