(* ===== verification/Mirror.v ===== *)
(** * 003_char_block_storage_device: the mirror (storage_mirror_kernel.c)

    A 4096-byte copy of the storage, filled one sector at a time and written
    out to a file. The file operations are the parameters of [FileIO]. *)

From S2P Require Import Prelude Kernel Wp Sim.

Definition MIRROR_TOTAL_SIZE : Z := 4096.
Definition MIRROR_SECTOR_SIZE : Z := 512.
Definition MIRROR_NUM_SECTORS : Z := MIRROR_TOTAL_SIZE / MIRROR_SECTOR_SIZE.

Record mirror := Mirror { mirror_buffer : list byte }.

Definition mirror_mutex : lock := Lock "mirror_mutex" 0.

(** The static variables before [mirror_init]. *)
Definition mirror0 : mirror := Mirror (replicate 4096 NUL).

Definition mirror_ok (m : mirror) : Prop := zlen (mirror_buffer m) = MIRROR_TOTAL_SIZE.

Section Mirror.
Context {W : Type} `{Signals W} `{FileIO W}.

Definition mirror_sector (sector : Z) (data : list byte) : M W mirror unit :=
  if (sector <? 0) || (MIRROR_NUM_SECTORS <=? sector) then mret tt
  else
    rc ← mutex_lock_interruptible mirror_mutex;
    if negb (rc =? 0) then mret tt
    else
      m ← get;
      let off := sector * MIRROR_SECTOR_SIZE in
      if in_bounds off (zlen data) (zlen (mirror_buffer m)) then
        modify (fun m => Mirror (upd off data (mirror_buffer m)));;
        mutex_unlock mirror_mutex
      else oops OutOfBounds.

(** The while loop: [ret] and [written] when it is left. *)
Fixpoint backup_loop (fuel : nat) (pos written : Z) : M W mirror (Z * Z) :=
  match fuel with
  | O => oops OutOfFuel
  | S fuel =>
      if pos <? MIRROR_TOTAL_SIZE then
        m ← get;
        let to_write := Z.min MIRROR_TOTAL_SIZE (u64 (MIRROR_TOTAL_SIZE - pos)) in
        if in_bounds pos to_write (zlen (mirror_buffer m)) then
          '(rc, pos') ← kernel_write (sub pos to_write (mirror_buffer m)) pos;
          if rc <? 0 then mret (rc, written)
          else if rc =? 0 then mret (- EIO, written)
          else backup_loop fuel pos' (written + rc)
        else oops OutOfBounds
      else mret (0, written)
  end.

(** [path] is the array the caller passes; it is never NULL here. *)
Definition vblock_backup_to_file (path : list byte) : M W mirror Z :=
  c ← value OutOfBounds (zget path 0);
  if bool_decide (c = NUL) then mret (- EINVAL)
  else
    rc ← filp_open path;
    if negb (rc =? 0) then mret rc
    else
      rc ← mutex_lock_interruptible mirror_mutex;
      if negb (rc =? 0) then filp_close;; mret (- ERESTARTSYS)
      else
        '(ret, written) ← backup_loop (Z.to_nat MIRROR_TOTAL_SIZE + 1) 0 0;
        mutex_unlock mirror_mutex;;
        filp_close;;
        mret (if negb (ret =? 0) then ret
              else if written =? MIRROR_TOTAL_SIZE then 0 else - EIO).

Definition mirror_init : M W mirror Z :=
  modify (fun m => Mirror (replicate (length (mirror_buffer m)) NUL));; mret 0.

Definition mirror_exit : M W mirror unit := mret tt.
End Mirror.

(** ** Lemmas *)

(** Some write of a non-empty block is refused. *)
Definition write_fails (W : Type) `{FileIO W} : Prop :=
  exists data pos w rc pos' w',
    data <> [] /\ k_kernel_write data pos w = (rc, pos', w') /\ rc <= 0.

Section Facts.
Context {W : Type} `{FileIOOk W}.

(** [mirror_sector] copies the sector, or does nothing when interrupted. *)
Lemma mirror_sector_spec sector data m w h l :
  mirror_ok m -> mirror_mutex ∉ h -> zlen data = MIRROR_SECTOR_SIZE ->
  wp (mirror_sector sector data)
     (fun _ σ => held σ = h /\ ledger σ = l /\ mirror_ok (drv σ) /\
        (drv σ = m \/
         0 <= sector < MIRROR_NUM_SECTORS /\
         drv σ = Mirror (upd (sector * MIRROR_SECTOR_SIZE) data (mirror_buffer m))))
     (KSt m w h l).
Proof.
  unfold mirror_ok. intros Hm Hh Hd. unfold mirror_sector.
  assert (MIRROR_NUM_SECTORS = 8) as E8 by done.
  destruct ((sector <? 0) || (MIRROR_NUM_SECTORS <=? sector)) eqn:E.
  { apply wp_ret. simpl. auto. }
  apply orb_false_iff in E as [E1%Z.ltb_ge E2%Z.leb_gt].
  unfold MIRROR_SECTOR_SIZE, MIRROR_TOTAL_SIZE in *.
  wp_auto; simpl; [|by auto].
  rewrite zlen_upd by lia. auto 10 with lia.
Qed.

(** The loop writes the rest of the buffer or stops with an error. *)
Lemma backup_loop_spec fuel pos m w h l :
  mirror_ok m -> 0 <= pos <= MIRROR_TOTAL_SIZE ->
  MIRROR_TOTAL_SIZE - pos < Z.of_nat fuel ->
  filedata w = sub 0 pos (mirror_buffer m) ->
  wp (backup_loop fuel pos pos)
     (fun r σ => drv σ = m /\ held σ = h /\ ledger σ = l /\
        (r.1 < 0 /\ write_fails W \/ r = (0, MIRROR_TOTAL_SIZE) /\ filedata (world σ) = mirror_buffer m))
     (KSt m w h l).
Proof.
  unfold mirror_ok, MIRROR_TOTAL_SIZE. intros Hm.
  revert pos w. induction fuel as [|fuel IH]; intros pos w Hpos Hf Hw; [lia|].
  simpl. unfold MIRROR_TOTAL_SIZE.
  assert (Hz : zlen (filedata w) = pos) by (rewrite Hw; apply zlen_sub; lia).
  destruct (Z.ltb_spec pos 4096).
  2:{ apply wp_ret. simpl. split_and!; try done. right. replace pos with 4096 in * by lia.
      split; [done|]. by rewrite Hw, <- Hm, sub_all. }
  rewrite (u64_small (4096 - pos)), Z.min_r by lia.
  wp_auto; simpl.
  1, 2: split_and!; try done; left; split; [unfold EIO; lia|].
  1, 2: eexists _, _, _, _, _, _; split; [|split; [exact Hkw | lia]];
    intros E; assert (zlen (sub pos (4096 - pos) (mirror_buffer m)) = 4096 - pos) as Hz'
      by (apply zlen_sub; lia); rewrite E in Hz'; unfold zlen in Hz'; simpl in Hz'; lia.
  apply write_ok in Hkw as (Hrc & -> & Hw'); [|lia..].
  rewrite zlen_sub in Hrc by lia. apply IH; [lia.. |].
  rewrite Hw', Hw. apply list_eq. intros i.
  assert (Hl : length (sub 0 pos (mirror_buffer m)) = Z.to_nat pos).
  { rewrite <- Hw. unfold zlen in Hz. lia. }
  destruct (decide (i < Z.to_nat pos)%nat).
  - rewrite lookup_app_l by lia. rewrite !lookup_sub by lia.
    by rewrite !decide_True by lia.
  - rewrite lookup_app_r by lia. rewrite Hl.
    destruct (decide (i < Z.to_nat (pos + rc))%nat).
    + rewrite lookup_take_lt by lia. rewrite !lookup_sub by lia.
      rewrite !decide_True by lia. f_equal. lia.
    + rewrite lookup_take_ge by lia. rewrite lookup_sub by lia.
      by rewrite decide_False by lia.
Qed.
End Facts.

(** For a terminated path, [vblock_backup_to_file] ends (the loop never runs
    out of its 4097 iterations), changes neither the mirror nor what the caller
    holds, closes the file on every path, refuses an empty name, and returns 0
    only when the file holds exactly the mirror; it does return 0 when nothing
    in the kernel fails. *)
Lemma backup_spec {W} `{FileIOOk W} (m : mirror) (w : W) (h : list lock)
    (l : list resource) (path name : list byte)
    (Hm : mirror_ok m) (Hh : mirror_mutex ∉ h) (Hp : cstr path = Some name) :
  wp (vblock_backup_to_file path)
     (fun rc σ =>
        drv σ = m /\ held σ = h /\ ledger σ = l /\
        (name = [] -> rc = - EINVAL) /\
        (rc = 0 -> filedata (world σ) = mirror_buffer m) /\
        (name <> [] -> ~ write_fails W ->
         (forall w, (k_filp_open name w).1 = 0) ->
         (forall w, (k_lock_interruptible mirror_mutex w).1 = 0) -> rc = 0))
     (KSt m w h l).
Proof.
  unfold vblock_backup_to_file. destruct path as [|c path]; [done|].
  change (zget (c :: path) 0) with (Some c). simpl in Hp.
  apply wp_bind, wp_value. destruct (bool_decide_reflect (c = NUL)) as [->|Hc].
  { rewrite decide_True in Hp by done. injection Hp as <-. apply wp_ret. by split_and!. }
  rewrite decide_False in Hp by done.
  assert (Hname : name <> []) by (intros ->; by destruct (cstr path)).
  assert (Hp' : cstr (c :: path) = Some name) by (simpl; by rewrite decide_False).
  wp_auto.
  - eapply wp_mono; [apply backup_loop_spec; try done|].
    + by rewrite (lock_file_ok _ _ _ _ Hlock), (open_ok _ _ _ Hopen).
    + intros [ret written] [m' w' h' l'] (Hm' & Hh' & Hl' & Hr). simpl in *. subst.
      wp_auto; simpl; destruct Hr as [[Hr1 Hr2]|[[= -> ->] Hr]].
      * destruct (Z.eqb_spec ret 0); simpl; [lia|]. split_and!; try done; intros; lia.
      * by split_and!.
  - split_and!; try done. intros _ _ _ Hk. exfalso. apply Hrc. by rewrite <- (Hk w0), Hlock.
  - split_and!; try done. intros _ _ Hk. exfalso. apply Hrc. by rewrite <- (Hk w), Hopen.
Qed.

(** A path without a terminator is read past the end of its array. *)
Lemma backup_unterminated {W} `{FileIO W} `{Signals W} (path : list byte) (σ : kst W mirror) :
  path <> [] -> cstr path = None -> vblock_backup_to_file path σ = Oops Unterminated.
Proof.
  destruct path as [|c path]; [done|]. intros _ Hp. unfold vblock_backup_to_file.
  rewrite (bind_done _ _ c σ σ) by done.
  destruct (bool_decide_reflect (c = NUL)) as [->|_]; [done|].
  apply bind_oops, bind_oops. by rewrite Hp.
Qed.
