(* ===== verification/Storage.v ===== *)
(** * 003_char_block_storage_device: the storage device (storage_kernel.c)

    A 4096-byte disk of eight 512-byte sectors, each of which can be locked
    against writing. The mirror module it calls is [Mirror]; a [disk] holds the
    static variables of both. *)

From S2P Require Import Prelude Kernel Wp Sim Mirror.

Definition STORAGE_TOTAL_SIZE : Z := 4096.
Definition STORAGE_SECTOR_SIZE : Z := 512.
Definition STORAGE_NUM_SECTORS : Z := STORAGE_TOTAL_SIZE / STORAGE_SECTOR_SIZE.

Definition IOCTL_LOCK_SECTOR : Z := _IOW 76 1 sizeof_int.
Definition IOCTL_UNLOCK_SECTOR : Z := _IOW 85 2 sizeof_int.
Definition IOCTL_GET_LOCK_INFO : Z := _IOR 73 3 STORAGE_NUM_SECTORS.
Definition IOCTL_ERASE_SECTOR : Z := _IOW 69 4 sizeof_int.
Definition IOCTL_MIRROR_SECTOR : Z := _IOW 77 5 sizeof_int.
Definition IOCTL_BACKUP_TO_FILE : Z := _IOW 66 6 sizeof_ptr.

(** A key is the string a module parameter points to, without terminator. *)
Record storage := Storage {
  user_keys : list (option (list byte));
  key_count : Z;
  storage_buffer : list byte;
  sector_lock_state : list bool;
}.

Record disk := Disk { sto : storage; mir : mirror }.

Definition storage_mutex : lock := Lock "storage_mutex" 0.

Definition set_buffer (b : list byte) (d : disk) : disk :=
  Disk (Storage (user_keys (sto d)) (key_count (sto d)) b (sector_lock_state (sto d))) (mir d).
Definition set_locks (k : list bool) (d : disk) : disk :=
  Disk (Storage (user_keys (sto d)) (key_count (sto d)) (storage_buffer (sto d)) k) (mir d).
Definition set_mirror (m : mirror) (d : disk) : disk := Disk (sto d) m.

Definition default_keys : list (option (list byte)) :=
  (fun c => Some [c]) <$> bytes_of "ABCDEFGH".

(** ** The request structures *)

(** The kernel's [struct { int sector : 3; char key; }]: four bytes, the
    signed three-bit field in the low bits of byte 0, the key in byte 1. *)
Definition sizeof_unlock_req : Z := 4.
Definition unlock_sector (req : list byte) : option Z :=
  (fun b => swrap 3 (byte_val b)) <$> zget req 0.
Definition unlock_key (req : list byte) : option byte := zget req 1.

Definition bool_byte (b : bool) : byte := if b then Byte.x01 else NUL.

Section Storage.
Context {W : Type} `{UserAccess W} `{Signals W} `{FileIO W} `{Grants W}.

(** ** File operations: the result and the file position *)

Definition storage_read (user_buffer length offset : Z) : M W disk (Z * Z) :=
  if STORAGE_TOTAL_SIZE <=? offset then mret (0, offset)
  else
    let length := if STORAGE_TOTAL_SIZE <? u64 (offset + length)
                  then u64 (STORAGE_TOTAL_SIZE - offset) else length in
    rc ← mutex_lock_interruptible storage_mutex;
    if negb (rc =? 0) then mret (- ERESTARTSYS, offset)
    else
      d ← get;
      if in_bounds offset length (zlen (storage_buffer (sto d))) then
        r ← copy_to_user user_buffer (sub offset length (storage_buffer (sto d)));
        if negb (r =? 0) then
          mutex_unlock storage_mutex;; mret (- EFAULT, offset)
        else
          mutex_unlock storage_mutex;; mret (length, offset + length)
      else oops OutOfBounds.

(** for (s = sector_start; s <= sector_end; s++) *)
Definition check_sectors (sector_start sector_end : Z) : M W disk (option Z) :=
  for_ (Z.to_nat (sector_end - sector_start + 1)) sector_start (fun s =>
    d ← get;
    locked ← value OutOfBounds (zget (sector_lock_state (sto d)) s);
    if locked : bool then mutex_unlock storage_mutex;; mret (Some (- EPERM))
    else mret None).

Definition storage_write (user_buffer length offset : Z) : M W disk (Z * Z) :=
  if STORAGE_TOTAL_SIZE <=? offset then mret (- ENOSPC, offset)
  else
    let length := if STORAGE_TOTAL_SIZE <? u64 (offset + length)
                  then u64 (STORAGE_TOTAL_SIZE - offset) else length in
    let start := u64 offset in
    let end_ := u64 (start + length) in
    let sector_start := s32 (start / STORAGE_SECTOR_SIZE) in
    let sector_end := s32 (u64 (end_ - 1) / STORAGE_SECTOR_SIZE) in
    rc ← mutex_lock_interruptible storage_mutex;
    if negb (rc =? 0) then mret (- ERESTARTSYS, offset)
    else
      denied ← check_sectors sector_start sector_end;
      match denied with
      | Some e => mret (e, offset)
      | None =>
          d ← get;
          if in_bounds offset length (zlen (storage_buffer (sto d))) then
            '(r, bs) ← copy_from_user user_buffer length;
            modify (set_buffer (upd offset bs (storage_buffer (sto d))));;
            if negb (r =? 0) then
              mutex_unlock storage_mutex;; mret (- EFAULT, offset)
            else
              mutex_unlock storage_mutex;; mret (length, offset + length)
          else oops OutOfBounds
      end.

Definition storage_open : M W disk Z := mret 0.
Definition storage_release : M W disk Z := mret 0.

(** ** The ioctl commands *)

Definition bad_sector (sector_index : Z) : bool :=
  (sector_index <? 0) || (STORAGE_NUM_SECTORS <=? sector_index).

Definition ioctl_lock_sector (arg : Z) : M W disk Z :=
  '(r, bs) ← copy_from_user arg sizeof_int;
  if negb (r =? 0) then mret (- EFAULT)
  else
    let sector_index := bytes_int bs in
    if bad_sector sector_index then mret (- EINVAL)
    else
      mutex_lock storage_mutex;;
      d ← get;
      ls ← value OutOfBounds (zset (sector_lock_state (sto d)) sector_index true);
      modify (set_locks ls);;
      mutex_unlock storage_mutex;;
      mret 0.

(** The key loop: [Some] when a key matches. *)
Definition match_key (key : byte) : M W disk (option unit) :=
  d ← get;
  for_ (Z.to_nat (key_count (sto d))) 0 (fun i =>
    k ← value OutOfBounds (zget (user_keys (sto d)) i);
    match k with
    | Some s => if bool_decide (key = default NUL (head s)) then mret (Some tt) else mret None
    | None => mret None
    end).

Definition ioctl_unlock_sector (arg : Z) : M W disk Z :=
  '(r, req) ← copy_from_user arg sizeof_unlock_req;
  if negb (r =? 0) then mret (- EFAULT)
  else
    sector ← value OutOfBounds (unlock_sector req);
    key ← value OutOfBounds (unlock_key req);
    if bad_sector sector then mret (- EINVAL)
    else
      valid ← match_key key;
      match valid with
      | None => mret (- EPERM)
      | Some _ =>
          rc ← mutex_lock_interruptible storage_mutex;
          if negb (rc =? 0) then mret (- ERESTARTSYS)
          else
            d ← get;
            ls ← value OutOfBounds (zset (sector_lock_state (sto d)) sector false);
            modify (set_locks ls);;
            mutex_unlock storage_mutex;;
            mret 0
      end.

Definition ioctl_get_lock_info (arg : Z) : M W disk Z :=
  mutex_lock storage_mutex;;
  d ← get;
  let lock_info := sector_lock_state (sto d) in
  mutex_unlock storage_mutex;;
  r ← copy_to_user arg (bool_byte <$> lock_info);
  if negb (r =? 0) then mret (- EFAULT) else mret 0.

Definition ioctl_erase_sector (arg : Z) : M W disk Z :=
  '(r, bs) ← copy_from_user arg sizeof_int;
  if negb (r =? 0) then mret (- EFAULT)
  else
    let sector_index := bytes_int bs in
    if bad_sector sector_index then mret (- EINVAL)
    else
      mutex_lock storage_mutex;;
      d ← get;
      locked ← value OutOfBounds (zget (sector_lock_state (sto d)) sector_index);
      if locked : bool then mutex_unlock storage_mutex;; mret (- EPERM)
      else
        let off := sector_index * STORAGE_SECTOR_SIZE in
        if in_bounds off STORAGE_SECTOR_SIZE (zlen (storage_buffer (sto d))) then
          modify (set_buffer (upd off (replicate (Z.to_nat STORAGE_SECTOR_SIZE) NUL)
                                  (storage_buffer (sto d))));;
          mutex_unlock storage_mutex;;
          mret 0
        else oops OutOfBounds.

Definition ioctl_mirror_sector (arg : Z) : M W disk Z :=
  '(r, bs) ← copy_from_user arg sizeof_int;
  if negb (r =? 0) then mret (- EFAULT)
  else
    let sector_index := bytes_int bs in
    if bad_sector sector_index then mret (- EINVAL)
    else
      d ← get;
      let off := sector_index * STORAGE_SECTOR_SIZE in
      if in_bounds off STORAGE_SECTOR_SIZE (zlen (storage_buffer (sto d))) then
        zoom mir set_mirror
             (mirror_sector sector_index (sub off STORAGE_SECTOR_SIZE (storage_buffer (sto d))));;
        mret 0
      else oops OutOfBounds.

Definition ioctl_backup_to_file (arg : Z) : M W disk Z :=
  '(r, path) ← copy_from_user arg 256;
  if negb (r =? 0) then mret (- EFAULT)
  else zoom mir set_mirror (vblock_backup_to_file path).

Definition storage_ioctl (cmd arg : Z) : M W disk Z :=
  if cmd =? IOCTL_LOCK_SECTOR then ioctl_lock_sector arg
  else if cmd =? IOCTL_UNLOCK_SECTOR then ioctl_unlock_sector arg
  else if cmd =? IOCTL_GET_LOCK_INFO then ioctl_get_lock_info arg
  else if cmd =? IOCTL_ERASE_SECTOR then ioctl_erase_sector arg
  else if cmd =? IOCTL_MIRROR_SECTOR then ioctl_mirror_sector arg
  else if cmd =? IOCTL_BACKUP_TO_FILE then ioctl_backup_to_file arg
  else mret (- ENOTTY).

(** ** Module load and unload *)

(** The registration part of the init function, which touches no variable
    of the device. *)
Definition storage_register {D} : M W D Z :=
  ret ← alloc_chrdev_region;
  if negb (ret =? 0) then mret ret
  else
    ret ← cdev_add 0;
    if negb (ret =? 0) then unregister_chrdev_region;; mret ret
    else
      p ← class_create;
      if IS_ERR p then
        cdev_del 0;; unregister_chrdev_region;; mret (PTR_ERR p)
      else
        p ← device_create 0;
        if IS_ERR p then
          class_destroy;; cdev_del 0;; unregister_chrdev_region;; mret (PTR_ERR p)
        else mret 0.

Definition storage_driver_init : M W disk Z :=
  d ← get;
  (if key_count (sto d) =? 0 then
     modify (fun d => Disk (Storage default_keys 8 (storage_buffer (sto d))
                                    (sector_lock_state (sto d))) (mir d))
   else mret tt);;
  modify (set_buffer (replicate (length (storage_buffer (sto d))) NUL));;
  modify (set_locks (replicate (length (sector_lock_state (sto d))) false));;
  storage_register.

Definition storage_driver_exit {D} : M W D unit :=
  device_destroy 0;; class_destroy;; cdev_del 0;; unregister_chrdev_region.
End Storage.

(** ** Invariant and abstraction *)

Record storage_ok (d : disk) : Prop := {
  ok_keys : zlen (user_keys (sto d)) = 8;
  ok_key_count : 0 <= key_count (sto d) <= 8;
  ok_buffer : zlen (storage_buffer (sto d)) = STORAGE_TOTAL_SIZE;
  ok_locks : zlen (sector_lock_state (sto d)) = STORAGE_NUM_SECTORS;
  ok_mirror : mirror_ok (mir d);
}.

(** The contents of a sector and whether it is locked. *)
Definition sector (d : disk) (i : Z) : list byte :=
  sub (i * STORAGE_SECTOR_SIZE) STORAGE_SECTOR_SIZE (storage_buffer (sto d)).
Definition is_locked (d : disk) (i : Z) : bool :=
  default false (zget (sector_lock_state (sto d)) i).

(** One operation keeps the invariant, leaves every locked sector's contents
    alone and unlocks at most sectors 0 to 3. *)
Definition guarded (d d' : disk) : Prop :=
  storage_ok d' /\
  forall i, 0 <= i < STORAGE_NUM_SECTORS -> is_locked d i = true ->
    sector d' i = sector d i /\ (4 <= i -> is_locked d' i = true).

(** ... and gives back the locks and resources it took. *)
Definition safe_from {W A} (d : disk) (h : list lock) (l : list resource)
    (_ : A) (σ : kst W disk) : Prop :=
  guarded d (drv σ) /\ held σ = h /\ ledger σ = l.

Lemma num_sectors : STORAGE_NUM_SECTORS = 8.
Proof. done. Qed.

Lemma guarded_refl d : storage_ok d -> guarded d d.
Proof. by split. Qed.

Lemma guarded_trans d1 d2 d3 :
  guarded d1 d2 -> guarded d2 d3 ->
  forall i, 4 <= i < STORAGE_NUM_SECTORS -> is_locked d1 i = true ->
  is_locked d3 i = true /\ sector d3 i = sector d1 i.
Proof.
  intros [_ H1] [_ H2] i Hi Hl.
  destruct (H1 i ltac:(lia) Hl) as [E1 L1]. specialize (L1 ltac:(lia)).
  destruct (H2 i ltac:(lia) L1) as [E2 L2]. split; [by apply L2; lia | congruence].
Qed.

Lemma is_locked_get d i :
  storage_ok d -> 0 <= i < STORAGE_NUM_SECTORS ->
  zget (sector_lock_state (sto d)) i = Some (is_locked d i).
Proof.
  intros Hd Hi. unfold is_locked.
  destruct (zget_in (sector_lock_state (sto d)) i) as [b ->]; [|done].
  by rewrite (ok_locks d Hd).
Qed.

Lemma set_buffer_ok d b :
  storage_ok d -> zlen b = STORAGE_TOTAL_SIZE -> storage_ok (set_buffer b d).
Proof. intros [] ?. by split. Qed.

Lemma set_mirror_ok d m : storage_ok d -> mirror_ok m -> storage_ok (set_mirror m d).
Proof. intros [] ?. by split. Qed.

Lemma set_locks_ok d i b :
  storage_ok d ->
  storage_ok (set_locks (<[Z.to_nat i := b]> (sector_lock_state (sto d))) d).
Proof. intros []. split; try done. simpl. by rewrite zlen_insert. Qed.

Lemma is_locked_set d i b j :
  storage_ok d -> 0 <= i < STORAGE_NUM_SECTORS -> 0 <= j ->
  is_locked (set_locks (<[Z.to_nat i := b]> (sector_lock_state (sto d))) d) j =
    if decide (i = j) then b else is_locked d j.
Proof.
  intros Hd Hi Hj. unfold is_locked. simpl. rewrite zget_insert.
  - by case_decide.
  - by rewrite (ok_locks d Hd).
  - done.
Qed.

(** A write that touches no locked sector is guarded. *)
Lemma guarded_write d off data :
  storage_ok d -> 0 <= off -> off + zlen data <= STORAGE_TOTAL_SIZE ->
  (forall i, off / STORAGE_SECTOR_SIZE <= i <= (off + zlen data - 1) / STORAGE_SECTOR_SIZE ->
             is_locked d i = false) ->
  guarded d (set_buffer (upd off data (storage_buffer (sto d))) d).
Proof.
  intros Hd Hoff Hend Hfree. pose proof (ok_buffer d Hd) as Hb.
  unfold STORAGE_SECTOR_SIZE, STORAGE_TOTAL_SIZE in *. split.
  { apply set_buffer_ok; [done|]. by rewrite zlen_upd by lia. }
  intros i Hi Hl. rewrite num_sectors in Hi. split; [|done].
  unfold sector, STORAGE_SECTOR_SIZE. simpl. pose proof (zlen_nonneg data).
  assert (i < off / 512 \/ (off + zlen data - 1) / 512 < i) as [Hlt|Hlt].
  { destruct (Z.lt_ge_cases i (off / 512)); [by left|].
    destruct (Z.lt_ge_cases ((off + zlen data - 1) / 512) i); [by right|].
    rewrite Hfree in Hl by lia. done. }
  - apply sub_upd_disjoint; dlia.
  - apply sub_upd_disjoint; dlia.
Qed.

Lemma guarded_lock d i :
  storage_ok d -> 0 <= i < STORAGE_NUM_SECTORS ->
  guarded d (set_locks (<[Z.to_nat i := true]> (sector_lock_state (sto d))) d).
Proof.
  intros Hd Hi. split; [by apply set_locks_ok|]. intros j Hj Hl. split; [done|].
  intros _. rewrite is_locked_set by (done || lia). by case_decide.
Qed.

Lemma guarded_unlock d i :
  storage_ok d -> 0 <= i < 4 ->
  guarded d (set_locks (<[Z.to_nat i := false]> (sector_lock_state (sto d))) d).
Proof.
  intros Hd Hi. pose proof num_sectors. split; [by apply set_locks_ok|]. intros j Hj Hl.
  split; [done|]. intros H4. rewrite is_locked_set by (done || lia).
  rewrite decide_False by lia. done.
Qed.

(** Registration owns four resources or, with an error, none. *)
Lemma storage_register_spec {W D} `{Grants W} (d : D) (w : W) h :
  wp storage_register
     (fun rc σ => drv σ = d /\ held σ = h /\
        if rc =? 0 then ledger σ = [Device 0; Class_; Cdev 0; Region] else ledger σ = [])
     (KSt d w h []).
Proof.
  unfold storage_register. unfold_kernel. wp_auto; split_and!; try done.
  all: by rewrite (proj2 (Z.eqb_neq _ _)).
Qed.

Lemma storage_driver_exit_spec {W D} (d : D) (w : W) h :
  wp storage_driver_exit (fun _ σ => drv σ = d /\ ledger σ = [] /\ held σ = h)
     (KSt d w h [Device 0; Class_; Cdev 0; Region]).
Proof. unfold storage_driver_exit. unfold_kernel. by wp_auto. Qed.

(** ** Each operation *)

Section Specs.
Context {W : Type} `{UserAccessOk W} `{!Signals W} `{!SignalsOk W}.
Implicit Types (σ : kst W disk) (d : disk) (w : W) (h : list lock) (l : list resource).

Lemma check_sectors_spec a b d w h l :
  storage_ok d -> 0 <= a -> b < STORAGE_NUM_SECTORS ->
  wp (check_sectors a b)
     (fun r σ =>
        (r = None /\ σ = KSt d w (storage_mutex :: h) l /\
         forall i, a <= i <= b -> is_locked d i = false) \/
        (r = Some (- EPERM) /\ σ = KSt d w h l /\
         exists i, a <= i <= b /\ is_locked d i = true))
     (KSt d w (storage_mutex :: h) l).
Proof.
  intros Hd Ha Hb. unfold check_sectors.
  apply (wp_for (fun j σ => σ = KSt d w (storage_mutex :: h) l /\
                            forall i, a <= i < j -> is_locked d i = false)).
  - split; [done|]. intros; lia.
  - intros j σ Hj [-> Hfree]. wp_auto. rewrite is_locked_get by (done || lia).
    wp_auto; simpl.
    + right. split_and!; try done. exists j. split; [lia | done].
    + split; [done|]. intros i Hi. destruct (decide (i = j)) as [->|]; [done|].
      apply Hfree. lia.
  - intros σ [-> Hfree]. left. split_and!; try done. intros i Hi. apply Hfree. lia.
Qed.

(** The number of bytes a request can transfer. *)
Definition clamp (length offset : Z) : Z := Z.min length (STORAGE_TOTAL_SIZE - offset).

Lemma clamp_code length offset :
  vfs_ok offset length -> offset < STORAGE_TOTAL_SIZE ->
  (if STORAGE_TOTAL_SIZE <? u64 (offset + length)
   then u64 (STORAGE_TOTAL_SIZE - offset) else length) = clamp length offset.
Proof.
  unfold vfs_ok, clamp, MAX_RW_COUNT, STORAGE_TOTAL_SIZE. intros [Ho Hl] Hlt.
  rewrite !u64_small by lia. destruct (Z.ltb_spec 4096 (offset + length)); lia.
Qed.

(** The sector range the code computes is the range of the bytes written. *)
Lemma sector_range offset n :
  0 <= offset < STORAGE_TOTAL_SIZE -> 0 <= n -> offset + n <= STORAGE_TOTAL_SIZE ->
  s32 (u64 offset / STORAGE_SECTOR_SIZE) = offset / STORAGE_SECTOR_SIZE /\
  s32 (u64 (u64 (u64 offset + n) - 1) / STORAGE_SECTOR_SIZE)
    = (offset + n - 1) / STORAGE_SECTOR_SIZE.
Proof.
  unfold STORAGE_TOTAL_SIZE, STORAGE_SECTOR_SIZE. intros Ho Hn He.
  rewrite (u64_small offset), (u64_small (offset + n)) by lia. split.
  - apply s32_small. unfold is_int, INT_MIN, INT_MAX. dlia.
  - destruct (decide (offset + n = 0)) as [E|E].
    + by rewrite E.
    + rewrite u64_small by lia. apply s32_small. unfold is_int, INT_MIN, INT_MAX. dlia.
Qed.

Definition read_result (d : disk) (w : W) (buf len off : Z) (r : Z * Z) (σ : kst W disk)
  : Prop :=
  let n := clamp len off in
  let data := sub off n (storage_buffer (sto d)) in
  drv σ = d /\
  ((STORAGE_TOTAL_SIZE <= off /\ r = (0, off) /\ umem (world σ) ≡ₘ umem w) \/
   (off < STORAGE_TOTAL_SIZE /\
    (r = (- ERESTARTSYS, off) \/ r = (- EFAULT, off) \/
     r = (n, off + n) /\ umem (world σ) ≡ₘ uwrite (umem w) buf data))).

Lemma storage_read_spec buf len off d w h l :
  storage_ok d -> storage_mutex ∉ h -> vfs_ok off len ->
  wp (storage_read buf len off)
     (fun r σ => read_result d w buf len off r σ /\ held σ = h /\ ledger σ = l)
     (KSt d w h l).
Proof.
  intros Hd Hh Hv. pose proof Hv as [Ho Hl]. unfold storage_read, read_result.
  destruct (Z.leb_spec STORAGE_TOTAL_SIZE off) as [He|He].
  { apply wp_ret. simpl. split_and!; auto. left. by split_and!. }
  rewrite clamp_code by done. pose proof (ok_buffer d Hd) as Hb.
  unfold clamp, MAX_RW_COUNT in *.
  wp_auto; simpl; split_and!; auto; right; split; auto.
  right; right. split; [done|]. subst.
  rewrite (ctu_full _ _ _ _ Hctu). by rewrite (lock_ok _ _ _ _ Hlock).
Qed.

Definition write_result (d : disk) (w : W) (buf len off : Z) (r : Z * Z) (σ : kst W disk)
  : Prop :=
  let n := clamp len off in
  let touched i := off / STORAGE_SECTOR_SIZE <= i <= (off + n - 1) / STORAGE_SECTOR_SIZE in
  (STORAGE_TOTAL_SIZE <= off /\ r = (- ENOSPC, off) /\ drv σ = d) \/
  (off < STORAGE_TOTAL_SIZE /\
   (r = (- ERESTARTSYS, off) /\ drv σ = d \/
    r = (- EPERM, off) /\ drv σ = d /\ (exists i, touched i /\ is_locked d i = true) \/
    (forall i, touched i -> is_locked d i = false) /\
    (r = (n, off + n) /\
     drv σ = set_buffer (upd off (uread (umem w) buf n) (storage_buffer (sto d))) d \/
     r = (- EFAULT, off) /\
     exists bs, zlen bs = n /\ drv σ = set_buffer (upd off bs (storage_buffer (sto d))) d))).

Lemma storage_write_spec buf len off d w h l :
  storage_ok d -> storage_mutex ∉ h -> vfs_ok off len ->
  wp (storage_write buf len off)
     (fun r σ => write_result d w buf len off r σ /\ held σ = h /\ ledger σ = l)
     (KSt d w h l).
Proof.
  intros Hd Hh Hv. pose proof Hv as [Ho Hl]. unfold storage_write, write_result.
  destruct (Z.leb_spec STORAGE_TOTAL_SIZE off) as [He|He].
  { apply wp_ret. simpl. split_and!; auto. }
  rewrite clamp_code by done. pose proof (ok_buffer d Hd) as Hb.
  assert (Hn : 0 <= clamp len off <= STORAGE_TOTAL_SIZE - off) by (unfold clamp; lia).
  destruct (sector_range off (clamp len off)) as [-> ->]; [lia..|].
  set (n := clamp len off) in *. clearbody n.
  wp_auto.
  - eapply wp_mono.
    { apply check_sectors_spec; [done | |]; rewrite ?num_sectors;
        unfold STORAGE_SECTOR_SIZE, STORAGE_TOTAL_SIZE in *; dlia. }
    intros r σ [(-> & -> & Hfree)|(-> & -> & i & Hi & Hlk)].
    + wp_auto; simpl; split_and!; auto; right; split; auto; do 2 right; (split; [done|]).
      * left. subst. apply cfu_full in Hcfu as [-> _]; [|lia].
        split; [done|]. do 2 f_equal. by rewrite (lock_ok _ _ _ _ Hlock).
      * right. split; [done|]. exists bs. split; [|done]. by eapply cfu_zlen; [lia|].
    + wp_auto. simpl. split_and!; auto. right. split; [done|]. right. left. eauto.
  - simpl. split_and!; auto 10.
Qed.
End Specs.

(** The keys that open a sector: the first characters of the configured
    strings, the empty string counting as the NUL character. *)
Definition opens (key : byte) (k : option (list byte)) : bool :=
  match k with
  | Some s => bool_decide (key = default NUL (head s))
  | None => false
  end.
Definition key_valid (d : disk) (key : byte) : bool :=
  existsb (opens key) (take (Z.to_nat (key_count (sto d))) (user_keys (sto d))).

Section IoctlSpecs.
Context {W : Type} `{UserAccessOk W} `{!Signals W} `{!SignalsOk W}.
Implicit Types (σ : kst W disk) (d : disk) (w : W) (h : list lock) (l : list resource).

Lemma match_key_spec key d w h l :
  storage_ok d ->
  wp (match_key key)
     (fun r σ => σ = KSt d w h l /\ r = if key_valid d key then Some tt else None)
     (KSt d w h l).
Proof.
  intros Hd. unfold match_key, key_valid. wp_auto. set (n := Z.to_nat (key_count (sto d))).
  assert (Hn : (n <= length (user_keys (sto d)))%nat).
  { pose proof (ok_keys d Hd). pose proof (ok_key_count d Hd). unfold zlen in *. lia. }
  apply (wp_for (fun j σ => σ = KSt d w h l /\
                   existsb (opens key) (take (Z.to_nat j) (user_keys (sto d))) = false)).
  - by split.
  - intros j σ Hj [-> Hno].
    destruct (zget_in (user_keys (sto d)) j) as [k Hk]; [unfold zlen; lia|].
    rewrite Hk. apply wp_bind, wp_value.
    unfold zget in Hk. destruct (Z.leb_spec 0 j); [|lia].
    replace (Z.to_nat (j + 1)) with (S (Z.to_nat j)) by lia.
    assert (Ht : existsb (opens key) (take (S (Z.to_nat j)) (user_keys (sto d))) = opens key k).
    { rewrite (take_S_r _ _ _ Hk), existsb_app, Hno. simpl. by rewrite orb_false_r. }
    rewrite Ht. destruct k as [s|]; simpl; [|by apply wp_ret].
    destruct (bool_decide_reflect (key = default NUL (head s))) as [Ek|Ek];
      apply wp_ret; (split; [done|]).
    + replace (existsb _ _) with true; [done|]. symmetry. apply existsb_exists.
      exists (Some s). split; [|simpl; by apply bool_decide_eq_true].
      apply list_elem_of_In. apply list_elem_of_lookup. exists (Z.to_nat j).
      rewrite lookup_take_lt; [done | lia].
    + done.
  - intros σ [-> Hno]. split; [done|]. rewrite Z.add_0_l, Nat2Z.id in Hno.
    by rewrite Hno.
Qed.

Lemma bad_sector_false i : bad_sector i = false <-> 0 <= i < STORAGE_NUM_SECTORS.
Proof. unfold bad_sector. rewrite orb_false_iff, Z.ltb_ge, Z.leb_gt. tauto. Qed.

Lemma ioctl_lock_spec arg d w h l :
  storage_ok d -> storage_mutex ∉ h ->
  wp (ioctl_lock_sector arg)
     (fun rc σ =>
        let i := user_int w arg in
        held σ = h /\ ledger σ = l /\
        (drv σ = d /\ (rc = - EFAULT \/ rc = - EINVAL /\ ~ 0 <= i < STORAGE_NUM_SECTORS) \/
         0 <= i < STORAGE_NUM_SECTORS /\ rc = 0 /\
         drv σ = set_locks (<[Z.to_nat i := true]> (sector_lock_state (sto d))) d))
     (KSt d w h l).
Proof.
  intros Hd Hh. pose proof (ok_locks d Hd). unfold ioctl_lock_sector, user_int. change 4 with sizeof_int. wp_auto.
  - subst. apply cfu_full in Hcfu as [-> _]; [|done]. simpl. split_and!; auto. left.
    split; [done|]. right. split; [done|]. rewrite <- bad_sector_false. by rewrite E.
  - subst. apply cfu_full in Hcfu as [-> _]; [|done]. apply bad_sector_false in E.
    rewrite zset_in by lia. wp_auto. simpl. split_and!; auto.
  - simpl. split_and!; auto.
Qed.

Lemma ioctl_unlock_spec arg d w h l :
  storage_ok d -> storage_mutex ∉ h ->
  wp (ioctl_unlock_sector arg)
     (fun rc σ =>
        let req := uread (umem w) arg 4 in
        let i := swrap 3 (byte_val (default NUL (zget req 0))) in
        let key := default NUL (zget req 1) in
        held σ = h /\ ledger σ = l /\
        (drv σ = d /\
         (rc = - EFAULT \/ rc = - ERESTARTSYS \/ rc = - EINVAL /\ i < 0 \/
          rc = - EPERM /\ key_valid d key = false) \/
         0 <= i < 4 /\ key_valid d key = true /\ rc = 0 /\
         drv σ = set_locks (<[Z.to_nat i := false]> (sector_lock_state (sto d))) d))
     (KSt d w h l).
Proof.
  intros Hd Hh. pose proof (ok_locks d Hd). pose proof num_sectors.
  unfold ioctl_unlock_sector. wp_step; wp_step. destruct (Z.eqb_spec r 0) as [->|Hr]; simpl negb; cbv iota.
  2:{ apply wp_ret. simpl. split_and!; auto. }
  apply cfu_full in Hcfu as [Hbs _]; [|done]. unfold sizeof_unlock_req in Hbs.
  assert (Hz : zlen bs = 4) by (rewrite Hbs; by apply length_uread). rewrite <- Hbs.
  destruct (zget_in bs 0) as [b0 E0]; [lia|]. destruct (zget_in bs 1) as [b1 E1]; [lia|].
  unfold unlock_sector, unlock_key. rewrite E0, E1. simpl.
  pose proof (swrap_range 3 (byte_val b0) ltac:(lia)) as Hrange. change (2 ^ (3 - 1)) with 4 in Hrange.
  set (i := swrap 3 (byte_val b0)) in *.
  wp_step; wp_step; wp_step; wp_step. destruct (bad_sector i) eqn:E.
  { apply wp_ret. simpl. split_and!; auto. left. split; [done|]. right; right; left.
    split; [done|]. destruct (Z.lt_ge_cases i 0); [done|].
    assert (bad_sector i = false) by (apply bad_sector_false; lia). congruence. }
  apply bad_sector_false in E. apply wp_bind.
  eapply wp_mono; [by apply match_key_spec|]. intros v σ [-> ->]. wp_red.
  destruct (key_valid d b1) eqn:Ek.
  - wp_auto.
    + rewrite zset_in by lia. wp_auto. simpl. split_and!; auto. right. split_and!; auto; lia.
    + simpl. split_and!; auto 6.
  - apply wp_ret. simpl. split_and!; auto 8.
Qed.

Lemma ioctl_get_lock_info_spec arg d w h l :
  storage_ok d -> storage_mutex ∉ h ->
  wp (ioctl_get_lock_info arg)
     (fun rc σ =>
        held σ = h /\ ledger σ = l /\ drv σ = d /\
        (rc = - EFAULT \/
         rc = 0 /\ umem (world σ) ≡ₘ uwrite (umem w) arg (bool_byte <$> sector_lock_state (sto d))))
     (KSt d w h l).
Proof.
  intros Hd Hh. unfold ioctl_get_lock_info. wp_auto; simpl; split_and!; auto.
  right. split; [done|]. subst. by apply ctu_full.
Qed.

Definition zero_sector : list byte := replicate (Z.to_nat STORAGE_SECTOR_SIZE) NUL.

Lemma ioctl_erase_spec arg d w h l :
  storage_ok d -> storage_mutex ∉ h ->
  wp (ioctl_erase_sector arg)
     (fun rc σ =>
        let i := user_int w arg in
        held σ = h /\ ledger σ = l /\
        (drv σ = d /\
         (rc = - EFAULT \/ rc = - EINVAL /\ ~ 0 <= i < STORAGE_NUM_SECTORS \/
          rc = - EPERM /\ 0 <= i < STORAGE_NUM_SECTORS /\ is_locked d i = true) \/
         0 <= i < STORAGE_NUM_SECTORS /\ is_locked d i = false /\ rc = 0 /\
         drv σ = set_buffer (upd (i * STORAGE_SECTOR_SIZE) zero_sector
                                 (storage_buffer (sto d))) d))
     (KSt d w h l).
Proof.
  intros Hd Hh. pose proof (ok_buffer d Hd) as Hb. pose proof num_sectors as H8.
  unfold ioctl_erase_sector, user_int. wp_step; wp_step.
  destruct (Z.eqb_spec r 0) as [->|Hr]; simpl negb; cbv iota.
  2:{ apply wp_ret. simpl. split_and!; auto. }
  apply cfu_full in Hcfu as [-> _]; [|done]. unfold sizeof_int.
  set (i := bytes_int _). destruct (bad_sector i) eqn:E.
  { apply wp_ret. simpl. split_and!; auto. left. split; [done|]. right. left.
    split; [done|]. rewrite <- bad_sector_false. by rewrite E. }
  apply bad_sector_false in E. unfold STORAGE_TOTAL_SIZE, STORAGE_SECTOR_SIZE in *.
  wp_auto. rewrite is_locked_get by done. wp_auto; simpl; split_and!; auto.
  destruct E. left. split; [done|]. right. right. by split_and!.
Qed.
End IoctlSpecs.

(** ** The device as a transition system *)

Inductive disk_op :=
  | ORead (buf len pos : Z) | OWrite (buf len pos : Z) | OIoctl (cmd arg : Z).

Definition run_disk_op {W} `{UserAccess W} `{Signals W} `{FileIO W} (o : disk_op)
  : M W disk Z :=
  match o with
  | ORead buf len pos => r ← storage_read buf len pos; mret r.1
  | OWrite buf len pos => r ← storage_write buf len pos; mret r.1
  | OIoctl cmd arg => storage_ioctl cmd arg
  end.

(** What the VFS guarantees for read and write; a backup path the user
    terminated within the 256 bytes the driver copies. *)
Definition disk_op_ok {W} `{UserMem W} (w : W) (o : disk_op) : Prop :=
  match o with
  | ORead _ len pos | OWrite _ len pos => vfs_ok pos len
  | OIoctl cmd arg => cmd = IOCTL_BACKUP_TO_FILE -> cstr (uread (umem w) arg 256) <> None
  end.

Lemma guarded_erase d i :
  storage_ok d -> 0 <= i < STORAGE_NUM_SECTORS -> is_locked d i = false ->
  guarded d (set_buffer (upd (i * STORAGE_SECTOR_SIZE) zero_sector (storage_buffer (sto d))) d).
Proof.
  intros Hd Hi Hf. rewrite num_sectors in Hi.
  assert (Hz : zlen zero_sector = 512) by done.
  apply guarded_write; rewrite ?Hz; unfold STORAGE_SECTOR_SIZE, STORAGE_TOTAL_SIZE; [done | lia | lia |].
  intros j Hj. by replace j with i by dlia.
Qed.

Lemma write_result_guarded {W} `{UserMem W} d (w : W) buf len off r (σ : kst W disk) :
  storage_ok d -> vfs_ok off len -> write_result d w buf len off r σ -> guarded d (drv σ).
Proof.
  intros Hd [Ho Hl] Hr. unfold write_result in Hr.
  destruct Hr as [(_ & _ & ->)|(Hlt & [[_ ->]|[(_ & -> & _)|(Hfree & Hr)]])];
    try by apply guarded_refl.
  assert (0 <= clamp len off <= STORAGE_TOTAL_SIZE - off) by (unfold clamp; lia).
  destruct Hr as [[_ ->]|(_ & bs & Hbs & ->)]; apply guarded_write; try done; try lia.
  - rewrite length_uread by lia. lia.
  - by rewrite length_uread by lia.
  - by rewrite Hbs.
Qed.

Section Whole.
Context {W : Type} `{UserAccessOk W} `{!FileIO W} `{!Signals W} `{!SignalsOk W}
        `{!FileData W} `{!FileIOOk W}.
Implicit Types (σ : kst W disk) (d : disk) (w : W) (h : list lock) (l : list resource).

Lemma ioctl_mirror_spec arg d w h l :
  storage_ok d -> mirror_mutex ∉ h ->
  wp (ioctl_mirror_sector arg)
     (fun rc σ =>
        let i := user_int w arg in
        held σ = h /\ ledger σ = l /\ storage_ok (drv σ) /\ sto (drv σ) = sto d /\
        umem (world σ) ≡ₘ umem w /\
        (mir (drv σ) = mir d /\
         (rc = - EFAULT \/ rc = - EINVAL /\ ~ 0 <= i < STORAGE_NUM_SECTORS \/
          rc = 0 /\ (exists w, (k_lock_interruptible mirror_mutex w).1 <> 0)) \/
         0 <= i < STORAGE_NUM_SECTORS /\ rc = 0 /\
         mir (drv σ) = Mirror (upd (i * STORAGE_SECTOR_SIZE) (sector d i)
                                   (mirror_buffer (mir d)))))
     (KSt d w h l).
Proof.
  intros Hd Hh. pose proof (ok_buffer d Hd) as Hb. pose proof num_sectors as H8.
  pose proof (ok_mirror d Hd) as Hm. unfold mirror_ok in Hm.
  unfold ioctl_mirror_sector, user_int. change 4 with sizeof_int. wp_step; wp_step.
  destruct (Z.eqb_spec r 0) as [->|Hr]; simpl negb; cbv iota.
  2:{ apply wp_ret. simpl. split_and!; auto 10. by eapply cfu_mem; [|done]. }
  apply cfu_full in Hcfu as [-> Hu]; [|done].
  set (i := bytes_int _). destruct (bad_sector i) eqn:E.
  { apply wp_ret. simpl. split_and!; auto. left. split; [done|]. right. left.
    split; [done|]. rewrite <- bad_sector_false. by rewrite E. }
  apply bad_sector_false in E. unfold STORAGE_TOTAL_SIZE, STORAGE_SECTOR_SIZE in *.
  assert (Hs : zlen (sector d i) = 512).
  { unfold sector, STORAGE_SECTOR_SIZE. apply zlen_sub; lia. }
  wp_step; wp_step; wp_step. apply wp_bind, wp_zoom.
  change (sub (i * 512) 512 (storage_buffer (sto d))) with (sector d i).
  unfold mirror_sector, MIRROR_SECTOR_SIZE.
  change ((i <? 0) || (MIRROR_NUM_SECTORS <=? i)) with (bad_sector i).
  pose proof E as Eb. apply bad_sector_false in Eb as ->.
  unfold MIRROR_TOTAL_SIZE in *. wp_auto; simpl; split_and!; auto.
  - apply set_mirror_ok; [done|]. unfold mirror_ok. simpl. by rewrite zlen_upd by lia.
  - by rewrite (lock_ok _ _ _ _ Hlock).
  - by apply set_mirror_ok.
  - by rewrite (lock_ok _ _ _ _ Hlock).
  - left. split; [done|]. right. right. split; [done|]. exists w0. by rewrite Hlock.
Qed.

Lemma ioctl_backup_spec arg d w h l :
  storage_ok d -> mirror_mutex ∉ h -> cstr (uread (umem w) arg 256) <> None ->
  wp (ioctl_backup_to_file arg)
     (fun rc σ =>
        held σ = h /\ ledger σ = l /\ drv σ = d /\
        (rc = 0 -> filedata (world σ) = mirror_buffer (mir d)))
     (KSt d w h l).
Proof.
  intros Hd Hh Hp. unfold ioctl_backup_to_file. wp_step; wp_step.
  destruct (Z.eqb_spec r 0) as [->|Hr]; simpl negb; cbv iota.
  2:{ apply wp_ret. simpl. by split_and!. }
  apply cfu_full in Hcfu as [-> _]; [|done].
  destruct (cstr _) as [name|] eqn:Ep; [|done]. apply wp_zoom.
  eapply wp_mono; [by eapply backup_spec; [apply ok_mirror | ..]|].
  intros rc σ (Hm & Hh' & Hl & _ & Hf & _). simpl in *. subst. split_and!; auto.
  unfold set_mirror. rewrite Hm. by destruct d.
Qed.

(** Every entry point is guarded and balanced. *)
Lemma run_disk_op_safe o d w h l :
  storage_ok d -> storage_mutex ∉ h -> mirror_mutex ∉ h -> disk_op_ok w o ->
  wp (run_disk_op o) (safe_from d h l) (KSt d w h l).
Proof.
  intros Hd Hs Hm Ho. unfold safe_from. destruct o as [buf len pos|buf len pos|cmd arg]; simpl.
  - apply wp_bind. eapply wp_mono; [by apply storage_read_spec|].
    intros r σ ([Hd' _] & Hh & Hl). apply wp_ret. rewrite Hd'. split_and!; auto.
    by apply guarded_refl.
  - apply wp_bind. eapply wp_mono; [by apply storage_write_spec|].
    intros r σ (Hr & Hh & Hl). apply wp_ret. split_and!; auto.
    by eapply write_result_guarded.
  - unfold storage_ioctl.
    repeat lazymatch goal with
    | |- wp (if cmd =? ?c then _ else _) _ _ => destruct (Z.eqb_spec cmd c)
    end.
    + eapply wp_mono; [by apply ioctl_lock_spec|].
      intros rc σ (-> & -> & [[-> _]|(Hi & _ & ->)]); split_and!; auto.
      * by apply guarded_refl.
      * by apply guarded_lock.
    + eapply wp_mono; [by apply ioctl_unlock_spec|].
      intros rc σ (-> & -> & [[-> _]|(Hi & _ & _ & ->)]); split_and!; auto.
      * by apply guarded_refl.
      * by apply guarded_unlock.
    + eapply wp_mono; [by apply ioctl_get_lock_info_spec|].
      intros rc σ (-> & -> & -> & _); split_and!; auto. by apply guarded_refl.
    + eapply wp_mono; [by apply ioctl_erase_spec|].
      intros rc σ (-> & -> & [[-> _]|(Hi & Hf & _ & ->)]); split_and!; auto.
      * by apply guarded_refl.
      * by apply guarded_erase.
    + eapply wp_mono; [by apply ioctl_mirror_spec|].
      intros rc σ (-> & -> & Hok & Hsto & _ & _); split_and!; auto.
      split; [done|]. intros i _ Hl. unfold sector, is_locked in *. by rewrite Hsto.
    + eapply wp_mono; [apply ioctl_backup_spec; auto|].
      intros rc σ (-> & -> & -> & _); split_and!; auto. by apply guarded_refl.
    + apply wp_ret. split_and!; auto. by apply guarded_refl.
Qed.
End Whole.
