(* ===== verification/StorageProps.v ===== *)
(** * 003_char_block_storage_device: what the storage device guarantees

    Properties of [Storage] and [Mirror]: memory safety and the protection of
    locked sectors over every sequence of operations, the functional results
    of reads and writes, the behaviour of the unlock and backup requests, and
    the release of what the module registers. *)

From S2P Require Import Prelude Kernel Wp Sim Mirror Storage.

(** One operation by a thread that holds nothing, in any world. *)
Inductive disk_step {W} `{UserAccess W} `{Signals W} `{FileIO W} `{UserMem W}
    : disk -> disk -> Prop :=
  | disk_step_intro o w rc d d' w' :
      disk_op_ok w o ->
      run_disk_op o (KSt d w [] []) = Done (rc, KSt d' w' [] []) ->
      disk_step d d'.

(** The device after loading with no key parameter. *)
Definition disk0 : disk :=
  Disk (Storage default_keys 8 (replicate 4096 NUL) (replicate 8 false)) mirror0.

Lemma disk0_ok : storage_ok disk0.
Proof. by split. Qed.

(** The same with sectors 2 and 5 locked. *)
Definition disk_locked : disk :=
  set_locks [false; false; true; false; false; true; false; false] disk0.

Lemma disk_locked_ok : storage_ok disk_locked.
Proof. by split. Qed.

Section Props.
Context {W : Type} `{UserAccessOk W} `{!FileIO W} `{!Signals W} `{!SignalsOk W}
        `{!FileData W} `{!FileIOOk W}.

Lemma disk_step_guarded d d' :
  storage_ok d -> disk_step d d' -> guarded d d'.
Proof.
  intros Hd Hs. destruct Hs as [o w rc d d' w' Ho Hrun].
  pose proof (run_disk_op_safe o d w [] [] Hd (lock_not_in_nil _) (lock_not_in_nil _) Ho) as Hw.
  unfold wp in Hw. rewrite Hrun in Hw. apply Hw.
Qed.

Lemma disk_steps_ok d d' : storage_ok d -> rtc disk_step d d' -> storage_ok d'.
Proof.
  intros Hd Hr. revert Hd. induction Hr as [|d1 d2 d3 Hs _ IH]; [done|].
  intros Hd. apply IH. by apply (disk_step_guarded d1 d2).
Qed.

(** What the VFS guarantees for reads and writes; ioctl arguments are free. *)
Definition from_vfs (o : disk_op) : Prop :=
  match o with ORead _ len pos | OWrite _ len pos => vfs_ok pos len | OIoctl _ _ => True end.

(** A backup request whose path has no terminator in the 256 bytes that the
    driver copies. *)
Definition unterminated (w : W) (o : disk_op) : Prop :=
  exists arg, o = OIoctl IOCTL_BACKUP_TO_FILE arg /\ cstr (uread (umem w) arg 256) = None.

Lemma path_decided w o : from_vfs o -> disk_op_ok w o \/ unterminated w o.
Proof.
  destruct o as [| |cmd arg]; intros Ho; [by left.. |].
  destruct (decide (cmd = IOCTL_BACKUP_TO_FILE)) as [->|Hne]; [|left; by intros ?].
  destruct (cstr (uread (umem w) arg 256)) eqn:E; [left; intros _; by rewrite E | right; by exists arg].
Qed.

(** Its copy fails, or the array is read past its end. *)
Lemma unterminated_run arg d (w : W) h l :
  cstr (uread (umem w) arg 256) = None ->
  (exists rc path w', k_copy_from_user arg 256 w = (rc, path, w') /\ rc <> 0 /\
     storage_ioctl IOCTL_BACKUP_TO_FILE arg (KSt d w h l) = Done (- EFAULT, KSt d w' h l)) \/
  storage_ioctl IOCTL_BACKUP_TO_FILE arg (KSt d w h l) = Oops Unterminated.
Proof.
  intros Hp. destruct (k_copy_from_user arg 256 w) as [[rc path] w'] eqn:E.
  change (storage_ioctl IOCTL_BACKUP_TO_FILE arg) with (ioctl_backup_to_file (W := W) arg).
  unfold ioctl_backup_to_file.
  rewrite (bind_done _ _ (rc, path) _ (KSt d w' h l)) by (unfold copy_from_user, call; simpl; by rewrite E).
  destruct (decide (rc = 0)) as [->|Hne].
  2:{ left. exists rc, path, w'. by rewrite (proj2 (Z.eqb_neq rc 0) Hne). }
  right. change (negb (0 =? 0)) with false. cbv iota.
  pose proof E as Hz. apply cfu_zlen in Hz; [|done]. apply cfu_full in E as [-> _]; [|done].
  unfold zoom. cbv beta. rewrite backup_unterminated; [done | by intros Hn; rewrite Hn in Hz | exact Hp].
Qed.

(** C4. Every entry point of the storage driver (read and write with what the
    VFS lets through, all six ioctl commands with any argument, whatever the
    kernel answers), run from a well-formed device, has one undefined
    behaviour: a backup request whose path is not terminated in the 256 bytes
    copied is read past its end, unless the copy from the user fails. In all
    other cases there is no out-of-bounds access, deadlock or unmatched
    unlock; the device stays well-formed, the locks and resources are the ones
    before, the bytes of every locked sector are as they were and only sectors
    0 to 3 can have been unlocked. *)
Theorem storage_op_safe (o : disk_op) (d : disk) (w : W) (h : list lock) (l : list resource)
    (Hd : storage_ok d) (Hs : storage_mutex ∉ h) (Hm : mirror_mutex ∉ h) (Ho : from_vfs o) :
  match run_disk_op o (KSt d w h l) with
  | Done (rc, σ) =>
      storage_ok (drv σ) /\ held σ = h /\ ledger σ = l /\
      (forall i, 0 <= i < STORAGE_NUM_SECTORS -> is_locked d i = true ->
         sector (drv σ) i = sector d i /\ (4 <= i -> is_locked (drv σ) i = true)) /\
      (unterminated w o -> rc = - EFAULT)
  | Oops u => u = Unterminated /\ unterminated w o
  end.
Proof.
  destruct (path_decided w o Ho) as [Hok|(arg & -> & Hp)].
  - pose proof (run_disk_op_safe o d w h l Hd Hs Hm Hok) as Hw. unfold wp in Hw.
    destruct (run_disk_op o _) as [[rc σ]|]; [|done]. destruct Hw as ([Hd' Hg] & Hh & Hl). split_and!; try done.
    intros (arg & -> & Hp). by destruct (Hok eq_refl).
  - simpl run_disk_op. destruct (unterminated_run arg d w h l Hp) as [(rc & path & w' & _ & _ & ->)| ->].
    + by split_and!.
    + split; [done | by exists arg].
Qed.

(** C5. Along any sequence of operations during which a sector stays locked,
    its 512 bytes do not change. *)
Theorem locked_sector_immutable (i : Z) (d d' : disk) (Hd : storage_ok d)
    (Hi : 0 <= i < STORAGE_NUM_SECTORS)
    (Hr : rtc (fun a b => disk_step a b /\ is_locked a i = true) d d') :
  sector d' i = sector d i.
Proof.
  revert Hd. induction Hr as [|d1 d2 d3 [Hs Hl] _ IH]; [done|]. intros Hd.
  destruct (disk_step_guarded _ _ Hd Hs) as [Hok Hg].
  destruct (Hg i Hi Hl) as [E _]. by rewrite IH, E.
Qed.

(** Sectors 4 to 7 can be locked but never unlocked: once locked, such a
    sector stays locked and keeps its bytes along every sequence of
    operations. The request's [int sector : 3] is signed, so the four upper
    sector numbers arrive as -4 to -1. *)
Theorem high_sector_locked_forever (i : Z) (d d' : disk) (Hd : storage_ok d)
    (Hi : 4 <= i < STORAGE_NUM_SECTORS) (Hl : is_locked d i = true)
    (Hr : rtc disk_step d d') :
  is_locked d' i = true /\ sector d' i = sector d i.
Proof.
  revert Hd Hl. induction Hr as [|d1 d2 d3 Hs _ IH]; [done|]. intros Hd Hl.
  destruct (disk_step_guarded _ _ Hd Hs) as [Hok Hg].
  destruct (Hg i ltac:(lia) Hl) as [E Hl2].
  destruct (IH Hok (Hl2 ltac:(lia))) as [Hl3 E3]. split; [done | congruence].
Qed.

(** C7. A write accepted by the VFS transfers the bytes up to the end of the
    device. It fails with ENOSPC at or after the end, with EPERM exactly
    when a sector it touches is locked, and in both cases changes nothing;
    when it succeeds exactly the user's bytes replace the range; when the
    user buffer faults the range has been overwritten all the same. *)
Theorem storage_write_result (d : disk) (w : W) (buf len off : Z)
    (Hd : storage_ok d) (Hv : vfs_ok off len) :
  wp (storage_write buf len off)
     (fun r σ =>
        let n := Z.min len (4096 - off) in
        let touched i := off / 512 <= i <= (off + n - 1) / 512 in
        held σ = [] /\
        ((r = (- ENOSPC, off) /\ 4096 <= off /\ drv σ = d) \/
         (r = (- ERESTARTSYS, off) /\ drv σ = d) \/
         (r = (- EPERM, off) /\ drv σ = d /\ exists i, touched i /\ is_locked d i = true) \/
         ((forall i, touched i -> is_locked d i = false) /\
          ((r = (n, off + n) /\ storage_buffer (sto (drv σ)) =
              upd off (uread (umem w) buf n) (storage_buffer (sto d))) \/
           (r = (- EFAULT, off) /\ exists bs, zlen bs = n /\ storage_buffer (sto (drv σ)) =
              upd off bs (storage_buffer (sto d)))))))
     (KSt d w [] []).
Proof.
  eapply wp_mono; [apply storage_write_spec; auto using lock_not_in_nil|].
  intros r σ (Hr & Hh & _). split; [done|]. unfold write_result, clamp in Hr.
  unfold STORAGE_TOTAL_SIZE, STORAGE_SECTOR_SIZE in *.
  destruct Hr as [(? & -> & ->)|(_ & [[-> ->]|[(-> & -> & ?)|(Hfree & [[-> ->]|(-> & bs & ? & ->)])]])].
  - by left.
  - right; by left.
  - right; right; by left.
  - do 3 right. split; [done|]. by left.
  - do 3 right. split; [done|]. right. split; [done|]. by exists bs.
Qed.

(** A read transfers the stored bytes up to the end of the device to the
    user, advances the position by their number and changes nothing in the
    device; at the end it returns 0. *)
Theorem storage_read_result (d : disk) (w : W) (buf len off : Z)
    (Hd : storage_ok d) (Hv : vfs_ok off len) :
  wp (storage_read buf len off)
     (fun r σ =>
        let n := Z.min len (4096 - off) in
        drv σ = d /\ held σ = [] /\
        ((4096 <= off /\ r = (0, off) /\ umem (world σ) ≡ₘ umem w) \/
         (off < 4096 /\
          (r = (- ERESTARTSYS, off) \/ r = (- EFAULT, off) \/
           r = (n, off + n) /\
           umem (world σ) ≡ₘ uwrite (umem w) buf (sub off n (storage_buffer (sto d)))))))
     (KSt d w [] []).
Proof.
  eapply wp_mono; [apply storage_read_spec; auto using lock_not_in_nil|].
  intros r σ ([-> Hr] & Hh & _). by split_and!.
Qed.

(** What a successful write stored, a later successful read of the same
    range delivers: the user's buffer at [dst] ends with the bytes that were
    at [src]. *)
Theorem storage_write_read (d : disk) (w : W) (src dst len off : Z)
    (Hd : storage_ok d) (Hv : vfs_ok off len) (Hoff : off < 4096) :
  wp (r1 ← storage_write src len off; r2 ← storage_read dst len off; mret (r1.1, r2.1))
     (fun r σ =>
        let n := Z.min len (4096 - off) in
        r = (n, n) -> uread (umem (world σ)) dst n = uread (umem w) src n)
     (KSt d w [] []).
Proof.
  apply wp_bind. eapply wp_mono; [apply storage_write_spec; auto using lock_not_in_nil|].
  intros r1 [d1 w1 h1 l1] (Hr & Hh & _). simpl in Hh. subst h1.
  pose proof (write_result_guarded _ _ _ _ _ _ _ Hd Hv Hr) as [Hok _]. simpl in Hok.
  apply wp_bind. eapply wp_mono; [apply storage_read_spec; auto using lock_not_in_nil|].
  intros r2 σ ([_ Hr2] & _ & _). apply wp_ret. simpl. intros [= E1 E2].
  unfold vfs_ok in Hv. unfold write_result, clamp, STORAGE_TOTAL_SIZE in Hr, Hr2. simpl in Hr.
  set (n := Z.min len (4096 - off)) in *.
  assert (Hn : 0 <= n <= 4096 - off) by lia. clearbody n. pose proof (ok_buffer d Hd) as Hb. unfold STORAGE_TOTAL_SIZE in Hb.
  assert (Hz : zlen (uread (umem w) src n) = n) by (apply length_uread; lia).
  destruct Hr as [(? & _)|(_ & [[-> _]|[(-> & _)|(_ & [[_ ->]|(-> & _)])]])];
    simpl in E1; unfold ERESTARTSYS, EPERM, EFAULT in *; try lia.
  destruct Hr2 as [(? & _)|(_ & [->|[->|[_ Hm]]])]; simpl in E2;
    unfold ERESTARTSYS, EFAULT in *; try lia.
  assert (Hsub : sub off n (upd off (uread (umem w) src n) (storage_buffer (sto d)))
                 = uread (umem w) src n).
  { rewrite <- Hz at 1. apply sub_upd_eq; lia. }
  rewrite Hm. simpl. rewrite Hsub. rewrite <- Hz at 2. by apply uread_uwrite.
Qed.
End Props.

(** ** The requests storage_user.c makes *)

(** storage_user.c's [struct unlock_request { int sector; char key; }] in
    memory: the sector in four bytes, then the key and three of padding. *)
Definition unlock_request (sector : Z) (key : byte) (pad : list byte) : list byte :=
  int_bytes sector ++ key :: pad.

Lemma user_request_key sector key pad :
  0 <= sector < STORAGE_NUM_SECTORS -> zget (unlock_request sector key pad) 1 = Some NUL.
Proof.
  rewrite num_sectors. intros Hs.
  assert (sector = 0 \/ sector = 1 \/ sector = 2 \/ sector = 3 \/ sector = 4 \/
          sector = 5 \/ sector = 6 \/ sector = 7) as Hc by lia.
  by destruct Hc as [->|[->|[->|[->|[->|[->|[->| ->]]]]]]].
Qed.

Lemma uread_sub (f : Z -> byte) a n k :
  0 <= k <= n -> take (Z.to_nat k) (uread f a n) = uread f a k.
Proof.
  intros Hk. apply list_eq. intros i. unfold uread.
  destruct (decide (i < Z.to_nat k)%nat).
  - rewrite lookup_take_lt by done. rewrite !list_lookup_fmap, !lookup_seqZ_lt by lia. done.
  - rewrite lookup_take_ge by lia. symmetry. apply lookup_ge_None.
    rewrite length_fmap, length_seqZ. lia.
Qed.

Section UserProps.
Context {W : Type} `{UserAccessOk W} `{!FileIO W} `{!Signals W} `{!SignalsOk W}
        `{!FileData W} `{!FileIOOk W}.

Lemma user_unlock_spec d (w : W) arg sector key pad l :
  storage_ok d -> 0 <= sector < STORAGE_NUM_SECTORS ->
  uread (umem w) arg 8 = unlock_request sector key pad -> key_valid d NUL = false ->
  wp (storage_ioctl IOCTL_UNLOCK_SECTOR arg)
     (fun rc σ => rc < 0 /\ drv σ = d /\ held σ = [] /\ ledger σ = l) (KSt d w [] l).
Proof.
  intros Hd Hs Hu Hk.
  change (storage_ioctl IOCTL_UNLOCK_SECTOR arg) with (ioctl_unlock_sector (W:=W) arg).
  eapply wp_mono; [apply ioctl_unlock_spec; auto using lock_not_in_nil|].
  intros rc σ (Hh & Hl & Hr).
  assert (Hreq : uread (umem w) arg 4 = take 4 (unlock_request sector key pad)).
  { rewrite <- Hu. by rewrite (uread_sub _ _ _ 4). }
  assert (Hz : zget (uread (umem w) arg 4) 1 = Some NUL).
  { rewrite Hreq, <- (user_request_key sector key pad Hs). done. }
  rewrite Hz in Hr. simpl in Hr.
  unfold EFAULT, ERESTARTSYS, EINVAL, EPERM in Hr.
  destruct Hr as [[-> Hrc]|(_ & Hv & _)]; [|congruence].
  split_and!; [lia | done | done | done].
Qed.

(** The unlock request of storage_user.c never unlocks anything: the
    driver takes the key from byte 1 of the structure, where the program's
    larger [sector] field has a zero byte. Whatever sector and key the user
    fills in, as long as no configured key is the empty string the command
    fails and every lock is as before. *)
Theorem user_unlock_never_succeeds (d : disk) (w : W) (arg sector : Z) (key : byte)
    (pad : list byte) (Hd : storage_ok d) (Hs : 0 <= sector < STORAGE_NUM_SECTORS)
    (Hpad : zlen pad = 3) (Hu : uread (umem w) arg 8 = unlock_request sector key pad)
    (Hk : key_valid d NUL = false) :
  wp (storage_ioctl IOCTL_UNLOCK_SECTOR arg)
     (fun rc σ => rc < 0 /\ drv σ = d /\ held σ = []) (KSt d w [] []).
Proof.
  eapply wp_mono; [by eapply user_unlock_spec|]. by intros rc σ (? & ? & ? & _).
Qed.

(** The length check of read and write is made in 64-bit unsigned
    arithmetic: with a length that wraps (which only the limits of the VFS
    rule out) the clamp is bypassed and the copy leaves the buffer. *)
Theorem length_check_wraps (d : disk) (w w' : W) (buf off : Z) (Hd : storage_ok d)
    (Hoff : 0 < off < 4096) (Hl : k_lock_interruptible storage_mutex w = (0, w')) :
  storage_read buf (2 ^ 64 - off) off (KSt d w [] []) = Oops OutOfBounds /\
  storage_write buf (2 ^ 64 - off) off (KSt d w [] []) = Oops OutOfBounds.
Proof.
  pose proof (ok_buffer d Hd) as Hb. unfold STORAGE_TOTAL_SIZE in Hb.
  assert (Hlock : forall D (s : D) l,
    mutex_lock_interruptible storage_mutex (KSt s w [] l)
    = Done (0, KSt s w' [storage_mutex] l)).
  { intros D s l. unfold mutex_lock_interruptible, call, mbind, M_bind. simpl. by rewrite Hl. }
  assert (Hib : in_bounds off (2 ^ 64 - off) (zlen (storage_buffer (sto d))) = false).
  { rewrite Hb. unfold in_bounds. rewrite !andb_false_iff, !Z.leb_gt. lia. }
  assert (Hw : u64 (off + (2 ^ 64 - off)) = 0).
  { unfold uwrap. replace (off + (2 ^ 64 - off)) with (2 ^ 64) by lia. done. }
  unfold storage_read, storage_write. rewrite (u64_small off) by lia. cbv zeta. rewrite !Hw.
  destruct (Z.leb_spec STORAGE_TOTAL_SIZE off); [unfold STORAGE_TOTAL_SIZE in *; lia|].
  change (STORAGE_TOTAL_SIZE <? 0) with false. cbv beta iota zeta.
  rewrite ?Hw. split.
  - rewrite (bind_done _ _ _ _ _ (Hlock _ d [])). change (negb (0 =? 0)) with false. cbv iota.
    rewrite bind_get. wp_red. by rewrite Hib.
  - rewrite (bind_done _ _ _ _ _ (Hlock _ d [])). change (negb (0 =? 0)) with false. cbv iota.
    assert (0 <= s32 (off / STORAGE_SECTOR_SIZE)).
    { unfold STORAGE_SECTOR_SIZE. rewrite s32_small; [dlia|].
      unfold is_int, INT_MIN, INT_MAX. dlia. }
    set (first := s32 (off / STORAGE_SECTOR_SIZE)) in *. clearbody first.
    unfold check_sectors.
    change (s32 (u64 (0 - 1) / STORAGE_SECTOR_SIZE)) with (-1).
    replace (Z.to_nat (-1 - first + 1)) with O by lia. cbn [for_]. rewrite bind_ret.
    rewrite bind_get. wp_red. by rewrite Hib.
Qed.

(** Mirroring a sector and then backing up to a file: when both commands
    report success, either the file holds that sector's bytes at its place,
    or waiting for the mirror mutex was interrupted and the file holds the
    mirror as it was before: [mirror_sector] cannot report the interruption,
    so the mirror command returned 0 without copying. *)
Theorem mirror_then_backup (d : disk) (w : W) (arg1 arg2 : Z) (Hd : storage_ok d)
    (Hp : cstr (uread (umem w) arg2 256) <> None) :
  wp (r1 ← storage_ioctl IOCTL_MIRROR_SECTOR arg1;
      r2 ← storage_ioctl IOCTL_BACKUP_TO_FILE arg2; mret (r1, r2))
     (fun r σ =>
        sto (drv σ) = sto d /\ held σ = [] /\ ledger σ = [] /\
        (r = (0, 0) ->
         filedata (world σ) = mirror_buffer (mir d) /\
         (exists w, (k_lock_interruptible mirror_mutex w).1 <> 0) \/
         0 <= user_int w arg1 < STORAGE_NUM_SECTORS /\
         sub (user_int w arg1 * 512) 512 (filedata (world σ)) = sector d (user_int w arg1)))
     (KSt d w [] []).
Proof.
  change (storage_ioctl IOCTL_MIRROR_SECTOR arg1) with (ioctl_mirror_sector (W:=W) arg1).
  change (storage_ioctl IOCTL_BACKUP_TO_FILE arg2) with (ioctl_backup_to_file (W:=W) arg2).
  apply wp_bind. eapply wp_mono; [apply ioctl_mirror_spec; auto using lock_not_in_nil|].
  intros r1 [d1 w1 h1 l1] (Hh & Hl & Hok & Hsto & Hu & Hr1). simpl in *. subst h1 l1.
  apply wp_bind. eapply wp_mono.
  { apply ioctl_backup_spec; auto using lock_not_in_nil. by rewrite Hu. }
  intros r2 σ (Hh2 & Hl2 & Hd2 & Hf). apply wp_ret. rewrite Hd2.
  split_and!; auto. intros [= -> ->]. specialize (Hf eq_refl).
  pose proof num_sectors. pose proof (ok_mirror d Hd) as Hm. unfold mirror_ok in Hm.
  pose proof (ok_buffer d Hd) as Hb.
  unfold MIRROR_TOTAL_SIZE, STORAGE_TOTAL_SIZE in *.
  destruct Hr1 as [[Hmir Hr1]|(Hi & _ & Hmir)].
  - unfold EFAULT, EINVAL in Hr1. destruct Hr1 as [?|[[? _]|[_ ?]]]; [lia..|]. left. by rewrite Hf, Hmir.
  - right. split; [done|]. rewrite Hf, Hmir. simpl. unfold STORAGE_SECTOR_SIZE.
    assert (Hz : zlen (sector d (user_int w arg1)) = 512).
    { unfold sector, STORAGE_SECTOR_SIZE. apply zlen_sub; lia. }
    rewrite <- Hz at 2. apply sub_upd_eq; lia.
Qed.

(** A backup path without a terminator in the 256 bytes copied from the
    user is read past the end of the array on the driver's stack. *)
Theorem backup_path_unterminated (d : disk) (w w' : W) (arg : Z) (path : list byte)
    (Hc : k_copy_from_user arg 256 w = (0, path, w')) (Hp : cstr path = None) :
  storage_ioctl IOCTL_BACKUP_TO_FILE arg (KSt d w [] []) = Oops Unterminated.
Proof.
  change (storage_ioctl IOCTL_BACKUP_TO_FILE arg) with (ioctl_backup_to_file (W:=W) arg).
  unfold ioctl_backup_to_file.
  rewrite (bind_done _ _ (0, path) _ (KSt d w' [] []))
    by (unfold copy_from_user, call; simpl; by rewrite Hc).
  change (negb (0 =? 0)) with false. cbv iota. unfold zoom. rewrite backup_unterminated; [done | | done].
  apply cfu_zlen in Hc; [|done]. intros ->. done.
Qed.
End UserProps.

(** Loading the driver either succeeds with an all-zero, fully unlocked,
    well-formed device that owns its device number, cdev, class and device, or
    fails with the error and everything registered so far given back; after a
    successful load, unloading gives back everything, in an order in which
    nothing is destroyed while it is still used. *)
Theorem storage_load_unload {W} `{Grants W} (d : disk) (w : W) (Hd : storage_ok d) :
  wp storage_driver_init
     (fun rc σ =>
        held σ = [] /\
        if rc =? 0 then
          storage_ok (drv σ) /\
          storage_buffer (sto (drv σ)) = replicate 4096 NUL /\
          sector_lock_state (sto (drv σ)) = replicate 8 false /\
          0 < key_count (sto (drv σ)) /\
          ledger σ = [Device 0; Class_; Cdev 0; Region] /\
          wp storage_driver_exit (fun _ σ' => ledger σ' = [] /\ held σ' = []) σ
        else ledger σ = [])
     (KSt d w [] []).
Proof.
  unfold storage_driver_init. wp_step. wp_step. apply wp_bind.
  assert (Eb : length (storage_buffer (sto d)) = 4096%nat).
  { pose proof (ok_buffer d Hd) as Hb. unfold zlen, STORAGE_TOTAL_SIZE in Hb. lia. }
  assert (El : length (sector_lock_state (sto d)) = 8%nat).
  { pose proof (ok_locks d Hd) as Hb. rewrite num_sectors in Hb. unfold zlen in Hb. lia. }
  destruct d as [[keys n buf locks] m]. destruct Hd as [Hk Hn Hb Hl Hm]. simpl in *.
  rewrite Eb, El. destruct (Z.eqb_spec n 0) as [->|Hn0].
  all: do 5 wp_step; eapply wp_mono; [apply storage_register_spec|].
  all: intros rc [d' w' h' l'] (Hd' & Hh' & Hl'); simpl in *; subst d' h'; split; [done|].
  all: destruct (rc =? 0); [subst l'|done].
  all: split_and!; [by split | done | done | simpl; lia | done |].
  all: eapply wp_mono; [apply storage_driver_exit_spec|]; intros [] σ (_ & ? & ?); by split.
Qed.

(** ** The properties at concrete inputs *)

(** User memory with the bytes "abcd" at address 100. *)
Definition abcd_world : sim := sim_at 100 (bytes_of "abcd").

Lemma storage_op_safe_witness :
  match run_disk_op (OWrite 100 4 0) (KSt disk_locked abcd_world [] []) with
  | Done (rc, σ) => forall i, 0 <= i < STORAGE_NUM_SECTORS -> is_locked disk_locked i = true ->
      sector (drv σ) i = sector disk_locked i /\ (4 <= i -> is_locked (drv σ) i = true)
  | Oops u => u = Unterminated
  end.
Proof.
  pose proof (storage_op_safe (OWrite 100 4 0) disk_locked abcd_world [] [] disk_locked_ok
    (lock_not_in_nil _) (lock_not_in_nil _) ltac:(unfold from_vfs, vfs_ok, MAX_RW_COUNT; lia)) as Hw.
  destruct (run_disk_op _ _) as [[rc σ]|u]; [apply Hw | apply Hw].
Defined.

Definition disk_written : disk :=
  set_buffer (upd 0 (bytes_of "abcd") (storage_buffer (sto disk_locked))) disk_locked.

Lemma disk_written_step : disk_step (W:=sim) disk_locked disk_written.
Proof.
  apply (disk_step_intro (OWrite 100 4 0) abcd_world 4 _ _ abcd_world).
  - unfold disk_op_ok, vfs_ok, MAX_RW_COUNT. lia.
  - vm_compute. reflexivity.
Qed.

Lemma locked_sector_immutable_witness : sector disk_written 2 = sector disk_locked 2.
Proof.
  apply (locked_sector_immutable (W:=sim) 2 disk_locked disk_written disk_locked_ok).
  - rewrite num_sectors. lia.
  - apply rtc_once. split; [apply disk_written_step | reflexivity].
Defined.

Lemma high_sector_locked_forever_witness :
  is_locked disk_written 5 = true /\ sector disk_written 5 = sector disk_locked 5.
Proof.
  apply (high_sector_locked_forever (W:=sim) 5 disk_locked disk_written disk_locked_ok).
  - rewrite num_sectors. lia.
  - reflexivity.
  - apply rtc_once, disk_written_step.
Defined.

Lemma storage_write_result_witness :
  wp (storage_write 100 4 510) (fun _ σ => held σ = []) (KSt disk_locked abcd_world [] []).
Proof.
  eapply wp_mono;
    [apply (storage_write_result disk_locked abcd_world 100 4 510 disk_locked_ok);
     unfold vfs_ok, MAX_RW_COUNT; lia|].
  simpl. tauto.
Defined.

Lemma storage_read_result_witness :
  wp (storage_read 100 4 4094) (fun _ σ => drv σ = disk_locked)
     (KSt disk_locked abcd_world [] []).
Proof.
  eapply wp_mono;
    [apply (storage_read_result disk_locked abcd_world 100 4 4094 disk_locked_ok);
     unfold vfs_ok, MAX_RW_COUNT; lia|].
  simpl. tauto.
Defined.

Lemma storage_write_read_witness :
  wp (r1 ← storage_write 100 2 0; r2 ← storage_read 102 2 0; mret (r1.1, r2.1))
     (fun r σ => r = (2, 2) -> uread (umem (world σ)) 102 2 = uread (umem abcd_world) 100 2)
     (KSt disk_locked abcd_world [] []).
Proof.
  apply (storage_write_read disk_locked abcd_world 100 102 2 0 disk_locked_ok);
    unfold vfs_ok, MAX_RW_COUNT; lia.
Defined.

(** The request of storage_user.c: sector 2, key 'B'. *)
Definition unlock_world : sim :=
  sim_at 200 (unlock_request 2 Byte.x42 [NUL; NUL; NUL]).

Lemma user_unlock_never_succeeds_witness :
  wp (storage_ioctl IOCTL_UNLOCK_SECTOR 200)
     (fun rc σ => rc < 0 /\ drv σ = disk_locked /\ held σ = [])
     (KSt disk_locked unlock_world [] []).
Proof.
  apply (user_unlock_never_succeeds disk_locked unlock_world 200 2 Byte.x42 [NUL; NUL; NUL]
           disk_locked_ok).
  - rewrite num_sectors. lia.
  - reflexivity.
  - vm_compute. reflexivity.
  - reflexivity.
Defined.

Lemma length_check_wraps_witness :
  storage_read 100 (2 ^ 64 - 1) 1 (KSt disk0 abcd_world [] []) = Oops OutOfBounds /\
  storage_write 100 (2 ^ 64 - 1) 1 (KSt disk0 abcd_world [] []) = Oops OutOfBounds.
Proof.
  apply (length_check_wraps disk0 abcd_world abcd_world 100 1 disk0_ok); [lia | reflexivity].
Defined.

(** Sector number 0 at 300 and the path "a" at 400, in a mapped page. *)
Definition mirror_world : sim :=
  sim_at 300 (int_bytes 0 ++ replicate 96 NUL ++ Byte.x61 :: replicate 255 NUL).

Lemma mirror_then_backup_witness :
  wp (r1 ← storage_ioctl IOCTL_MIRROR_SECTOR 300;
      r2 ← storage_ioctl IOCTL_BACKUP_TO_FILE 400; mret (r1, r2))
     (fun r σ => r = (0, 0) ->
        filedata (world σ) = mirror_buffer (mir disk_written) /\
        (exists w : sim, (k_lock_interruptible mirror_mutex w).1 <> 0) \/
        0 <= user_int mirror_world 300 < STORAGE_NUM_SECTORS /\
        sub (user_int mirror_world 300 * 512) 512 (filedata (world σ))
          = sector disk_written (user_int mirror_world 300))
     (KSt disk_written mirror_world [] []).
Proof.
  eapply wp_mono;
    [apply (mirror_then_backup disk_written mirror_world 300 400); [by split | by vm_compute]|].
  simpl. tauto.
Defined.

Lemma backup_path_unterminated_witness :
  storage_ioctl IOCTL_BACKUP_TO_FILE 500
    (KSt disk0 (sim_at 500 (replicate 256 Byte.x61)) [] []) = Oops Unterminated.
Proof.
  apply (backup_path_unterminated disk0 _ (sim_at 500 (replicate 256 Byte.x61)) 500
           (replicate 256 Byte.x61)); vm_compute; reflexivity.
Defined.

Lemma storage_load_unload_witness :
  wp storage_driver_init (fun rc σ => held σ = []) (KSt disk0 abcd_world [] []).
Proof.
  eapply wp_mono; [apply (storage_load_unload disk0 abcd_world disk0_ok)|]. simpl. tauto.
Defined.
