(* ===== verification/StorageSpec.v ===== *)
(** * 003_char_block_storage_device: the device as its users see it

    A [vault] is eight sectors of bytes, the set of the locked ones, their
    mirror and the keys that open them. [vault_step] says what a command may
    answer and change, without buffers, mutexes and C integers; it admits the
    interruptions and faults a command can meet. The driver implements it: any
    sequence of calls of a program is a run of the vault
    ([storage_refines_vault]). *)

From S2P Require Import Prelude Kernel Wp Sim Mirror Storage StorageProps.

(** ** The specification *)

Record vault := Vault {
  content : list byte;
  locks : gset Z;
  shadow : list byte;
  opener : byte -> bool;
}.

(** A command with what the program hands over. *)
Inductive command :=
  | CRead (len off : Z) | CWrite (data : list byte) (off : Z)
  | CLock (i : Z) | CUnlock (i : Z) (key : byte) | CLocks | CErase (i : Z)
  | CMirror (i : Z) | CBackup | COther.

(** The bytes of [n] that fit behind [off], and the sectors they touch. *)
Definition room (n off : Z) : Z := Z.min n (STORAGE_TOTAL_SIZE - off).
Definition touches (off n i : Z) : Prop :=
  off / STORAGE_SECTOR_SIZE <= i <= (off + n - 1) / STORAGE_SECTOR_SIZE.
Definition is_sector (i : Z) : Prop := 0 <= i < STORAGE_NUM_SECTORS.

Definition lock_bytes (L : gset Z) : list byte :=
  (fun i => bool_byte (bool_decide (i ∈ L))) <$> seqZ 0 STORAGE_NUM_SECTORS.

(** The errors of a command; a backup may fail as files do. *)
Definition may_fail (c : command) (v : vault) (e : Z) : Prop :=
  match c with
  | CRead _ off => off < STORAGE_TOTAL_SIZE /\ (e = ERESTARTSYS \/ e = EFAULT)
  | CWrite data off =>
      STORAGE_TOTAL_SIZE <= off /\ e = ENOSPC \/
      off < STORAGE_TOTAL_SIZE /\
        (e = ERESTARTSYS \/ e = EPERM /\ exists i, touches off (room (zlen data) off) i /\ i ∈ locks v)
  | CLock i => e = EFAULT \/ e = EINVAL /\ ~ is_sector i
  | CUnlock i key =>
      e = EFAULT \/ e = ERESTARTSYS \/ e = EINVAL /\ i < 0 \/ e = EPERM /\ opener v key = false
  | CLocks => e = EFAULT
  | CErase i => e = EFAULT \/ e = EINVAL /\ ~ is_sector i \/ e = EPERM /\ is_sector i /\ i ∈ locks v
  | CMirror i => e = EFAULT \/ e = EINVAL /\ ~ is_sector i
  | CBackup => e <> 0
  | COther => e = ENOTTY
  end.

(** The answer is the result with the bytes that reach the program or the
    file. A write that faults leaves anything in its range; a mirror request
    whose wait is interrupted reports success. *)
Inductive vault_step : command -> vault -> Z * list byte -> vault -> Prop :=
  | step_fails c v e : may_fail c v e -> vault_step c v (- e, []) v
  | step_read_end len off v : STORAGE_TOTAL_SIZE <= off -> vault_step (CRead len off) v (0, []) v
  | step_read len off v :
      off < STORAGE_TOTAL_SIZE ->
      vault_step (CRead len off) v (room len off, sub off (room len off) (content v)) v
  | step_write data off v :
      off < STORAGE_TOTAL_SIZE ->
      (forall i, touches off (room (zlen data) off) i -> i ∉ locks v) ->
      vault_step (CWrite data off) v (room (zlen data) off, [])
        (Vault (upd off (sub 0 (room (zlen data) off) data) (content v)) (locks v) (shadow v) (opener v))
  | step_write_fault data off bs v :
      off < STORAGE_TOTAL_SIZE -> zlen bs = room (zlen data) off ->
      (forall i, touches off (room (zlen data) off) i -> i ∉ locks v) ->
      vault_step (CWrite data off) v (- EFAULT, [])
        (Vault (upd off bs (content v)) (locks v) (shadow v) (opener v))
  | step_lock i v : is_sector i ->
      vault_step (CLock i) v (0, []) (Vault (content v) ({[ i ]} ∪ locks v) (shadow v) (opener v))
  | step_unlock i key v : 0 <= i < 4 -> opener v key = true ->
      vault_step (CUnlock i key) v (0, []) (Vault (content v) (locks v ∖ {[ i ]}) (shadow v) (opener v))
  | step_locks v : vault_step CLocks v (0, lock_bytes (locks v)) v
  | step_erase i v : is_sector i -> i ∉ locks v ->
      vault_step (CErase i) v (0, [])
        (Vault (upd (i * STORAGE_SECTOR_SIZE) zero_sector (content v)) (locks v) (shadow v) (opener v))
  | step_mirror i v : is_sector i ->
      vault_step (CMirror i) v (0, [])
        (Vault (content v) (locks v)
           (upd (i * STORAGE_SECTOR_SIZE)
                (sub (i * STORAGE_SECTOR_SIZE) STORAGE_SECTOR_SIZE (content v)) (shadow v)) (opener v))
  | step_mirror_interrupted i v : vault_step (CMirror i) v (0, []) v
  | step_backup v : vault_step CBackup v (0, shadow v) v.

Inductive vault_run : vault -> list (command * (Z * list byte)) -> vault -> Prop :=
  | run_nil v : vault_run v [] v
  | run_cons v c r v1 tr v2 :
      vault_step c v r v1 -> vault_run v1 tr v2 -> vault_run v ((c, r) :: tr) v2.

(** ** The driver behind a program *)

(** The vault that a device holds. *)
Definition lock_set (d : disk) : gset Z :=
  list_to_set (filter (fun i => is_locked d i = true) (seqZ 0 STORAGE_NUM_SECTORS)).
Definition vault_of (d : disk) : vault :=
  Vault (storage_buffer (sto d)) (lock_set d) (mirror_buffer (mir d)) (key_valid d).

Section Run.
Context {W : Type} `{UserAccess W} `{Signals W} `{FileIO W} `{!UserMem W} `{!FileData W}.

(** What a call asks for, with the program's memory at the call. *)
Definition asked (mem : Z -> byte) (o : disk_op) : command :=
  match o with
  | ORead _ len pos => CRead len pos
  | OWrite buf len pos => CWrite (uread mem buf len) pos
  | OIoctl cmd arg =>
      let i := bytes_int (uread mem arg 4) in
      if cmd =? IOCTL_LOCK_SECTOR then CLock i
      else if cmd =? IOCTL_UNLOCK_SECTOR then
        CUnlock (swrap 3 (byte_val (mem arg))) (mem (arg + 1))
      else if cmd =? IOCTL_GET_LOCK_INFO then CLocks
      else if cmd =? IOCTL_ERASE_SECTOR then CErase i
      else if cmd =? IOCTL_MIRROR_SECTOR then CMirror i
      else if cmd =? IOCTL_BACKUP_TO_FILE then CBackup
      else COther
  end.

(** What it has got when the call returns [rc]: the bytes in its buffer, or
    in the file. *)
Definition got (w : W) (o : disk_op) (rc : Z) : Z * list byte :=
  match o with
  | ORead buf _ _ => (rc, uread (umem w) buf rc)
  | OWrite _ _ _ => (rc, [])
  | OIoctl cmd arg =>
      (rc, if negb (rc =? 0) then []
           else if cmd =? IOCTL_GET_LOCK_INFO then uread (umem w) arg STORAGE_NUM_SECTORS
           else if cmd =? IOCTL_BACKUP_TO_FILE then filedata w else [])
  end.

(** A program: before each call it does something of its own, like preparing
    its buffers; its calls with their answers. *)
Fixpoint session (p : list ((W -> W) * disk_op)) : M W disk (list (command * (Z * list byte))) :=
  match p with
  | [] => mret []
  | (own, o) :: p =>
      w ← call (fun w => (own w, own w));
      rc ← run_disk_op o;
      w' ← call (fun w => (w, w));
      tr ← session p;
      mret ((asked (umem w) o, got w' o rc) :: tr)
  end.
End Run.

(** ** The refinement *)

Lemma in_locks d i :
  i ∈ lock_set d <-> is_sector i /\ is_locked d i = true.
Proof.
  unfold lock_set, is_sector. rewrite elem_of_list_to_set, list_elem_of_filter, elem_of_seqZ. tauto.
Qed.

Lemma not_in_locks d i : is_locked d i = false -> i ∉ lock_set d.
Proof. intros E [_ Hl]%in_locks. congruence. Qed.

Lemma vault_set_lock d i b :
  storage_ok d -> is_sector i ->
  vault_of (set_locks (<[Z.to_nat i := b]> (sector_lock_state (sto d))) d) =
    Vault (content (vault_of d)) (if b : bool then {[ i ]} ∪ lock_set d else lock_set d ∖ {[ i ]})
          (shadow (vault_of d)) (opener (vault_of d)).
Proof.
  intros Hd Hi. unfold vault_of. simpl. f_equal. apply set_eq. intros j. rewrite in_locks.
  assert (Hj : is_sector j -> is_locked (set_locks (<[Z.to_nat i := b]> (sector_lock_state (sto d))) d) j =
             if decide (i = j) then b else is_locked d j).
  { intros [Hj _]. by apply is_locked_set. }
  destruct b; rewrite ?elem_of_union, ?elem_of_difference, elem_of_singleton, in_locks; split.
  - intros [Hs E]. rewrite Hj in E by done. case_decide; [by left | by right].
  - intros [->|[Hs E]]; (split; [done|]); rewrite Hj by done; by case_decide.
  - intros [Hs E]. rewrite Hj in E by done. by case_decide.
  - intros [[Hs E] Hne]. split; [done|]. rewrite Hj by done. case_decide; [congruence | done].
Qed.

Lemma lock_bytes_of d : storage_ok d -> lock_bytes (lock_set d) = bool_byte <$> sector_lock_state (sto d).
Proof.
  intros Hd. pose proof (ok_locks d Hd) as Hl. unfold lock_bytes. apply list_eq. intros i.
  rewrite !list_lookup_fmap. destruct (decide (i < 8)%nat) as [Hi|Hi].
  - rewrite lookup_seqZ_lt by (rewrite num_sectors; lia). simpl.
    pose proof (is_locked_get d (Z.of_nat i) Hd ltac:(rewrite num_sectors; lia)) as E.
    unfold zget in E. rewrite (proj2 (Z.leb_le _ _)), Nat2Z.id in E by lia. rewrite E. simpl. do 2 f_equal.
    rewrite Z.add_0_l. destruct (is_locked d (Z.of_nat i)) eqn:El.
    + apply bool_decide_eq_true, in_locks. split; [unfold is_sector; rewrite num_sectors; lia | done].
    + apply bool_decide_eq_false. by apply not_in_locks.
  - rewrite lookup_seqZ_ge by (rewrite num_sectors; lia). simpl. symmetry.
    rewrite fmap_None. apply lookup_ge_None. rewrite num_sectors in Hl. unfold zlen in Hl. lia.
Qed.

Lemma uread_none f a n : n <= 0 -> uread f a n = [].
Proof. intros Hn. unfold uread. by rewrite seqZ_nil. Qed.

Lemma failed (w : Z * list byte) c v e :
  may_fail c v e -> w = (- e, []) -> vault_step c v w v.
Proof. intros Hf ->. by constructor. Qed.

Section Refines.
Context {W : Type} `{UserAccessOk W} `{!FileIO W} `{!Signals W} `{!SignalsOk W}
        `{!FileData W} `{!FileIOOk W}.
Implicit Types (d : disk) (w : W) (l : list resource).

(** What a call does to the vault. *)
Definition implements (o : disk_op) d w (rc : Z) (σ : kst W disk) : Prop :=
  vault_step (asked (umem w) o) (vault_of d) (got (world σ) o rc) (vault_of (drv σ)).

Lemma read_implements buf len pos d w l :
  storage_ok d -> vfs_ok pos len ->
  wp (run_disk_op (ORead buf len pos)) (implements (ORead buf len pos) d w) (KSt d w [] l).
Proof.
  intros Hd Hv. pose proof Hv as [Hp Hl]. pose proof (ok_buffer d Hd) as Hb. apply wp_bind.
  eapply wp_mono; [apply storage_read_spec; auto using lock_not_in_nil|].
  intros r σ ((Hd' & Hr) & _). apply wp_ret. unfold implements, asked, got. rewrite Hd'.
  destruct Hr as [(He & -> & _)|(He & [->|[->|[-> Hm]]])]; simpl.
  - by apply step_read_end.
  - eapply (failed _ _ _ ERESTARTSYS); [split; auto | by rewrite uread_none].
  - eapply (failed _ _ _ EFAULT); [split; auto | by rewrite uread_none].
  - fold (clamp len pos). change (clamp len pos) with (room len pos). rewrite Hm, uread_uwrite_n; [by constructor|].
    unfold room, STORAGE_TOTAL_SIZE, MAX_RW_COUNT in *. apply zlen_sub; lia.
Qed.

Lemma write_implements buf len pos d w l :
  storage_ok d -> vfs_ok pos len ->
  wp (run_disk_op (OWrite buf len pos)) (implements (OWrite buf len pos) d w) (KSt d w [] l).
Proof.
  intros Hd Hv. pose proof Hv as [Hp Hl]. apply wp_bind.
  eapply wp_mono; [apply storage_write_spec; auto using lock_not_in_nil|].
  intros r σ (Hr & _). apply wp_ret. unfold implements, asked, got.
  assert (Hz : zlen (uread (umem w) buf len) = len) by (apply length_uread; lia).
  assert (Hfree : forall n, (forall i, touches pos n i -> is_locked d i = false) ->
    forall i, touches pos n i -> i ∉ lock_set d) by (intros n Hf i Hi; by apply not_in_locks, Hf).
  destruct Hr as [(He & -> & ->)|(He & [[-> ->]|[(-> & -> & i & Hi & Hk)|(Hf & [[-> ->]|(-> & bs & Hbs & ->)])]])]; simpl.
  - eapply (failed _ _ _ ENOSPC); [by left | done].
  - eapply (failed _ _ _ ERESTARTSYS); [right; auto | done].
  - eapply (failed _ _ _ EPERM); [|done]. right. split; [done|]. right. split; [done|]. exists i.
    rewrite Hz. split; [exact Hi|]. apply in_locks. split; [|done].
    unfold is_locked in Hk. destruct (zget _ i) eqn:E; [|done]. apply zget_Some in E.
    rewrite (ok_locks d Hd) in E. done.
  - rewrite <- Hz at 2. change (clamp len pos) with (room len pos).
    assert (Hs : uread (umem w) buf (room len pos) = sub 0 (room len pos) (uread (umem w) buf len)).
    { unfold sub. simpl. rewrite drop_0. symmetry. apply uread_sub.
      unfold room, STORAGE_TOTAL_SIZE, MAX_RW_COUNT in *. lia. }
    rewrite Hs. rewrite Hz at 1. pose proof (step_write (uread (umem w) buf len) pos (vault_of d) He) as Hst.
    rewrite Hz in Hst. apply Hst. by apply Hfree.
  - apply (step_write_fault _ _ bs (vault_of d)); rewrite ?Hz; [done | done |]. by apply Hfree.
Qed.

(** The bytes of an unlock request. *)
Lemma unlock_fields w arg :
  default NUL (zget (uread (umem w) arg 4) 0) = umem w arg /\
  default NUL (zget (uread (umem w) arg 4) 1) = umem w (arg + 1).
Proof. unfold uread. simpl. by rewrite Z.add_0_r. Qed.

Lemma ioctl_implements cmd arg d w l :
  storage_ok d -> disk_op_ok w (OIoctl cmd arg) ->
  wp (run_disk_op (OIoctl cmd arg)) (implements (OIoctl cmd arg) d w) (KSt d w [] l).
Proof.
  intros Hd Ho. unfold implements, asked, got. simpl run_disk_op. unfold storage_ioctl.
  destruct (Z.eqb_spec cmd IOCTL_LOCK_SECTOR) as [->|_]; [|destruct (Z.eqb_spec cmd IOCTL_UNLOCK_SECTOR) as [->|_];
    [|destruct (Z.eqb_spec cmd IOCTL_GET_LOCK_INFO) as [->|_]; [|destruct (Z.eqb_spec cmd IOCTL_ERASE_SECTOR) as [->|_];
    [|destruct (Z.eqb_spec cmd IOCTL_MIRROR_SECTOR) as [->|_]; [|destruct (Z.eqb_spec cmd IOCTL_BACKUP_TO_FILE) as [->|_]]]]]].
  - eapply wp_mono; [apply ioctl_lock_spec; auto using lock_not_in_nil|].
    intros rc σ (_ & _ & Hr). fold (user_int w arg) in *. simpl.
    destruct Hr as [[-> [->|[-> Hi]]]|(Hi & -> & ->)].
    + by eapply (failed _ _ _ EFAULT); [left|].
    + by eapply (failed _ _ _ EINVAL); [right|].
    + rewrite vault_set_lock by done. by constructor.
  - eapply wp_mono; [apply ioctl_unlock_spec; auto using lock_not_in_nil|].
    intros rc σ (_ & _ & Hr). destruct (unlock_fields w arg) as [E0 E1]. rewrite E0, E1 in Hr. simpl.
    destruct Hr as [[-> [->|[->|[[-> Hi]|[-> Hk]]]]]|(Hi & Hk & -> & ->)].
    + by eapply (failed _ _ _ EFAULT); [left|].
    + by eapply (failed _ _ _ ERESTARTSYS); [right; left|].
    + by eapply (failed _ _ _ EINVAL); [right; right; left|].
    + by eapply (failed _ _ _ EPERM); [right; right; right|].
    + rewrite vault_set_lock by (done || (unfold is_sector; rewrite num_sectors; lia)). by constructor.
  - eapply wp_mono; [apply ioctl_get_lock_info_spec; auto using lock_not_in_nil|].
    intros rc σ (_ & _ & -> & [->|[-> Hm]]); simpl.
    + by eapply (failed _ _ _ EFAULT).
    + rewrite Hm, uread_uwrite_n by (unfold zlen; rewrite length_fmap; apply (ok_locks d Hd)).
      rewrite <- lock_bytes_of by done. constructor.
  - eapply wp_mono; [apply ioctl_erase_spec; auto using lock_not_in_nil|].
    intros rc σ (_ & _ & Hr). fold (user_int w arg) in *. simpl.
    destruct Hr as [[-> [->|[[-> Hi]|(-> & Hi & Hk)]]]|(Hi & Hk & -> & ->)].
    + by eapply (failed _ _ _ EFAULT); [left|].
    + by eapply (failed _ _ _ EINVAL); [right; left|].
    + eapply (failed _ _ _ EPERM); [right; right|done]. split_and!; try done. by apply in_locks.
    + apply step_erase; [done|]. by apply not_in_locks.
  - eapply wp_mono; [apply ioctl_mirror_spec; auto using lock_not_in_nil|].
    intros rc σ (_ & _ & _ & Hs & _ & Hr). fold (user_int w arg) in *. unfold vault_of. rewrite Hs. simpl.
    assert (Hl : lock_set (drv σ) = lock_set d) by (unfold lock_set, is_locked; by rewrite Hs).
    assert (Hk : key_valid (drv σ) = key_valid d) by (unfold key_valid; by rewrite Hs). rewrite Hl, Hk.
    destruct Hr as [[-> [->|[[-> Hi]|[-> _]]]]|(Hi & -> & ->)].
    + by eapply (failed _ _ _ EFAULT); [left|].
    + by eapply (failed _ _ _ EINVAL); [right|].
    + constructor.
    + by apply (step_mirror _ (vault_of d)).
  - eapply wp_mono; [apply ioctl_backup_spec; auto using lock_not_in_nil|].
    intros rc σ (_ & _ & -> & Hf). simpl. destruct (Z.eqb_spec rc 0) as [->|Hne]; simpl.
    + rewrite Hf by done. constructor.
    + eapply (failed _ _ _ (- rc)); [simpl; lia | f_equal; lia].
  - apply wp_ret. by eapply (failed _ _ _ ENOTTY).
Qed.

Lemma op_implements o d w l :
  storage_ok d -> disk_op_ok w o ->
  wp (run_disk_op o)
     (fun rc σ => implements o d w rc σ /\ storage_ok (drv σ) /\ held σ = [] /\ ledger σ = l) (KSt d w [] l).
Proof.
  intros Hd Ho. apply wp_conj.
  - destruct o; [by apply read_implements | by apply write_implements | by apply ioctl_implements].
  - eapply wp_mono; [by apply run_disk_op_safe; auto using lock_not_in_nil|].
    by intros rc σ ([Hok _] & ? & ?).
Qed.
End Refines.

(** C1. The storage driver implements its specification: whatever a program
    does between its calls, as long as the calls are ones the VFS lets through
    and a backup path is terminated, its calls and their answers, with every
    byte that reaches the program or a backup file, are a run of the vault
    from what the device holds to what it holds in the end. *)
Theorem storage_refines_vault {W : Type} `{UserAccessOk W} `{!FileIO W} `{!Signals W} `{!SignalsOk W}
    `{!FileData W} `{!FileIOOk W} (p : list ((W -> W) * disk_op)) (d : disk) (w : W) (l : list resource)
    (Hd : storage_ok d) (Hp : Forall (fun '(own, o) => forall w, disk_op_ok (own w) o) p) :
  wp (session p)
     (fun tr σ => vault_run (vault_of d) tr (vault_of (drv σ)) /\ length tr = length p /\
        storage_ok (drv σ) /\ held σ = [] /\ ledger σ = l)
     (KSt d w [] l).
Proof.
  revert d w Hd. induction Hp as [|[own o] p Ho Hp IH]; intros d w Hd.
  - apply wp_ret. split_and!; try done. constructor.
  - cbn [session]. wp_step. apply wp_call. intros w1 w2 [= <- <-]. wp_step. wp_red.
    eapply wp_mono; [by apply op_implements|]. intros rc [d1 w1 h1 l1] (Hi & Hd1 & Hh & Hl). simpl in *. subst h1 l1.
    wp_step. apply wp_call. intros w2 w3 [= <- <-]. wp_step. wp_red.
    eapply wp_mono; [by apply IH|]. intros tr σ (Hr & Hn & ? & ? & ?). apply wp_ret.
    split_and!; try done; [by eapply run_cons | by rewrite length_cons, Hn].
Qed.

(** ** What the specification promises *)

Definition vault_sector (v : vault) (i : Z) : list byte :=
  sub (i * STORAGE_SECTOR_SIZE) STORAGE_SECTOR_SIZE (content v).

Lemma upd_elsewhere (b bs : list byte) off i :
  zlen b = STORAGE_TOTAL_SIZE -> is_sector i -> 0 <= off -> off + zlen bs <= STORAGE_TOTAL_SIZE ->
  ~ touches off (zlen bs) i ->
  sub (i * STORAGE_SECTOR_SIZE) STORAGE_SECTOR_SIZE (upd off bs b) =
    sub (i * STORAGE_SECTOR_SIZE) STORAGE_SECTOR_SIZE b.
Proof.
  unfold is_sector, touches, STORAGE_SECTOR_SIZE, STORAGE_TOTAL_SIZE. rewrite num_sectors. intros Hb Hi Ho He Hn.
  pose proof (zlen_nonneg bs). apply sub_upd_disjoint; dlia.
Qed.

(** A locked sector keeps its contents, and from sector 4 on its lock. *)
Lemma vault_keeps_locked c v r v' i :
  vault_step c v r v' -> zlen (content v) = STORAGE_TOTAL_SIZE ->
  match c with CWrite _ off => 0 <= off | _ => True end ->
  is_sector i -> i ∈ locks v ->
  vault_sector v' i = vault_sector v i /\ (4 <= i -> i ∈ locks v').
Proof.
  intros Hst Hz Hoff Hi Hl. unfold vault_sector.
  assert (Hroom : forall (data : list byte) off, off < STORAGE_TOTAL_SIZE -> 0 <= room (zlen data) off <= zlen data
            /\ off + room (zlen data) off <= STORAGE_TOTAL_SIZE).
  { intros data off Ho. pose proof (zlen_nonneg data). unfold room. lia. }
  destruct Hst as [| | |data off v Ho Hf|data off bs v Ho Hbs Hf| |j key v Hj Hk| |j v Hj Hf| | |]; simpl in *;
    try (split; [done|]; intros; set_solver by lia).
  - destruct (Hroom data off Ho) as [Hn He].
    assert (Hs : zlen (sub 0 (room (zlen data) off) data) = room (zlen data) off) by (apply zlen_sub; lia).
    split; [|done]. apply upd_elsewhere; rewrite ?Hs; try done. intros Ht. by apply (Hf i).
  - destruct (Hroom data off Ho) as [Hn He]. split; [|done].
    apply upd_elsewhere; rewrite ?Hbs; try done. intros Ht. by apply (Hf i).
  - split; [|done]. assert (Hzero : zlen zero_sector = 512) by done.
    apply upd_elsewhere; rewrite ?Hzero; try done; unfold is_sector, touches, STORAGE_SECTOR_SIZE, STORAGE_TOTAL_SIZE in *;
      rewrite num_sectors in *; try lia. intros Ht. by replace i with j in Hl by dlia.
Qed.

(** ** A program at a concrete device *)

Definition vault_user : list ((sim -> sim) * disk_op) :=
  [(id, OWrite 100 4 1022);
   (fun w => set_mem (<[200 := Byte.x02]> (sim_mem w)) w, OIoctl IOCTL_LOCK_SECTOR 200);
   (id, OWrite 100 4 1024); (id, ORead 300 2 1023); (id, OIoctl IOCTL_ERASE_SECTOR 200)].

(** The second write and the erase meet the lock. *)
Example vault_user_answers :
  match session vault_user (KSt disk0 (sim_at 100 (bytes_of "abcd" ++ replicate 300 NUL)) [] []) with
  | Done (tr, _) =>
      tr = [(CWrite (bytes_of "abcd") 1022, (4, [])); (CLock 2, (0, [])); (CWrite (bytes_of "abcd") 1024, (- EPERM, []));
            (CRead 2 1023, (2, bytes_of "bc")); (CErase 2, (- EPERM, []))]
  | Oops _ => False
  end.
Proof. vm_compute. reflexivity. Qed.

Lemma storage_refines_vault_witness :
  wp (session vault_user)
     (fun tr σ => vault_run (vault_of disk0) tr (vault_of (drv σ)) /\ length tr = 5%nat)
     (KSt disk0 (sim_at 100 (bytes_of "abcd" ++ replicate 300 NUL)) [] []).
Proof.
  eapply wp_mono.
  - apply (storage_refines_vault vault_user disk0 (sim_at 100 (bytes_of "abcd" ++ replicate 300 NUL)) [] disk0_ok).
    unfold vault_user. repeat apply List.Forall_cons; [..|apply List.Forall_nil]; intros w;
      unfold disk_op_ok, vfs_ok, MAX_RW_COUNT; try lia; intros E; vm_compute in E; discriminate E.
  - intros tr σ (Hr & Hn & _). split; assumption.
Defined.
