(* ===== verification/StorageCalls.v ===== *)
(** * 003_char_block_storage_device: calls of the storage driver that overlap

    Reads, writes and ioctl commands of several processes at the same time,
    each cut into its accesses to the shared variables (Resume.v): memory is
    written byte by byte, storage_mutex and mirror_mutex are waited for. Every
    definition with the suffix _p is the handler of the same name, step by
    step; [run_call] shows that a call without interference does what the
    handler of Storage.v does in one piece. *)

From S2P Require Import Prelude Kernel Wp Sim Sched User Resume Mirror Storage StorageProps.

Section Calls.
Context {W : Type} `{UserAccess W} `{Signals W} `{FileIO W}.
Local Abbreviation P := (prog W disk).

(** Bytes stored one after the other: copy_from_user, memset. *)
Definition put_byte (off : Z) (b : byte) : M W disk unit :=
  modify (fun d => set_buffer (upd off [b] (storage_buffer (sto d))) d).
Fixpoint put_bytes (n : nat) (off : Z) (bs : list byte) : P unit :=
  match n, bs with
  | O, _ => mret tt
  | S n, b :: bs => act (put_byte off b);; put_bytes n (off + 1) bs
  | S n, [] => act (oops OutOfBounds)
  end.

Definition storage_read_p (user_buffer length offset : Z) : P (Z * Z) :=
  if STORAGE_TOTAL_SIZE <=? offset then mret (0, offset)
  else
    let length := if STORAGE_TOTAL_SIZE <? u64 (offset + length)
                  then u64 (STORAGE_TOTAL_SIZE - offset) else length in
    rc ← lock_intr_p storage_mutex;
    if negb (rc =? 0) then mret (- ERESTARTSYS, offset)
    else
      d ← act get;
      if in_bounds offset length (zlen (storage_buffer (sto d))) then
        r ← act (d ← get; copy_to_user user_buffer (sub offset length (storage_buffer (sto d))));
        if negb (r =? 0) then
          unlock_p storage_mutex;; mret (- EFAULT, offset)
        else
          unlock_p storage_mutex;; mret (length, offset + length)
      else act (oops OutOfBounds).

Definition check_sectors_p (sector_start sector_end : Z) : P (option Z) :=
  for_p (Z.to_nat (sector_end - sector_start + 1)) sector_start (fun s =>
    locked ← act (d ← get; value OutOfBounds (zget (sector_lock_state (sto d)) s));
    if locked : bool then unlock_p storage_mutex;; mret (Some (- EPERM))
    else mret None).

Definition storage_write_p (user_buffer length offset : Z) : P (Z * Z) :=
  if STORAGE_TOTAL_SIZE <=? offset then mret (- ENOSPC, offset)
  else
    let length := if STORAGE_TOTAL_SIZE <? u64 (offset + length)
                  then u64 (STORAGE_TOTAL_SIZE - offset) else length in
    let start := u64 offset in
    let end_ := u64 (start + length) in
    let sector_start := s32 (start / STORAGE_SECTOR_SIZE) in
    let sector_end := s32 (u64 (end_ - 1) / STORAGE_SECTOR_SIZE) in
    rc ← lock_intr_p storage_mutex;
    if negb (rc =? 0) then mret (- ERESTARTSYS, offset)
    else
      denied ← check_sectors_p sector_start sector_end;
      match denied with
      | Some e => mret (e, offset)
      | None =>
          d ← act get;
          if in_bounds offset length (zlen (storage_buffer (sto d))) then
            '(r, bs) ← act (copy_from_user user_buffer length);
            put_bytes (Z.to_nat length) offset bs;;
            if negb (r =? 0) then
              unlock_p storage_mutex;; mret (- EFAULT, offset)
            else
              unlock_p storage_mutex;; mret (length, offset + length)
          else act (oops OutOfBounds)
      end.

Definition ioctl_lock_sector_p (arg : Z) : P Z :=
  '(r, bs) ← act (copy_from_user arg sizeof_int);
  if negb (r =? 0) then mret (- EFAULT)
  else
    let sector_index := bytes_int bs in
    if bad_sector sector_index then mret (- EINVAL)
    else
      lock_p storage_mutex;;
      act (d ← get;
           ls ← value OutOfBounds (zset (sector_lock_state (sto d)) sector_index true);
           modify (set_locks ls));;
      unlock_p storage_mutex;;
      mret 0.

Definition ioctl_unlock_sector_p (arg : Z) : P Z :=
  '(r, req) ← act (copy_from_user arg sizeof_unlock_req);
  if negb (r =? 0) then mret (- EFAULT)
  else
    sector ← act (value OutOfBounds (unlock_sector req));
    key ← act (value OutOfBounds (unlock_key req));
    if bad_sector sector then mret (- EINVAL)
    else
      valid ← act (match_key key);
      match valid with
      | None => mret (- EPERM)
      | Some _ =>
          rc ← lock_intr_p storage_mutex;
          if negb (rc =? 0) then mret (- ERESTARTSYS)
          else
            act (d ← get;
                 ls ← value OutOfBounds (zset (sector_lock_state (sto d)) sector false);
                 modify (set_locks ls));;
            unlock_p storage_mutex;;
            mret 0
      end.

Definition ioctl_get_lock_info_p (arg : Z) : P Z :=
  lock_p storage_mutex;;
  d ← act get;
  let lock_info := sector_lock_state (sto d) in
  unlock_p storage_mutex;;
  r ← act (copy_to_user arg (bool_byte <$> lock_info));
  if negb (r =? 0) then mret (- EFAULT) else mret 0.

Definition ioctl_erase_sector_p (arg : Z) : P Z :=
  '(r, bs) ← act (copy_from_user arg sizeof_int);
  if negb (r =? 0) then mret (- EFAULT)
  else
    let sector_index := bytes_int bs in
    if bad_sector sector_index then mret (- EINVAL)
    else
      lock_p storage_mutex;;
      locked ← act (d ← get; value OutOfBounds (zget (sector_lock_state (sto d)) sector_index));
      if locked : bool then unlock_p storage_mutex;; mret (- EPERM)
      else
        let off := sector_index * STORAGE_SECTOR_SIZE in
        d ← act get;
        if in_bounds off STORAGE_SECTOR_SIZE (zlen (storage_buffer (sto d))) then
          put_bytes (Z.to_nat STORAGE_SECTOR_SIZE) off (replicate (Z.to_nat STORAGE_SECTOR_SIZE) NUL);;
          unlock_p storage_mutex;;
          mret 0
        else act (oops OutOfBounds).

(** memcpy(mirror_buffer + dst, data, n), where data points into
    storage_buffer: the source is read while others may write it. *)
Definition copy_byte (dst src : Z) : M W disk unit :=
  d ← get;
  b ← value OutOfBounds (zget (storage_buffer (sto d)) src);
  modify (fun d => set_mirror (Mirror (upd dst [b] (mirror_buffer (mir d)))) d).
Fixpoint copy_bytes (n : nat) (dst src : Z) : P unit :=
  match n with
  | O => mret tt
  | S n => act (copy_byte dst src);; copy_bytes n (dst + 1) (src + 1)
  end.

(** [data] is the offset in storage_buffer that the caller points to. *)
Definition mirror_sector_p (sector data : Z) : P unit :=
  if (sector <? 0) || (MIRROR_NUM_SECTORS <=? sector) then mret tt
  else
    rc ← lock_intr_p mirror_mutex;
    if negb (rc =? 0) then mret tt
    else
      d ← act get;
      let off := sector * MIRROR_SECTOR_SIZE in
      if in_bounds off MIRROR_SECTOR_SIZE (zlen (mirror_buffer (mir d))) then
        copy_bytes (Z.to_nat MIRROR_SECTOR_SIZE) off data;;
        unlock_p mirror_mutex
      else act (oops OutOfBounds).

Definition ioctl_mirror_sector_p (arg : Z) : P Z :=
  '(r, bs) ← act (copy_from_user arg sizeof_int);
  if negb (r =? 0) then mret (- EFAULT)
  else
    let sector_index := bytes_int bs in
    if bad_sector sector_index then mret (- EINVAL)
    else
      d ← act get;
      let off := sector_index * STORAGE_SECTOR_SIZE in
      if in_bounds off STORAGE_SECTOR_SIZE (zlen (storage_buffer (sto d))) then
        mirror_sector_p sector_index off;;
        mret 0
      else act (oops OutOfBounds).

Fixpoint backup_loop_p (fuel : nat) (pos written : Z) : prog W mirror (Z * Z) :=
  match fuel with
  | O => act (oops OutOfFuel)
  | S fuel =>
      if pos <? MIRROR_TOTAL_SIZE then
        m ← act get;
        let to_write := Z.min MIRROR_TOTAL_SIZE (u64 (MIRROR_TOTAL_SIZE - pos)) in
        if in_bounds pos to_write (zlen (mirror_buffer m)) then
          '(rc, pos') ← act (m ← get; kernel_write (sub pos to_write (mirror_buffer m)) pos);
          if rc <? 0 then mret (rc, written)
          else if rc =? 0 then mret (- EIO, written)
          else backup_loop_p fuel pos' (written + rc)
        else act (oops OutOfBounds)
      else mret (0, written)
  end.

Definition vblock_backup_to_file_p (path : list byte) : prog W mirror Z :=
  c ← act (value OutOfBounds (zget path 0));
  if bool_decide (c = NUL) then mret (- EINVAL)
  else
    rc ← act (filp_open path);
    if negb (rc =? 0) then mret rc
    else
      rc ← lock_intr_p mirror_mutex;
      if negb (rc =? 0) then act filp_close;; mret (- ERESTARTSYS)
      else
        '(ret, written) ← backup_loop_p (Z.to_nat MIRROR_TOTAL_SIZE + 1) 0 0;
        unlock_p mirror_mutex;;
        act filp_close;;
        mret (if negb (ret =? 0) then ret
              else if written =? MIRROR_TOTAL_SIZE then 0 else - EIO).

Definition ioctl_backup_to_file_p (arg : Z) : P Z :=
  '(r, path) ← act (copy_from_user arg 256);
  if negb (r =? 0) then mret (- EFAULT)
  else zoom_p mir set_mirror (vblock_backup_to_file_p path).

Definition storage_ioctl_p (cmd arg : Z) : P Z :=
  if cmd =? IOCTL_LOCK_SECTOR then ioctl_lock_sector_p arg
  else if cmd =? IOCTL_UNLOCK_SECTOR then ioctl_unlock_sector_p arg
  else if cmd =? IOCTL_GET_LOCK_INFO then ioctl_get_lock_info_p arg
  else if cmd =? IOCTL_ERASE_SECTOR then ioctl_erase_sector_p arg
  else if cmd =? IOCTL_MIRROR_SECTOR then ioctl_mirror_sector_p arg
  else if cmd =? IOCTL_BACKUP_TO_FILE then ioctl_backup_to_file_p arg
  else mret (- ENOTTY).

Definition call_p (o : disk_op) : P Z :=
  match o with
  | ORead buf len pos => r ← storage_read_p buf len pos; mret r.1
  | OWrite buf len pos => r ← storage_write_p buf len pos; mret r.1
  | OIoctl cmd arg => storage_ioctl_p cmd arg
  end.
End Calls.

(** ** A call without interference is the handler *)

Section Alone.
Context {W : Type} `{UserAccessOk W} `{!Signals W} `{!FileIO W}.

Lemma run_put_bytes n off bs (d : disk) (w : W) h l :
  length bs = n -> 0 <= off -> off + zlen bs <= zlen (storage_buffer (sto d)) ->
  run (put_bytes n off bs) (KSt d w h l) =
    Done (tt, KSt (set_buffer (upd off bs (storage_buffer (sto d))) d) w h l).
Proof.
  intros <-. revert off d. induction bs as [|b bs IH]; intros off d Ho Hl; simpl.
  - unfold upd. simpl. rewrite Nat.add_0_r, take_drop. by destruct d as [[] ?].
  - pose proof (zlen_nonneg bs). assert (E : zlen (b :: bs) = zlen bs + 1) by (unfold zlen; simpl; lia).
    unfold mbind, M_bind, put_byte, modify. simpl. unfold set_drv. simpl.
    rewrite IH; simpl; [|lia | rewrite zlen_upd; [lia | lia | change (zlen [b]) with 1; lia]].
    by rewrite upd_split.
Qed.

Lemma sub_cons {A} (l : list A) off n :
  0 <= off -> off + Z.of_nat (S n) <= zlen l ->
  exists x, zget l off = Some x /\ sub off (Z.of_nat (S n)) l = x :: sub (off + 1) (Z.of_nat n) l.
Proof.
  intros Ho Hl. destruct (zget_in l off) as [x Hx]; [lia|]. exists x. split; [done|].
  unfold zget in Hx. rewrite (proj2 (Z.leb_le 0 off)) in Hx by lia.
  unfold sub. rewrite !Nat2Z.id. rewrite (drop_S l x (Z.to_nat off)) by done. simpl. do 2 f_equal. f_equal. lia.
Qed.

Lemma copy_byte_run dst src b (d : disk) (w : W) h l :
  zget (storage_buffer (sto d)) src = Some b ->
  copy_byte dst src (KSt d w h l) =
    Done (tt, KSt (set_mirror (Mirror (upd dst [b] (mirror_buffer (mir d)))) d) w h l).
Proof. intros Hb. unfold copy_byte. rewrite bind_get. simpl drv. by rewrite Hb. Qed.

Lemma run_copy_bytes n dst src (d : disk) (w : W) h l :
  0 <= dst -> dst + Z.of_nat n <= zlen (mirror_buffer (mir d)) ->
  0 <= src -> src + Z.of_nat n <= zlen (storage_buffer (sto d)) ->
  run (copy_bytes n dst src) (KSt d w h l) =
    Done (tt, KSt (set_mirror (Mirror (upd dst (sub src (Z.of_nat n) (storage_buffer (sto d)))
                                              (mirror_buffer (mir d)))) d) w h l).
Proof.
  revert dst src d. induction n as [|n IH]; intros dst src d Hd Hdl Hs Hsl; simpl.
  - unfold upd, sub. simpl. rewrite Nat.add_0_r, take_drop. by destruct d as [? []].
  - destruct (sub_cons (storage_buffer (sto d)) src n Hs Hsl) as (b & Hb & Hsub).
    assert (Hz : zlen (sub (src + 1) (Z.of_nat n) (storage_buffer (sto d))) = Z.of_nat n)
      by (apply zlen_sub; lia).
    erewrite bind_done by (by apply copy_byte_run).
    change (Z.pos (Pos.of_succ_nat n)) with (Z.of_nat (S n)). rewrite Hsub.
    rewrite IH; simpl; [| lia | rewrite zlen_upd; [lia | lia | change (zlen [b]) with 1; lia] | lia | lia].
    rewrite upd_split; [done | done |]. unfold zlen in *. simpl. lia.
Qed.

Lemma run_storage_read buf len off :
  run (storage_read_p (W := W) buf len off) ≡ₑ storage_read buf len off.
Proof. intros [d w h l]. unfold storage_read_p, storage_read. cbv zeta. same. Qed.

Lemma run_check_sectors s e : run (check_sectors_p (W := W) s e) ≡ₑ check_sectors s e.
Proof. apply run_for. intros j [d w h l]. same. Qed.

Lemma run_storage_write buf len off :
  run (storage_write_p (W := W) buf len off) ≡ₑ storage_write buf len off.
Proof.
  intros [d w h l]. unfold storage_write_p, storage_write. cbv zeta. same.
  rewrite run_bind. apply bind_at; [apply run_check_sectors|]. intros [e|] d1 w1 h1 l1; [done|].
  rewrite run_act_at, !bind_get. cbn [drv].
  match goal with |- run (if ?b then _ else _) _ = _ => destruct b eqn:Hb; [|done] end.
  apply in_bounds_spec in Hb as (Ho & Hn & Hl). rewrite run_act_at. apply bind_cfu_at; [done|].
  intros r bs w2 Hbs. rewrite run_bind. erewrite bind_done by (apply run_put_bytes; unfold zlen in *; lia). same.
Qed.

Lemma run_lock_sector arg : run (ioctl_lock_sector_p (W := W) arg) ≡ₑ ioctl_lock_sector arg.
Proof. intros [d w h l]. unfold ioctl_lock_sector_p, ioctl_lock_sector. same. Qed.

Lemma run_unlock_sector arg : run (ioctl_unlock_sector_p (W := W) arg) ≡ₑ ioctl_unlock_sector arg.
Proof. intros [d w h l]. unfold ioctl_unlock_sector_p, ioctl_unlock_sector. cbv zeta. same. Qed.

Lemma run_get_lock_info arg : run (ioctl_get_lock_info_p (W := W) arg) ≡ₑ ioctl_get_lock_info arg.
Proof. intros [d w h l]. unfold ioctl_get_lock_info_p, ioctl_get_lock_info. cbv zeta. same. Qed.

Lemma run_erase_sector arg : run (ioctl_erase_sector_p (W := W) arg) ≡ₑ ioctl_erase_sector arg.
Proof.
  intros [d w h l]. unfold ioctl_erase_sector_p, ioctl_erase_sector. cbv zeta.
  rewrite run_act_at. apply bind_at; [done|]. intros [r bs] d1 w1 h1 l1.
  destruct (negb (r =? 0)); [done|]. destruct (bad_sector (bytes_int bs)); [done|].
  rewrite run_lock_at. apply bind_at; [done|]. intros [] d2 w2 h2 l2.
  rewrite run_act_at, bind_assoc_meq, !bind_get. cbn [drv].
  destruct (zget (sector_lock_state (sto d2)) (bytes_int bs)) as [[]|]; [done | | done].
  cbn [value]. rewrite !bind_ret, run_act_at, bind_get. cbn [drv].
  match goal with |- run (if ?b then _ else _) _ = _ => destruct b eqn:Hb; [|done] end.
  apply in_bounds_spec in Hb as (Ho & Hn & Hl).
  rewrite run_bind. erewrite bind_done by (by apply run_put_bytes). done.
Qed.

Local Lemma set_mir_put d : set_mirror (mir d) d = d.
Proof. by destruct d. Qed.

Local Abbreviation zoom_bind := (zoom_bind mir set_mirror (fun _ _ => eq_refl) (fun _ _ _ => eq_refl)).
Local Abbreviation zoom_acquire := (zoom_acquire mir set_mirror set_mir_put).

Lemma run_mirror_sector i off (d : disk) (w : W) h l :
  0 <= off -> off + MIRROR_SECTOR_SIZE <= zlen (storage_buffer (sto d)) ->
  run (mirror_sector_p i off) (KSt d w h l) =
    zoom mir set_mirror (mirror_sector i (sub off MIRROR_SECTOR_SIZE (storage_buffer (sto d)))) (KSt d w h l).
Proof.
  intros Ho Hl. unfold mirror_sector_p, mirror_sector.
  destruct ((i <? 0) || (MIRROR_NUM_SECTORS <=? i)); [by destruct d|].
  rewrite run_lock_intr_at, zoom_bind.
  assert (E : forall f : Z -> M W disk unit, (zoom mir set_mirror (mutex_lock_interruptible mirror_mutex) ≫= f) (KSt d w h l)
              = (mutex_lock_interruptible mirror_mutex ≫= f) (KSt d w h l)).
  { intros f. apply bind_meq; [|done]. apply (zoom_acquire mirror_mutex true). }
  rewrite E. apply bind_lock_intr_at. clear E. intros rc w1 h1.
  destruct (negb (rc =? 0)); [by destruct d|]. cbv zeta.
  rewrite run_act_at, bind_get, zoom_bind. cbn [drv].
  change ((zoom mir set_mirror get ≫= ?f) (KSt d w1 h1 l)) with (f (mir d) (KSt (set_mirror (mir d) d) w1 h1 l)).
  rewrite set_mir_put, (zlen_sub off MIRROR_SECTOR_SIZE) by done.
  destruct (in_bounds _ _ _) eqn:Hb; [|done]. apply in_bounds_spec in Hb as (Hm & _ & Hml).
  rewrite run_bind. erewrite bind_done by (by apply run_copy_bytes).
  rewrite zoom_bind. unfold mbind, M_bind, zoom, modify. simpl.
  unfold mutex_unlock, unlock, set_drv, set_held, mbind, M_bind. simpl. by destruct (remove_one mirror_mutex h1).
Qed.

Lemma run_ioctl_mirror_sector arg : run (ioctl_mirror_sector_p (W := W) arg) ≡ₑ ioctl_mirror_sector arg.
Proof.
  intros [d w h l]. unfold ioctl_mirror_sector_p, ioctl_mirror_sector. cbv zeta.
  rewrite run_act_at. apply bind_at; [done|]. intros [r bs] d1 w1 h1 l1.
  destruct (negb (r =? 0)); [done|]. destruct (bad_sector (bytes_int bs)); [done|].
  rewrite run_act_at, !bind_get. cbn [drv].
  match goal with |- run (if ?b then _ else _) _ = _ => destruct b eqn:Hb; [|done] end.
  apply in_bounds_spec in Hb as (Ho & Hn & Hl). rewrite run_bind.
  apply bind_at; [by apply run_mirror_sector | done].
Qed.

(** The backup touches the mirror only. *)
Lemma run_backup_loop fuel pos written :
  run (backup_loop_p (W := W) fuel pos written) ≡ₑ backup_loop fuel pos written.
Proof.
  revert pos written. induction fuel as [|fuel IH]; intros pos written [m w h l]; [done|].
  cbn [backup_loop_p backup_loop]. destruct (pos <? MIRROR_TOTAL_SIZE); [|done].
  cbv zeta. rewrite run_act_at, !bind_get. cbn [drv].
  match goal with |- run (if ?b then _ else _) _ = _ => destruct b; [|done] end.
  rewrite run_act_at, bind_assoc_meq, bind_get. cbn [drv]. apply bind_at; [done|].
  intros [rc pos'] m1 w1 h1 l1. destruct (rc <? 0); [done|]. destruct (rc =? 0); [done | apply IH].
Qed.

Lemma run_backup_to_file path :
  run (vblock_backup_to_file_p (W := W) path) ≡ₑ vblock_backup_to_file path.
Proof.
  intros [m w h l]. unfold vblock_backup_to_file_p, vblock_backup_to_file. same.
  rewrite run_bind. apply bind_at; [apply run_backup_loop|]. intros [ret written] ? ? ? ?. same.
Qed.

Lemma run_ioctl_backup arg : run (ioctl_backup_to_file_p (W := W) arg) ≡ₑ ioctl_backup_to_file arg.
Proof.
  intros [d w h l]. unfold ioctl_backup_to_file_p, ioctl_backup_to_file. same.
  rewrite (run_zoom mir set_mirror) by (done || apply set_mir_put).
  apply zoom_meq, run_backup_to_file.
Qed.

Lemma run_storage_ioctl cmd arg : run (storage_ioctl_p (W := W) cmd arg) ≡ₑ storage_ioctl cmd arg.
Proof.
  unfold storage_ioctl_p, storage_ioctl.
  repeat match goal with |- context [cmd =? ?c] => destruct (cmd =? c) end.
  - apply run_lock_sector.
  - apply run_unlock_sector.
  - apply run_get_lock_info.
  - apply run_erase_sector.
  - apply run_ioctl_mirror_sector.
  - apply run_ioctl_backup.
  - done.
Qed.

(** A read, write or ioctl command that no other call interferes with,
    cut into its accesses to memory, is the handler of Storage.v that runs in
    one piece: same result, same device, same user memory, same locks. *)
Lemma run_call (o : disk_op) : run (call_p (W := W) o) ≡ₑ run_disk_op o.
Proof.
  destruct o as [buf len pos | buf len pos | cmd arg]; [| | apply run_storage_ioctl].
  all: intros σ; unfold call_p, run_disk_op; rewrite run_bind; apply bind_meq; [|done].
  - apply run_storage_read.
  - apply run_storage_write.
Qed.
End Alone.

(** ** What calls rely on and guarantee *)

(** While a call holds a mutex the others leave what it protects alone. *)
Record rely (h : list lock) (d d' : disk) : Prop := {
  r_keys : user_keys (sto d') = user_keys (sto d) /\ key_count (sto d') = key_count (sto d);
  r_sto : storage_mutex ∈ h -> sto d' = sto d;
  r_mir : mirror_mutex ∈ h -> mir d' = mir d;
}.

(** A step changes the buffer and the lock states only with storage_mutex
    held, the mirror only with mirror_mutex held; it leaves the bytes of every
    locked sector alone and unlocks at most sectors 0 to 3. *)
Record guar (h : list lock) (d d' : disk) : Prop := {
  g_keys : user_keys (sto d') = user_keys (sto d) /\ key_count (sto d') = key_count (sto d);
  g_sto : storage_mutex ∉ h -> sto d' = sto d;
  g_mir : mirror_mutex ∉ h -> mir d' = mir d;
  g_sectors : forall i, 0 <= i < STORAGE_NUM_SECTORS -> is_locked d i = true ->
    sector d' i = sector d i /\ (4 <= i -> is_locked d' i = true);
}.

Lemma rely_pre h : PreOrder (rely h).
Proof.
  split.
  - intros d. by split.
  - intros d1 d2 d3 [[K1 C1] S1 M1] [[K2 C2] S2 M2]. split; [split; congruence | |].
    + intros Hh. rewrite (S2 Hh). by apply S1.
    + intros Hh. rewrite (M2 Hh). by apply M1.
Qed.

Lemma guar_refl h d : storage_ok d -> guar h d d.
Proof. by split. Qed.

Lemma guar_rely h h' d d' : h ## h' -> storage_ok d -> guar h d d' -> rely h' d d'.
Proof.
  intros Hd _ [K S M _]. split; [done | |].
  - intros Hh. apply S. intros Hs. by apply (Hd storage_mutex).
  - intros Hh. apply M. intros Hm. by apply (Hd mirror_mutex).
Qed.

Lemma rely_storage d d' : rely [storage_mutex] d d' -> sto d' = sto d.
Proof. intros [_ S _]. apply S. by left. Qed.
Lemma rely_locked d d' i : rely [storage_mutex] d d' -> is_locked d' i = is_locked d i.
Proof. intros R. unfold is_locked. by rewrite (rely_storage _ _ R). Qed.

(** Opening a file and writing to it leave the user's memory alone; a write
    advances the position by the bytes it has written. *)
Class FileFrame (W : Type) `{FileIO W} `{UserMem W} : Prop := {
  open_frame name w rc w' : k_filp_open name w = (rc, w') -> umem w' ≡ₘ umem w;
  write_frame data pos w rc pos' w' :
    k_kernel_write data pos w = (rc, pos', w') ->
    umem w' ≡ₘ umem w /\ (0 < rc -> rc <= zlen data /\ pos' = pos + rc);
}.

Section Overlap.
Context {W : Type} `{UserAccessOk W} `{!Signals W} `{!SignalsOk W} `{!FileIO W} `{!FileFrame W}.

(** The addresses of the paths that backup requests name. *)
Context (paths : list Z).

(** Every path has a terminator among the 256 bytes that are copied, *)
Definition terminated (w : W) : Prop := forall a, a ∈ paths -> cstr (uread (umem w) a 256) <> None.
(** which no call overwrites. *)
Definition away (a n : Z) : Prop := forall p, p ∈ paths -> p + 256 <= a \/ a + n <= p.

Definition call_ok (o : disk_op) : Prop :=
  match o with
  | ORead buf len pos => vfs_ok pos len /\ away buf len
  | OWrite _ len pos => vfs_ok pos len
  | OIoctl cmd arg =>
      (cmd = IOCTL_GET_LOCK_INFO -> away arg STORAGE_NUM_SECTORS) /\
      (cmd = IOCTL_BACKUP_TO_FILE -> arg ∈ paths)
  end.

Lemma paths_mem (w w' : W) : umem w' ≡ₘ umem w -> terminated w -> terminated w'.
Proof. intros Hm Hw a Ha. rewrite Hm. by apply Hw. Qed.

Lemma terminated_write (w w' : W) dst data n :
  umem w' ≡ₘ uwrite (umem w) dst data -> zlen data <= n -> away dst n -> terminated w -> terminated w'.
Proof.
  intros Hm Hn Haw Hw a Ha. rewrite Hm. rewrite uread_uwrite_apart; [by apply Hw|].
  destruct (Haw a Ha); [left | right]; lia.
Qed.

Local Abbreviation oks p := (safe storage_ok terminated rely guar p).

(** A step that changes no variable of the driver. *)
Lemma ok_quiet_file {A B} (m : M W disk B) (Pf : B -> disk -> list resource -> Prop)
    (f : B -> prog W disk A) Q h l d :
  (forall d' w, rely h d d' -> storage_ok d' -> terminated w ->
     wp m (fun b σ => drv σ = d' /\ held σ = h /\ terminated (world σ) /\ Pf b d' (ledger σ)) (KSt d' w h l)) ->
  (forall b d' l', rely h d d' -> storage_ok d' -> Pf b d' l' -> oks (f b) Q h l' d') ->
  oks (act m ≫= f) Q h l d.
Proof.
  intros Hm Hf. apply safe_step. intros d' HR Hd' w Hw. eapply wp_mono; [by apply Hm|].
  intros b [d2 w2 h2 l2] (-> & -> & Hw2 & Hp). simpl in *. split_and!; auto using guar_refl.
Qed.

Lemma ok_quiet {A B} (m : M W disk B) (Pf : B -> disk -> Prop) (f : B -> prog W disk A) Q h l d :
  (forall d' w, rely h d d' -> storage_ok d' -> terminated w ->
     wp m (fun b σ => drv σ = d' /\ held σ = h /\ ledger σ = l /\ terminated (world σ) /\ Pf b d')
        (KSt d' w h l)) ->
  (forall b d', rely h d d' -> storage_ok d' -> Pf b d' -> oks (f b) Q h l d') ->
  oks (act m ≫= f) Q h l d.
Proof.
  intros Hm Hf. apply (ok_quiet_file m (fun b d' l' => l' = l /\ Pf b d')).
  - intros d' w HR Hd' Hw. eapply wp_mono; [by apply Hm|]. intros b σ (? & ? & ? & ? & ?). by split_and!.
  - intros b d' l' HR Hd' [-> Hp]. by apply Hf.
Qed.

Lemma ok_get {A} (f : disk -> prog W disk A) Q h l d :
  (forall d', rely h d d' -> storage_ok d' -> oks (f d') Q h l d') -> oks (act get ≫= f) Q h l d.
Proof.
  intros Hf. apply (ok_quiet get (fun b d' => b = d')).
  - intros d' w _ _ Hw. apply wp_get. by split_and!.
  - intros b d' HR Hd' ->. by apply Hf.
Qed.

Lemma ok_value {A B} (o : disk -> option B) (f : B -> prog W disk A) Q h l d :
  (forall d', rely h d d' -> storage_ok d' -> exists b, o d' = Some b /\ oks (f b) Q h l d') ->
  oks (act (d ← get; value OutOfBounds (o d)) ≫= f) Q h l d.
Proof.
  intros Hf. apply (ok_quiet _ (fun b d' => o d' = Some b)).
  - intros d' w HR Hd' Hw. destruct (Hf d' HR Hd') as (b & Hb & _). wp_step; wp_step. rewrite Hb. wp_step. by split_and!.
  - intros b d' HR Hd' Hb. destruct (Hf d' HR Hd') as (b' & Hb' & Hk). congruence.
Qed.

Lemma ok_cfu {A} a n (f : Z * list byte -> prog W disk A) Q h l d :
  0 <= n ->
  (forall r bs d', rely h d d' -> storage_ok d' -> zlen bs = n ->
     (r = 0 -> a ∈ paths -> n = 256 -> cstr bs <> None) -> oks (f (r, bs)) Q h l d') ->
  oks (act (copy_from_user a n) ≫= f) Q h l d.
Proof.
  intros Hn Hf.
  apply (ok_quiet _ (fun b d' => zlen b.2 = n /\ (b.1 = 0 -> a ∈ paths -> n = 256 -> cstr b.2 <> None))).
  - intros d' w _ _ Hw. wp_step. pose proof (cfu_zlen _ _ _ _ _ _ Hn Hcfu) as Hz.
    pose proof (cfu_mem _ _ _ _ _ _ Hn Hcfu) as Hm. split_and!; try done.
    + by eapply paths_mem.
    + simpl. intros -> Ha ->. apply cfu_full in Hcfu as [-> _]; [|done]. by apply Hw.
  - intros [r bs] d' HR Hd' [Hz Hb]. by apply Hf.
Qed.

Lemma ok_ctu {A} a n (data : disk -> list byte) (f : Z -> prog W disk A) Q h l d :
  (forall d', storage_ok d' -> zlen (data d') <= n) -> away a n ->
  (forall r d', rely h d d' -> storage_ok d' -> oks (f r) Q h l d') ->
  oks (act (d ← get; copy_to_user a (data d)) ≫= f) Q h l d.
Proof.
  intros Hn Ha Hf. apply (ok_quiet _ (fun _ _ => True)); [|auto].
  intros d' w _ Hd' Hw. wp_step; wp_step. wp_step. split_and!; try done.
  apply ctu_ok in Hctu as [Hr Hm]. eapply terminated_write; [exact Hm | | exact Ha | done].
  specialize (Hn d' Hd'). unfold zlen in *. rewrite length_take. lia.
Qed.

Lemma ok_unlock {A} k (f : unit -> prog W disk A) Q l d :
  (forall d', rely [k] d d' -> storage_ok d' -> oks (f tt) Q [] l d') ->
  oks (unlock_p k ≫= f) Q [k] l d.
Proof.
  intros Hf. apply safe_step. intros d' HR Hd' w Hw. unfold mutex_unlock. apply wp_unlock. simpl.
  split_and!; auto using guar_refl. apply list_subseteq_nil.
Qed.

(** Giving a mutex back inside a part of the driver. *)
Lemma ok_quiet_unlock {A} (m : M W disk unit) k (f : unit -> prog W disk A) Q l d :
  (forall d w L, m (KSt d w [k] L) = Done (tt, KSt d w [] L)) ->
  (forall d', oks (f tt) Q [] l d') -> oks (act m ≫= f) Q [k] l d.
Proof.
  intros Hm Hf. apply safe_step. intros d' HR Hd' w Hw. unfold wp. rewrite Hm. simpl.
  split_and!; auto using guar_refl. apply list_subseteq_nil.
Qed.

(** A step under storage_mutex. *)
Lemma guarded_guar d d' :
  guarded d d' -> mir d' = mir d ->
  user_keys (sto d') = user_keys (sto d) /\ key_count (sto d') = key_count (sto d) ->
  guar [storage_mutex] d d'.
Proof. intros [_ Hg] Hm Hk. split; [done | | done | done]. intros Hn. destruct Hn. by left. Qed.

Lemma ok_modify {A} (m : M W disk unit) (g : disk -> disk) (f : unit -> prog W disk A) Q l d :
  (forall d', rely [storage_mutex] d d' -> storage_ok d' ->
     (forall w h l, m (KSt d' w h l) = Done (tt, KSt (g d') w h l)) /\
     guarded d' (g d') /\ mir (g d') = mir d' /\
     (user_keys (sto (g d')) = user_keys (sto d') /\ key_count (sto (g d')) = key_count (sto d')) /\
     oks (f tt) Q [storage_mutex] l (g d')) ->
  oks (act m ≫= f) Q [storage_mutex] l d.
Proof.
  intros Hf. apply safe_step. intros d' HR Hd' w Hw. destruct (Hf d' HR Hd') as (Hm & Hg & Hmir & Hk & Hn).
  unfold wp. rewrite Hm. simpl. split_and!; try done; [apply Hg | by apply guarded_guar].
Qed.

Lemma ok_put_bytes {A} n off bs (f : unit -> prog W disk A) Q l d :
  length bs = n -> 0 <= off -> off + zlen bs <= STORAGE_TOTAL_SIZE ->
  (forall i, off / STORAGE_SECTOR_SIZE <= i <= (off + zlen bs - 1) / STORAGE_SECTOR_SIZE ->
     is_locked d i = false) ->
  (forall d', storage_ok d' -> oks (f tt) Q [storage_mutex] l d') ->
  oks (put_bytes n off bs ≫= f) Q [storage_mutex] l d.
Proof.
  intros <- Ho Hl Hu Hf. revert off d Ho Hl Hu. induction bs as [|b bs IH]; intros off d Ho Hl Hu.
  - apply safe_now; [apply rely_pre|]. intros d' _ Hd'. by apply Hf.
  - assert (E : zlen (b :: bs) = zlen bs + 1) by (unfold zlen; simpl; lia). pose proof (zlen_nonneg bs).
    rewrite E in *. unfold STORAGE_SECTOR_SIZE in Hu.
    apply (ok_modify (put_byte off b) (fun d => set_buffer (upd off [b] (storage_buffer (sto d))) d)
             (fun _ => put_bytes (length bs) (off + 1) bs ≫= f)).
    intros d' HR Hd'. split; [done|].
    assert (Hg : guarded d' (set_buffer (upd off [b] (storage_buffer (sto d'))) d')).
    { apply guarded_write; change (zlen [b]) with 1; [done | done | lia |].
      intros i Hi. rewrite (rely_locked _ _ _ HR). apply Hu. unfold STORAGE_SECTOR_SIZE in Hi. dlia. }
    split_and!; try done. apply IH; [lia | lia |]. intros i Hi.
    change (is_locked (set_buffer (upd off [b] (storage_buffer (sto d'))) d') i) with (is_locked d' i).
    rewrite (rely_locked _ _ _ HR). apply Hu. unfold STORAGE_SECTOR_SIZE in Hi. dlia.
Qed.

(** [check_sectors] ends with the mutex held and the sectors unlocked, or
    with the mutex given back. *)
Lemma ok_check_sectors {A} a b (f : option Z -> prog W disk A) Q l d :
  0 <= a -> b < STORAGE_NUM_SECTORS ->
  (forall d', storage_ok d' -> (forall i, a <= i <= b -> is_locked d' i = false) ->
     oks (f None) Q [storage_mutex] l d') ->
  (forall d', storage_ok d' -> oks (f (Some (- EPERM))) Q [] l d') ->
  oks (check_sectors_p a b ≫= f) Q [storage_mutex] l d.
Proof.
  intros Ha Hb Hn He. apply safe_bind; [apply rely_pre|]. unfold check_sectors_p.
  apply (safe_for _ _ _ _ (rely_pre) (fun j h l' d => h = [storage_mutex] /\ l' = l /\
           forall i, a <= i < j -> is_locked d i = false)).
  - split_and!; try done. lia.
  - intros j h l' d1 Hj (-> & -> & Hu). rewrite num_sectors in Hb.
    apply ok_value. intros d2 HR Hd2. exists (is_locked d2 j).
    split; [apply is_locked_get; [done | rewrite num_sectors; lia]|].
    destruct (is_locked d2 j) eqn:Hlk.
    + apply ok_unlock. intros d3 _ _. apply safe_ret. intros d4 _ _ d5 _ Hd5. by apply He.
    + apply safe_ret. intros d3 HR3 _. split_and!; try done. intros i Hi. rewrite (rely_locked _ _ _ HR3).
      destruct (decide (i = j)) as [->|]; [done|]. rewrite (rely_locked _ _ _ HR). apply Hu. lia.
  - intros h l' d1 (-> & -> & Hu). apply safe_now; [apply rely_pre|]. intros d2 HR Hd2.
    apply Hn; [done|]. intros i Hi. rewrite (rely_locked _ _ _ HR). apply Hu. lia.
  - intros j h l' d1 d2 (-> & -> & Hu) HR _. split_and!; try done. intros i Hi.
    rewrite (rely_locked _ _ _ HR). by apply Hu.
Qed.

(** A byte of the mirror changes while others may write its source. *)
Lemma ok_copy_bytes {A} n dst src (f : unit -> prog W disk A) Q l d :
  0 <= dst -> dst + Z.of_nat n <= MIRROR_TOTAL_SIZE -> 0 <= src -> src + Z.of_nat n <= STORAGE_TOTAL_SIZE ->
  (forall d', storage_ok d' -> oks (f tt) Q [mirror_mutex] l d') ->
  oks (copy_bytes n dst src ≫= f) Q [mirror_mutex] l d.
Proof.
  intros Hd Hdl Hs Hsl Hf. revert dst src d Hd Hdl Hs Hsl. induction n as [|n IH]; intros dst src d Hd Hdl Hs Hsl.
  - apply safe_now; [apply rely_pre|]. intros d' _ Hd'. by apply Hf.
  - apply (safe_step _ _ _ _ (copy_byte dst src) (fun _ => copy_bytes n (dst + 1) (src + 1) ≫= f)).
    intros d' HR Hd' w Hw. pose proof (ok_mirror d' Hd') as Hm. pose proof (ok_buffer d' Hd') as Hb.
    unfold mirror_ok in Hm. destruct (zget_in (storage_buffer (sto d')) src) as [b E]; [lia|].
    unfold wp. rewrite (copy_byte_run dst src b d') by done. simpl. split_and!; try done.
    + apply set_mirror_ok; [done|]. unfold mirror_ok. simpl.
      rewrite zlen_upd; [done | done | change (zlen [b]) with 1; lia].
    + split; try done. intros Hn. destruct Hn. by left.
    + apply IH; lia.
Qed.

(** What a whole call establishes: mutexes and resources are given back. *)
Local Abbreviation returns p := (forall d, oks p clean [] [] d).

Lemma ok_done {A} (a : A) d : oks (mret a) clean [] [] d.
Proof. apply safe_ret. by split. Qed.

Lemma mirror_sector_safe i off d :
  0 <= off -> off + MIRROR_SECTOR_SIZE <= STORAGE_TOTAL_SIZE ->
  oks (mirror_sector_p i off) clean [] [] d.
Proof.
  intros Ho Hl. unfold mirror_sector_p. unfold MIRROR_SECTOR_SIZE in *.
  destruct ((i <? 0) || (MIRROR_NUM_SECTORS <=? i)) eqn:E; [apply ok_done|].
  apply orb_false_iff in E as [E1%Z.ltb_ge E2%Z.leb_gt]. assert (MIRROR_NUM_SECTORS = 8) by done.
  apply (safe_lock_intr _ _ _ _ mirror_mutex). intros d1 _ Hd1. split.
  - apply ok_get. intros d2 _ Hd2. pose proof (ok_mirror d2 Hd2) as Hm. unfold mirror_ok, MIRROR_TOTAL_SIZE in Hm.
    cbv zeta. rewrite in_bounds_true by lia.
    apply ok_copy_bytes; unfold MIRROR_TOTAL_SIZE; [lia..|]. intros d3 Hd3.
    apply (ok_unlock mirror_mutex Ret). intros d4 _ _. apply ok_done.
  - intros rc Hrc. rewrite (proj2 (Z.eqb_neq rc 0) Hrc). apply ok_done.
Qed.

Lemma bad_false i : bad_sector i = false -> 0 <= i < 8.
Proof. rewrite bad_sector_false. by rewrite num_sectors. Qed.

Lemma ok_unlocked {A} k (a : A) d : oks (unlock_p k;; mret a) clean [k] [] d.
Proof. apply ok_unlock. intros d' _ _. apply ok_done. Qed.

(** The common start of three requests: the sector number. *)
Ltac sector_arg i Hi :=
  intros ?; apply ok_cfu; [done|]; let r := fresh "r" in let bs := fresh "bs" in
  intros r bs ? _ _ _ _; destruct (negb (r =? 0)); [apply ok_done|]; cbv zeta;
  destruct (bad_sector (bytes_int bs)) eqn:Hi; [apply ok_done|];
  apply bad_false in Hi; set (i := bytes_int bs) in *; clearbody i.

Lemma read_safe buf len off : vfs_ok off len -> away buf len -> returns (storage_read_p buf len off).
Proof.
  intros Hv Haw d. pose proof Hv as [Ho Hn]. unfold storage_read_p.
  destruct (Z.leb_spec STORAGE_TOTAL_SIZE off) as [He|He]; [apply ok_done|].
  rewrite clamp_code by done. cbv zeta. unfold clamp in *.
  apply (safe_lock_intr _ _ _ _ storage_mutex). intros d1 _ Hd1. split.
  - apply ok_get. intros d2 _ Hd2. pose proof (ok_buffer d2 Hd2).
    rewrite in_bounds_true by lia. apply (ok_ctu _ len).
    + intros d3 Hd3. pose proof (ok_buffer d3 Hd3). rewrite zlen_sub; lia.
    + done.
    + intros r d3 _ _. destruct (negb (r =? 0)); apply ok_unlocked.
  - intros rc Hrc. rewrite (proj2 (Z.eqb_neq rc 0) Hrc). apply ok_done.
Qed.

Lemma write_safe buf len off : vfs_ok off len -> returns (storage_write_p buf len off).
Proof.
  intros Hv d. pose proof Hv as [Ho Hn]. unfold storage_write_p.
  destruct (Z.leb_spec STORAGE_TOTAL_SIZE off) as [He|He]; [apply ok_done|].
  rewrite clamp_code by done. cbv zeta.
  assert (Hc : 0 <= clamp len off <= STORAGE_TOTAL_SIZE - off) by (unfold clamp; lia).
  destruct (sector_range off (clamp len off)) as [-> ->]; [lia..|].
  set (n := clamp len off) in *. clearbody n.
  apply (safe_lock_intr _ _ _ _ storage_mutex). intros d1 _ Hd1. split.
  2:{ intros rc Hrc. rewrite (proj2 (Z.eqb_neq rc 0) Hrc). apply ok_done. }
  apply ok_check_sectors; rewrite ?num_sectors; unfold STORAGE_SECTOR_SIZE, STORAGE_TOTAL_SIZE in *; [dlia | dlia | |].
  - intros d2 Hd2 Hu. apply ok_get. intros d3 HR3 Hd3. pose proof (ok_buffer d3 Hd3) as Hb.
    unfold STORAGE_TOTAL_SIZE in Hb. rewrite in_bounds_true by lia.
    apply ok_cfu; [lia|]. intros r bs d4 HR4 Hd4 Hz _.
    apply ok_put_bytes; rewrite ?Hz; unfold STORAGE_TOTAL_SIZE, STORAGE_SECTOR_SIZE; [unfold zlen in *; lia | lia | lia | |].
    + intros i Hi. rewrite (rely_locked _ _ _ HR4), (rely_locked _ _ _ HR3). by apply Hu.
    + intros d5 _. destruct (negb (r =? 0)); apply ok_unlocked.
  - intros d2 _. apply ok_done.
Qed.

(** Storing a lock state under storage_mutex. *)
Lemma ok_set_lock i b (d : disk) :
  0 <= i < 8 -> (b = false -> i < 4) ->
  oks (act (d ← get; ls ← value OutOfBounds (zset (sector_lock_state (sto d)) i b); modify (set_locks ls));;
       unlock_p storage_mutex;; mret 0) clean [storage_mutex] [] d.
Proof.
  intros Hi Hb. apply (ok_modify _ (fun d => set_locks (<[Z.to_nat i := b]> (sector_lock_state (sto d))) d)).
  intros d' _ Hd'. pose proof (ok_locks d' Hd') as Hl. rewrite num_sectors in Hl. split.
  { intros w h l. rewrite bind_get. cbn [drv]. rewrite zset_in by lia. done. }
  split_and!; try done; [|apply ok_unlocked]. destruct b.
  - apply guarded_lock; [done | by rewrite num_sectors].
  - apply guarded_unlock; [done | lia].
Qed.

Lemma lock_sector_safe arg : returns (ioctl_lock_sector_p arg).
Proof.
  sector_arg i Hi. apply (safe_lock _ _ _ _ storage_mutex). intros d1 _ _.
  by apply ok_set_lock.
Qed.

Lemma match_key_quiet key d (w : W) h l :
  storage_ok d -> wp (match_key key) (fun _ σ => σ = KSt d w h l) (KSt d w h l).
Proof. intros Hd. eapply wp_mono; [by apply match_key_spec|]. by intros r σ [-> _]. Qed.

Lemma unlock_sector_safe arg : returns (ioctl_unlock_sector_p arg).
Proof.
  intros d. apply ok_cfu; [done|]. intros r req d1 _ Hd1 Hz _. destruct (negb (r =? 0)); [apply ok_done|].
  unfold sizeof_unlock_req in Hz.
  destruct (zget_in req 0) as [b0 E0]; [lia|]. destruct (zget_in req 1) as [b1 E1]; [lia|].
  assert (Hs : unlock_sector req = Some (swrap 3 (byte_val b0))) by (unfold unlock_sector; by rewrite E0).
  pose proof (swrap_range 3 (byte_val b0) ltac:(lia)) as Hrange. change (2 ^ (3 - 1)) with 4 in Hrange.
  apply (ok_quiet _ (fun i _ => i = swrap 3 (byte_val b0))).
  { intros d' w _ _ Hw. rewrite Hs. by apply wp_value. }
  intros i d2 _ _ ->. apply (ok_quiet _ (fun _ _ => True)).
  { intros d' w _ _ Hw. unfold unlock_key. rewrite E1. by apply wp_value. }
  intros key d3 _ _ _. destruct (bad_sector _) eqn:Eb; [apply ok_done|]. apply bad_false in Eb.
  apply (ok_quiet _ (fun _ _ => True)).
  { intros d' w _ Hd' Hw. eapply wp_mono; [by apply match_key_quiet|]. by intros v σ ->. }
  intros [[]|] d4 _ _ _; [|apply ok_done].
  apply (safe_lock_intr _ _ _ _ storage_mutex). intros d5 _ _. split.
  - apply ok_set_lock; lia.
  - intros rc Hrc. rewrite (proj2 (Z.eqb_neq rc 0) Hrc). apply ok_done.
Qed.

Lemma get_lock_info_safe arg : away arg STORAGE_NUM_SECTORS -> returns (ioctl_get_lock_info_p arg).
Proof.
  intros Haw d. apply (safe_lock _ _ _ _ storage_mutex). intros d1 _ _. apply ok_get. intros d2 _ Hd2.
  cbv zeta. apply ok_unlock. intros d3 _ _.
  apply (ok_ctu arg STORAGE_NUM_SECTORS (fun _ => bool_byte <$> sector_lock_state (sto d2))); [| done |].
  - intros d' _. pose proof (ok_locks d2 Hd2) as Hl. unfold zlen in *. rewrite length_fmap. lia.
  - intros r d4 _ _. destruct (negb (r =? 0)); apply ok_done.
Qed.

Lemma erase_sector_safe arg : returns (ioctl_erase_sector_p arg).
Proof.
  sector_arg i Hi. apply (safe_lock _ _ _ _ storage_mutex). intros d1 _ _.
  apply ok_value. intros d2 _ Hd2. exists (is_locked d2 i).
  split; [apply is_locked_get; [done | by rewrite num_sectors]|].
  destruct (is_locked d2 i) eqn:Hlk; [apply ok_unlocked|]. cbv zeta.
  apply ok_get. intros d3 HR3 Hd3. pose proof (ok_buffer d3 Hd3) as Hb.
  unfold STORAGE_SECTOR_SIZE, STORAGE_TOTAL_SIZE in *. rewrite in_bounds_true by lia.
  apply ok_put_bytes; rewrite ?zlen_replicate; unfold STORAGE_SECTOR_SIZE, STORAGE_TOTAL_SIZE;
    [done | lia | lia | |].
  - intros j Hj. rewrite (rely_locked _ _ _ HR3). replace j with i by dlia. done.
  - intros d4 _. apply ok_unlocked.
Qed.

Lemma ioctl_mirror_safe arg : returns (ioctl_mirror_sector_p arg).
Proof.
  sector_arg i Hi. apply ok_get. intros d1 _ Hd1. pose proof (ok_buffer d1 Hd1) as Hb.
  cbv zeta. unfold STORAGE_SECTOR_SIZE, STORAGE_TOTAL_SIZE in *. rewrite in_bounds_true by lia.
  apply safe_bind; [apply rely_pre|]. eapply safe_mono; [apply mirror_sector_safe; unfold MIRROR_SECTOR_SIZE, STORAGE_TOTAL_SIZE; lia|].
  intros [] h l d2 [-> ->]. apply ok_done.
Qed.

Local Abbreviation zm := (zoom_p mir set_mirror).
Local Abbreviation zoomed m := (zoom mir set_mirror m).

(** The write loop ends before the fuel does: each round writes a byte or is
    the last. *)
Lemma backup_loop_safe fuel pos written l d :
  0 <= pos <= MIRROR_TOTAL_SIZE -> MIRROR_TOTAL_SIZE - pos < Z.of_nat fuel ->
  oks (zm (backup_loop_p fuel pos written)) (fun _ h l' _ => h = [mirror_mutex] /\ l' = l) [mirror_mutex] l d.
Proof.
  revert pos written d. induction fuel as [|fuel IH]; intros pos written d Hp Hf; [lia|].
  cbn [backup_loop_p]. destruct (Z.ltb_spec pos MIRROR_TOTAL_SIZE); [|by apply safe_ret].
  unfold MIRROR_TOTAL_SIZE in *.
  apply (ok_quiet (zoomed get) (fun m d' => m = mir d')).
  { intros d' w _ _ Hw. apply wp_zoom, wp_get. simpl. by destruct d'. }
  intros m d1 _ Hd1 ->. pose proof (ok_mirror d1 Hd1) as Hm. unfold mirror_ok, MIRROR_TOTAL_SIZE in Hm.
  cbv zeta. rewrite Hm, u64_small, in_bounds_true by lia.
  apply (ok_quiet (zoomed (m ← get; kernel_write (sub pos (Z.min 4096 (4096 - pos)) (mirror_buffer m)) pos))
           (fun r _ => 0 < r.1 -> r.1 <= 4096 - pos /\ r.2 = pos + r.1)).
  { intros d' w _ Hd' Hw. apply wp_zoom. wp_step; wp_step. wp_step.
    apply write_frame in Hkw as [Hmem Hk]. pose proof (ok_mirror d' Hd') as Hm'.
    unfold mirror_ok, MIRROR_TOTAL_SIZE in Hm'. rewrite zlen_sub in Hk by lia.
    split_and!; [by destruct d' | done | done | by eapply paths_mem |]. simpl. lia. }
  intros [rc pos'] d2 _ _ Hk. simpl in Hk. destruct (Z.ltb_spec rc 0); [by apply safe_ret|].
  destruct (Z.eqb_spec rc 0); [by apply safe_ret|]. apply IH; lia.
Qed.

Lemma zoomed_value {B} (o : option B) (b : B) (d : disk) (w : W) h l (Q : B -> kst W disk -> Prop) :
  o = Some b -> Q b (KSt d w h l) -> wp (zoomed (value OutOfBounds o)) Q (KSt d w h l).
Proof. intros -> HQ. apply wp_zoom, wp_value. simpl. by destruct d. Qed.

(** Closing the file that was opened. *)
Lemma ok_close {A} (a : A) (d : disk) :
  oks (act (zoomed filp_close);; mret a) clean [] [OpenFile] d.
Proof.
  apply (ok_quiet_file _ (fun _ _ l' => l' = [])).
  - intros d' w _ _ Hw. apply wp_zoom. unfold filp_close. apply wp_release_last; [by intros []|].
    simpl. by destruct d'.
  - intros b d' l' _ _ ->. apply ok_done.
Qed.

Lemma backup_safe path d :
  zlen path = 256 -> cstr path <> None -> oks (zm (vblock_backup_to_file_p path)) clean [] [] d.
Proof.
  intros Hz Ht. destruct (zget_in path 0) as [c Hc]; [lia|]. destruct (cstr path) as [name|] eqn:Hn; [|done].
  assert (Hfuel : MIRROR_TOTAL_SIZE - 0 < Z.of_nat (Z.to_nat MIRROR_TOTAL_SIZE + 1)) by (unfold MIRROR_TOTAL_SIZE; lia).
  unfold vblock_backup_to_file_p. revert Hfuel. generalize (Z.to_nat MIRROR_TOTAL_SIZE + 1)%nat as fuel. intros fuel Hfuel.
  apply (ok_quiet (zoomed (value OutOfBounds (zget path 0))) (fun _ _ => True)).
  { intros d' w _ _ Hw. by eapply zoomed_value. }
  intros c' d1 _ _ _. cbv beta. destruct (bool_decide (c' = NUL)); [apply ok_done|].
  apply (ok_quiet_file (zoomed (filp_open path)) (fun rc _ l' => l' = if rc =? 0 then [OpenFile] else [])).
  { intros d' w _ _ Hw. apply wp_zoom. eapply wp_filp_open; [exact Hn | |]; simpl.
    - intros w' Ho. split_and!; try done; [by destruct d'|]. apply open_frame in Ho. by eapply paths_mem.
    - intros rc w' Hrc Ho. rewrite (proj2 (Z.eqb_neq rc 0) Hrc). split_and!; try done; [by destruct d'|].
      apply open_frame in Ho. by eapply paths_mem. }
  intros rc d2 l' _ _ ->. destruct (Z.eqb_spec rc 0) as [->|]; simpl negb; cbv iota; [|apply ok_done].
  apply (safe_lock_intr _ _ _ _ mirror_mutex). intros d3 _ _. split.
  - apply safe_zoom_bind; [apply rely_pre|]. eapply safe_mono.
    { apply (backup_loop_safe _ _ _ [OpenFile]); [unfold MIRROR_TOTAL_SIZE; lia | done]. }
    intros [ret written] h l d4 [-> ->]. apply (ok_quiet_unlock (zoomed (mutex_unlock mirror_mutex))).
    { intros d' w L. unfold zoom, mutex_unlock, unlock. simpl. by destruct d'. }
    intros d5. apply ok_close.
  - intros rc2 Hrc2. rewrite (proj2 (Z.eqb_neq rc2 0) Hrc2). apply ok_close.
Qed.

Lemma ioctl_backup_safe arg : arg ∈ paths -> returns (ioctl_backup_to_file_p arg).
Proof.
  intros Ha d. apply ok_cfu; [done|]. intros r path d1 _ _ Hz Ht.
  destruct (Z.eqb_spec r 0) as [->|]; [|apply ok_done]. apply backup_safe; auto.
Qed.

Lemma call_safe o : call_ok o -> returns (call_p o).
Proof.
  destruct o as [buf len pos | buf len pos | cmd arg]; intros Ho d.
  1,2: apply safe_bind; [apply rely_pre|]; eapply safe_mono; [apply read_safe || apply write_safe; apply Ho|].
  1,2: intros r h l d' [-> ->]; apply ok_done.
  destruct Ho as [Hi Hb]. simpl. unfold storage_ioctl_p.
  repeat match goal with |- context [cmd =? ?c] => destruct (Z.eqb_spec cmd c) end.
  - apply lock_sector_safe.
  - apply unlock_sector_safe.
  - by apply get_lock_info_safe, Hi.
  - apply erase_sector_safe.
  - apply ioctl_mirror_safe.
  - by apply ioctl_backup_safe, Hb.
  - apply ok_done.
Qed.

(** The number of steps of each call is bounded. *)
Lemma put_bytes_within n off bs : within n (put_bytes (W := W) n off bs).
Proof. revert off bs. induction n as [|n IH]; intros off [|b bs]; [done.. |]. intros []. apply IH. Qed.

Lemma copy_bytes_within n dst src : within n (copy_bytes (W := W) n dst src).
Proof. revert dst src. induction n as [|n IH]; intros dst src; [done|]. intros []. apply IH. Qed.

Lemma check_sectors_within a b : within (Z.to_nat (b - a + 1) * 2) (check_sectors_p (W := W) a b).
Proof. apply within_for. intros j. eapply within_mono; [|bound]. simpl. lia. Qed.

Lemma backup_loop_within fuel pos written : within (2 * fuel + 1) (backup_loop_p (W := W) fuel pos written).
Proof.
  revert pos written. induction fuel as [|fuel IH]; intros pos written; [|].
  - apply within_last.
  - cbn [backup_loop_p]. eapply within_mono; [|bound]. simpl. lia.
Qed.

Hint Resolve put_bytes_within copy_bytes_within check_sectors_within backup_loop_within : within.

Lemma backup_within : exists n, forall path, within n (zm (vblock_backup_to_file_p (W := W) path)).
Proof. eexists. intros p. apply within_zoom. unfold vblock_backup_to_file_p. bound. Qed.

Lemma call_within o : exists n, within n (call_p (W := W) o).
Proof.
  destruct o as [buf len pos | buf len pos | cmd arg]; simpl.
  - eexists. unfold storage_read_p. bound.
  - eexists. unfold storage_write_p. bound.
  - unfold storage_ioctl_p, ioctl_mirror_sector_p, ioctl_backup_to_file_p.
    repeat match goal with |- context [cmd =? ?c] => destruct (Z.eqb_spec cmd c) end.
    all: destruct backup_within as [bw Hbw]; eexists;
      unfold ioctl_lock_sector_p, ioctl_unlock_sector_p, ioctl_get_lock_info_p, ioctl_erase_sector_p, mirror_sector_p;
      bound.
Qed.

(** Any number of calls that have just begun. *)
Definition started (d : disk) (w : W) (os : list disk_op) : pool := Pool d w (calls_of (call_p <$> os)).

Local Abbreviation pool_fine := (pool_ok storage_ok terminated rely guar).

Lemma terminated_lock k (w : W) rc w' : terminated w -> k_lock_interruptible k w = (rc, w') -> terminated w'.
Proof. intros Hw Hk. eapply paths_mem; [by eapply lock_ok | done]. Qed.

Lemma started_ok d w os : storage_ok d -> terminated w -> Forall call_ok os -> pool_fine (started d w os).
Proof.
  intros Hd Hw Ho. apply pool_start; [done | done |]. apply Forall_fmap. eapply Forall_impl; [exact Ho|].
  intros o Hok. simpl. by apply call_safe.
Qed.

(** C2. Any number of read, write and ioctl calls of the storage driver
    overlap, memory access by memory access, in any order, provided that every
    backup request names a path ([paths]) that has a terminator among the 256
    bytes copied and that no other call's answer overwrites; otherwise the
    backup reads past its array ([path_overwritten]). Then no access is out of
    bounds and no mutex is misused at any time, the device stays well-formed,
    two calls never hold the same mutex, and no single step changes a byte of
    a sector that is locked at that moment or unlocks a sector from 4 to 7. *)
Theorem storage_calls_safe (d : disk) (w : W) (os : list disk_op) (ts : list nat)
    (Hd : storage_ok d) (Hw : terminated w) (Hos : Forall call_ok os) :
  exists p, exec pool_step ts (Done (started d w os)) = Done p /\
    storage_ok (p_drv p) /\ apart (threads p) /\
    forall i c, pool_step i p = Some c -> exists p', c = Done p' /\
      forall s, 0 <= s < STORAGE_NUM_SECTORS -> is_locked (p_drv p) s = true ->
        sector (p_drv p') s = sector (p_drv p) s /\ (4 <= s -> is_locked (p_drv p') s = true).
Proof.
  destruct (pool_safe _ _ _ _ rely_pre guar_refl guar_rely terminated_lock ts _ (started_ok d w os Hd Hw Hos))
    as (p & E & Hp).
  exists p. split_and!; [done | apply Hp | apply Hp |]. intros i c Hs.
  destruct (pool_step_ok _ _ _ _ rely_pre guar_refl guar_rely terminated_lock p i c Hp Hs)
    as (t & p' & _ & -> & _ & Hg & _).
  exists p'. split; [done|]. apply Hg.
Qed.

Lemma started_work d w os :
  storage_ok d -> terminated w -> Forall call_ok os ->
  exists n, work_left storage_ok terminated rely guar n (started d w os).
Proof.
  intros Hd Hw Hos.
  assert (Hns : exists ns, Forall2 (fun (t : thread) m => within m (code t)) (calls_of (call_p (W := W) <$> os)) ns).
  { clear Hos. induction os as [|o os IH]; [by exists []|].
    destruct IH as [ns IH], (call_within o) as [n Hn]. exists (n :: ns). by constructor. }
  destruct Hns as [ns Hns]. exists (sum_list ns). split; [by apply started_ok|]. by exists ns.
Qed.

(** C10. However many calls overlap, under every schedule that gives each of
    them turns for ever all of them return, provided that the paths of the
    backup requests are terminated and not overwritten, as above: no two calls
    wait for each other, and no call waits for a mutex that is never given
    back. *)
Theorem storage_calls_return (d : disk) (w : W) (os : list disk_op) (sched : nat -> nat)
    (Hd : storage_ok d) (Hw : terminated w) (Hos : Forall call_ok os)
    (Hf : fair_among (fun i => (i < length os)%nat) sched) :
  exists n p, runs pool_step sched n (Done (started d w os)) = Done p /\
    Forall (fun t => returned t = true /\ t_held t = [] /\ t_ledger t = []) (threads p).
Proof.
  destruct (started_work d w os Hd Hw Hos) as [k Hk].
  destruct (pool_returns _ _ _ _ rely_pre guar_refl guar_rely terminated_lock sched k _ Hk) as [n Hn].
  { unfold started, calls_of. simpl. by rewrite !length_fmap. }
  rewrite runs_exec in Hn.
  destruct (pool_safe _ _ _ _ rely_pre guar_refl guar_rely terminated_lock (sched <$> seq 0 n) _ (proj1 Hk))
    as (p & E & Hp).
  exists n, p. rewrite runs_exec, E in *. split; [done|]. simpl in Hn.
  apply Forall_lookup. intros i t Ht. pose proof (Forall_lookup_1 _ _ _ _ Hn Ht) as Hr. split; [done|].
  pose proof (p_safe _ _ _ _ _ Hp i t Ht) as Hs. unfold thread_safe in Hs. unfold returned in Hr.
  destruct (code t); try done. apply (Hs (p_drv p)); [apply rely_pre | apply Hp].
Qed.
End Overlap.

(** ** Witnesses *)

#[export] Instance sim_frame : FileFrame sim.
Proof.
  split.
  - intros name w rc w' [= <- <-]. done.
  - intros data pos w rc pos' w'. simpl. destruct (sim_io w) as [|c io].
    + intros [= <- <- <-]. split; [done|]. lia.
    + destruct (Z.ltb_spec 0 c); intros [= <- <- <-]; (split; [done|]); lia.
Qed.

(** The program's memory: sector number 0 at 0, 512 letters at 4, a buffer at
    516, a path at 1028. *)
Definition desk : sim :=
  sim_at 0 (int_bytes 0 ++ replicate 512 Byte.x61 ++ replicate 512 NUL ++ bytes_of "/tmp/f" ++ replicate 250 NUL).

Definition busy_calls : list disk_op :=
  [ OWrite 4 512 0; OIoctl IOCTL_LOCK_SECTOR 0; ORead 516 512 0;
    OIoctl IOCTL_MIRROR_SECTOR 0; OIoctl IOCTL_BACKUP_TO_FILE 1028 ].

Lemma desk_terminated : terminated [1028] desk.
Proof. intros a Ha. apply list_elem_of_singleton in Ha as ->. vm_compute. done. Qed.

Lemma busy_calls_ok : Forall (call_ok [1028]) busy_calls.
Proof.
  assert (Hv : vfs_ok 0 512) by (unfold vfs_ok, MAX_RW_COUNT; lia).
  assert (Haw : away [1028] 516 512) by (intros p Hp; apply list_elem_of_singleton in Hp as ->; lia).
  repeat (apply Forall_cons; split); [done | by split | by split | by split | | done].
  split; [done|]. intros _. by apply list_elem_of_singleton.
Qed.

Lemma storage_calls_safe_witness :
  exists p, exec pool_step [0; 1; 3; 0; 1; 3; 3; 0; 4; 2]%nat (Done (started disk0 desk busy_calls)) = Done p /\
    storage_ok (p_drv p).
Proof.
  destruct (storage_calls_safe [1028] disk0 desk busy_calls [0; 1; 3; 0; 1; 3; 3; 0; 4; 2]%nat
              disk0_ok desk_terminated busy_calls_ok) as (p & E & Hp & _).
  exists p. split; [exact E | exact Hp].
Defined.

Lemma storage_calls_return_witness :
  exists n p, runs pool_step (round_robin (seq 0 5) 0%nat) n (Done (started disk0 desk busy_calls)) = Done p /\
    Forall (fun t => returned t = true /\ t_held t = [] /\ t_ledger t = []) (threads p).
Proof.
  apply (storage_calls_return [1028] disk0 desk busy_calls _ disk0_ok desk_terminated busy_calls_ok).
  apply round_robin_below. simpl. lia.
Defined.

(** A read into the buffer that holds the path of a backup request: without
    the terminator the request reads past its array. *)
Example path_overwritten :
  exec pool_step (replicate 5 0 ++ replicate 3 1)%nat
    (Done (started (set_buffer (replicate 4096 Byte.x61) disk0) desk
       [ORead 1028 256 0; OIoctl IOCTL_BACKUP_TO_FILE 1028])) = Oops Unterminated.
Proof. vm_compute. reflexivity. Qed.
