(* ===== verification/StorageTorn.v ===== *)
(** * 003_char_block_storage_device: a mirror request that overlaps a write

    The mirror copies a sector without storage_mutex. For every device, every
    new content of a sector and every place where the write can be
    interrupted, there is a schedule of StorageCalls.v in which the write and
    the mirror request both succeed and the mirror holds the beginning of the
    new content and the rest of the old one. *)

From S2P Require Import Prelude Kernel Wp Sim Sched User Resume Mirror Storage StorageProps StorageCalls.

(** What a call has returned. *)
Definition result_of {W} (t : thread (W := W) (D := disk) (A := Z)) : option Z :=
  match code t with Ret r => Some r | _ => None end.

Section Steps.
Context {W D : Type} `{Signals W}.

Lemma moves_act_bind {A B} P (m : M W D A) (f : A -> prog W D B) σ a σ' y :
  m σ = Done (a, σ') -> rtc (moves P) (f a, σ') y -> rtc (moves P) (act m ≫= f, σ) y.
Proof. intros Hm Hr. eapply rtc_l; [by apply (moves_act P A m f) | exact Hr]. Qed.

(** A free mutex, and no signal. *)
Lemma moves_lock_bind {B} (P : lock -> Prop) k (f : Z -> prog W D B) d w w' l y :
  P k -> k_lock_interruptible k w = (0, w') ->
  rtc (moves P) (f 0, KSt d w' [k] l) y -> rtc (moves P) (lock_intr_p k ≫= f, KSt d w [] l) y.
Proof.
  intros Hk Hl Hr. eapply rtc_l; [|exact Hr]. apply (moves_acq P k true f); [done|].
  unfold acquire_m, mutex_lock_interruptible, call, mbind, M_bind. simpl. by rewrite Hl.
Qed.

Lemma moves_unlock_bind {B} P k (f : unit -> prog W D B) d (w : W) l y :
  rtc (moves P) (f tt, KSt d w [] l) y -> rtc (moves P) (unlock_p k ≫= f, KSt d w [k] l) y.
Proof.
  intros Hr. eapply moves_act_bind; [|exact Hr]. unfold mutex_unlock, unlock. simpl. by rewrite decide_True.
Qed.
End Steps.

(** ** Parts of sectors *)

Lemma upd_upd {A} off (b1 b2 l : list A) :
  0 <= off -> off + zlen (b1 ++ b2) <= zlen l -> upd (off + zlen b1) b2 (upd off b1 l) = upd off (b1 ++ b2) l.
Proof.
  intros Ho Hl. rewrite zlen_app in Hl. pose proof (zlen_nonneg b1). pose proof (zlen_nonneg b2).
  assert (Hz : zlen (upd off b1 l) = zlen l) by (apply zlen_upd; lia).
  apply list_eq. intros i. rewrite !lookup_upd by (rewrite ?zlen_app; lia). rewrite zlen_app.
  repeat case_decide; try lia; rewrite ?lookup_app; try done; unfold zlen in *.
  - rewrite (lookup_ge_None_2 b1 _) by lia. f_equal. lia.
  - destruct (b1 !! (i - Z.to_nat off)%nat) eqn:E; [done|]. apply lookup_ge_None in E. lia.
Qed.

Lemma sub_upd_front {A} off n (b l : list A) :
  0 <= off -> zlen b <= n -> off + n <= zlen l ->
  sub off n (upd off b l) = b ++ sub (zlen b) (n - zlen b) (sub off n l).
Proof.
  intros Ho Hb Hl. pose proof (zlen_nonneg b). apply list_eq. intros i.
  rewrite lookup_sub, lookup_upd, lookup_app by lia.
  destruct (decide (Z.of_nat i < zlen b)).
  - destruct (lookup_lt_is_Some_2 b i) as [x Hx]; [unfold zlen in *; lia|]. rewrite Hx, !decide_True by lia.
    by replace (Z.to_nat off + i - Z.to_nat off)%nat with i by lia.
  - rewrite (lookup_ge_None_2 b i) by (unfold zlen in *; lia). rewrite !lookup_sub by lia.
    repeat case_decide; unfold zlen in *; try lia; [|done]. f_equal. lia.
Qed.

(** ** The write and the mirror request, step by step *)

Section Torn.
Context {W : Type} `{UserAccessOk W} `{!FileIO W} `{!Signals W} `{!SignalsOk W}.
Context (buf arg : Z) (calm : W -> Prop).
(** A world in which the copies from the program succeed and no signal
    comes. *)
Hypothesis calm_copy : forall a n w, (a, n) ∈ [(buf, 512); (arg, sizeof_int)] -> calm w ->
  exists bs w', k_copy_from_user a n w = (0, bs, w') /\ calm w'.
Hypothesis calm_lock : forall l w, calm w -> exists w', k_lock_interruptible l w = (0, w') /\ calm w'.
Local Abbreviation P := (prog W disk).

Lemma fetch a n (d : disk) (w : W) h l :
  (a, n) ∈ [(buf, 512); (arg, sizeof_int)] -> calm w -> 0 <= n ->
  exists w', copy_from_user a n (KSt d w h l) = Done ((0, uread (umem w) a n), KSt d w' h l) /\
    umem w' ≡ₘ umem w /\ calm w'.
Proof.
  intros Hin Hw Hn. destruct (calm_copy a n w Hin Hw) as (bs & w' & E & Hc). exists w'.
  unfold copy_from_user, call. simpl. rewrite E. apply cfu_full in E as [-> Hm]; done.
Qed.

(** The bytes of [b1], with more to come. *)
Lemma put_some P' n off b1 b2 (f : unit -> P (Z * Z)) d w h l y :
  0 <= off -> off + zlen (b1 ++ b2) <= zlen (storage_buffer (sto d)) ->
  rtc (moves P') (put_bytes n (off + zlen b1) b2 ≫= f,
                  KSt (set_buffer (upd off b1 (storage_buffer (sto d))) d) w h l) y ->
  rtc (moves P') (put_bytes (length b1 + n) off (b1 ++ b2) ≫= f, KSt d w h l) y.
Proof.
  revert off d. induction b1 as [|b b1 IH]; intros off d Ho Hl Hr.
  - simpl in Hr. change (zlen (@nil byte)) with 0 in Hr. rewrite Z.add_0_r in Hr.
    replace (set_buffer (upd off [] (storage_buffer (sto d))) d) with d in Hr; [exact Hr|].
    unfold upd. simpl. rewrite Nat.add_0_r, take_drop. by destruct d as [[] ?].
  - assert (E : zlen ((b :: b1) ++ b2) = zlen (b1 ++ b2) + 1) by (unfold zlen; simpl; lia).
    assert (E1 : zlen (b :: b1) = zlen b1 + 1) by (unfold zlen; simpl; lia).
    pose proof (zlen_nonneg (b1 ++ b2)). rewrite zlen_app in *. pose proof (zlen_nonneg b2).
    change (put_bytes (length (b :: b1) + n) off ((b :: b1) ++ b2))
      with (act (put_byte (W := W) off b);; put_bytes (length b1 + n) (off + 1) (b1 ++ b2)).
    eapply rtc_l;
      [by apply (moves_act P' _ (put_byte off b) (fun _ => put_bytes (length b1 + n) (off + 1) (b1 ++ b2) ≫= f) _ tt)|].
    apply IH; simpl; [lia | rewrite zlen_upd, ?zlen_app by (change (zlen [b]) with 1; lia); lia |].
    replace (off + 1 + zlen b1) with (off + zlen (b :: b1)) by lia.
    rewrite upd_split by lia. exact Hr.
Qed.

(** What the write does when its bytes are there. *)
Definition finish (off : Z) (_ : unit) : P (Z * Z) :=
  if negb (0 =? 0) then unlock_p storage_mutex;; mret (- EFAULT, off)
  else unlock_p storage_mutex;; mret (512, off + 512).

Lemma check_one P' d (w : W) h l i :
  storage_ok d -> 0 <= i < STORAGE_NUM_SECTORS -> is_locked d i = false ->
  rtc (moves P') (check_sectors_p i i, KSt d w h l) (Ret None, KSt d w h l).
Proof.
  intros Hd Hi Hf. apply run_moves; unfold check_sectors_p; replace (i - i + 1) with 1 by lia.
  - change (Z.to_nat 1) with 1%nat. cbn [for_p]. intros []; simpl; [intros ?|]; exact I.
  - destruct (zget_in (sector_lock_state (sto d)) i) as [b E]; [by rewrite (ok_locks d Hd)|].
    unfold is_locked in Hf. rewrite E in Hf. simpl in Hf. subst b.
    change (Z.to_nat 1) with 1%nat. cbn [for_p]. rewrite run_bind. unfold mbind at 1, M_bind.
    assert (Hact : (d ← get; value OutOfBounds (zget (sector_lock_state (sto d)) i)) (KSt d w h l) =
                   Done (false, KSt d w h l)) by (unfold mbind, M_bind, get; simpl; by rewrite E).
    by rewrite run_act_at, (bind_done _ _ _ _ _ Hact).
Qed.

Lemma write_enters d w i :
  storage_ok d -> calm w -> 0 <= i < STORAGE_NUM_SECTORS -> is_locked d i = false ->
  exists w', umem w' ≡ₘ umem w /\ calm w' /\
    rtc (moves (fun _ => True)) (storage_write_p buf 512 (i * 512), KSt d w [] [])
      (put_bytes (Z.to_nat 512) (i * 512) (uread (umem w) buf 512) ≫= finish (i * 512), KSt d w' [storage_mutex] []).
Proof.
  intros Hd Hw Hi Hf. pose proof num_sectors as H8. pose proof (ok_buffer d Hd) as Hb.
  destruct (calm_lock storage_mutex w Hw) as (w1 & E1 & Hw1). pose proof (lock_ok _ _ _ _ E1) as Hm1.
  destruct (fetch buf 512 d w1 [storage_mutex] [] ltac:(by left) Hw1 ltac:(done)) as (w2 & E2 & Hm2 & Hw2).
  exists w2. split; [by rewrite Hm2|]. split; [done|].
  unfold storage_write_p, STORAGE_TOTAL_SIZE, STORAGE_SECTOR_SIZE in *.
  rewrite (proj2 (Z.leb_gt 4096 (i * 512))), !(u64_small (i * 512)), (u64_small (i * 512 + 512)) by lia.
  rewrite (proj2 (Z.ltb_ge 4096 (i * 512 + 512))), (u64_small (i * 512 + 512)), (u64_small (i * 512 + 512 - 1)) by lia.
  rewrite Z.div_mul by done.
  replace ((i * 512 + 512 - 1) / 512) with i by (apply (Z.div_unique _ _ _ 511); lia).
  rewrite s32_small by (unfold is_int, INT_MIN, INT_MAX; lia).
  eapply moves_lock_bind; [done | done |]. change (negb (0 =? 0)) with false. cbv iota.
  eapply moves_ret.
  { by apply check_one. }
  cbv beta iota. eapply moves_act_bind; [reflexivity|].
  rewrite in_bounds_true by (simpl; lia). eapply moves_act_bind; [exact E2|].
  rewrite Hm1. reflexivity.
Qed.

Lemma put_all P' o off bs d w l :
  0 <= off -> off + zlen bs <= zlen (storage_buffer (sto d)) ->
  rtc (moves P') (put_bytes (length bs) off bs ≫= finish o, KSt d w [storage_mutex] l)
    (Ret (512, o + 512), KSt (set_buffer (upd off bs (storage_buffer (sto d))) d) w [] l).
Proof.
  intros Ho Hl. pose proof (put_some P' 0 off bs [] (finish o) d w [storage_mutex] l) as Hp.
  rewrite app_nil_r, Nat.add_0_r in Hp. apply Hp; [done | done |].
  apply (moves_unlock_bind P' storage_mutex (fun _ => mret (512, o + 512))). reflexivity.
Qed.

Lemma mirror_moves d w h i :
  storage_ok d -> calm w -> 0 <= i < STORAGE_NUM_SECTORS -> bytes_int (uread (umem w) arg sizeof_int) = i ->
  exists w', umem w' ≡ₘ umem w /\
    rtc (moves (eq mirror_mutex)) (ioctl_mirror_sector_p arg, KSt d w [] h)
      (Ret 0, KSt (set_mirror (Mirror (upd (i * 512) (sector d i) (mirror_buffer (mir d)))) d) w' [] h).
Proof.
  intros Hd Hw Hi Hs. pose proof num_sectors as H8. pose proof (ok_buffer d Hd) as Hb.
  pose proof (ok_mirror d Hd) as Hm. unfold mirror_ok in Hm.
  destruct (fetch arg sizeof_int d w [] h ltac:(right; by left) Hw ltac:(done)) as (w1 & E1 & Hm1 & Hw1).
  destruct (calm_lock mirror_mutex w1 Hw1) as (w2 & E2 & Hw2). pose proof (lock_ok _ _ _ _ E2) as Hm2.
  exists w2. split; [by rewrite Hm2|].
  unfold ioctl_mirror_sector_p, STORAGE_TOTAL_SIZE, MIRROR_TOTAL_SIZE, STORAGE_SECTOR_SIZE in *.
  eapply moves_act_bind; [exact E1|]. change (negb (0 =? 0)) with false. cbv beta iota zeta.
  rewrite Hs. unfold bad_sector. rewrite (proj2 (Z.ltb_ge i 0)), (proj2 (Z.leb_gt _ i)) by lia. simpl orb. cbv iota.
  eapply moves_act_bind; [reflexivity|]. simpl drv. rewrite in_bounds_true by lia.
  eapply moves_ret; [|reflexivity]. unfold mirror_sector_p, MIRROR_SECTOR_SIZE.
  assert (MIRROR_NUM_SECTORS = 8) as -> by done.
  rewrite (proj2 (Z.ltb_ge i 0)), (proj2 (Z.leb_gt 8 i)) by lia. simpl orb. cbv iota.
  eapply moves_lock_bind; [done | exact E2 |]. change (negb (0 =? 0)) with false. cbv iota.
  eapply moves_act_bind; [reflexivity|]. simpl drv. rewrite in_bounds_true by lia.
  eapply moves_ret.
  { apply run_moves; [|apply run_copy_bytes; lia].
    assert (Hlf : forall n a b, lockfree (copy_bytes (W := W) n a b)).
    { induction n as [|n IH]; intros a b; [done|]. intros []. apply IH. }
    apply Hlf. }
  eapply rtc_l; [|reflexivity]. apply (moves_act _ _ (mutex_unlock mirror_mutex) Ret).
  reflexivity.
Qed.

(** The write and the mirror request on sector [i]. *)
Definition rivals (i : Z) : list disk_op := [OWrite buf 512 (i * 512); OIoctl IOCTL_MIRROR_SECTOR arg].

Definition rest_of_write (off : Z) (b1 b2 : list byte) : P Z :=
  (put_bytes (length b2) (off + zlen b1) b2 ≫= finish off) ≫= fun r => mret r.1.

Definition device_after (i : Z) (b : list byte) (d : disk) : disk :=
  set_buffer (upd (i * 512) b (storage_buffer (sto d))) d.
Definition mirrored (i : Z) (d : disk) : disk :=
  set_mirror (Mirror (upd (i * 512) (sector d i) (mirror_buffer (mir d)))) d.

Lemma device_after_ok i b d :
  storage_ok d -> 0 <= i < STORAGE_NUM_SECTORS -> zlen b <= 512 -> storage_ok (device_after i b d).
Proof.
  intros Hd Hi Hb. pose proof num_sectors. destruct Hd. split; try done. simpl.
  rewrite zlen_upd; unfold STORAGE_TOTAL_SIZE in *; lia.
Qed.

(** The write up to the bytes [b1]. *)
Lemma write_half d w i b1 b2 :
  storage_ok d -> calm w -> 0 <= i < STORAGE_NUM_SECTORS -> is_locked d i = false ->
  b1 ++ b2 = uread (umem w) buf 512 ->
  exists ts w', umem w' ≡ₘ umem w /\ calm w' /\
    exec pool_step ts (Done (started d w (rivals i))) =
      Done (Pool (device_after i b1 d) w' [Thread (rest_of_write (i * 512) b1 b2) [storage_mutex] [];
                                           Thread (ioctl_mirror_sector_p arg) [] []]).
Proof.
  intros Hd Hw Hi Hf Hb. destruct (write_enters d w i Hd Hw Hi Hf) as (w1 & Hm1 & Hw1 & Hr1).
  assert (Hz : zlen (b1 ++ b2) = 512) by (rewrite Hb; unfold zlen, uread; by rewrite length_fmap, length_seqZ).
  pose proof num_sectors. pose proof (ok_buffer d Hd) as Hsz. unfold STORAGE_TOTAL_SIZE in Hsz.
  destruct (pool_moves (fun _ => True) 0 (started d w (rivals i)) (Thread (call_p (OWrite buf 512 (i * 512))) [] [])
              (rest_of_write (i * 512) b1 b2) (KSt (device_after i b1 d) w1 [storage_mutex] []))
    as [ts E]; [done | by intros [] _ | |].
  - simpl. apply moves_bind. etrans; [exact Hr1|]. rewrite <- Hb.
    replace (Z.to_nat 512) with (length b1 + length b2)%nat by (rewrite zlen_app in Hz; unfold zlen in *; lia).
    apply put_some; [lia | lia | reflexivity].
  - exists ts, w1. split_and!; [done | done | exact E].
Qed.

(** The mirror request, and the rest of the write. *)
Lemma mirror_between d w i b1 b2 :
  storage_ok d -> calm w -> 0 <= i < STORAGE_NUM_SECTORS -> zlen b1 + zlen b2 = 512 ->
  bytes_int (uread (umem w) arg sizeof_int) = i ->
  exists ts p, exec pool_step ts (Done (Pool d w [Thread (rest_of_write (i * 512) b1 b2) [storage_mutex] [];
                                                  Thread (ioctl_mirror_sector_p arg) [] []])) = Done p /\
    result_of <$> threads p = [Some 512; Some 0] /\
    p_drv p = let d := mirrored i d in set_buffer (upd (i * 512 + zlen b1) b2 (storage_buffer (sto d))) d.
Proof.
  intros Hd Hw Hi Hz Ha. destruct (mirror_moves d w [] i Hd Hw Hi Ha) as (w2 & Hm2 & Hr2).
  pose proof num_sectors. pose proof (ok_buffer d Hd) as Hsz. unfold STORAGE_TOTAL_SIZE in Hsz.
  pose proof (zlen_nonneg b1). pose proof (zlen_nonneg b2).
  set (t := Thread (rest_of_write (i * 512) b1 b2) [storage_mutex] []).
  destruct (pool_moves (eq mirror_mutex) 1 (Pool d w [t; Thread (ioctl_mirror_sector_p arg) [] []])
              (Thread (ioctl_mirror_sector_p arg) [] []) (Ret 0) (KSt (mirrored i d) w2 [] [])) as [ts2 E2];
    [done | by intros _ <- | exact Hr2 |].
  set (d3 := set_buffer (upd (i * 512 + zlen b1) b2 (storage_buffer (sto (mirrored i d)))) (mirrored i d)).
  destruct (pool_moves (fun _ => False) 0 (Pool (mirrored i d) w2 [t; Thread (Ret 0) [] []]) t (Ret 512) (KSt d3 w2 [] []))
    as [ts3 E3]; [done | by intros ? [] | |].
  { apply (moves_ret _ (fun r : Z * Z => mret r.1) _ (512, i * 512 + 512) _ (KSt d3 w2 [] [])); [|reflexivity].
    apply put_all; [lia | simpl; lia]. }
  exists (ts2 ++ ts3). eexists. split; [rewrite exec_app; simpl in E2; rewrite E2; exact E3|]. by split.
Qed.

(** C40. The mirror copies a sector without storage_mutex. For every
    well-formed device, every unlocked sector [i], every new content and every
    [k]: a write of the content to the sector and a mirror request for it can
    be interleaved such that both report success, the sector holds the new
    content, and the mirror holds its first [k] bytes and the rest of the old
    content. (No copy from the program fails and no signal comes.) *)
Theorem mirror_torn (d : disk) (w : W) (i k : Z)
    (Hd : storage_ok d) (Hw : calm w) (Hi : 0 <= i < STORAGE_NUM_SECTORS) (Hf : is_locked d i = false)
    (Ha : bytes_int (uread (umem w) arg sizeof_int) = i) (Hk : 0 <= k <= 512) :
  let text := uread (umem w) buf 512 in
  exists ts p,
    exec pool_step ts (Done (started d w [OWrite buf 512 (i * 512); OIoctl IOCTL_MIRROR_SECTOR arg])) = Done p /\
    result_of <$> threads p = [Some 512; Some 0] /\
    sector (p_drv p) i = text /\
    sub (i * 512) 512 (mirror_buffer (mir (p_drv p))) = sub 0 k text ++ sub k (512 - k) (sector d i).
Proof.
  intros text. assert (Hz : zlen text = 512) by (unfold text, zlen, uread; by rewrite length_fmap, length_seqZ).
  pose proof num_sectors as H8. pose proof (ok_buffer d Hd) as Hb. unfold STORAGE_TOTAL_SIZE in Hb.
  pose proof (ok_mirror d Hd) as Hmo. unfold mirror_ok, MIRROR_TOTAL_SIZE in Hmo.
  set (b1 := sub 0 k text). set (b2 := sub k (512 - k) text).
  assert (Hb1 : zlen b1 = k) by (apply zlen_sub; lia).
  assert (Hb2 : zlen b2 = 512 - k) by (apply zlen_sub; lia).
  assert (Htext : b1 ++ b2 = text).
  { unfold b1, b2, sub. rewrite Z2Nat.inj_0, drop_0. rewrite (take_ge (drop _ _)); [apply take_drop|].
    rewrite length_drop. unfold zlen in Hz. lia. }
  destruct (write_half d w i b1 b2 Hd Hw Hi Hf Htext) as (ts1 & w1 & Hm1 & Hw1 & E1).
  destruct (mirror_between (device_after i b1 d) w1 i b1 b2) as (ts2 & p & E2 & Hres & Hp);
    [apply device_after_ok; [done | done | lia] | done | done | lia | by rewrite Hm1 |].
  exists (ts1 ++ ts2), p. fold (rivals i). split; [by rewrite exec_app, E1, E2|]. split; [done|].
  rewrite Hp. unfold sector, STORAGE_SECTOR_SIZE. simpl. split.
  - rewrite upd_upd, Htext by (rewrite ?Htext; lia). apply sub_upd_n; lia.
  - unfold sector, STORAGE_SECTOR_SIZE. simpl.
    rewrite (sub_upd_n _ 512) by (rewrite ?zlen_sub; rewrite ?zlen_upd; lia).
    rewrite sub_upd_front, Hb1 by lia. done.
Qed.
End Torn.

(** ** A witness *)

Definition calm_desk (w : sim) : Prop := sim_mem w = sim_mem desk /\ sim_locks w = [].

Lemma calm_desk_copy a n w :
  (a, n) ∈ [(4, 512); (0, sizeof_int)] -> calm_desk w ->
  exists bs w', k_copy_from_user a n w = (0, bs, w') /\ calm_desk w'.
Proof.
  intros Hin [Hm Hl]. simpl. rewrite Hm.
  apply elem_of_cons in Hin as [E|Hin]; [|apply list_elem_of_singleton in Hin as E]; injection E as -> ->.
  all: eexists; exists w; (split; [vm_compute; reflexivity | by split]).
Qed.

Lemma calm_desk_lock l w : calm_desk w -> exists w', k_lock_interruptible l w = (0, w') /\ calm_desk w'.
Proof. intros [Hm Hl]. exists w. simpl. rewrite Hl. by split. Qed.

Lemma mirror_torn_witness :
  exists ts p,
    exec pool_step ts (Done (started disk0 desk [OWrite 4 512 (0 * 512); OIoctl IOCTL_MIRROR_SECTOR 0])) = Done p /\
    result_of <$> threads p = [Some 512; Some 0] /\
    sector (p_drv p) 0 = uread (umem desk) 4 512 /\
    sub (0 * 512) 512 (mirror_buffer (mir (p_drv p))) =
      sub 0 256 (uread (umem desk) 4 512) ++ sub 256 (512 - 256) (sector disk0 0).
Proof.
  apply (mirror_torn 4 0 calm_desk calm_desk_copy calm_desk_lock disk0 desk 0 256 disk0_ok).
  - split; reflexivity.
  - rewrite num_sectors. lia.
  - reflexivity.
  - vm_compute. reflexivity.
  - lia.
Defined.
