(* ===== verification/StorageApp.v ===== *)
(** * 003_char_block_storage_device: the user program (storage_user.c)

    The program writes and reads back sector 0, locks sector 2, tries to
    unlock it, lists the locks, mirrors sector 0, backs up and erases sector 4.
    It runs as the only user of the driver of [Storage]. *)

From S2P Require Import Prelude Kernel Wp Sim Mirror Storage StorageProps User.

Definition SECTOR_SIZE : Z := 512.
Definition NUM_SECTORS : Z := 8.

(** What is printed; [Dump] is the hexadecimal listing. *)
Inductive line :=
  | Opened | WriteSuccess (sector : Z) | ReadSuccess (sector : Z) | Dump (bytes : list byte)
  | LockedMsg (sector : Z) | UnlockedMsg (sector : Z) (key : byte) | Status (i : Z) (locked : bool)
  | MirroredMsg (sector : Z) | BackedUp (path : list byte) | ErasedMsg (sector : Z)
  | Perror (call : string).

(** wBuf[i] = (char)(i & 0xFF) *)
Definition pattern : list byte := (fun i => byte_of_Z (Z.land i 255)) <$> seqZ 0 SECTOR_SIZE.
Definition backup_path : list byte := bytes_of "./storage_backup.bin".
Definition KEY_B : byte := Byte.x42.

Section App.
Context {W : Type} `{UserAccess W} `{UserMem W} `{UserStore W} `{Signals W} `{FileIO W} `{Grants W}.
(** The addresses of the variables of main. *)
Context (wBuf rBuf sectorLock req lockInfo sectorMirror backupPath sectorErase : Z).
Local Abbreviation P := (M W (proc disk line)).

(** pwrite and pread do not move the file position. *)
Definition write_sector (sector buf : Z) : P Z :=
  let offset := sector * SECTOR_SIZE in
  '(ret, _) ← drive (storage_write buf SECTOR_SIZE offset);
  if negb (ret =? SECTOR_SIZE) then print (Perror "pwrite");; mret (-1)
  else print (WriteSuccess sector);; mret 0.

Definition read_sector (sector buf : Z) : P Z :=
  let offset := sector * SECTOR_SIZE in
  '(ret, _) ← drive (storage_read buf SECTOR_SIZE offset);
  if negb (ret =? SECTOR_SIZE) then print (Perror "pread");; mret (-1)
  else
    print (ReadSuccess sector);;
    bytes ← load buf SECTOR_SIZE;
    print (Dump bytes);;
    mret 0.

(** req.sector = 2; req.key = 'B'; and the request. *)
Definition unlock_two : P unit :=
  store req (int_bytes 2);;
  store (req + 4) [KEY_B];;
  r ← drive (storage_ioctl IOCTL_UNLOCK_SECTOR req);
  if r <? 0 then print (Perror "unlock") else print (UnlockedMsg 2 KEY_B).

(** The listing of lockInfo, an array of _Bool. *)
Fixpoint show_locks (i : Z) (bytes : list byte) : P unit :=
  match bytes with
  | [] => mret tt
  | b :: bytes =>
      v ← value InvalidBool (if byte_val b <=? 1 then Some (byte_val b) else None);
      print (Status i (negb (v =? 0)));;
      show_locks (i + 1) bytes
  end.

(** { close(fd); return 1; } *)
Definition fail : P Z := close_file "storage";; mret 1.

(** if (ioctl(...) < 0) { perror(msg); close(fd); return 1; } *)
Definition or_exit (r : Z) (msg : string) (rest : P Z) : P Z :=
  if r <? 0 then print (Perror msg);; fail else rest.

(** main from line 130 on: mirror, back up, erase. *)
Definition finish : P Z :=
  store sectorMirror (int_bytes 0);;
  r ← drive (storage_ioctl IOCTL_MIRROR_SECTOR sectorMirror);
  or_exit r "mirror" (
  print (MirroredMsg 0);;
  store backupPath (backup_path ++ [NUL]);;
  r ← drive (storage_ioctl IOCTL_BACKUP_TO_FILE backupPath);
  or_exit r "backup_to_file" (
  print (BackedUp backup_path);;
  store sectorErase (int_bytes 4);;
  r ← drive (storage_ioctl IOCTL_ERASE_SECTOR sectorErase);
  or_exit r "erase" (
  print (ErasedMsg 4);;
  close_file "storage";;
  mret 0))).

(** From line 92 on: lock, try to unlock, list. *)
Definition lock_and_list : P Z :=
  store sectorLock (int_bytes 2);;
  r ← drive (storage_ioctl IOCTL_LOCK_SECTOR sectorLock);
  or_exit r "lock" (
  print (LockedMsg 2);;
  unlock_two;;
  r ← drive (storage_ioctl IOCTL_GET_LOCK_INFO lockInfo);
  or_exit r "get_info" (
  info ← load lockInfo NUM_SECTORS;
  show_locks 0 info;;
  finish)).

Definition main_ : P Z :=
  fd ← open_file "storage";
  if fd <? 0 then print (Perror "open");; mret 1
  else
    print Opened;;
    store wBuf pattern;;
    r ← write_sector 0 wBuf;
    if r <? 0 then fail
    else
      r ← read_sector 0 rBuf;
      if r <? 0 then fail
      else
        lock_and_list.
End App.

(** ** Properties *)

Lemma length_pattern : zlen pattern = 512.
Proof. reflexivity. Qed.

(** The listing that a list of locks gives. *)
Fixpoint listing (i : Z) (locks : list bool) : list line :=
  match locks with [] => [] | b :: locks => Status i b :: listing (i + 1) locks end.

Section Props.
Context {W : Type} `{UserAccessOk W} `{!FileIO W} `{!Signals W} `{!SignalsOk W}
        `{!FileData W} `{!FileIOOk W} `{!UserStore W} `{!UserStoreOk W} `{!Grants W} `{!GrantsOk W}.
Context (wBuf rBuf sectorLock req lockInfo sectorMirror backupPath sectorErase : Z).
Implicit Types (d : disk) (w : W) (o : list line) (l : list resource).

Lemma write_sector_spec s buf d o w l :
  storage_ok d -> 0 <= s < NUM_SECTORS ->
  wp (write_sector s buf)
     (fun r σ => held σ = [] /\ ledger σ = l /\ storage_ok (dev (drv σ)) /\
        (r < 0 \/ r = 0 /\ out (drv σ) = o ++ [WriteSuccess s] /\
         dev (drv σ) = set_buffer (upd (s * 512) (uread (umem w) buf 512) (storage_buffer (sto d))) d))
     (KSt (Proc d o) w [] l).
Proof.
  intros Hd Hs. unfold NUM_SECTORS in Hs. unfold write_sector, SECTOR_SIZE. up_step; up_step.
  assert (Hv : vfs_ok (s * 512) 512) by (unfold vfs_ok, MAX_RW_COUNT; lia).
  eapply wp_mono; [apply storage_write_spec; [done | apply lock_not_in_nil | exact Hv]|].
  intros [ret p] [d1 w1 h1 l1] (Hr & Hh & Hl). simpl in *. subst h1 l1.
  pose proof (write_result_guarded _ _ _ _ _ _ _ Hd Hv Hr) as [Hok _]. simpl in Hok.
  unfold write_result, clamp, STORAGE_TOTAL_SIZE in Hr. simpl in Hr.
  replace (512 `min` (4096 - s * 512)) with 512 in Hr by lia.
  destruct (Z.eqb_spec ret 512) as [->|]; simpl negb; cbv iota.
  - up_step; up_step; up_step. split_and!; try done. right. split_and!; try done.
    unfold ERESTARTSYS, EPERM, EFAULT in Hr.
    by destruct Hr as [(? & _)|(_ & [[[=] _]|[([=] & _)|(_ & [[_ ->]|([=] & _)])]])]; [lia|].
  - up_step; up_step; up_step. split_and!; try done. left. lia.
Qed.

Lemma read_sector_spec s buf d o w l :
  storage_ok d -> 0 <= s < NUM_SECTORS ->
  wp (read_sector s buf)
     (fun r σ => held σ = [] /\ ledger σ = l /\ dev (drv σ) = d /\
        (r < 0 \/ r = 0 /\ out (drv σ) = o ++ [ReadSuccess s; Dump (sector d s)]))
     (KSt (Proc d o) w [] l).
Proof.
  intros Hd Hs. unfold NUM_SECTORS in Hs. unfold read_sector, SECTOR_SIZE. up_step; up_step.
  pose proof (ok_buffer d Hd) as Hb. unfold STORAGE_TOTAL_SIZE in Hb.
  assert (Hv : vfs_ok (s * 512) 512) by (unfold vfs_ok, MAX_RW_COUNT; lia).
  eapply wp_mono; [apply storage_read_spec; [done | apply lock_not_in_nil | exact Hv]|].
  intros [ret p] [d1 w1 h1 l1] ([Hd1 Hr] & Hh & Hl). simpl in *. subst h1 l1 d1.
  unfold clamp, STORAGE_TOTAL_SIZE in Hr. simpl in Hr.
  replace (512 `min` (4096 - s * 512)) with 512 in Hr by lia.
  destruct (Z.eqb_spec ret 512) as [->|]; simpl negb; cbv iota.
  - repeat up_step. split_and!; try done. right. split; [done|]. rewrite <- app_assoc. simpl.
    do 3 f_equal. unfold ERESTARTSYS, EFAULT in Hr.
    destruct Hr as [(? & _)|(_ & [[=]|[[=]|[_ Hm]]])]; [lia|].
    f_equal. rewrite Hm. apply uread_uwrite_n. apply zlen_sub; unfold STORAGE_SECTOR_SIZE; lia.
  - up_step; up_step; up_step. split_and!; try done. left. lia.
Qed.

(** The key 'B' is in byte 4 of the request, the driver looks at byte 1. *)
Lemma unlock_two_spec d o w l :
  storage_ok d -> key_valid d NUL = false ->
  wp (unlock_two req)
     (fun _ σ => held σ = [] /\ ledger σ = l /\ drv σ = Proc d (o ++ [Perror "unlock"]))
     (KSt (Proc d o) w [] l).
Proof.
  intros Hd Hk. unfold unlock_two. up_step; up_step; up_step; up_step. up_step; up_step.
  eapply wp_mono.
  - eapply (user_unlock_spec d _ req 2 KEY_B (uread (umem w1) (req + 5) 3) l);
      try done; [].
    change 8 with (4 + (1 + 3)). rewrite uread_app, uread_app by lia. unfold unlock_request.
    rewrite Hst0 at 1. rewrite uread_uwrite_before by lia. f_equal; [by eapply uread_stored|].
    rewrite (uread_stored _ _ _ [KEY_B] 1 Hst0) by done. simpl. do 2 f_equal. lia.
  - intros r [d1 w2 h1 l1] (Hr & Hd1 & Hh & Hl). simpl in *. subst d1 h1 l1.
    rewrite (proj2 (Z.ltb_lt r 0)) by done. up_step. done.
Qed.

Lemma show_locks_spec i locks d o w l :
  wp (show_locks i (bool_byte <$> locks))
     (fun _ σ => σ = KSt (Proc d (o ++ listing i locks)) w [] l) (KSt (Proc d o) w [] l).
Proof.
  revert i o. induction locks as [|b locks IH]; intros i o; simpl.
  { apply wp_ret. by rewrite app_nil_r. }
  destruct b; simpl; repeat up_step; (eapply wp_mono; [apply IH|]); intros _ σ ->;
    by rewrite <- app_assoc.
Qed.

Lemma wp_or_exit r msg rest Q d o w l :
  (r < 0 -> Q 1 (KSt (Proc d (o ++ [Perror msg])) w [] l)) ->
  (0 <= r -> wp rest Q (KSt (Proc d o) w [] (Fd "storage" :: l))) ->
  wp (or_exit r msg rest) Q (KSt (Proc d o) w [] (Fd "storage" :: l)).
Proof.
  intros Hneg Hpos. unfold or_exit, fail, close_file. destruct (Z.ltb_spec r 0); [|by apply Hpos].
  repeat up_step. by apply Hneg.
Qed.

Lemma user_int_stored (f : W) (w : W) a v :
  umem f ≡ₘ uwrite (umem w) a (int_bytes v) -> is_int v -> user_int f a = v.
Proof. intros Hm Hv. unfold user_int. rewrite (uread_stored _ _ _ _ 4 Hm) by done. by apply int_roundtrip. Qed.

Lemma sector_upd d data i j :
  storage_ok d -> 0 <= i < NUM_SECTORS -> 0 <= j < NUM_SECTORS -> zlen data = 512 ->
  sector (set_buffer (upd (j * 512) data (storage_buffer (sto d))) d) i =
    if decide (i = j) then data else sector d i.
Proof.
  unfold NUM_SECTORS, sector, STORAGE_SECTOR_SIZE. intros Hd Hi Hj Hz. simpl.
  pose proof (ok_buffer d Hd) as Hb. unfold STORAGE_TOTAL_SIZE in Hb. case_decide as Hij.
  - subst. rewrite <- Hz at 2. apply sub_upd_eq; lia.
  - apply sub_upd_disjoint; lia.
Qed.

(** The mirror after the mirror command for sector 0: [mirror_sector] cannot
    report that its wait was interrupted. *)
Definition mirrored (d d' : disk) : Prop :=
  sub 0 512 (mirror_buffer (mir d')) = sector d 0 \/
  mir d' = mir d /\ exists w, (k_lock_interruptible mirror_mutex w).1 <> 0.

Lemma finish_spec d o w :
  storage_ok d ->
  wp (finish sectorMirror backupPath sectorErase)
     (fun r σ => held σ = [] /\ ledger σ = [] /\ storage_ok (dev (drv σ)) /\
        (r = 0 -> out (drv σ) = o ++ [MirroredMsg 0; BackedUp backup_path; ErasedMsg 4] /\
           sto (dev (drv σ)) =
             sto (set_buffer (upd (4 * 512) zero_sector (storage_buffer (sto d))) d) /\
           mirrored d (dev (drv σ))))
     (KSt (Proc d o) w [] [Fd "storage"]).
Proof.
  intros Hd. unfold finish. do 4 up_step.
  change (storage_ioctl IOCTL_MIRROR_SECTOR sectorMirror) with (ioctl_mirror_sector (W:=W) sectorMirror).
  eapply wp_mono; [apply ioctl_mirror_spec; auto using lock_not_in_nil|].
  rewrite (user_int_stored _ _ _ _ Hst) by (unfold is_int, INT_MIN, INT_MAX; lia).
  intros r1 [d1 w1 h1 l1] (Hh & Hl & Hok1 & Hsto & _ & Hm). simpl in *. subst h1 l1.
  assert (Hm0 : 0 <= r1 -> mirrored d d1).
  { intros Hr. pose proof num_sectors. unfold EFAULT, EINVAL in Hm.
    destruct Hm as [(? & [?|[[? _]|[_ ?]]])|(_ & _ & Hmir)]; [lia..|by right|]. left. rewrite Hmir.
    pose proof (ok_mirror d Hd) as Hmo. unfold mirror_ok, MIRROR_TOTAL_SIZE in Hmo.
    pose proof (ok_buffer d Hd) as Hb. unfold STORAGE_TOTAL_SIZE in Hb. simpl.
    assert (Hz : zlen (sector d 0) = 512) by (apply zlen_sub; unfold STORAGE_SECTOR_SIZE; lia).
    rewrite <- Hz at 1. apply sub_upd_eq; lia. }
  apply wp_or_exit; [intros ?; split_and!; try done; lia|]. intros Hr1. specialize (Hm0 Hr1).
  do 6 up_step.
  change (storage_ioctl IOCTL_BACKUP_TO_FILE backupPath) with (ioctl_backup_to_file (W:=W) backupPath).
  eapply wp_mono; [apply ioctl_backup_spec; auto using lock_not_in_nil|].
  { change 256 with (zlen (backup_path ++ [NUL]) + 235).
    rewrite uread_app, (uread_stored _ _ _ _ _ Hst0) by done. done. }
  intros r2 [d2 w3 h2 l2] (Hh & Hl & Hd2 & _). simpl in *. subst h2 l2 d2.
  apply wp_or_exit; [intros ?; split_and!; try done; lia|]. intros _. do 6 up_step.
  change (storage_ioctl IOCTL_ERASE_SECTOR sectorErase) with (ioctl_erase_sector (W:=W) sectorErase).
  eapply wp_mono; [apply ioctl_erase_spec; auto using lock_not_in_nil|].
  rewrite (user_int_stored _ _ _ _ Hst1) by (unfold is_int, INT_MIN, INT_MAX; lia).
  intros r3 [d3 w5 h3 l3] (Hh & Hl & He). simpl in *. subst h3 l3.
  assert (Hok3 : storage_ok d3).
  { destruct He as [[-> _]|(? & ? & _ & ->)]; [done|]. by apply guarded_erase. }
  apply wp_or_exit; [intros ?; split_and!; try done; lia|]. intros Hr3. unfold close_file. repeat up_step.
  split_and!; try done. intros _. rewrite <- !app_assoc. split; [done|].
  unfold EFAULT, EINVAL, EPERM in He.
  destruct He as [(_ & [?|[[? _]|[? _]]])|(_ & _ & _ & ->)]; [lia..|]. simpl. by rewrite Hsto.
Qed.

Lemma lock_and_list_spec d o w :
  storage_ok d -> key_valid d NUL = false ->
  let locks := <[2%nat := true]> (sector_lock_state (sto d)) in
  wp (lock_and_list sectorLock req lockInfo sectorMirror backupPath sectorErase)
     (fun r σ => held σ = [] /\ ledger σ = [] /\ storage_ok (dev (drv σ)) /\
        (r = 0 -> out (drv σ) = o ++ [LockedMsg 2; Perror "unlock"] ++ listing 0 locks ++
                                [MirroredMsg 0; BackedUp backup_path; ErasedMsg 4] /\
           sto (dev (drv σ)) = sto (set_buffer (upd (4 * 512) zero_sector (storage_buffer (sto d)))
                                               (set_locks locks d)) /\
           mirrored d (dev (drv σ))))
     (KSt (Proc d o) w [] [Fd "storage"]).
Proof.
  intros Hd Hk locks. unfold lock_and_list. do 4 up_step.
  change (storage_ioctl IOCTL_LOCK_SECTOR sectorLock) with (ioctl_lock_sector (W:=W) sectorLock).
  eapply wp_mono; [apply ioctl_lock_spec; auto using lock_not_in_nil|].
  rewrite (user_int_stored _ _ _ _ Hst) by (unfold is_int, INT_MIN, INT_MAX; lia).
  intros r3 [d3 w4 h3 l3] (Hh & Hl & Hr3). simpl in *. subst h3 l3.
  change (Z.to_nat 2) with 2%nat in Hr3. fold locks in Hr3.
  assert (Hok3 : storage_ok d3).
  { destruct Hr3 as [[-> _]|(_ & _ & ->)]; [done|]. by apply (set_locks_ok d 2 true). }
  apply wp_or_exit; [intros ?; split_and!; try done; lia|]. intros Hpos.
  assert (Hd3 : d3 = set_locks locks d).
  { unfold EFAULT, EINVAL in Hr3. by destruct Hr3 as [(_ & [?|[? _]])|(_ & _ & ->)]; [lia..|]. }
  clear Hr3 Hpos. do 3 up_step.
  eapply wp_mono; [apply unlock_two_spec; [done | by rewrite Hd3]|].
  intros _ [x w5 h4 l4] (Hh & Hl & Hx). simpl in *. subst x h4 l4. do 2 up_step.
  change (storage_ioctl IOCTL_GET_LOCK_INFO lockInfo) with (ioctl_get_lock_info (W:=W) lockInfo).
  eapply wp_mono; [apply ioctl_get_lock_info_spec; auto using lock_not_in_nil|].
  intros r4 [d4 w6 h5 l5] (Hh & Hl & Hd4 & Hr4). simpl in *. subst h5 l5 d4.
  apply wp_or_exit; [intros ?; split_and!; try done; lia|]. intros Hpos.
  unfold EFAULT in Hr4. destruct Hr4 as [?|(_ & Hm)]; [lia|]. do 3 up_step.
  rewrite Hm, uread_uwrite_n by (unfold zlen; rewrite length_fmap; apply (ok_locks d3 Hok3)).
  eapply wp_mono; [apply show_locks_spec|]. intros _ ? ->.
  eapply wp_mono; [by apply finish_spec|].
  intros r [[d5 o5] w7 h6 l6] (Hh & Hl & Hok5 & Hr). simpl in *. subst h6 l6.
  split_and!; try done. intros ->. destruct (Hr eq_refl) as (-> & Hsto & Hmir).
  rewrite Hd3 in *. split_and!; [by rewrite <- !app_assoc | done | done].
Qed.

(** What the session leaves on the device. *)
Record session_done (d d' : disk) : Prop := {
  done_written : sector d' 0 = pattern;
  done_locked : is_locked d' 2 = true;
  done_erased : sector d' 4 = zero_sector;
  done_others i : 0 <= i < NUM_SECTORS -> i <> 0 -> i <> 4 -> sector d' i = sector d i;
  done_locks i : 0 <= i < NUM_SECTORS -> i <> 2 -> is_locked d' i = is_locked d i;
  done_mirror : sub 0 512 (mirror_buffer (mir d')) = pattern \/
    mir d' = mir d /\ exists w, (k_lock_interruptible mirror_mutex w).1 <> 0;
}.

Lemma session_state d d1 d5 :
  storage_ok d -> d1 = set_buffer (upd (0 * 512) pattern (storage_buffer (sto d))) d ->
  sto d5 = sto (set_buffer (upd (4 * 512) zero_sector (storage_buffer (sto d1)))
                 (set_locks (<[2%nat := true]> (sector_lock_state (sto d1))) d1)) ->
  mirrored d1 d5 ->
  session_done d d5 /\ sector d1 0 = pattern.
Proof.
  intros Hd Hd1 Hsto Hmir.
  assert (Hok1 : storage_ok d1).
  { rewrite Hd1. apply set_buffer_ok; [done|]. pose proof (ok_buffer d Hd) as Hb.
    by rewrite zlen_upd by (rewrite ?length_pattern, ?Hb; unfold STORAGE_TOTAL_SIZE; lia). }
  assert (Hs1 : forall i, 0 <= i < NUM_SECTORS ->
                 sector d1 i = if decide (i = 0) then pattern else sector d i).
  { intros i Hi. rewrite Hd1. by apply sector_upd. }
  assert (Hs5 : forall i, 0 <= i < NUM_SECTORS ->
                 sector d5 i = if decide (i = 4) then zero_sector else sector d1 i).
  { intros i Hi. rewrite <- (sector_upd d1 zero_sector i 4) by done. unfold sector. by rewrite Hsto. }
  assert (Hl : forall i, 0 <= i < NUM_SECTORS ->
                 is_locked d5 i = if decide (2 = i) then true else is_locked d i).
  { intros i Hi. rewrite <- (is_locked_set d 2 true i) by (done || lia).
    unfold is_locked. by rewrite Hsto, Hd1. }
  unfold mirrored in Hmir. rewrite Hs1 in * by done. simpl in Hmir. split; [|done]. unfold NUM_SECTORS in *. split.
  - by rewrite Hs5, Hs1.
  - by rewrite Hl.
  - by rewrite Hs5.
  - intros i Hi ? ?. rewrite Hs5, Hs1 by done. by repeat case_decide.
  - intros i Hi ?. rewrite Hl by done. by case_decide.
  - by rewrite Hd1 in Hmir.
Qed.

(** C9. The whole program, on any well-formed device whose keys are not empty
    strings: it runs without undefined behaviour, closes the device on every
    path and leaves the device well-formed. When it ends with status 0,
    sector 0 holds the pattern and was read back, sector 4 is erased, no other
    sector has changed, and sector 2 is still locked, its unlocking having
    failed and the listing saying so; the mirror holds sector 0, or is as it
    was when waiting for its mutex was interrupted. *)
Theorem storage_user_session (d : disk) (w : W) (Hd : storage_ok d) (Hk : key_valid d NUL = false) :
  wp (main_ wBuf rBuf sectorLock req lockInfo sectorMirror backupPath sectorErase)
     (fun r σ => held σ = [] /\ ledger σ = [] /\ storage_ok (dev (drv σ)) /\
        (r = 0 -> session_done d (dev (drv σ)) /\
           out (drv σ) =
             [Opened; WriteSuccess 0; ReadSuccess 0; Dump pattern; LockedMsg 2; Perror "unlock"] ++
             listing 0 (<[2%nat := true]> (sector_lock_state (sto d))) ++
             [MirroredMsg 0; BackedUp backup_path; ErasedMsg 4]))
     (KSt (Proc d []) w [] []).
Proof.
  unfold main_, open_file. up_step. apply wp_acquire; intros; wp_red.
  2:{ pose proof (grant_ok _ _ _ _ H3). rewrite (proj2 (Z.ltb_lt rc 0)) by lia.
      do 3 up_step. by split_and!. }
  change (0 <? 0) with false. cbv iota. do 5 up_step.
  eapply wp_mono; [by apply write_sector_spec|].
  intros r1 [[d1 o1] w1 h1 l1] (Hh & Hl & Hok1 & Hr1). simpl in *. subst h1 l1.
  unfold fail at 1, close_file at 1. destruct (Z.ltb_spec r1 0); [repeat up_step; by split_and!|].
  destruct Hr1 as [?|(-> & -> & Hd1)]; [lia|]. rewrite (uread_stored _ _ _ _ _ Hst) in Hd1 by done.
  up_step. eapply wp_mono; [by apply read_sector_spec|].
  intros r2 [[d2 o2] w2 h2 l2] (Hh & Hl & Hd2 & Hr2). simpl in *. subst h2 l2 d2.
  unfold fail at 1, close_file at 1. destruct (Z.ltb_spec r2 0); [repeat up_step; by split_and!|].
  destruct Hr2 as [?|(-> & ->)]; [lia|].
  eapply wp_mono; [apply lock_and_list_spec; [done | by rewrite Hd1]|].
  intros r [[d5 o5] w3 h3 l3] (Hh & Hl & Hok & Hr). simpl in *. subst h3 l3.
  split_and!; try done. intros ->. destruct (Hr eq_refl) as (-> & Hsto & Hmir).
  destruct (session_state d d1 d5) as [Hs H0s]; [done..|]. rewrite H0s, Hd1. done.
Qed.
End Props.

(** ** Witness and a run *)

(** The stack of the program. *)
Definition stack : sim := sim_at 1000 (replicate 2000 NUL).

Lemma storage_user_session_witness :
  wp (main_ 1000 1512 2024 2032 2040 2048 2056 2320)
     (fun r σ => ledger σ = [] /\ (r = 0 -> is_locked (dev (drv σ)) 2 = true))
     (KSt (Proc disk0 []) stack [] []).
Proof.
  eapply wp_mono.
  - apply (storage_user_session 1000 1512 2024 2032 2040 2048 2056 2320 disk0 stack disk0_ok).
    reflexivity.
  - intros r σ (_ & Hl & _ & Hr). split; [exact Hl|]. intros ->.
    destruct (Hr eq_refl) as [Hs _]. apply Hs.
Defined.

(** With everything granted the program ends with status 0. *)
Example storage_user_runs :
  match main_ 1000 1512 2024 2032 2040 2048 2056 2320 (KSt (Proc disk0 []) stack [] []) with
  | Done (r, σ) => r = 0 /\ zget (out (drv σ)) 5 = Some (Perror "unlock") /\
                   zget (out (drv σ)) 8 = Some (Status 2 true) /\
                   take 3 (filedata (world σ)) = [Byte.x00; Byte.x01; Byte.x02]
  | Oops _ => False
  end.
Proof. vm_compute. by split_and!. Qed.
