(* ===== verification/MultiChar.v ===== *)
(** * 010_multi_char_driver: two character devices with sysfs attributes

    driver.c keeps two [struct mydev_device], each with its own lock, buffer
    and length. A handler receives the [private_data] of its file, the index
    of a device or NULL. *)

From S2P Require Import Prelude Kernel Wp Sim.

Definition MYDEV_COUNT : Z := 2.
Definition BUF_SIZE : Z := 1024.

(** What [mydevs[i].dev] holds: NULL after kcalloc, an error or a device. *)
Inductive dev_ptr := DevNull | DevErr | DevValid.

Definition IS_ERR_OR_NULL (p : dev_ptr) : bool :=
  match p with DevValid => false | _ => true end.

Record mydev := MyDev { dev : dev_ptr; buf : list byte; len : Z }.

(** The allocated array [mydevs]. *)
Abbreviation mydevs := (list mydev).

Definition mydev_lock (i : Z) : lock := Lock "mydevs.lock" i.

Definition SEEK_SET : Z := 0.
Definition SEEK_CUR : Z := 1.
Definition SEEK_END : Z := 2.

Section MultiChar.
Context {W : Type} `{UserAccess W} `{Signals W} `{Grants W}.

Definition get_dev (i : Z) : M W mydevs mydev :=
  ds ← get; value BadPointer (zget ds i).
Definition put_dev (i : Z) (d : mydev) : M W mydevs unit :=
  modify (fun ds => <[Z.to_nat i := d]> ds).

(** ** File operations *)

(** container_of(inode->i_cdev): the device whose cdev has this minor. *)
Definition mydev_open (minor : Z) : M W mydevs (Z * option Z) := mret (0, Some minor).
Definition mydev_release : M W mydevs (Z * option Z) := mret (0, None).

(** The result and the file position. *)
Definition mydev_read (filp : option Z) (ubuf count ppos : Z) : M W mydevs (Z * Z) :=
  match filp with
  | None => mret (- EINVAL, ppos)
  | Some i =>
      rc ← mutex_lock_interruptible (mydev_lock i);
      if negb (rc =? 0) then mret (- ERESTARTSYS, ppos)
      else
        d ← get_dev i;
        if len d <=? u64 ppos then
          mutex_unlock (mydev_lock i);; mret (0, ppos)
        else
          let count := if u64 (len d - ppos) <? count then u64 (len d - ppos) else count in
          if in_bounds ppos count (zlen (buf d)) then
            r ← copy_to_user ubuf (sub ppos count (buf d));
            if negb (r =? 0) then
              mutex_unlock (mydev_lock i);; mret (- EFAULT, ppos)
            else
              mutex_unlock (mydev_lock i);; mret (count, ppos + count)
          else oops OutOfBounds
  end.

Definition mydev_write (filp : option Z) (ubuf count ppos : Z) : M W mydevs (Z * Z) :=
  match filp with
  | None => mret (- EINVAL, ppos)
  | Some i =>
      rc ← mutex_lock_interruptible (mydev_lock i);
      if negb (rc =? 0) then mret (- ERESTARTSYS, ppos)
      else
        d ← get_dev i;
        if BUF_SIZE <=? ppos then
          mutex_unlock (mydev_lock i);; mret (- ENOSPC, ppos)
        else
          let count := if u64 (BUF_SIZE - ppos) <? count then u64 (BUF_SIZE - ppos)
                       else count in
          if in_bounds ppos count (zlen (buf d)) then
            '(r, bs) ← copy_from_user ubuf count;
            let b := upd ppos bs (buf d) in
            if negb (r =? 0) then
              put_dev i (MyDev (dev d) b (len d));;
              mutex_unlock (mydev_lock i);; mret (- EFAULT, ppos)
            else
              let ppos' := ppos + count in
              put_dev i (MyDev (dev d) b (if len d <? u64 ppos' then u64 ppos' else len d));;
              mutex_unlock (mydev_lock i);; mret (count, ppos')
          else oops OutOfBounds
  end.

(** The result and the file position. *)
Definition mydev_llseek (filp : option Z) (f_pos off whence : Z) : M W mydevs (Z * Z) :=
  match filp with
  | None => mret (- EINVAL, f_pos)
  | Some i =>
      rc ← mutex_lock_interruptible (mydev_lock i);
      if negb (rc =? 0) then mret (- ERESTARTSYS, f_pos)
      else
        d ← get_dev i;
        let newpos := if whence =? SEEK_SET then Some off
                      else if whence =? SEEK_CUR then Some (s64 (f_pos + off))
                      else if whence =? SEEK_END then Some (s64 (u64 (len d + off)))
                      else None in
        match newpos with
        | None => mutex_unlock (mydev_lock i);; mret (- EINVAL, f_pos)
        | Some newpos =>
            if (newpos <? 0) || (BUF_SIZE <? newpos) then
              mutex_unlock (mydev_lock i);; mret (- EINVAL, f_pos)
            else
              mutex_unlock (mydev_lock i);; mret (newpos, newpos)
        end
  end.

(** ** Sysfs attributes; [drvdata] is dev_get_drvdata(dev) *)

(** A show function: the result and the text left in the page. *)
Definition data_show (drvdata : option Z) : M W mydevs (Z * list byte) :=
  match drvdata with
  | None => mret (- EINVAL, [])
  | Some i =>
      rc ← mutex_lock_interruptible (mydev_lock i);
      if negb (rc =? 0) then mret (- ERESTARTSYS, [])
      else
        d ← get_dev i;
        let out := until_nul (take (Z.to_nat (s32 (len d))) (buf d)) ++ [LF] in
        mutex_unlock (mydev_lock i);; mret (zlen out, out)
  end.

Definition data_store (drvdata : option Z) (page : list byte) (count : Z)
  : M W mydevs Z :=
  match drvdata with
  | None => mret (- EINVAL)
  | Some i =>
      rc ← mutex_lock_interruptible (mydev_lock i);
      if negb (rc =? 0) then mret (- ERESTARTSYS)
      else
        let count := if BUF_SIZE <? count then BUF_SIZE else count in
        d ← get_dev i;
        if in_bounds 0 count (zlen page) && in_bounds 0 count (zlen (buf d)) then
          put_dev i (MyDev (dev d) (upd 0 (sub 0 count page) (buf d)) count);;
          mutex_unlock (mydev_lock i);; mret count
        else oops OutOfBounds
  end.

Definition stats_show (drvdata : option Z) : M W mydevs (Z * list byte) :=
  match drvdata with
  | None => mret (- EINVAL, [])
  | Some i =>
      rc ← mutex_lock_interruptible (mydev_lock i);
      if negb (rc =? 0) then mret (- ERESTARTSYS, [])
      else
        d ← get_dev i;
        let out := bytes_of "len=" ++ dec (len d) ++ [LF] in
        mutex_unlock (mydev_lock i);; mret (zlen out, out)
  end.

Definition reset_store (drvdata : option Z) (page : list byte) (count : Z)
  : M W mydevs Z :=
  match drvdata with
  | None => mret (- EINVAL)
  | Some i =>
      rc ← mutex_lock_interruptible (mydev_lock i);
      if negb (rc =? 0) then mret (- ERESTARTSYS)
      else
        d ← get_dev i;
        if in_bounds 0 BUF_SIZE (zlen (buf d)) then
          put_dev i (MyDev (dev d) (upd 0 (replicate (Z.to_nat BUF_SIZE) NUL) (buf d)) 0);;
          mutex_unlock (mydev_lock i);; mret count
        else oops OutOfBounds
  end.

(** ** Module load and unload *)

(** kcalloc: two zeroed structures. *)
Definition mydevs0 : mydevs :=
  replicate (Z.to_nat MYDEV_COUNT) (MyDev DevNull (replicate (Z.to_nat BUF_SIZE) NUL) 0).

Definition set_dev_ptr (i : Z) (p : dev_ptr) : M W mydevs unit :=
  d ← get_dev i; put_dev i (MyDev p (buf d) (len d)).

(** The body of the init loop for one device: 0, or the error with this
    device's own registrations undone (the labels err_attr_reset,
    err_attr_stats and err_attr, where [ret] is never 0). *)
Definition mydev_init_one (i : Z) : M W mydevs Z :=
  d ← get_dev i;
  put_dev i (MyDev (dev d) (replicate (Z.to_nat BUF_SIZE) NUL) 0);;
  ret ← cdev_add i;
  if negb (ret =? 0) then mret ret
  else
    p ← device_create i;
    set_dev_ptr i (if IS_ERR p then DevErr else DevValid);;
    if IS_ERR p then cdev_del i;; mret (PTR_ERR p)
    else
      ret ← device_create_file i "data";
      if negb (ret =? 0) then
        device_destroy i;; cdev_del i;; mret ret
      else
        ret ← device_create_file i "stats";
        if negb (ret =? 0) then
          device_remove_file i "data";; device_destroy i;; cdev_del i;; mret ret
        else
          ret ← device_create_file i "reset";
          if negb (ret =? 0) then
            device_remove_file i "stats";; device_remove_file i "data";;
            device_destroy i;; cdev_del i;; mret ret
          else mret 0.

(** while (--i >= 0): devices [n - 1] down to 0. *)
Fixpoint err_loop (n : nat) : M W mydevs unit :=
  match n with
  | O => mret tt
  | S n =>
      let i := Z.of_nat n in
      d ← get_dev i;
      (if negb (IS_ERR_OR_NULL (dev d)) then
         device_remove_file i "reset";; device_remove_file i "stats";;
         device_remove_file i "data";; device_destroy i
       else mret tt);;
      cdev_del i;;
      err_loop n
  end.

Definition mydev_init : M W mydevs Z :=
  ret ← alloc_chrdev_region;
  if negb (ret =? 0) then mret ret
  else
    p ← class_create;
    if IS_ERR p then unregister_chrdev_region;; mret (PTR_ERR p)
    else
      null ← acquire (Heap "mydevs");
      if negb (null =? 0) then
        class_destroy;; unregister_chrdev_region;; mret (- ENOMEM)
      else
        modify (fun _ => mydevs0);;
        failed ← for_ (Z.to_nat MYDEV_COUNT) 0 (fun i =>
          ret ← mydev_init_one i;
          if ret =? 0 then mret None else mret (Some (ret, i)));
        match failed with
        | None => mret 0
        | Some (ret, i) =>
            err_loop (Z.to_nat i);;
            release (Heap "mydevs");; class_destroy;; unregister_chrdev_region;;
            mret ret
        end.

Definition mydev_exit : M W mydevs unit :=
  for_ (Z.to_nat MYDEV_COUNT) 0 (fun i =>
    device_remove_file i "reset";; device_remove_file i "stats";;
    device_remove_file i "data";; device_destroy i;; cdev_del i;;
    mret (None : option unit));;
  release (Heap "mydevs");; class_destroy;; unregister_chrdev_region.
End MultiChar.

(** ** Invariant *)

Record mydev_ok (d : mydev) : Prop := {
  ok_buf : zlen (buf d) = BUF_SIZE;
  ok_len : 0 <= len d <= BUF_SIZE;
}.

Definition mydevs_ok (ds : mydevs) : Prop := zlen ds = MYDEV_COUNT /\ Forall mydev_ok ds.

(** Replacing device [i], and reading it back. *)
Definition with_dev (i : Z) (d : mydev) (ds : mydevs) : mydevs := <[Z.to_nat i := d]> ds.

Lemma with_dev_same i d ds : zget ds i = Some d -> with_dev i d ds = ds.
Proof. intros Hd. apply list_insert_id. unfold zget in Hd. by destruct (0 <=? i). Qed.

Lemma with_dev_get i d d' ds :
  zget ds i = Some d -> zget (with_dev i d' ds) i = Some d'.
Proof.
  intros Hd. pose proof (zget_Some _ _ _ Hd). unfold with_dev.
  rewrite zget_insert by lia. by rewrite decide_True.
Qed.

Lemma with_dev_other i j d ds :
  i <> j -> 0 <= i < zlen ds -> 0 <= j -> zget (with_dev i d ds) j = zget ds j.
Proof. intros. unfold with_dev. rewrite zget_insert by done. by rewrite decide_False. Qed.

Lemma with_dev_ok i d ds : mydevs_ok ds -> mydev_ok d -> mydevs_ok (with_dev i d ds).
Proof.
  intros [Hl Hf] Hd. split; [by unfold with_dev; rewrite zlen_insert | by apply Forall_insert].
Qed.

Lemma mydevs_ok_get ds i :
  mydevs_ok ds -> 0 <= i < MYDEV_COUNT -> exists d, zget ds i = Some d /\ mydev_ok d.
Proof.
  intros [Hl Hf] Hi. destruct (zget_in ds i) as [d Hd]; [lia|]. exists d. split; [done|].
  unfold zget in Hd. destruct (0 <=? i); [|done]. by eapply Forall_lookup_1.
Qed.

(** ** What each handler does to device [d] *)

Definition room (count ppos : Z) : Z := Z.min count (BUF_SIZE - ppos).

Definition write_result (m : Z -> byte) (ubuf count ppos : Z) (d : mydev)
    (r : Z * Z) (d' : mydev) : Prop :=
  let n := room count ppos in
  (r = (- ERESTARTSYS, ppos) /\ d' = d) \/
  (BUF_SIZE <= ppos /\ r = (- ENOSPC, ppos) /\ d' = d) \/
  (ppos < BUF_SIZE /\
   ((r = (- EFAULT, ppos) /\
     exists bs, zlen bs = n /\ d' = MyDev (dev d) (upd ppos bs (buf d)) (len d)) \/
    (r = (n, ppos + n) /\
     d' = MyDev (dev d) (upd ppos (uread m ubuf n) (buf d)) (Z.max (len d) (ppos + n))))).

Definition read_result (m : Z -> byte) (ubuf count ppos : Z) (d : mydev)
    (r : Z * Z) (m' : Z -> byte) : Prop :=
  let n := Z.min count (len d - ppos) in
  r = (- ERESTARTSYS, ppos) \/
  (len d <= ppos /\ r = (0, ppos) /\ m' ≡ₘ m) \/
  (ppos < len d /\
   (r = (- EFAULT, ppos) \/
    r = (n, ppos + n) /\ m' ≡ₘ uwrite m ubuf (sub ppos n (buf d)))).

Section Specs.
Context {W : Type} `{UserAccessOk W} `{!Signals W} `{!SignalsOk W}.
Implicit Types (ds : mydevs) (d : mydev) (w : W) (h : list lock) (l : list resource).

Lemma wp_get_dev i d Q ds w h l :
  zget ds i = Some d -> Q d (KSt ds w h l) -> wp (get_dev i) Q (KSt ds w h l).
Proof. intros Hd HQ. unfold get_dev. wp_auto. by rewrite Hd. Qed.

(** The state after a handler: device [i] is [d'], the rest is untouched. *)
Definition only_dev ds i d' h l (σ : kst W mydevs) : Prop :=
  drv σ = with_dev i d' ds /\ held σ = h /\ ledger σ = l.

Lemma only_dev_same ds i d h l w : zget ds i = Some d -> only_dev ds i d h l (KSt ds w h l).
Proof. intros Hd. unfold only_dev. by rewrite (with_dev_same _ _ _ Hd). Qed.

(** The 64-bit clamp of the code is [room]. *)
Lemma room_code count ppos :
  vfs_ok ppos count -> ppos < BUF_SIZE ->
  (if u64 (BUF_SIZE - ppos) <? count then u64 (BUF_SIZE - ppos) else count) = room count ppos.
Proof.
  unfold vfs_ok, room, BUF_SIZE. intros [Hp Hc] Hlt. rewrite u64_small by lia.
  destruct (Z.ltb_spec (1024 - ppos) count); lia.
Qed.

Lemma mydev_write_spec i ubuf count ppos d ds w h l :
  zget ds i = Some d -> mydev_ok d -> mydev_lock i ∉ h -> vfs_ok ppos count ->
  wp (mydev_write (Some i) ubuf count ppos)
     (fun r σ => exists d',
        write_result (umem w) ubuf count ppos d r d' /\ only_dev ds i d' h l σ /\
        umem (world σ) ≡ₘ umem w)
     (KSt ds w h l).
Proof.
  intros Hd [Hb Hl] Hh Hv. pose proof Hv as [Hp Hc].
  unfold mydev_write, write_result, only_dev.
  wp_auto.
  - apply wp_get_dev with d; [done|]. wp_step.
    { wp_auto. exists d. rewrite (with_dev_same _ _ _ Hd). split_and!; auto.
      by rewrite (lock_ok _ _ _ _ Hlock). }
    rewrite room_code by done.
    assert (Hn : 0 <= room count ppos <= BUF_SIZE - ppos) by (unfold room; lia).
    set (n := room count ppos) in *. clearbody n. rewrite in_bounds_true by lia. wp_auto.
    all: unfold put_dev; wp_auto; pose proof (cfu_mem _ _ _ _ _ _ (proj1 Hn) Hcfu) as Hm.
    all: rewrite (lock_ok _ _ _ _ Hlock) in Hm; eexists; split; [|by split_and!]; right; right.
    + split; [done|]. right. subst. apply cfu_full in Hcfu as [-> _]; [|lia]. split; [done|].
      rewrite (u64_small (ppos + n)) by (unfold BUF_SIZE in *; lia). f_equal.
      * by rewrite (lock_ok _ _ _ _ Hlock).
      * destruct (Z.ltb_spec (len d) (ppos + n)); lia.
    + split; [done|]. left. split; [done|]. exists bs. split; [|done].
      by eapply cfu_zlen; [|done]; lia.
  - exists d. rewrite (with_dev_same _ _ _ Hd). split_and!; auto.
    by rewrite (lock_ok _ _ _ _ Hlock).
Qed.

Lemma mydev_read_spec i ubuf count ppos d ds w h l :
  zget ds i = Some d -> mydev_ok d -> mydev_lock i ∉ h -> vfs_ok ppos count ->
  wp (mydev_read (Some i) ubuf count ppos)
     (fun r σ => read_result (umem w) ubuf count ppos d r (umem (world σ)) /\
                 only_dev ds i d h l σ)
     (KSt ds w h l).
Proof.
  intros Hd [Hb Hl] Hh [Hp Hc]. unfold mydev_read, read_result, only_dev.
  rewrite (with_dev_same _ _ _ Hd). wp_auto; [|by split_and!; auto].
  apply wp_get_dev with d; [done|]. rewrite (u64_small ppos) by lia.
  unfold BUF_SIZE, MAX_RW_COUNT in *. wp_step.
  { wp_auto. split_and!; auto. right. left. split_and!; auto.
    by rewrite (lock_ok _ _ _ _ Hlock). }
  rewrite u64_small by lia.
  replace (if len d - ppos <? count then len d - ppos else count)
    with (Z.min count (len d - ppos))
    by (destruct (Z.ltb_spec (len d - ppos) count); lia).
  wp_auto; split_and!; auto; right; right; split; auto.
  right. split; [done|]. subst. rewrite (ctu_full _ _ _ _ Hctu).
  by rewrite (lock_ok _ _ _ _ Hlock).
Qed.

(** [data_store] replaces the first bytes and the length only. *)
Lemma data_store_spec i page count d ds w h l :
  zget ds i = Some d -> mydev_ok d -> mydev_lock i ∉ h -> 0 <= count <= zlen page ->
  wp (data_store (Some i) page count)
     (fun rc σ => exists d', only_dev ds i d' h l σ /\ umem (world σ) ≡ₘ umem w /\
        ((rc = - ERESTARTSYS /\ d' = d) \/
         (rc = Z.min count BUF_SIZE /\
          d' = MyDev (dev d) (upd 0 (sub 0 rc page) (buf d)) rc)))
     (KSt ds w h l).
Proof.
  intros Hd [Hb Hl] Hh Hc. unfold data_store, only_dev. wp_auto.
  - replace (if BUF_SIZE <? count then BUF_SIZE else count) with (Z.min count BUF_SIZE)
      by (destruct (Z.ltb_spec BUF_SIZE count); lia).
    apply wp_get_dev with d; [done|]. unfold BUF_SIZE in *.
    rewrite !in_bounds_true by lia. simpl andb. cbv iota. unfold put_dev. wp_auto.
    eexists. split_and!; [done..| |].
    + by rewrite (lock_ok _ _ _ _ Hlock).
    + by right.
  - exists d. rewrite (with_dev_same _ _ _ Hd). split_and!; auto.
    by rewrite (lock_ok _ _ _ _ Hlock).
Qed.

(** Where a seek asks to go, in unbounded arithmetic. *)
Definition seek_target d f_pos off whence : option Z :=
  if whence =? SEEK_SET then Some off
  else if whence =? SEEK_CUR then Some (f_pos + off)
  else if whence =? SEEK_END then Some (len d + off) else None.

Definition seek_result d (f_pos off whence : Z) (r : Z * Z) : Prop :=
  r = (- ERESTARTSYS, f_pos) \/
  match seek_target d f_pos off whence with
  | Some t => if decide (0 <= t <= BUF_SIZE) then r = (t, t) else r = (- EINVAL, f_pos)
  | None => r = (- EINVAL, f_pos)
  end.

(** A 64-bit sum out of range lands outside the buffer too. *)
Lemma s64_seek a b :
  0 <= a < 2 ^ 63 -> - 2 ^ 63 <= b < 2 ^ 63 ->
  (s64 (a + b) <? 0) || (BUF_SIZE <? s64 (a + b)) = negb (bool_decide (0 <= a + b <= BUF_SIZE)) /\
  (0 <= a + b <= BUF_SIZE -> s64 (a + b) = a + b).
Proof.
  intros Ha Hb. unfold BUF_SIZE. destruct (decide (a + b < 2 ^ 63)).
  - rewrite s64_small by lia. split; [|done].
    destruct (Z.ltb_spec (a + b) 0), (Z.ltb_spec 1024 (a + b)), (bool_decide_reflect (0 <= a + b <= 1024));
      simpl; lia.
  - replace (s64 (a + b)) with (a + b - 2 ^ 64) by (unfold swrap; dlia). split; [|lia].
    rewrite bool_decide_false by lia. destruct (Z.ltb_spec (a + b - 2 ^ 64) 0); [done | lia].
Qed.

Lemma mydev_llseek_spec i f_pos off whence d ds w h l :
  zget ds i = Some d -> mydev_ok d -> mydev_lock i ∉ h ->
  0 <= f_pos < 2 ^ 63 -> - 2 ^ 63 <= off < 2 ^ 63 ->
  wp (mydev_llseek (Some i) f_pos off whence)
     (fun r σ => seek_result d f_pos off whence r /\ only_dev ds i d h l σ /\
                 umem (world σ) ≡ₘ umem w)
     (KSt ds w h l).
Proof.
  intros Hd [Hb Hl] Hh Hp Ho. unfold mydev_llseek, seek_result, seek_target, only_dev.
  rewrite (with_dev_same _ _ _ Hd). wp_auto.
  2:{ split_and!; auto. by rewrite (lock_ok _ _ _ _ Hlock). }
  apply wp_get_dev with d; [done|]. apply lock_ok in Hlock.
  assert (Hr : forall a b, 0 <= a < 2 ^ 63 -> - 2 ^ 63 <= b < 2 ^ 63 ->
    wp (if (s64 (a + b) <? 0) || (BUF_SIZE <? s64 (a + b))
        then mutex_unlock (mydev_lock i);; mret (- EINVAL, f_pos)
        else mutex_unlock (mydev_lock i);; mret (s64 (a + b), s64 (a + b)))
       (fun r σ =>
          (r = (- ERESTARTSYS, f_pos) \/
           (if decide (0 <= a + b <= BUF_SIZE) then r = (a + b, a + b) else r = (- EINVAL, f_pos))) /\
          (drv σ = ds /\ held σ = h /\ ledger σ = l) /\ umem (world σ) ≡ₘ umem w)
       (KSt ds w0 (mydev_lock i :: h) l)).
  { intros a b Ha Hab. destruct (s64_seek a b Ha Hab) as [-> Hs].
    destruct (decide (0 <= a + b <= BUF_SIZE)) as [Hi|Hi].
    - rewrite bool_decide_true by done. simpl negb. cbv iota. rewrite Hs by done.
      wp_auto. split_and!; auto.
    - rewrite bool_decide_false by done. simpl negb. cbv iota.
      wp_auto. split_and!; auto. }
  destruct (whence =? SEEK_SET).
  { specialize (Hr 0 off ltac:(lia) Ho). by rewrite Z.add_0_l, s64_small in Hr by lia. }
  destruct (whence =? SEEK_CUR); [by apply Hr|].
  destruct (whence =? SEEK_END).
  - replace (s64 (u64 (len d + off))) with (s64 (len d + off)) by (unfold swrap, uwrap; dlia).
    apply Hr; [unfold BUF_SIZE in *; lia | done].
  - wp_auto. split_and!; auto.
Qed.

(** ** Every operation on one device *)

Lemma write_result_ok (m : Z -> byte) ubuf count ppos d r d' :
  mydev_ok d -> vfs_ok ppos count ->
  write_result m ubuf count ppos d r d' -> mydev_ok d' /\ 0 <= r.2 < 2 ^ 63.
Proof.
  intros Hd [Hp Hc]. pose proof Hd as [Hb Hl]. unfold write_result, room, BUF_SIZE in *.
  intros [[-> ->]|[(_ & -> & ->)|(Hlt & [(-> & bs & Hbs & ->)|[-> ->]])]]; try done.
  - split; [|done]. split; simpl; [rewrite zlen_upd|]; unfold BUF_SIZE; lia.
  - split; [split|]; simpl; rewrite ?zlen_upd; unfold BUF_SIZE;
      rewrite ?length_uread; lia.
Qed.

(** The entry points on device [i] whose file position is [pos]: the result
    and the new position. *)
Inductive mydev_op :=
  | ORead (ubuf count : Z) | OWrite (ubuf count : Z) | OSeek (off whence : Z)
  | ODataShow | ODataStore (page : list byte) | OStatsShow | OResetStore (page : list byte).

Definition run_mydev_op (i pos : Z) (o : mydev_op) : M W mydevs (Z * Z) :=
  match o with
  | ORead ubuf count => mydev_read (Some i) ubuf count pos
  | OWrite ubuf count => mydev_write (Some i) ubuf count pos
  | OSeek off whence => mydev_llseek (Some i) pos off whence
  | ODataShow => r ← data_show (Some i); mret (r.1, pos)
  | ODataStore page => rc ← data_store (Some i) page (zlen page); mret (rc, pos)
  | OStatsShow => r ← stats_show (Some i); mret (r.1, pos)
  | OResetStore page => rc ← reset_store (Some i) page (zlen page); mret (rc, pos)
  end.

Definition mydev_op_ok (pos : Z) (o : mydev_op) : Prop :=
  0 <= pos < 2 ^ 63 /\
  match o with
  | ORead _ count | OWrite _ count => 0 <= count <= MAX_RW_COUNT
  | OSeek off _ => - 2 ^ 63 <= off < 2 ^ 63
  | _ => True
  end.

Lemma run_mydev_op_spec i pos o d ds w h l :
  zget ds i = Some d -> mydev_ok d -> mydev_lock i ∉ h -> mydev_op_ok pos o ->
  wp (run_mydev_op i pos o)
     (fun r σ => exists d', mydev_ok d' /\ only_dev ds i d' h l σ /\ 0 <= r.2 < 2 ^ 63)
     (KSt ds w h l).
Proof.
  intros Hd Hok Hh [Hp Ho]. pose proof Hok as [Hb Hl].
  destruct o as [ubuf count|ubuf count|off whence| |page| |page]; simpl in *.
  - eapply wp_mono; [by apply mydev_read_spec|]. intros r σ [Hr Hs]. exists d.
    split_and!; try done; unfold read_result, MAX_RW_COUNT, BUF_SIZE in *;
      destruct Hr as [->|[(_ & -> & _)|(_ & [->|[-> _]])]]; simpl; lia.
  - eapply wp_mono; [by apply mydev_write_spec|]. intros r σ (d' & Hr & Hs & _).
    exists d'. apply write_result_ok in Hr as [??]; done.
  - eapply wp_mono; [by apply mydev_llseek_spec|]. intros r σ (Hr & Hs & _). exists d.
    split_and!; try done; unfold seek_result, BUF_SIZE in Hr; destruct (seek_target _ _ _ _);
      try case_decide; destruct Hr as [->| ->]; simpl; lia.
  - unfold data_show. wp_auto.
    + apply wp_get_dev with d; [done|]. wp_auto. exists d. by eauto using only_dev_same.
    + exists d. by eauto using only_dev_same.
  - pose proof (zlen_nonneg page).
    apply wp_bind. eapply wp_mono; [apply data_store_spec; try done; lia|].
    intros rc σ (d' & Hs & _ & Hr). apply wp_ret. exists d'. split_and!; try done; simpl; try lia.
    destruct Hr as [[-> ->]|[-> ->]]; [done|].
    unfold BUF_SIZE in *. split; simpl; [rewrite zlen_upd|]; rewrite ?zlen_sub; unfold BUF_SIZE; lia.
  - unfold stats_show. wp_auto.
    + apply wp_get_dev with d; [done|]. wp_auto. exists d. by eauto using only_dev_same.
    + exists d. by eauto using only_dev_same.
  - unfold reset_store. wp_auto.
    + apply wp_get_dev with d; [done|]. rewrite Hb, in_bounds_true by done. unfold put_dev. wp_auto.
      eexists. split; [|done]. split; cbn [buf len]; [|unfold BUF_SIZE; lia].
      rewrite zlen_upd; rewrite ?zlen_replicate; unfold BUF_SIZE in *; lia.
    + exists d. by eauto using only_dev_same.
Qed.

(** ** Properties *)

(** Every entry point of the driver on device [i] runs without an
    out-of-bounds access, a deadlock or an unmatched unlock, returns with the
    locks and resources it started with, keeps every device well-formed (a
    buffer of 1024 bytes, a length within it) and the file position valid,
    and does not touch any other device. *)
Theorem mydev_op_isolated (i pos : Z) (o : mydev_op) (ds : mydevs) (w : W)
    (Hds : mydevs_ok ds) (Hi : 0 <= i < MYDEV_COUNT) (Ho : mydev_op_ok pos o) :
  wp (run_mydev_op i pos o)
     (fun r σ => mydevs_ok (drv σ) /\ held σ = [] /\ ledger σ = [] /\ 0 <= r.2 < 2 ^ 63 /\
                 forall j, 0 <= j -> j <> i -> zget (drv σ) j = zget ds j)
     (KSt ds w [] []).
Proof.
  destruct (mydevs_ok_get ds i Hds Hi) as (d & Hd & Hok).
  eapply wp_mono; [eapply run_mydev_op_spec; eauto with kern|].
  intros r σ (d' & Hok' & (-> & -> & ->) & Hpos). split_and!; try done; [by apply with_dev_ok|..].
  - apply Hpos.
  - apply Hpos.
  - intros j Hj Hij. apply with_dev_other; [done | by eapply zget_Some | done].
Qed.

(** A write stores the user's bytes at the file position up to the end of
    the 1024-byte buffer, extends the length when it ends behind it and
    advances the position by what it stored; at the end it fails with ENOSPC;
    an interrupted wait changes nothing; a faulting copy overwrites the range
    but keeps length and position. *)
Theorem mydev_write_stores (i ubuf count ppos : Z) (d : mydev) (ds : mydevs) (w : W)
    (Hd : zget ds i = Some d) (Hok : mydev_ok d) (Hv : vfs_ok ppos count) :
  wp (mydev_write (Some i) ubuf count ppos)
     (fun r σ =>
        let n := Z.min count (1024 - ppos) in
        let store bs k := with_dev i (MyDev (dev d) (upd ppos bs (buf d)) k) ds in
        (r = (- ERESTARTSYS, ppos) /\ drv σ = ds) \/
        (1024 <= ppos /\ r = (- ENOSPC, ppos) /\ drv σ = ds) \/
        (r = (- EFAULT, ppos) /\ exists bs, zlen bs = n /\ drv σ = store bs (len d)) \/
        (r = (n, ppos + n) /\
         drv σ = store (uread (umem w) ubuf n) (Z.max (len d) (ppos + n))))
     (KSt ds w [] []).
Proof.
  eapply wp_mono; [eapply mydev_write_spec; eauto with kern|].
  intros r σ (d' & Hr & (-> & _) & _). unfold write_result, room, BUF_SIZE in Hr.
  destruct Hr as [[-> ->]|[(? & -> & ->)|(_ & [(-> & bs & ? & ->)|[-> ->]])]].
  - left. by rewrite (with_dev_same _ _ _ Hd).
  - right. left. by rewrite (with_dev_same _ _ _ Hd).
  - do 2 right. left. split; [done|]. by exists bs.
  - by do 3 right.
Qed.

(** C18. Write, seek back, read: when the three calls complete, the read
    returns the number of bytes the write stored and delivers those bytes. *)
Theorem mydev_write_seek_read (i src dst count p : Z) (d : mydev) (ds : mydevs) (w : W)
    (Hd : zget ds i = Some d) (Hok : mydev_ok d) (Hp : 0 <= p < 1024)
    (Hc : 0 <= count <= MAX_RW_COUNT) :
  wp (r1 ← mydev_write (Some i) src count p;
      r2 ← mydev_llseek (Some i) r1.2 p SEEK_SET;
      r3 ← mydev_read (Some i) dst count r2.2; mret (r1.1, r2.1, r3.1))
     (fun r σ => 0 <= r.1.1 -> 0 <= r.1.2 -> 0 <= r.2 ->
        let n := Z.min count (1024 - p) in
        r = (n, p, n) /\ uread (umem (world σ)) dst n = uread (umem w) src n)
     (KSt ds w [] []).
Proof.
  assert (Hv : vfs_ok p count) by (unfold vfs_ok; lia).
  apply wp_bind. eapply wp_mono; [eapply mydev_write_spec; eauto with kern|].
  intros r1 [ds1 w1 h1 l1] (d1 & Hr1 & Hs1 & Hm1). unfold only_dev in Hs1.
  simpl in Hs1, Hm1. destruct Hs1 as (-> & -> & ->).
  pose proof (with_dev_get _ _ d1 _ Hd) as Hd1.
  destruct (write_result_ok _ _ _ _ _ _ _ Hok Hv Hr1) as [Hok1 Hr12].
  apply wp_bind. eapply wp_mono.
  { eapply mydev_llseek_spec; eauto with kern. lia. }
  intros r2 [ds2 w2 h2 l2] (Hr2 & Hs2 & Hm2). unfold only_dev in Hs2.
  simpl in Hs2, Hm2. rewrite (with_dev_same _ _ _ Hd1) in Hs2. destruct Hs2 as (-> & -> & ->).
  unfold seek_result, seek_target in Hr2. change (SEEK_SET =? SEEK_SET) with true in Hr2.
  cbv iota in Hr2. rewrite decide_True in Hr2 by (unfold BUF_SIZE; lia).
  apply wp_bind. eapply wp_mono.
  { eapply mydev_read_spec; eauto with kern.
    unfold vfs_ok. destruct Hr2 as [->| ->]; simpl; lia. }
  intros r3 σ [Hr3 _]. apply wp_ret. simpl. intros P1 P2 P3.
  destruct Hr2 as [-> | ->]; [done|]. simpl in *.
  destruct Hok as [Hb Hl].
  unfold write_result, read_result, room, BUF_SIZE, EFAULT, ENOSPC, ERESTARTSYS in *.
  destruct Hr1 as [[-> _]|[[? _]|(_ & [[-> _]|[-> ->]])]]; simpl in *; try lia.
  set (n := Z.min count (1024 - p)) in *. assert (Hn : 0 <= n <= 1024 - p) by lia.
  assert (Hz : zlen (uread (umem w) src n) = n) by (apply length_uread; lia).
  replace (Z.min count (Z.max (len d) (p + n) - p)) with n in Hr3 by (unfold MAX_RW_COUNT in *; lia).
  destruct Hr3 as [->|[(Hle & -> & _)|(_ & [->|[-> Hm3]])]]; simpl in *; try lia.
  - assert (n = 0) as -> by lia. done.
  - split; [done|].
    rewrite Hm3, sub_upd_n by (done || lia). by apply uread_uwrite_n.
Qed.

(** C36. A seek goes where its arguments say in exact arithmetic, whatever
    64-bit offset is passed, when that place lies in the buffer or at its end;
    otherwise it fails with EINVAL and the position stays. *)
Theorem mydev_llseek_target (i f_pos off whence : Z) (d : mydev) (ds : mydevs) (w : W)
    (Hd : zget ds i = Some d) (Hok : mydev_ok d) (Hp : 0 <= f_pos < 2 ^ 63)
    (Ho : - 2 ^ 63 <= off < 2 ^ 63) :
  wp (mydev_llseek (Some i) f_pos off whence)
     (fun r σ =>
        drv σ = ds /\ held σ = [] /\
        (r = (- ERESTARTSYS, f_pos) \/
         exists t, (whence = 0 /\ t = off \/ whence = 1 /\ t = f_pos + off \/
                    whence = 2 /\ t = len d + off \/ ~ 0 <= whence <= 2 /\ t = -1) /\
                   r = if decide (0 <= t <= 1024) then (t, t) else (- EINVAL, f_pos)))
     (KSt ds w [] []).
Proof.
  eapply wp_mono; [eapply mydev_llseek_spec; eauto with kern|].
  intros r σ (Hr & (Hs & Hh & _) & _). rewrite (with_dev_same _ _ _ Hd) in Hs.
  split_and!; [done..|]. unfold seek_result, seek_target in Hr.
  unfold SEEK_SET, SEEK_CUR, SEEK_END, BUF_SIZE in Hr. destruct Hr as [->|Hr]; [by left|]. right.
  destruct (Z.eqb_spec whence 0); [exists off|
    destruct (Z.eqb_spec whence 1); [exists (f_pos + off)|
      destruct (Z.eqb_spec whence 2); [exists (len d + off)|exists (-1)]]].
  all: repeat case_decide; subst r; (split; [lia | first [done | lia]]).
Qed.

(** A short [data_store] leaves the rest of the buffer as it was, and the
    length is the only thing that hides it: a write behind the new end raises
    the length over the gap, and a read then delivers the old bytes in it. *)
Theorem mydev_gap_exposes_old_bytes (i src dst p : Z) (page : list byte) (d : mydev)
    (ds : mydevs) (w : W) (Hd : zget ds i = Some d) (Hok : mydev_ok d)
    (Hp : zlen page <= p < 1024) :
  wp (rc ← data_store (Some i) page (zlen page);
      r1 ← mydev_write (Some i) src 1 p;
      r2 ← mydev_read (Some i) dst (p + 1) 0; mret (rc, r1.1, r2.1))
     (fun r σ => 0 <= r.1.1 -> 0 <= r.1.2 -> 0 <= r.2 ->
        r = (zlen page, 1, p + 1) /\
        uread (umem (world σ)) (dst + zlen page) (p - zlen page)
          = sub (zlen page) (p - zlen page) (buf d))
     (KSt ds w [] []).
Proof.
  pose proof Hok as [Hb Hl]. pose proof (zlen_nonneg page).
  apply wp_bind. eapply wp_mono; [eapply data_store_spec; eauto with kern; lia|].
  intros rc [ds1 w1 h1 l1] (d1 & Hs1 & _ & Hr1). unfold only_dev in Hs1. simpl in Hs1.
  destruct Hs1 as (-> & -> & ->). pose proof (with_dev_get _ _ d1 _ Hd) as Hd1.
  assert (Hok1 : mydev_ok d1).
  { destruct Hr1 as [[_ ->]|[-> ->]]; [done|]. unfold BUF_SIZE in *.
    split; simpl; [rewrite zlen_upd|]; rewrite ?zlen_sub; unfold BUF_SIZE; lia. }
  assert (Hv : vfs_ok p 1) by (unfold vfs_ok, MAX_RW_COUNT; lia).
  apply wp_bind. eapply wp_mono; [eapply mydev_write_spec; eauto with kern|].
  intros r2 [ds2 w2 h2 l2] (d2 & Hr2 & Hs2 & _). unfold only_dev in Hs2. simpl in Hs2.
  destruct Hs2 as (-> & -> & ->). pose proof (with_dev_get _ _ d2 _ Hd1) as Hd2.
  destruct (write_result_ok _ _ _ _ _ _ _ Hok1 Hv Hr2) as [Hok2 _].
  apply wp_bind. eapply wp_mono.
  { eapply mydev_read_spec; eauto with kern. unfold vfs_ok, MAX_RW_COUNT. lia. }
  intros r3 σ [Hr3 _]. apply wp_ret. simpl. intros P1 P2 P3.
  unfold write_result, read_result, room, BUF_SIZE, EFAULT, ENOSPC, ERESTARTSYS in *.
  destruct Hr1 as [[-> _]|[-> ->]]; [lia|].
  destruct Hr2 as [[-> _]|[[? _]|(_ & [[-> _]|[-> ->]])]]; simpl in *; try lia.
  assert (Hz : zlen (uread (umem w1) src 1) = 1) by by apply length_uread.
  assert (Hz' : zlen (sub 0 (zlen page `min` 1024) page) = zlen page) by (rewrite zlen_sub; lia).
  replace (1 `min` (1024 - p)) with 1 in * by lia.
  replace ((p + 1) `min` (Z.max (zlen page `min` 1024) (p + 1) - 0)) with (p + 1) in Hr3 by lia.
  destruct Hr3 as [->|[(? & -> & _)|(_ & [->|[-> Hm3]])]]; simpl in *; try lia.
  split; [f_equal; f_equal; lia|].
  set (b := upd p _ _) in Hm3. assert (Hbz : zlen b = 1024).
  { unfold b. rewrite !zlen_upd; rewrite ?zlen_upd; lia. }
  rewrite Hm3, uread_uwrite_sub by (rewrite ?zlen_sub; lia).
  apply list_eq. intros k. rewrite !lookup_sub by lia. case_decide; [|done].
  rewrite decide_True by lia. unfold b. rewrite !lookup_upd by (rewrite ?zlen_upd; lia).
  by rewrite !decide_False by lia.
Qed.
End Specs.

(** ** Module load and unload *)

(** What device [i] owns once it is set up, latest first. *)
Definition dev_resources (i : Z) : list resource :=
  [DevFile i "reset"; DevFile i "stats"; DevFile i "data"; Device i; Cdev i].

Definition base_resources : list resource := [Heap "mydevs"; Class_; Region].

(** A device the init loop has finished with. *)
Definition ready (o : option mydev) : Prop :=
  o = Some (MyDev DevValid (replicate (Z.to_nat BUF_SIZE) NUL) 0).

Section Load.
Context {W : Type} `{Grants W}.

Lemma wp_put_dev i d Q ds (w : W) h l :
  Q tt (KSt (with_dev i d ds) w h l) -> wp (put_dev i d) Q (KSt ds w h l).
Proof. done. Qed.

Lemma mydev_init_one_spec i d ds (w : W) l :
  zget ds i = Some d -> existsb (fun r => needs r (Device i)) l = false ->
  wp (mydev_init_one i)
     (fun rc σ => held σ = [] /\ (GrantsOk W -> rc <= 0) /\
        (exists d', drv σ = with_dev i d' ds /\ (rc = 0 -> ready (Some d'))) /\
        ledger σ = if rc =? 0 then dev_resources i ++ l else l)
     (KSt ds w [] l).
Proof.
  intros Hd Hl. unfold mydev_init_one, set_dev_ptr. unfold_kernel.
  apply wp_bind, wp_get_dev with d; [done|]. apply wp_bind, wp_put_dev.
  set (d1 := MyDev _ _ _). pose proof (with_dev_get i d d1 ds Hd) as Hd1.
  assert (Hw : forall d', with_dev i d' (with_dev i d1 ds) = with_dev i d' ds).
  { intros d'. apply list_insert_insert_eq. }
  assert (Hne : forall rc : Z, rc <> 0 -> (rc =? 0) = false) by (intros; by apply Z.eqb_neq).
  assert (Hfin : forall r (v v' : W) rc d' (ds' : mydevs),
    rc <> 0 -> k_grant r v = (rc, v') -> ds' = with_dev i d' ds ->
    @nil lock = [] /\ (GrantsOk W -> rc <= 0) /\
    (exists d'', ds' = with_dev i d'' ds /\ (rc = 0 -> ready (Some d''))) /\
    l = if rc =? 0 then dev_resources i ++ l else l).
  { intros r v v' rc d' ds' Hrc E ->. rewrite Hne by done. split_and!; [done | | | done].
    - intros Hg. exact (grant_ok _ _ _ _ E).
    - by exists d'. }
  wp_auto; [| |eauto..].
  - apply wp_get_dev with d1; [done|]. apply wp_put_dev. rewrite Hw. wp_auto; eauto.
    { split_and!; [done | done | by eexists | done]. }
    all: eapply wp_release; [apply remove_one_head | exact Hl | wp_auto; eauto].
  - apply wp_get_dev with d1; [done|]. apply wp_put_dev. rewrite Hw. wp_auto; eauto.
Qed.

Lemma mydevs0_get i :
  0 <= i < MYDEV_COUNT ->
  zget mydevs0 i = Some (MyDev DevNull (replicate (Z.to_nat BUF_SIZE) NUL) 0).
Proof.
  intros Hi. unfold mydevs0, zget. destruct (Z.leb_spec 0 i); [|lia].
  apply lookup_replicate_2. unfold MYDEV_COUNT in *. lia.
Qed.

(** Rolling back one finished device, as err_loop and the exit function do. *)
Lemma err_loop_one ds (w : W) :
  ready (zget ds 0) ->
  wp (err_loop 1) (fun _ σ => held σ = [] /\ ledger σ = base_resources)
     (KSt ds w [] (dev_resources 0 ++ base_resources)).
Proof.
  intros Hr. cbn [err_loop]. apply wp_bind. eapply wp_get_dev; [exact Hr|].
  unfold_kernel. by wp_auto.
Qed.

Lemma mydev_exit_spec ds (w : W) :
  wp mydev_exit (fun _ σ => held σ = [] /\ ledger σ = [])
     (KSt ds w [] (dev_resources 1 ++ dev_resources 0 ++ base_resources)).
Proof.
  unfold mydev_exit. change (Z.to_nat MYDEV_COUNT) with 2%nat. cbn [for_].
  unfold_kernel. by wp_auto.
Qed.

(** The loop of the init function. *)
Lemma init_loop_spec (w : W) :
  wp (for_ 2 0 (fun i => ret ← mydev_init_one i;
                         if ret =? 0 then mret None else mret (Some (ret, i))))
     (fun r σ => held σ = [] /\
        match r with
        | None =>
            (forall i, 0 <= i < MYDEV_COUNT -> ready (zget (drv σ) i)) /\
            ledger σ = dev_resources 1 ++ dev_resources 0 ++ base_resources
        | Some (rc, i) =>
            rc <> 0 /\ (GrantsOk W -> rc <= 0) /\
            (i = 0 /\ ledger σ = base_resources \/
             i = 1 /\ ready (zget (drv σ) 0) /\ ledger σ = dev_resources 0 ++ base_resources)
        end)
     (KSt mydevs0 w [] base_resources).
Proof.
  assert (H0 := mydevs0_get 0 ltac:(done)). assert (H1 := mydevs0_get 1 ltac:(done)).
  set (ds0 := mydevs0) in *. assert (Hz : zlen ds0 = 2) by by apply zlen_replicate.
  clearbody ds0. cbn [for_]. apply wp_bind, wp_bind.
  eapply wp_mono; [by eapply mydev_init_one_spec|].
  intros rc [ds' w' h' l'] (Hh & Hg & (d' & Hds & Hr) & Hl). simpl in *. subst h' ds'.
  destruct (Z.eqb_spec rc 0) as [->|Hrc]; subst l'.
  2:{ wp_auto. split_and!; auto. }
  wp_auto. assert (H1' : zget (with_dev 0 d' ds0) 1 = zget ds0 1)
    by (apply with_dev_other; [done | lia | done]).
  assert (H0' := with_dev_get _ _ d' _ H0). change (0 + 1) with 1.
  eapply wp_mono; [eapply mydev_init_one_spec; [exact (eq_trans H1' H1) | done]|].
  intros rc [ds' w'' h' l'] (Hh & Hg' & (d1 & Hds & Hr1) & Hl). simpl in *. subst h' ds'.
  assert (H0'' : zget (with_dev 1 d1 (with_dev 0 d' ds0)) 0 = Some d').
  { rewrite with_dev_other; [done.. | | done]. unfold with_dev. rewrite zlen_insert. lia. }
  destruct (Z.eqb_spec rc 0) as [->|Hrc]; subst l'; wp_auto.
  - split_and!; try done. unfold MYDEV_COUNT. intros i Hi.
    assert (i = 0 \/ i = 1) as [->| ->] by lia; [by rewrite H0''; apply Hr|].
    rewrite (with_dev_get _ _ d1 _ (eq_trans H1' H1)). by apply Hr1.
  - split_and!; try done. right. split_and!; try done. rewrite H0''. by apply Hr.
Qed.

Lemma mydev_init_spec ds (w : W) :
  wp mydev_init
     (fun rc σ => held σ = [] /\ (GrantsOk W -> rc <= 0) /\
        if rc =? 0 then
          (forall i, 0 <= i < MYDEV_COUNT -> ready (zget (drv σ) i)) /\
          ledger σ = dev_resources 1 ++ dev_resources 0 ++ base_resources
        else ledger σ = [])
     (KSt ds w [] []).
Proof.
  assert (Hne : forall rc : Z, rc <> 0 -> (rc =? 0) = false) by (intros; by apply Z.eqb_neq).
  assert (Hneg : forall r (v v' : W) rc, k_grant r v = (rc, v') -> GrantsOk W -> rc <= 0)
    by (intros r v v' rc E Hg; exact (grant_ok _ _ _ _ E)).
  unfold mydev_init. change (Z.to_nat MYDEV_COUNT) with 2%nat. unfold_kernel.
  wp_auto; [|split_and!; [done | by eauto || by intros | by rewrite ?Hne]..].
  eapply wp_mono; [apply init_loop_spec|].
  intros [[rc i]|] [ds' w' h' l']; simpl; intros [-> Hr].
  - destruct Hr as (Hrc & Hg & [[-> ->]|(-> & Hr & ->)]).
    + simpl. wp_auto. by rewrite Hne.
    + change (Z.to_nat 1) with 1%nat. wp_step. eapply wp_mono; [by apply err_loop_one|].
      intros [] [ds'' w'' h'' l''] [Hh Hl]. simpl in *. subst. wp_auto. by rewrite Hne.
  - destruct Hr as [Hr ->]. by wp_auto.
Qed.

(** C20. Loading the driver either succeeds with two ready devices (zeroed,
    empty, with a valid device object) and everything registered, or fails
    with the error and everything given back, whichever of the thirteen
    acquisitions fails; after a successful load, unloading gives everything
    back, nothing before what still uses it. *)
Theorem mydev_load_unload (ds : mydevs) (w : W) :
  wp mydev_init
     (fun rc σ =>
        held σ = [] /\
        if rc =? 0 then
          (forall i, 0 <= i < MYDEV_COUNT -> ready (zget (drv σ) i)) /\
          ledger σ = dev_resources 1 ++ dev_resources 0 ++ base_resources /\
          wp mydev_exit (fun _ σ' => held σ' = [] /\ ledger σ' = []) σ
        else ledger σ = [])
     (KSt ds w [] []).
Proof.
  eapply wp_mono; [apply mydev_init_spec|]. intros rc [ds' w' h' l'] (Hh & _ & Hr). simpl in *. subst h'.
  split; [done|]. destruct (rc =? 0); [|done]. destruct Hr as [Hr ->].
  do 2 (split; [done|]). apply mydev_exit_spec.
Qed.
End Load.

(** ** The properties at concrete inputs *)

(** Both devices hold the bytes "secret" and the user page at 100 is mapped. *)
Definition mydev_secret : mydev :=
  MyDev DevValid (upd 0 (bytes_of "secret") (replicate (Z.to_nat BUF_SIZE) NUL)) 6.

Lemma mydev_secret_ok : mydev_ok mydev_secret.
Proof. split; [vm_compute; reflexivity | unfold BUF_SIZE; simpl; lia]. Qed.

Lemma secret_devs_ok : mydevs_ok [mydev_secret; mydev_secret].
Proof. split; [done|]. repeat constructor; try apply mydev_secret_ok. Qed.

Definition mydev_user : sim := sim_at 100 (replicate 64 Byte.x7a).

Lemma mydev_op_isolated_witness :
  wp (run_mydev_op 0 3 (OWrite 100 4))
     (fun _ σ => zget (drv σ) 1 = Some mydev_secret)
     (KSt [mydev_secret; mydev_secret] mydev_user [] []).
Proof.
  eapply wp_mono.
  - apply (mydev_op_isolated 0 3 (OWrite 100 4) _ mydev_user secret_devs_ok).
    + unfold MYDEV_COUNT. lia.
    + unfold mydev_op_ok, MAX_RW_COUNT. lia.
  - intros r σ (_ & _ & _ & _ & Hj). rewrite Hj; [reflexivity | lia | lia].
Defined.

Lemma mydev_write_stores_witness :
  wp (mydev_write (Some 1) 100 4 1022) (fun r _ => r <> (4, 1026))
     (KSt [mydev_secret; mydev_secret] mydev_user [] []).
Proof.
  eapply wp_mono.
  - apply (mydev_write_stores 1 100 4 1022 mydev_secret [mydev_secret; mydev_secret] mydev_user
             eq_refl mydev_secret_ok).
    unfold vfs_ok, MAX_RW_COUNT. lia.
  - intros r σ [[-> _]|[[? _]|[[-> _]|[-> _]]]]; [discriminate | lia | discriminate | discriminate].
Defined.

Lemma mydev_write_seek_read_witness :
  wp (r1 ← mydev_write (Some 0) 100 4 8;
      r2 ← mydev_llseek (Some 0) r1.2 8 SEEK_SET;
      r3 ← mydev_read (Some 0) 120 4 r2.2; mret (r1.1, r2.1, r3.1))
     (fun r σ => 0 <= r.1.1 -> 0 <= r.1.2 -> 0 <= r.2 -> r = (4, 8, 4))
     (KSt [mydev_secret; mydev_secret] mydev_user [] []).
Proof.
  eapply wp_mono.
  - apply (mydev_write_seek_read 0 100 120 4 8 mydev_secret [mydev_secret; mydev_secret]
             mydev_user eq_refl mydev_secret_ok); unfold MAX_RW_COUNT; lia.
  - intros r σ Hr P1 P2 P3. apply (Hr P1 P2 P3).
Defined.

Lemma mydev_llseek_target_witness :
  wp (mydev_llseek (Some 0) 5 (2 ^ 63 - 1) SEEK_CUR)
     (fun r σ => r = (- ERESTARTSYS, 5) \/ r = (- EINVAL, 5))
     (KSt [mydev_secret; mydev_secret] mydev_user [] []).
Proof.
  eapply wp_mono.
  - apply (mydev_llseek_target 0 5 (2 ^ 63 - 1) SEEK_CUR mydev_secret
             [mydev_secret; mydev_secret] mydev_user eq_refl mydev_secret_ok); lia.
  - intros r σ (_ & _ & [->|(t & Ht & ->)]); [by left|]. right. unfold SEEK_CUR in Ht.
    rewrite decide_False; [reflexivity | lia].
Defined.

(** After storing one character over "secret", the gap shows "ecret". *)
Lemma mydev_gap_exposes_old_bytes_witness :
  wp (rc ← data_store (Some 0) (bytes_of "x") 1;
      r1 ← mydev_write (Some 0) 100 1 6;
      r2 ← mydev_read (Some 0) 120 7 0; mret (rc, r1.1, r2.1))
     (fun r σ => 0 <= r.1.1 -> 0 <= r.1.2 -> 0 <= r.2 ->
                 uread (umem (world σ)) 121 5 = bytes_of "ecret")
     (KSt [mydev_secret; mydev_secret] mydev_user [] []).
Proof.
  eapply wp_mono.
  - apply (mydev_gap_exposes_old_bytes 0 100 120 6 (bytes_of "x") mydev_secret
             [mydev_secret; mydev_secret] mydev_user eq_refl mydev_secret_ok).
    change (zlen (bytes_of "x")) with 1. lia.
  - intros r σ Hr P1 P2 P3. destruct (Hr P1 P2 P3) as [_ E].
    change (zlen (bytes_of "x")) with 1 in E. exact E.
Defined.
