(* ===== verification/MultiCharCalls.v ===== *)
(** * 010_multi_char_driver: calls of the two-device driver that overlap

    Every entry point cut into its accesses to the device (Resume.v), the
    bytes of a buffer stored one after the other; the result carries the bytes
    that moved between the device and the caller. Each call is one critical
    section of the mutex of its device, so overlapping calls take effect one
    after the other ([mydev_linearizable]). *)

From S2P Require Import Prelude Kernel Wp Sim Sched Resume Linear MultiChar.

(** A call on device [r_dev] at the file position [r_pos]. *)
Record request := Request { r_dev : Z; r_pos : Z; r_op : mydev_op }.
Abbreviation answer := (Z * Z * list byte)%type.

Section Calls.
Context {W : Type} `{UserAccess W} `{Signals W}.
Local Abbreviation P := (prog W mydevs).

Definition get_len (i : Z) : M W mydevs Z := d ← get_dev i; mret (len d).
Definition set_len (i n : Z) : M W mydevs unit := d ← get_dev i; put_dev i (MyDev (dev d) (buf d) n).
Definition put_byte (i off : Z) (b : byte) : M W mydevs unit :=
  d ← get_dev i; put_dev i (MyDev (dev d) (upd off [b] (buf d)) (len d)).

(** copy_from_user, memcpy and memset, byte by byte. *)
Fixpoint put_bytes (n : nat) (i off : Z) (bs : list byte) : P unit :=
  match n, bs with
  | O, _ => mret tt
  | S n, b :: bs => act (put_byte i off b);; put_bytes n i (off + 1) bs
  | S n, [] => act (oops OutOfBounds)
  end.

(** copy_to_user(ubuf, d->buf + off, count), with the bytes handed over. *)
Definition copy_out (i ubuf off count : Z) : M W mydevs (Z * list byte) :=
  d ← get_dev i;
  if in_bounds off count (zlen (buf d)) then
    r ← copy_to_user ubuf (sub off count (buf d)); mret (r, sub off count (buf d))
  else oops OutOfBounds.

Definition mydev_read_p (i ubuf count ppos : Z) : P answer :=
  rc ← lock_intr_p (mydev_lock i);
  if negb (rc =? 0) then mret (- ERESTARTSYS, ppos, [])
  else
    n ← act (get_len i);
    if n <=? u64 ppos then
      unlock_p (mydev_lock i);; mret (0, ppos, [])
    else
      let count := if u64 (n - ppos) <? count then u64 (n - ppos) else count in
      '(r, out) ← act (copy_out i ubuf ppos count);
      if negb (r =? 0) then
        unlock_p (mydev_lock i);; mret (- EFAULT, ppos, out)
      else
        unlock_p (mydev_lock i);; mret (count, ppos + count, out).

Definition mydev_write_p (i ubuf count ppos : Z) : P answer :=
  rc ← lock_intr_p (mydev_lock i);
  if negb (rc =? 0) then mret (- ERESTARTSYS, ppos, [])
  else
    d ← act (get_dev i);
    if BUF_SIZE <=? ppos then
      unlock_p (mydev_lock i);; mret (- ENOSPC, ppos, [])
    else
      let count := if u64 (BUF_SIZE - ppos) <? count then u64 (BUF_SIZE - ppos) else count in
      if in_bounds ppos count (zlen (buf d)) then
        '(r, bs) ← act (copy_from_user ubuf count);
        put_bytes (Z.to_nat count) i ppos bs;;
        if negb (r =? 0) then
          unlock_p (mydev_lock i);; mret (- EFAULT, ppos, bs)
        else
          let ppos' := ppos + count in
          n ← act (get_len i);
          (if n <? u64 ppos' then act (set_len i (u64 ppos')) else mret tt);;
          unlock_p (mydev_lock i);; mret (count, ppos', bs)
      else act (oops OutOfBounds).

Definition mydev_llseek_p (i f_pos off whence : Z) : P answer :=
  rc ← lock_intr_p (mydev_lock i);
  if negb (rc =? 0) then mret (- ERESTARTSYS, f_pos, [])
  else
    n ← act (get_len i);
    let newpos := if whence =? SEEK_SET then Some off
                  else if whence =? SEEK_CUR then Some (s64 (f_pos + off))
                  else if whence =? SEEK_END then Some (s64 (u64 (n + off)))
                  else None in
    match newpos with
    | None => unlock_p (mydev_lock i);; mret (- EINVAL, f_pos, [])
    | Some newpos =>
        if (newpos <? 0) || (BUF_SIZE <? newpos) then
          unlock_p (mydev_lock i);; mret (- EINVAL, f_pos, [])
        else
          unlock_p (mydev_lock i);; mret (newpos, newpos, [])
    end.

Definition data_show_p (i pos : Z) : P answer :=
  rc ← lock_intr_p (mydev_lock i);
  if negb (rc =? 0) then mret (- ERESTARTSYS, pos, [])
  else
    n ← act (get_len i);
    out ← act (d ← get_dev i; mret (until_nul (take (Z.to_nat (s32 n)) (buf d)) ++ [LF]));
    unlock_p (mydev_lock i);; mret (zlen out, pos, out).

Definition data_store_p (i pos : Z) (page : list byte) (count : Z) : P answer :=
  rc ← lock_intr_p (mydev_lock i);
  if negb (rc =? 0) then mret (- ERESTARTSYS, pos, [])
  else
    let count := if BUF_SIZE <? count then BUF_SIZE else count in
    d ← act (get_dev i);
    if in_bounds 0 count (zlen page) && in_bounds 0 count (zlen (buf d)) then
      put_bytes (Z.to_nat count) i 0 (sub 0 count page);;
      act (set_len i count);;
      unlock_p (mydev_lock i);; mret (count, pos, [])
    else act (oops OutOfBounds).

Definition stats_show_p (i pos : Z) : P answer :=
  rc ← lock_intr_p (mydev_lock i);
  if negb (rc =? 0) then mret (- ERESTARTSYS, pos, [])
  else
    n ← act (get_len i);
    let out := bytes_of "len=" ++ dec n ++ [LF] in
    unlock_p (mydev_lock i);; mret (zlen out, pos, out).

Definition reset_store_p (i pos : Z) (page : list byte) (count : Z) : P answer :=
  rc ← lock_intr_p (mydev_lock i);
  if negb (rc =? 0) then mret (- ERESTARTSYS, pos, [])
  else
    d ← act (get_dev i);
    act (set_len i 0);;
    if in_bounds 0 BUF_SIZE (zlen (buf d)) then
      put_bytes (Z.to_nat BUF_SIZE) i 0 (replicate (Z.to_nat BUF_SIZE) NUL);;
      unlock_p (mydev_lock i);; mret (count, pos, [])
    else act (oops OutOfBounds).

Definition call_p (c : request) : P answer :=
  let 'Request i pos o := c in
  match o with
  | ORead ubuf count => mydev_read_p i ubuf count pos
  | OWrite ubuf count => mydev_write_p i ubuf count pos
  | OSeek off whence => mydev_llseek_p i pos off whence
  | ODataShow => data_show_p i pos
  | ODataStore page => data_store_p i pos page (zlen page)
  | OStatsShow => stats_show_p i pos
  | OResetStore page => reset_store_p i pos page (zlen page)
  end.
End Calls.

(** ** A call without interference is the handler *)

Section Alone.
Context {W : Type} `{UserAccessOk W} `{!Signals W}.

Lemma with_dev_twice i (d d' : mydev) ds : with_dev i d (with_dev i d' ds) = with_dev i d ds.
Proof. apply list_insert_insert_eq. Qed.

Lemma run_dev_bytes n i off bs d ds (w : W) h l :
  length bs = n -> 0 <= off -> off + zlen bs <= zlen (buf d) -> zget ds i = Some d ->
  run (put_bytes n i off bs) (KSt ds w h l) =
    Done (tt, KSt (with_dev i (MyDev (dev d) (upd off bs (buf d)) (len d)) ds) w h l).
Proof.
  intros <-. revert off d ds. induction bs as [|b bs IH]; intros off d ds Ho Hl Hd; simpl.
  - replace (MyDev _ _ _) with d; [by rewrite with_dev_same|].
    unfold upd. simpl. rewrite Nat.add_0_r, take_drop. by destruct d.
  - pose proof (zlen_nonneg bs). assert (E : zlen (b :: bs) = zlen bs + 1) by (unfold zlen; simpl; lia).
    unfold put_byte, get_dev, put_dev, modify, get, mbind, M_bind. simpl. rewrite Hd. simpl. unfold set_drv. simpl.
    change (<[Z.to_nat i:=?x]> ds) with (with_dev i x ds).
    rewrite (IH _ (MyDev (dev d) (upd off [b] (buf d)) (len d))); simpl.
    + by rewrite with_dev_twice, upd_split.
    + lia.
    + rewrite zlen_upd; [lia | lia | change (zlen [b]) with 1; lia].
    + by eapply with_dev_get.
Qed.
End Alone.
Section Same.
Context {W : Type} `{UserAccessOk W} `{!Signals W}.

(** Looking at a device. *)
Lemma get_dev_at {B} i (f : mydev -> M W mydevs B) ds w h l :
  (get_dev i ≫= f) (KSt ds w h l) =
    match zget ds i with Some d => f d (KSt ds w h l) | None => Oops BadPointer end.
Proof. unfold get_dev, get, mbind, M_bind. simpl. by destruct (zget ds i). Qed.

Lemma run_get_dev_at {A B} i (f : mydev -> prog W mydevs A) (g : A -> prog W mydevs B) ds w h l :
  run ((act (get_dev i) ≫= f) ≫= g) (KSt ds w h l) =
    match zget ds i with Some d => run (f d ≫= g) (KSt ds w h l) | None => Oops BadPointer end.
Proof. apply (get_dev_at i (fun d => run (f d ≫= g))). Qed.

Lemma run_get_len_at {A B} i (f : Z -> prog W mydevs A) (g : A -> prog W mydevs B) ds w h l :
  run ((act (get_len i) ≫= f) ≫= g) (KSt ds w h l) =
    match zget ds i with Some d => run (f (len d) ≫= g) (KSt ds w h l) | None => Oops BadPointer end.
Proof.
  change ((get_len i ≫= fun n => run (f n ≫= g)) (KSt ds w h l) =
          match zget ds i with Some d => run (f (len d) ≫= g) (KSt ds w h l) | None => Oops BadPointer end).
  unfold get_len. rewrite bind_assoc_meq, get_dev_at. by destruct (zget ds i).
Qed.

(** Asking for the mutex first. *)
Lemma run_section {A B} k (f : Z -> prog W mydevs A) (g : A -> prog W mydevs B) (f' : Z -> M W mydevs B) :
  (forall rc ds w h l, run (f rc ≫= g) (KSt ds w h l) = f' rc (KSt ds w h l)) ->
  run ((lock_intr_p k ≫= f) ≫= g) ≡ₑ (mutex_lock_interruptible k ≫= f').
Proof. intros Hf [ds w h l]. apply bind_at; [done|]. intros rc ds1 w1 h1 l1. apply Hf. Qed.

(** Changing it. *)
Lemma put_dev_at {B} i d (f : unit -> M W mydevs B) ds w h l :
  (put_dev i d ≫= f) (KSt ds w h l) = f tt (KSt (with_dev i d ds) w h l).
Proof. done. Qed.

Lemma run_set_len_at {A B} i n (f : unit -> prog W mydevs A) (g : A -> prog W mydevs B) d ds w h l :
  zget ds i = Some d ->
  run ((act (set_len i n) ≫= f) ≫= g) (KSt ds w h l) =
    run (f tt ≫= g) (KSt (with_dev i (MyDev (dev d) (buf d) n) ds) w h l).
Proof.
  intros Hd. change ((set_len i n ≫= fun b => run (f b ≫= g)) (KSt ds w h l) =
    run (f tt ≫= g) (KSt (with_dev i (MyDev (dev d) (buf d) n) ds) w h l)).
  unfold set_len. by rewrite bind_assoc_meq, get_dev_at, Hd, put_dev_at.
Qed.

(** Bytes stored in the device that is [d]. *)
Lemma run_put_bytes_at {A B} n i off bs (f : unit -> prog W mydevs A) (g : A -> prog W mydevs B) d ds w h l :
  zget ds i = Some d -> zlen bs = Z.of_nat n -> in_bounds off (zlen bs) (zlen (buf d)) = true ->
  run ((put_bytes n i off bs ≫= f) ≫= g) (KSt ds w h l) =
    run (f tt ≫= g) (KSt (with_dev i (MyDev (dev d) (upd off bs (buf d)) (len d)) ds) w h l).
Proof.
  intros Hd Hn (Ho & _ & Hl)%in_bounds_spec. rewrite run_bind. unfold mbind at 1, M_bind. rewrite run_bind.
  unfold mbind at 1, M_bind. rewrite (run_dev_bytes n i off bs d); [|unfold zlen in *; lia | done | done | done].
  rewrite run_bind. done.
Qed.

(** The first look at the device. *)
Ltac look i d Hd :=
  apply run_section; intros rc ds w h l; cbv beta; destruct (negb (rc =? 0)); [done|];
  rewrite ?bind_assoc_meq, ?run_get_len_at, ?run_get_dev_at, ?get_dev_at; destruct (zget ds i) as [d|] eqn:Hd; [|done].

Lemma run_read i pos ubuf count :
  run (r ← mydev_read_p (W := W) i ubuf count pos; mret r.1) ≡ₑ mydev_read (Some i) ubuf count pos.
Proof.
  look i d Hd. destruct (len d <=? u64 pos); [done|]. cbv zeta.
  change (run ((act ?m ≫= ?f) ≫= ?g)) with (m ≫= fun b => run (f b ≫= g)).
  unfold copy_out. rewrite bind_assoc_meq, get_dev_at, Hd. destruct (in_bounds _ _ _); [|done].
  rewrite bind_assoc_meq. apply bind_at; [done|]. intros r ds1 w1 h1 l1.
  rewrite bind_ret. by destruct (negb (r =? 0)).
Qed.

Lemma run_write i pos ubuf count :
  run (r ← mydev_write_p (W := W) i ubuf count pos; mret r.1) ≡ₑ mydev_write (Some i) ubuf count pos.
Proof.
  look i d Hd. destruct (BUF_SIZE <=? pos); [done|]. cbv zeta.
  destruct (in_bounds _ _ _) eqn:Hb; [|done]. apply in_bounds_spec in Hb as (Ho & Hn & Hl).
  set (n := if u64 (BUF_SIZE - pos) <? count then _ else _) in *. clearbody n.
  change (run ((act ?m ≫= ?f) ≫= ?g)) with (m ≫= fun b => run (f b ≫= g)).
  apply bind_cfu_at; [done|]. intros r bs w2 Hbs. cbv beta.
  rewrite (run_put_bytes_at _ _ _ _ _ _ d) by (rewrite ?Hbs, ?in_bounds_true; done || lia).
  destruct (negb (r =? 0)); [done|].
  rewrite run_get_len_at, (with_dev_get _ _ _ _ Hd). cbn [len]. rewrite put_dev_at.
  destruct (len d <? u64 (pos + n)); [|done].
  by rewrite (run_set_len_at _ _ _ _ _ _ _ _ _ (with_dev_get _ _ _ _ Hd)), with_dev_twice.
Qed.

Lemma run_llseek i pos off whence :
  run (r ← mydev_llseek_p (W := W) i pos off whence; mret r.1) ≡ₑ mydev_llseek (Some i) pos off whence.
Proof. look i d Hd. cbv zeta. destruct (if whence =? SEEK_SET then _ else _); [by case_match | done]. Qed.

Lemma run_data_show i pos :
  run (r ← data_show_p (W := W) i pos; mret r.1) ≡ₑ (r ← data_show (Some i); mret (r.1, pos)).
Proof.
  unfold data_show. intros σ. rewrite bind_assoc_meq. revert σ. look i d Hd. cbv zeta.
  change (run ((act ?m ≫= ?f) ≫= ?g)) with (m ≫= fun b => run (f b ≫= g)).
  by rewrite bind_assoc_meq, get_dev_at, Hd, bind_ret, bind_assoc_meq.
Qed.

Lemma run_data_store i pos page count :
  run (r ← data_store_p (W := W) i pos page count; mret r.1) ≡ₑ
  (rc ← data_store (Some i) page count; mret (rc, pos)).
Proof.
  unfold data_store. intros σ. rewrite bind_assoc_meq. revert σ. look i d Hd. cbv zeta.
  set (n := if BUF_SIZE <? count then _ else _). clearbody n.
  destruct (in_bounds 0 n (zlen page)) eqn:Hp; [|done].
  destruct (in_bounds 0 n (zlen (buf d))) eqn:Hb; [|done]. simpl andb. cbv iota.
  pose proof Hp as (_ & Hn & Hl)%in_bounds_spec.
  rewrite (run_put_bytes_at _ _ _ _ _ _ d) by (rewrite ?zlen_sub by lia; done || lia).
  rewrite (run_set_len_at _ _ _ _ _ _ _ _ _ (with_dev_get _ _ _ _ Hd)), with_dev_twice. cbn [dev buf].
  by rewrite bind_assoc_meq, put_dev_at, bind_assoc_meq.
Qed.

Lemma run_stats_show i pos :
  run (r ← stats_show_p (W := W) i pos; mret r.1) ≡ₑ (r ← stats_show (Some i); mret (r.1, pos)).
Proof.
  unfold stats_show. intros σ. rewrite bind_assoc_meq. revert σ. look i d Hd. cbv zeta.
  by rewrite bind_assoc_meq.
Qed.

Lemma run_reset_store i pos page count :
  run (r ← reset_store_p (W := W) i pos page count; mret r.1) ≡ₑ
  (rc ← reset_store (Some i) page count; mret (rc, pos)).
Proof.
  unfold reset_store. intros σ. rewrite bind_assoc_meq. revert σ. look i d Hd.
  rewrite (run_set_len_at _ _ _ _ _ _ _ _ _ Hd). destruct (in_bounds 0 BUF_SIZE (zlen (buf d))) eqn:Hb; [|done].
  rewrite (run_put_bytes_at _ _ _ _ _ _ _ _ _ _ _ (with_dev_get _ _ _ _ Hd)) by (rewrite ?zlen_replicate; done).
  by rewrite with_dev_twice, bind_assoc_meq, put_dev_at, bind_assoc_meq.
Qed.

Lemma run_call_alone (c : request) :
  run (r ← call_p (W := W) c; mret r.1) ≡ₑ run_mydev_op (r_dev c) (r_pos c) (r_op c).
Proof.
  destruct c as [i pos [ubuf count | ubuf count | off whence | | page | | page]]; simpl.
  - apply run_read.
  - apply run_write.
  - apply run_llseek.
  - apply run_data_show.
  - apply (run_data_store i pos page).
  - apply run_stats_show.
  - apply (run_reset_store i pos page).
Qed.
End Same.

(** ** What each call does to its device *)

Definition effect (pos : Z) (o : mydev_op) (d : mydev) (a : answer) (d' : mydev) : Prop :=
  let '(r, out) := a in
  match o with
  | ORead _ count =>
      let n := Z.min count (len d - pos) in
      d' = d /\
      (len d <= pos /\ r = (0, pos) /\ out = [] \/
       pos < len d /\ out = sub pos n (buf d) /\ (r = (- EFAULT, pos) \/ r = (n, pos + n)))
  | OWrite _ count =>
      let n := room count pos in
      BUF_SIZE <= pos /\ r = (- ENOSPC, pos) /\ out = [] /\ d' = d \/
      pos < BUF_SIZE /\ zlen out = n /\
      (r = (- EFAULT, pos) /\ d' = MyDev (dev d) (upd pos out (buf d)) (len d) \/
       r = (n, pos + n) /\ d' = MyDev (dev d) (upd pos out (buf d)) (Z.max (len d) (pos + n)))
  | OSeek off whence =>
      d' = d /\ out = [] /\ r <> (- ERESTARTSYS, pos) /\ seek_result d pos off whence r
  | ODataShow =>
      d' = d /\ out = until_nul (take (Z.to_nat (len d)) (buf d)) ++ [LF] /\ r = (zlen out, pos)
  | ODataStore page =>
      let n := Z.min (zlen page) BUF_SIZE in
      d' = MyDev (dev d) (upd 0 (sub 0 n page) (buf d)) n /\ out = [] /\ r = (n, pos)
  | OStatsShow => d' = d /\ out = bytes_of "len=" ++ dec (len d) ++ [LF] /\ r = (zlen out, pos)
  | OResetStore page =>
      d' = MyDev (dev d) (replicate (Z.to_nat BUF_SIZE) NUL) 0 /\ out = [] /\ r = (zlen page, pos)
  end.

(** The part of a mutex: its device. *)
Definition part (l : lock) (ds : mydevs) : option mydev :=
  let 'Lock name i := l in if String.eqb name "mydevs.lock" then zget ds i else None.

Lemma part_dev i ds : part (mydev_lock i) ds = zget ds i.
Proof. done. Qed.

Lemma part_other i l d d' ds :
  zget ds i = Some d -> l <> mydev_lock i -> part l (with_dev i d' ds) = part l ds.
Proof.
  intros Hd Hl. destruct l as [n j]. simpl. destruct (String.eqb_spec n "mydevs.lock") as [->|]; [|done].
  destruct (decide (0 <= j)); [|unfold zget; by destruct (Z.leb_spec 0 j); [lia|]].
  apply with_dev_other; [by intros -> | by eapply zget_Some | done].
Qed.

Section Linearizable.
Context {W : Type} `{UserAccessOk W} `{!Signals W}.
Context (i : Z) (Hi : 0 <= i < MYDEV_COUNT).
Local Abbreviation alone p := (alone (W := W) (A := answer) mydevs_ok part (mydev_lock i) p).
Local Abbreviation P := (prog W mydevs answer).
Implicit Types (Q : answer -> option mydev -> Prop).

(** A step that leaves the device as [d']. *)
Lemma alone_step {B} (m : M W mydevs B) (f : B -> P) d Q :
  (forall ds w, mydevs_ok ds -> mydev_ok d -> zget ds i = Some d ->
     wp m (fun b σ => exists d', drv σ = with_dev i d' ds /\ mydev_ok d' /\ held σ = [mydev_lock i] /\
                                 ledger σ = [] /\ alone (f b) (Some d') Q) (KSt ds w [mydev_lock i] [])) ->
  alone (act m ≫= f) (Some d) Q.
Proof.
  intros Hm ds w Hds Hd. rewrite part_dev in Hd.
  destruct (mydevs_ok_get ds i Hds Hi) as (d0 & Hd0 & Hok). assert (d0 = d) as -> by congruence.
  eapply wp_mono; [by apply Hm|]. intros b σ (d' & Hs & Hok' & Hh & Hl & Ha). rewrite Hs. split_and!.
  - by apply with_dev_ok.
  - intros l Hne. by eapply part_other.
  - done.
  - left. split; [done|]. rewrite part_dev. by erewrite with_dev_get.
Qed.

(** A step that leaves the device as it is. *)
Lemma alone_quiet {B} (m : M W mydevs B) (R : B -> Prop) (f : B -> P) d Q :
  (forall ds w, mydevs_ok ds -> mydev_ok d -> zget ds i = Some d ->
     wp m (fun b σ => drv σ = ds /\ held σ = [mydev_lock i] /\ ledger σ = [] /\ R b) (KSt ds w [mydev_lock i] [])) ->
  (forall b, R b -> mydev_ok d -> alone (f b) (Some d) Q) ->
  alone (act m ≫= f) (Some d) Q.
Proof.
  intros Hm Hf. apply alone_step. intros ds w Hds Hok Hd. eapply wp_mono; [by apply Hm|].
  intros b σ (Hs & Hh & Hl & Hr). exists d. rewrite (with_dev_same _ _ _ Hd). split_and!; auto.
Qed.

(** The first look at the device. *)
Lemma alone_look {B} (g : mydev -> B) (f : B -> P) x Q :
  (forall d, x = Some d -> mydev_ok d -> alone (f (g d)) (Some d) Q) ->
  alone (act (d ← get_dev i; mret (g d)) ≫= f) x Q.
Proof.
  intros Hf ds w Hds Hx. rewrite part_dev in Hx. destruct (mydevs_ok_get ds i Hds Hi) as (d & Hd & Hok).
  unfold wp. rewrite get_dev_at, Hd. simpl. split_and!; try done. left. split; [done|].
  rewrite Hd. apply Hf; [congruence | done].
Qed.

Lemma alone_get_dev (f : mydev -> P) x Q :
  (forall d, x = Some d -> mydev_ok d -> alone (f d) (Some d) Q) -> alone (act (get_dev i) ≫= f) x Q.
Proof.
  intros Hf ds w Hds Hx. rewrite part_dev in Hx. destruct (mydevs_ok_get ds i Hds Hi) as (d & Hd & Hok).
  apply wp_get_dev with d; [done|]. split_and!; try done. left. split; [done|].
  rewrite part_dev. simpl. rewrite Hd. apply Hf; [congruence | done].
Qed.

Lemma alone_unlock (a : answer) d Q : Q a (Some d) -> alone (unlock_p (mydev_lock i);; mret a) (Some d) Q.
Proof.
  intros HQ ds w Hds Hx. unfold mutex_unlock. apply wp_unlock. simpl. split_and!; try done. right.
  split; [done|]. exists a. split; [done|]. simpl in Hx. by rewrite Hx.
Qed.

Lemma alone_set_len n (f : unit -> P) d Q :
  0 <= n <= BUF_SIZE -> alone (f tt) (Some (MyDev (dev d) (buf d) n)) Q -> alone (act (set_len i n) ≫= f) (Some d) Q.
Proof.
  intros Hn Hf. apply alone_step. intros ds w Hds [Hb Hl] Hd. unfold set_len.
  unfold wp. rewrite get_dev_at, Hd. simpl. by exists (MyDev (dev d) (buf d) n).
Qed.

Lemma alone_put_bytes n off bs (f : unit -> P) d Q :
  length bs = n -> 0 <= off -> off + zlen bs <= BUF_SIZE ->
  (mydev_ok d -> alone (f tt) (Some (MyDev (dev d) (upd off bs (buf d)) (len d))) Q) ->
  mydev_ok d -> alone (put_bytes n i off bs ≫= f) (Some d) Q.
Proof.
  intros <-. revert off d. induction bs as [|b bs IH]; intros off d Ho Hl Hf Hok.
  - replace (MyDev _ _ _) with d in Hf; [by apply Hf|].
    unfold upd. simpl. rewrite Nat.add_0_r, take_drop. by destruct d.
  - pose proof (zlen_nonneg bs). assert (E : zlen (b :: bs) = zlen bs + 1) by (unfold zlen; simpl; lia).
    assert (E1 : zlen [b] = 1) by done. pose proof Hok as [Hb Hln].
    apply (alone_step (put_byte i off b) (fun _ => put_bytes (length bs) i (off + 1) bs ≫= f)).
    intros ds w Hds _ Hd. unfold put_byte, wp. rewrite get_dev_at, Hd. simpl.
    exists (MyDev (dev d) (upd off [b] (buf d)) (len d)).
    assert (Hok' : mydev_ok (MyDev (dev d) (upd off [b] (buf d)) (len d))).
    { split; simpl; [rewrite zlen_upd; lia | done]. }
    split_and!; try done. apply IH; [lia | lia | | done]. intros _. simpl.
    rewrite upd_split by lia. by apply Hf.
Qed.

(** The result and the effect of [o] as a postcondition. *)
Definition does (pos : Z) (o : mydev_op) (x : option mydev) (a : answer) (x' : option mydev) : Prop :=
  exists d d', x = Some d /\ x' = Some d' /\ effect pos o d a d'.

Local Abbreviation sectioned p := (sectioned (W := W) (A := answer) mydevs_ok part p).

(** Every call asks for the mutex and gives up when it is interrupted. *)
Lemma sectioned_lock (f : Z -> P) eff :
  (forall x, alone (f 0) x (eff x)) -> (forall rc, rc <> 0 -> exists a, f rc = Ret a) ->
  sectioned (lock_intr_p (mydev_lock i) ≫= f) eff.
Proof. by split. Qed.

(** The common start of a proof: the interrupted call, the first look. *)
Ltac start :=
  apply sectioned_lock; [intros x | intros rc Hrc; rewrite (proj2 (Z.eqb_neq rc 0) Hrc); by eexists];
  change (negb (0 =? 0)) with false; cbv iota;
  (apply alone_look || apply alone_get_dev); intros d -> [Hb Hl]; cbv zeta.

Ltac finish := apply alone_unlock; eexists _, _; split_and!; [done..|]; simpl.

Lemma read_sectioned pos ubuf count :
  vfs_ok pos count -> sectioned (mydev_read_p i ubuf count pos) (does pos (ORead ubuf count)).
Proof.
  intros [Hp Hc]. start. unfold BUF_SIZE, MAX_RW_COUNT in *. rewrite (u64_small pos) by lia.
  destruct (Z.leb_spec (len d) pos); [finish; auto|]. rewrite u64_small by lia.
  replace (if len d - pos <? count then len d - pos else count)
    with (Z.min count (len d - pos)) by (destruct (Z.ltb_spec (len d - pos) count); lia).
  eapply (alone_quiet _ (fun b => b.2 = sub pos (Z.min count (len d - pos)) (buf d))).
  - intros ds w Hds _ Hd. unfold copy_out, wp. rewrite get_dev_at, Hd, in_bounds_true by lia.
    unfold copy_to_user, call, mbind, M_bind. simpl. by destruct (k_copy_to_user _ _ _).
  - intros [r out] Hout _. simpl in Hout. subst out. destruct (negb (r =? 0)); finish; auto 10.
Qed.

Lemma write_sectioned pos ubuf count :
  vfs_ok pos count -> sectioned (mydev_write_p i ubuf count pos) (does pos (OWrite ubuf count)).
Proof.
  intros Hv. pose proof Hv as [Hp Hc]. start.
  destruct (Z.leb_spec BUF_SIZE pos); [finish; auto|]. rewrite room_code by done.
  assert (Hn : 0 <= room count pos <= BUF_SIZE - pos) by (unfold room; lia).
  rewrite in_bounds_true by lia.
  apply (alone_quiet _ (fun b => zlen b.2 = room count pos)).
  - intros ds w Hds _ Hd. wp_step. split_and!; try done. by eapply cfu_zlen; [|done]; lia.
  - intros [r bs] Hz Hok. simpl in Hz.
    apply alone_put_bytes; [unfold zlen in Hz; lia | lia | lia | | done]. intros _.
    destruct (negb (r =? 0)); [finish; auto 10|].
    apply alone_look. intros d1 [= <-] _. simpl. rewrite u64_small by (unfold BUF_SIZE in *; lia).
    destruct (Z.ltb_spec (len d) (pos + room count pos)).
    + apply alone_set_len; [lia|]. finish. right. split_and!; try done. right. split; [done|].
      by rewrite Z.max_r by lia.
    + apply alone_unlock. eexists _, _. split_and!; [done..|]. simpl. right. split_and!; try done. right.
      split; [done|]. by rewrite Z.max_l by lia.
Qed.

Lemma seek_sectioned pos off whence :
  0 <= pos < 2 ^ 63 -> - 2 ^ 63 <= off < 2 ^ 63 ->
  sectioned (mydev_llseek_p i pos off whence) (does pos (OSeek off whence)).
Proof.
  intros Hp Ho. start.
  assert (Hno : forall t, 0 <= t -> (t, t) <> (- ERESTARTSYS, pos)) by (intros t Ht [= -> _]; done).
  assert (Hin : (- EINVAL, pos) <> (- ERESTARTSYS, pos)) by done.
  assert (Hend : forall a b, 0 <= a < 2 ^ 63 -> - 2 ^ 63 <= b < 2 ^ 63 -> seek_target d pos off whence = Some (a + b) ->
    alone (if (s64 (a + b) <? 0) || (BUF_SIZE <? s64 (a + b))
           then unlock_p (mydev_lock i);; mret (- EINVAL, pos, [])
           else unlock_p (mydev_lock i);; mret (s64 (a + b), s64 (a + b), []))
          (Some d) (does pos (OSeek off whence) (Some d))).
  { intros a b Ha Hab Ht. destruct (s64_seek a b Ha Hab) as [-> Hs].
    destruct (decide (0 <= a + b <= BUF_SIZE)) as [Hr|Hr].
    - rewrite bool_decide_true by done. simpl negb. cbv iota. rewrite Hs by done. finish.
      split_and!; auto; [apply Hno; lia|]. right. by rewrite Ht, decide_True.
    - rewrite bool_decide_false by done. simpl negb. cbv iota. finish.
      split_and!; auto. right. by rewrite Ht, decide_False. }
  unfold seek_target in Hend. destruct (whence =? SEEK_SET) eqn:E1.
  { specialize (Hend 0 off ltac:(lia) Ho eq_refl). by rewrite Z.add_0_l, s64_small in Hend by lia. }
  destruct (whence =? SEEK_CUR) eqn:E2; [by apply Hend|]. destruct (whence =? SEEK_END) eqn:E3.
  - replace (s64 (u64 (len d + off))) with (s64 (len d + off)) by (unfold swrap, uwrap; dlia).
    apply Hend; [unfold BUF_SIZE in *; lia | done | done].
  - finish. split_and!; auto. right. unfold seek_target. by rewrite E1, E2, E3.
Qed.

Lemma data_show_sectioned pos : sectioned (data_show_p i pos) (does pos ODataShow).
Proof.
  start. apply alone_look. intros d1 [= <-] _. finish. rewrite s32_small by (unfold is_int, INT_MIN, INT_MAX, BUF_SIZE in *; lia). done.
Qed.

Lemma data_store_sectioned pos page :
  sectioned (data_store_p i pos page (zlen page)) (does pos (ODataStore page)).
Proof.
  pose proof (zlen_nonneg page). start.
  replace (if BUF_SIZE <? zlen page then BUF_SIZE else zlen page) with (Z.min (zlen page) BUF_SIZE)
    by (destruct (Z.ltb_spec BUF_SIZE (zlen page)); lia).
  unfold BUF_SIZE in *. rewrite !in_bounds_true by lia. simpl andb. cbv iota.
  assert (Hz : zlen (sub 0 (Z.min (zlen page) 1024) page) = Z.min (zlen page) 1024) by (apply zlen_sub; lia).
  apply alone_put_bytes; [unfold zlen in *; lia | lia | unfold BUF_SIZE; lia | | done]. intros _.
  apply alone_set_len; [unfold BUF_SIZE; lia|]. by finish.
Qed.

Lemma stats_show_sectioned pos : sectioned (stats_show_p i pos) (does pos OStatsShow).
Proof. start. by finish. Qed.

Lemma reset_store_sectioned pos page :
  sectioned (reset_store_p i pos page (zlen page)) (does pos (OResetStore page)).
Proof.
  start. rewrite Hb, in_bounds_true by done. apply alone_set_len; [unfold BUF_SIZE; lia|].
  assert (Hz : zlen (replicate (Z.to_nat BUF_SIZE) NUL) = BUF_SIZE) by (by rewrite zlen_replicate).
  apply alone_put_bytes; [apply length_replicate | lia | lia | | by split; [|unfold BUF_SIZE; simpl; lia]].
  intros _. finish. split_and!; try done. f_equal.
  assert (Hn : length (buf d) = Z.to_nat BUF_SIZE) by (unfold zlen in Hb; lia).
  unfold upd. rewrite length_replicate, <- Hn. simpl. by rewrite drop_all, app_nil_r.
Qed.

Lemma call_sectioned pos o : mydev_op_ok pos o -> sectioned (call_p (Request i pos o)) (does pos o).
Proof.
  intros [Hp Ho]. destruct o as [ubuf count | ubuf count | off whence | | page | | page].
  - by apply read_sectioned.
  - by apply write_sectioned.
  - by apply seek_sectioned.
  - apply data_show_sectioned.
  - apply data_store_sectioned.
  - apply stats_show_sectioned.
  - apply reset_store_sectioned.
Qed.
End Linearizable.

(** ** Any number of calls *)

Definition request_ok (c : request) : Prop :=
  0 <= r_dev c < MYDEV_COUNT /\ mydev_op_ok (r_pos c) (r_op c).

(** What the [j]-th of the calls does to the device it is made on. *)
Definition effects (cs : list request) (j : nat) (x : option mydev) (a : answer) (x' : option mydev) : Prop :=
  exists c d d', cs !! j = Some c /\ x = Some d /\ x' = Some d' /\ effect (r_pos c) (r_op c) d a d'.

Section Pool.
Context {W : Type} `{UserAccessOk W} `{!Signals W}.

Definition started (ds : mydevs) (w : W) (cs : list request) : pool (A := answer) :=
  Pool ds w (calls_of (call_p <$> cs)).

Lemma calls_sectioned cs j p :
  Forall request_ok cs -> (call_p (W := W) <$> cs) !! j = Some p ->
  sectioned (A := answer) mydevs_ok part p (effects cs j).
Proof.
  intros Hcs Hj. rewrite list_lookup_fmap in Hj. destruct (cs !! j) as [[i pos o]|] eqn:Hc; simplify_eq/=.
  destruct (Forall_lookup_1 _ _ _ _ Hcs Hc) as [Hi Ho]. pose proof (call_sectioned (W := W) i Hi pos o Ho) as Hs.
  change (sectioned mydevs_ok part (call_p (W := W) (Request i pos o)) (effects cs j)).
  eapply sectioned_mono; [|by apply call_sectioned].
  intros x a x' (d & d' & -> & -> & Heff). by exists (Request i pos o), d, d'.
Qed.

Lemma call_p_asks (c : request) : exists k : Z -> prog W mydevs answer,
  call_p c = Acq (mydev_lock (r_dev c)) true k /\
  forall rc, rc <> 0 -> k rc = Ret (- ERESTARTSYS, r_pos c, []).
Proof.
  destruct c as [i pos [ubuf count | ubuf count | off whence | | page | | page]]; simpl;
    eexists; (split; [reflexivity|]); intros rc Hrc; simpl; by rewrite (proj2 (Z.eqb_neq rc 0) Hrc).
Qed.

(** The number of steps of a call is bounded. *)
Lemma dev_bytes_within n i off bs : within n (put_bytes (W := W) n i off bs).
Proof. revert off bs. induction n as [|n IH]; intros off [|b bs]; [done.. |]. intros []. apply IH. Qed.

Hint Resolve dev_bytes_within : within.

Lemma request_within c : exists n, within n (call_p (W := W) c).
Proof.
  destruct c as [i pos [ubuf count | ubuf count | off whence | | page | | page]]; cbn [call_p]; eexists.
  - unfold mydev_read_p. bound.
  - unfold mydev_write_p. bound.
  - unfold mydev_llseek_p. bound.
  - unfold data_show_p. bound.
  - unfold data_store_p. bound.
  - unfold stats_show_p. bound.
  - unfold reset_store_p. bound.
Qed.

Lemma started_linear ds (w : W) cs ts :
  mydevs_ok ds -> Forall request_ok cs ->
  exists p, exec pool_step ts (Done (started ds w cs)) = Done p /\
    pool_ok mydevs_ok (fun _ => True) (keeps part) (only part) p /\
    linear mydevs_ok part (call_p <$> cs) (effects cs) ds (history ts (started ds w cs)) p.
Proof.
  intros Hds Hcs. apply (pool_linear mydevs_ok part (call_p <$> cs) (effects cs) ds w ts Hds).
  intros j p Hj. by apply calls_sectioned.
Qed.

(** C3. Read, write, seek and the sysfs attributes of the two-device driver,
    any number of calls overlapping step by step in any order, behave as if
    each had happened in one piece: no access is out of bounds, both devices
    stay well-formed, every call that has returned either was interrupted
    while it waited and changed nothing, or stands exactly once in one list of
    calls, with the result it has returned, and what a device holds while
    nobody has locked it is what the calls of the list, one after the other,
    make of its first contents, byte for byte. A longer run only appends to the
    list, so a call that returned before another began comes before it. *)
Theorem mydev_linearizable (ds : mydevs) (w : W) (cs : list request) (ts : list nat)
    (Hds : mydevs_ok ds) (Hcs : Forall request_ok cs) :
  let es := history ts (started ds w cs) in
  exists p, exec pool_step ts (Done (started ds w cs)) = Done p /\ mydevs_ok (p_drv p) /\
    NoDup (who <$> es) /\
    (forall e, e ∈ es -> exists c t, cs !! who e = Some c /\ on e = mydev_lock (r_dev c) /\
                                     threads p !! who e = Some t /\ code t = Ret (what e)) /\
    (forall j t a, threads p !! j = Some t -> code t = Ret a ->
       (exists l, Event j l a ∈ es) \/ ~ (j ∈ who <$> es) /\ a.1.1 = - ERESTARTSYS) /\
    (forall i, free (mydev_lock i) (threads p) ->
       chain (effects cs) (mydev_lock i) es (zget ds i) (zget (p_drv p) i)) /\
    (forall ts', ts' `prefix_of` ts -> history ts' (started ds w cs) `prefix_of` es).
Proof.
  intros es. destruct (started_linear ds w cs ts Hds Hcs) as (p & Hp & Hok & [Hph Honce Hov Hfr]).
  exists p. split_and!; [done | apply Hok | done | | | |].
  - intros e He. destruct (Hov e He) as (t & intr & k & Ht & Hc & Hq).
    rewrite list_lookup_fmap in Hq. destruct (cs !! who e) as [c|] eqn:Hce; [|done]. simpl in Hq.
    destruct (call_p_asks c) as (k' & Hk & _). exists c, t. split_and!; try done. congruence.
  - intros j t a Ht Ha. destruct (Hph j t Ht) as (q & Hq & _ & Hcase).
    rewrite list_lookup_fmap in Hq. destruct (cs !! j) as [c|] eqn:Hc; simplify_eq/=.
    destruct (call_p_asks c) as (k & Hk & Hno). rewrite Hk, Ha in Hcase.
    destruct Hcase as [(Hbad & _)|[(l & intr & k' & x0 & _ & _ & _ & _ & [])|(a' & [= <-] & _ & Hf)]]; [done|].
    destruct Hf as [Hf|(Hn & _ & rc & Hrc & Hr)]; [left; by eexists | right].
    split; [done|]. rewrite Hno in Hr by done. by injection Hr as <-.
  - intros i Hf. apply (Hfr (mydev_lock i) Hf).
  - intros ts' [ts2 ->]. apply history_app.
Qed.

(** C92. However many calls overlap on the two devices, under every schedule
    that gives each of them turns again and again all of them return, and when
    they have, every mutex is free. *)
Theorem mydev_calls_return (ds : mydevs) (w : W) (cs : list request) (sched : nat -> nat)
    (Hds : mydevs_ok ds) (Hcs : Forall request_ok cs)
    (Hf : fair_among (fun j => (j < length cs)%nat) sched) :
  exists n p, runs pool_step sched n (Done (started ds w cs)) = Done p /\
    Forall (fun t => returned t = true /\ t_held t = []) (threads p).
Proof.
  assert (Hw : exists ns, Forall2 (fun t m => within m (code t)) (threads (started ds w cs)) ns).
  { simpl. clear. induction cs as [|c cs [ns IH]]; [by exists []|].
    destruct (request_within c) as [n Hn]. exists (n :: ns). by constructor. }
  destruct Hw as [ns Hns].
  destruct (started_linear ds w cs [] Hds Hcs) as (p0 & [= <-] & Hok & _).
  destruct (pool_returns mydevs_ok (fun _ => True) (keeps part) (only part) (keeps_pre part) ltac:(done)
              (only_keeps mydevs_ok part) ltac:(done) sched (sum_list ns) (started ds w cs)) as [n Hn].
  { split; [done|]. by exists ns. }
  { simpl. unfold calls_of. by rewrite !length_fmap. }
  exists n. rewrite runs_exec in *.
  destruct (started_linear ds w cs (sched <$> seq 0 n) Hds Hcs) as (p & Hp & Hokp & Hlin).
  exists p. split; [done|]. rewrite Hp in Hn. simpl in Hn.
  apply Forall_lookup. intros j t Ht. pose proof (Forall_lookup_1 _ _ _ _ Hn Ht) as Hr. split; [done|].
  pose proof (p_safe _ _ _ _ _ Hokp j t Ht) as Hs. unfold thread_safe in Hs. unfold returned in Hr.
  destruct (code t); try done. apply (Hs (p_drv p)); [apply keeps_pre | apply Hokp].
Qed.
End Pool.

(** ** The properties at concrete inputs *)

(** Two writes to the same place, a read of it, and a reset of the other
    device. *)
Definition clashing : list request :=
  [ Request 0 0 (OWrite 100 4); Request 0 0 (OWrite 110 4); Request 0 0 (ORead 120 4); Request 1 0 (OResetStore [LF]) ].

Lemma clashing_ok : Forall request_ok clashing.
Proof.
  repeat (apply Forall_cons; split); [.. | done].
  all: unfold request_ok, mydev_op_ok, MYDEV_COUNT, MAX_RW_COUNT; simpl; lia.
Qed.

(** The two writes take turns; the second waits for the mutex. *)
Definition clash_schedule : list nat :=
  [1; 0; 1; 3; 1; 0; 2; 1; 1; 1; 1; 3; 1; 1; 1; 1; 0; 0; 0; 0; 0; 0; 0; 0; 0; 0]%nat.

Lemma mydev_linearizable_witness :
  exists p, exec pool_step clash_schedule (Done (started [mydev_secret; mydev_secret] mydev_user clashing)) = Done p /\
    mydevs_ok (p_drv p).
Proof.
  destruct (mydev_linearizable [mydev_secret; mydev_secret] mydev_user clashing clash_schedule
              secret_devs_ok clashing_ok) as (p & E & Hp & _).
  exists p. split; [exact E | exact Hp].
Defined.

Lemma mydev_calls_return_witness :
  exists n p, runs pool_step (round_robin (seq 0 4) 0%nat) n
                (Done (started [mydev_secret; mydev_secret] mydev_user clashing)) = Done p /\
    Forall (fun t => returned t = true /\ t_held t = []) (threads p).
Proof.
  apply (mydev_calls_return _ _ _ _ secret_devs_ok clashing_ok). apply round_robin_below. simpl. lia.
Defined.

Lemma run_call_alone_witness :
  run (r ← call_p (Request 0 3 (OWrite 100 4)); mret r.1) (KSt [mydev_secret; mydev_secret] mydev_user [] []) =
  run_mydev_op 0 3 (OWrite 100 4) (KSt [mydev_secret; mydev_secret] mydev_user [] []).
Proof. apply (run_call_alone (Request 0 3 (OWrite 100 4))). Defined.

(** In this schedule the second write goes first, although both overlap. *)
Example clash_order :
  who <$> history clash_schedule (started [mydev_secret; mydev_secret] mydev_user clashing) = [1; 0]%nat.
Proof. vm_compute. reflexivity. Qed.
