(* ===== verification/Skeleton.v ===== *)
(** * 011_chrdev_skeleton: one buffer behind read and write

    driver.c keeps a 1024-byte buffer and how much of it is in use. Each write
    sets the size in use to where it ended, so a write in the middle cuts off
    what was behind it. [contents] is what a reader can see. *)

From S2P Require Import Prelude Kernel Wp Sim.

Definition BUF_SIZE : Z := 1024.

Record chrdev := ChrDev { buffer : list byte; buffer_size : Z }.

Section Skeleton.
Context {W : Type} `{UserAccess W}.

Definition my_open : M W chrdev Z := mret 0.
Definition my_release : M W chrdev Z := mret 0.

(** The result and the file position. *)
Definition my_read (buf len pos : Z) : M W chrdev (Z * Z) :=
  d ← get;
  if buffer_size d <=? u64 pos then mret (0, pos)
  else
    let available := u64 (buffer_size d - pos) in
    let len := if available <? len then available else len in
    if in_bounds pos len (zlen (buffer d)) then
      r ← copy_to_user buf (sub pos len (buffer d));
      if negb (r =? 0) then mret (- EFAULT, pos)
      else mret (len, pos + len)
    else oops OutOfBounds.

Definition my_write (buf len pos : Z) : M W chrdev (Z * Z) :=
  if BUF_SIZE <=? pos then mret (- ENOSPC, pos)
  else
    let available := u64 (BUF_SIZE - pos) in
    let len := if available <? len then available else len in
    d ← get;
    if in_bounds pos len (zlen (buffer d)) then
      '(r, bs) ← copy_from_user buf len;
      modify (fun d => ChrDev (upd pos bs (buffer d)) (buffer_size d));;
      if negb (r =? 0) then mret (- EFAULT, pos)
      else
        let pos := pos + len in
        modify (fun d => ChrDev (buffer d) (u64 pos));;
        mret (len, pos)
    else oops OutOfBounds.
End Skeleton.

Section Module_.
Context {W D : Type} `{Grants W}.

Definition dev_init : M W D Z :=
  ret ← alloc_chrdev_region;
  if ret <? 0 then mret ret
  else
    ret ← cdev_add 0;
    if ret <? 0 then unregister_chrdev_region;; mret ret
    else
      my_class ← class_create;
      if IS_ERR my_class then
        cdev_del 0;; unregister_chrdev_region;; mret (PTR_ERR my_class)
      else
        my_device ← device_create 0;
        if IS_ERR my_device then
          class_destroy;; cdev_del 0;; unregister_chrdev_region;; mret (PTR_ERR my_device)
        else mret 0.

Definition dev_exit : M W D unit :=
  device_destroy 0;; class_destroy;; cdev_del 0;; unregister_chrdev_region.
End Module_.

(** ** Invariant and what a reader sees *)

Record chrdev_ok (d : chrdev) : Prop := {
  ok_buffer : zlen (buffer d) = BUF_SIZE;
  ok_size : 0 <= buffer_size d <= BUF_SIZE;
}.

Definition contents (d : chrdev) : list byte := sub 0 (buffer_size d) (buffer d).

Definition chrdev0 : chrdev := ChrDev (replicate (Z.to_nat BUF_SIZE) NUL) 0.

Section Props.
Context {W : Type} `{UserAccessOk W}.
Implicit Types (d : chrdev) (w : W) (h : list lock) (l : list resource).

Lemma sub_contents d pos n :
  chrdev_ok d -> 0 <= pos -> 0 <= n -> pos + n <= buffer_size d ->
  sub pos n (buffer d) = sub pos n (contents d).
Proof.
  intros [Hb Hs] Hp Hn Hle. unfold contents. apply list_eq. intros i.
  rewrite !lookup_sub by lia. case_decide; [|done]. by rewrite decide_True by lia.
Qed.

(** A read delivers what the device contains from the file position on,
    cut at its end, and changes nothing in it; at the end it returns 0. *)
Theorem skeleton_read_result (buf len pos : Z) (d : chrdev) (w : W)
    (Hd : chrdev_ok d) (Hv : vfs_ok pos len) :
  wp (my_read buf len pos)
     (fun r σ =>
        let n := Z.min len (zlen (contents d) - pos) in
        drv σ = d /\ held σ = [] /\
        ((zlen (contents d) <= pos /\ r = (0, pos)) \/
         (pos < zlen (contents d) /\ r = (- EFAULT, pos)) \/
         (pos < zlen (contents d) /\ r = (n, pos + n) /\
          umem (world σ) ≡ₘ uwrite (umem w) buf (sub pos n (contents d)))))
     (KSt d w [] []).
Proof.
  destruct Hv as [Hp Hl]. pose proof Hd as [Hb Hs]. unfold BUF_SIZE, MAX_RW_COUNT in *.
  assert (Hc : zlen (contents d) = buffer_size d) by (apply zlen_sub; lia).
  rewrite Hc. unfold my_read. wp_step. wp_step. rewrite (u64_small pos) by lia.
  wp_step; [wp_auto; split_and!; auto|]. rewrite u64_small by lia.
  replace (if buffer_size d - pos <? len then buffer_size d - pos else len)
    with (Z.min len (buffer_size d - pos))
    by (destruct (Z.ltb_spec (buffer_size d - pos) len); lia).
  wp_auto; split_and!; auto. right. right. split_and!; try done.
  subst. apply ctu_full in Hctu. rewrite <- sub_contents by (done || lia). done.
Qed.

(** A write that succeeds leaves the bytes in front of the file position,
    then the user's bytes, and nothing behind them: whatever the device
    contained behind the end of the write is cut off. A faulting write keeps
    the size. The device stays well-formed on every branch. *)
Theorem skeleton_write_truncates (buf len pos : Z) (d : chrdev) (w : W)
    (Hd : chrdev_ok d) (Hv : vfs_ok pos len) :
  wp (my_write buf len pos)
     (fun r σ =>
        let n := Z.min len (1024 - pos) in
        chrdev_ok (drv σ) /\ held σ = [] /\
        ((1024 <= pos /\ r = (- ENOSPC, pos) /\ drv σ = d) \/
         (r = (- EFAULT, pos) /\ zlen (contents (drv σ)) = zlen (contents d)) \/
         (r = (n, pos + n) /\
          contents (drv σ) = sub 0 pos (buffer d) ++ uread (umem w) buf n)))
     (KSt d w [] []).
Proof.
  destruct Hv as [Hp Hl]. pose proof Hd as [Hb Hs]. unfold my_write, BUF_SIZE, MAX_RW_COUNT in *.
  wp_step; [wp_auto; split_and!; auto|]. rewrite u64_small by lia.
  replace (if 1024 - pos <? len then 1024 - pos else len) with (Z.min len (1024 - pos))
    by (destruct (Z.ltb_spec (1024 - pos) len); lia).
  set (n := len `min` (1024 - pos)). assert (Hn : 0 <= n <= 1024 - pos) by lia.
  clearbody n. wp_step. wp_step. rewrite in_bounds_true by lia. wp_auto.
  all: assert (Hz : zlen bs = n) by (eapply cfu_zlen; [|done]; lia).
  all: split_and!; try done.
  all: try (split; simpl; [rewrite zlen_upd|]; unfold BUF_SIZE; rewrite ?u64_small; lia).
  - right. right. split; [done|]. subst r. apply cfu_full in Hcfu as [Hbs _]; [|lia].
    rewrite <- Hbs. unfold contents. simpl. rewrite u64_small by lia.
    rewrite <- Hz. apply sub_upd_prefix; lia.
  - right. left. split; [done|]. unfold contents. simpl. rewrite !zlen_sub; rewrite ?zlen_upd; lia.
Qed.
End Props.

(** Loading registers everything or gives everything back; unloading gives
    everything back. *)
Lemma dev_load_unload {W D} `{GrantsOk W} (d : D) (w : W) :
  wp dev_init
     (fun rc σ => drv σ = d /\ held σ = [] /\
        if rc =? 0 then
          ledger σ = [Device 0; Class_; Cdev 0; Region] /\
          wp dev_exit (fun _ σ' => ledger σ' = [] /\ held σ' = []) σ
        else rc < 0 /\ ledger σ = [])
     (KSt d w [] []).
Proof.
  unfold dev_init, dev_exit. unfold_kernel. wp_auto; use_grants; try lia.
  { do 3 (split; [done|]). by wp_auto. }
  all: destruct (Z.eqb_spec rc 0); [lia|]; split_and!; try done; lia.
Qed.

(** ** The properties at concrete inputs *)

Definition chrdev_abc : chrdev := ChrDev (upd 0 (bytes_of "abc") (buffer chrdev0)) 3.

Lemma chrdev_abc_ok : chrdev_ok chrdev_abc.
Proof. split; [vm_compute; reflexivity | unfold BUF_SIZE; simpl; lia]. Qed.

Lemma skeleton_read_result_witness :
  wp (my_read 100 10 1) (fun r σ => drv σ = chrdev_abc /\ r.1 <= 2)
     (KSt chrdev_abc (sim_at 100 (replicate 16 NUL)) [] []).
Proof.
  eapply wp_mono.
  - apply (skeleton_read_result 100 10 1 chrdev_abc (sim_at 100 (replicate 16 NUL)) chrdev_abc_ok).
    unfold vfs_ok, MAX_RW_COUNT. lia.
  - intros r σ (-> & _ & Hr). split; [done|]. change (zlen (contents chrdev_abc)) with 3 in Hr.
    unfold EFAULT in Hr. destruct Hr as [[_ ->]|[[_ ->]|(_ & -> & _)]]; simpl; lia.
Defined.

(** One byte written over "abc" at position 0 leaves just that byte. *)
Lemma skeleton_write_truncates_witness :
  wp (my_write 100 1 0)
     (fun r σ => r = (1, 1) -> contents (drv σ) = uread (umem (sim_at 100 (bytes_of "z"))) 100 1)
     (KSt chrdev_abc (sim_at 100 (bytes_of "z")) [] []).
Proof.
  eapply wp_mono.
  - apply (skeleton_write_truncates 100 1 0 chrdev_abc (sim_at 100 (bytes_of "z")) chrdev_abc_ok).
    unfold vfs_ok, MAX_RW_COUNT. lia.
  - intros r σ (_ & _ & [[Hf _]|[[-> _]|[_ Hc]]]) Hr; [lia | done | exact Hc].
Defined.
