(* ===== verification/Poll.v ===== *)
(** * 014_poll_select: two pollable message slots (poll.c)

    Each minor has a 128-byte message, its size and an event flag. A read
    blocks until the flag is set; reading to the end of the message clears it.
    The size of the message is compared with the file position of the reader,
    which the writer cannot reset. *)

From S2P Require Import Prelude Kernel Wp Sim Wait.

Definition DEVICE_CNT : Z := 2.
Definition BUF_SIZE : Z := 128.
Definition POLLIN : Z := 1.
Definition POLLRDNORM : Z := 64.

(** [my_devices] holds 0 for a device pointer, else the error number. *)
Record slots := Slots {
  my_devices : list Z;
  event_flag : list Z;
  buffer : list (list byte);
  buffer_size : list Z;
}.

Section Poll.
Context {W : Type} `{UserAccess W} `{SimpleRead W} `{Waiting W slots}.

Definition flag_set (minor : Z) (s : slots) : bool :=
  negb (default 0 (zget (event_flag s) minor) =? 0).

(** event_flag[minor] = f and buffer_size[minor] = n. *)
Definition set_event (minor f : Z) : M W slots unit :=
  s ← get;
  fl ← value OutOfBounds (zset (event_flag s) minor f);
  modify (fun s => Slots (my_devices s) fl (buffer s) (buffer_size s)).
Definition set_size (minor n : Z) : M W slots unit :=
  s ← get;
  bs ← value OutOfBounds (zset (buffer_size s) minor n);
  modify (fun s => Slots (my_devices s) (event_flag s) (buffer s) bs).

Definition my_poll (minor : Z) : M W slots Z :=
  s ← get;
  f ← value OutOfBounds (zget (event_flag s) minor);
  mret (if negb (f =? 0) then Z.lor POLLIN POLLRDNORM else 0).

(** The part of the read function behind the wait. *)
Definition read_slot (minor buf len pos : Z) : M W slots (Z * Z) :=
  s ← get;
  b ← value OutOfBounds (zget (buffer s) minor);
  n ← value OutOfBounds (zget (buffer_size s) minor);
  if in_bounds 0 n (zlen b) then
    '(ret, pos) ← simple_read_from_buffer buf len pos (sub 0 n b);
    (if n <=? u64 pos then set_event minor 0;; set_size minor 0 else mret tt);;
    mret (ret, pos)
  else oops OutOfBounds.

(** The result and the file position; [nonblock] is O_NONBLOCK. The result of
    the wait is not read. *)
Definition my_read (nonblock : bool) (minor buf len pos : Z) : M W slots (Z * Z) :=
  s ← get;
  f ← value OutOfBounds (zget (event_flag s) minor);
  if f =? 0 then
    if nonblock then mret (- EAGAIN, pos)
    else wait_event_interruptible (flag_set minor);; read_slot minor buf len pos
  else read_slot minor buf len pos.

Definition my_write (minor buf len pos : Z) : M W slots (Z * Z) :=
  let len := if BUF_SIZE <? len then BUF_SIZE else len in
  s ← get;
  b ← value OutOfBounds (zget (buffer s) minor);
  if in_bounds 0 len (zlen b) then
    '(r, bs) ← copy_from_user buf len;
    rows ← value OutOfBounds (zset (buffer s) minor (upd 0 bs b));
    modify (fun s => Slots (my_devices s) (event_flag s) rows (buffer_size s));;
    if negb (r =? 0) then mret (- EFAULT, pos)
    else
      set_size minor len;;
      set_event minor 1;;
      mret (len, 0)
  else oops OutOfBounds.
End Poll.

Section Module_.
Context {W : Type} `{Grants W}.

Definition set_device (i p : Z) : M W slots unit :=
  s ← get;
  ds ← value OutOfBounds (zset (my_devices s) i p);
  modify (fun s => Slots ds (event_flag s) (buffer s) (buffer_size s)).

(** while (--i >= 0) device_destroy: devices [n - 1] down to 0. *)
Fixpoint destroy_below (n : nat) : M W slots unit :=
  match n with
  | O => mret tt
  | S n => device_destroy (Z.of_nat n);; destroy_below n
  end.

(** The loop leaves [i] at -1, where [my_devices\[i\]] is then read. *)
Definition dev_init : M W slots Z :=
  ret ← alloc_chrdev_region;
  if ret <? 0 then mret ret
  else
    ret ← cdev_add 0;
    if ret <? 0 then unregister_chrdev_region;; mret ret
    else
      my_class ← class_create;
      if IS_ERR my_class then
        cdev_del 0;; unregister_chrdev_region;; mret (PTR_ERR my_class)
      else
        failed ← for_ (Z.to_nat DEVICE_CNT) 0 (fun i =>
          p ← device_create i;
          set_device i p;;
          if IS_ERR p then
            destroy_below (Z.to_nat i);;
            class_destroy;; cdev_del 0;; unregister_chrdev_region;;
            s ← get;
            p ← value OutOfBounds (zget (my_devices s) (-1));
            mret (Some (PTR_ERR p))
          else mret None);
        mret (default 0 failed).

Definition dev_exit : M W slots unit :=
  for_ (Z.to_nat DEVICE_CNT) 0 (fun i => device_destroy i;; mret (None : option unit));;
  class_destroy;; cdev_del 0;; unregister_chrdev_region.
End Module_.

(** ** Invariant *)

Record slots_ok (s : slots) : Prop := {
  ok_devices : zlen (my_devices s) = DEVICE_CNT;
  ok_flags : zlen (event_flag s) = DEVICE_CNT;
  ok_rows : zlen (buffer s) = DEVICE_CNT;
  ok_row : Forall (fun b => zlen b = BUF_SIZE) (buffer s);
  ok_sizes : zlen (buffer_size s) = DEVICE_CNT;
  ok_size : Forall (fun n => 0 <= n <= BUF_SIZE) (buffer_size s);
}.

(** The message waiting in a slot, [None] when the event flag is clear. *)
Definition message (s : slots) (minor : Z) : option (list byte) :=
  b ← zget (buffer s) minor; n ← zget (buffer_size s) minor;
  f ← zget (event_flag s) minor; if f =? 0 then None else Some (sub 0 n b).

Definition slots0 : slots :=
  Slots [0; 0] [0; 0] (replicate 2 (replicate (Z.to_nat BUF_SIZE) NUL)) [0; 0].

(** The parts of one slot. *)
Record slot_at (s : slots) (m f n : Z) (b : list byte) : Prop := {
  at_flag : zget (event_flag s) m = Some f;
  at_size : zget (buffer_size s) m = Some n;
  at_row : zget (buffer s) m = Some b;
  at_len : zlen b = BUF_SIZE;
  at_bound : 0 <= n <= BUF_SIZE;
}.

Lemma slot_exists s m :
  slots_ok s -> 0 <= m < DEVICE_CNT -> exists f n b, slot_at s m f n b.
Proof.
  intros [Kd Kf Kr Kw Ks Kn] Hm.
  destruct (zget_in (event_flag s) m) as [f Hf]; [lia|].
  destruct (zget_in (buffer_size s) m) as [n Hn]; [lia|].
  destruct (zget_in (buffer s) m) as [b Hb]; [lia|].
  exists f, n, b. split; try done; unfold zget in *; destruct (0 <=? m); try done;
    [exact (Forall_lookup_1 _ _ _ _ Kw Hb) | exact (Forall_lookup_1 _ _ _ _ Kn Hn)].
Qed.

Lemma message_at s m f n b :
  slot_at s m f n b -> message s m = if f =? 0 then None else Some (sub 0 n b).
Proof. intros [Hf Hn Hb _ _]. unfold message. by rewrite Hb, Hn, Hf. Qed.

(** ** Properties *)

Section Props.
Context {W : Type} `{UserAccessOk W} `{!SimpleRead W} `{!SimpleReadOk W}.
Context {others : relation slots} `{!Waiting W slots} `{!WaitingOk W slots others}.
Implicit Types (s : slots) (w : W) (h : list lock) (l : list resource).

Lemma wp_set_size m n Q s w h l :
  0 <= m < zlen (buffer_size s) ->
  Q tt (KSt (Slots (my_devices s) (event_flag s) (buffer s)
                   (<[Z.to_nat m := n]> (buffer_size s))) w h l) ->
  wp (set_size m n) Q (KSt s w h l).
Proof. intros Hm HQ. unfold set_size. wp_step; wp_step; wp_step. rewrite zset_in by done. by wp_auto. Qed.

Lemma wp_set_event m f Q s w h l :
  0 <= m < zlen (event_flag s) ->
  Q tt (KSt (Slots (my_devices s) (<[Z.to_nat m := f]> (event_flag s)) (buffer s)
                   (buffer_size s)) w h l) ->
  wp (set_event m f) Q (KSt s w h l).
Proof. intros Hm HQ. unfold set_event. wp_step; wp_step; wp_step. rewrite zset_in by done. by wp_auto. Qed.

(** What a write leaves in slot [m]: the message, with the flag raised. *)
Lemma slot_write_spec m f n b buf len pos s w h l :
  slots_ok s -> slot_at s m f n b -> 0 <= len ->
  wp (my_write m buf len pos)
     (fun r σ => held σ = h /\ ledger σ = l /\ slots_ok (drv σ) /\
        let k := Z.min len BUF_SIZE in
        (r = (- EFAULT, pos) \/
         r = (k, 0) /\ umem (world σ) ≡ₘ umem w /\
         message (drv σ) m = Some (uread (umem w) buf k) /\
         exists b', slot_at (drv σ) m 1 k b'))
     (KSt s w h l).
Proof.
  intros Hok [Hf Hn Hb Hl Hbd] Hlen. pose proof Hok as [Kd Kf Kr Kw Ks Kn].
  unfold my_write. unfold BUF_SIZE in *.
  pose proof (zget_Some _ _ _ Hf). pose proof (zget_Some _ _ _ Hb). pose proof (zget_Some _ _ _ Hn).
  replace (if 128 <? len then 128 else len) with (Z.min len 128)
    by (destruct (Z.ltb_spec 128 len); lia).
  set (k := len `min` 128). assert (Hk : 0 <= k <= 128) by lia. clearbody k.
  wp_step; wp_step; wp_step. rewrite Hb. wp_auto. rewrite zset_in by done.
  assert (Hz : zlen bs = k) by (eapply cfu_zlen; [|done]; lia).
  set (rows := <[Z.to_nat m := upd 0 bs b]> (buffer s)).
  assert (Hrows : slots_ok (Slots (my_devices s) (event_flag s) rows (buffer_size s))).
  { split; try done; simpl; unfold rows; [by rewrite zlen_insert|].
    apply Forall_insert; [done|]. rewrite zlen_upd; unfold BUF_SIZE; lia. }
  wp_auto; [|split_and!; auto].
  apply wp_set_size; [done|]. wp_auto. apply wp_set_event; [done|]. wp_auto.
  split_and!; [done..| |].
  - destruct Hrows as [R1 R2 R3 R4 R5 R6]. split; try done; simpl; [by rewrite zlen_insert..|].
    apply Forall_insert; [done|]. unfold BUF_SIZE. lia.
  - right. subst r. apply cfu_full in Hcfu as [-> Hm]; [|lia].
    set (s' := Slots _ _ _ _).
    assert (Hs' : slot_at s' m 1 k (upd 0 (uread (umem w) buf k) b)).
    { split; simpl; unfold rows; rewrite ?zget_insert by (done || lia);
        rewrite ?decide_True by done; try done; unfold BUF_SIZE; rewrite ?zlen_upd; lia. }
    split_and!; [done..| |by eexists].
    rewrite (message_at _ _ _ _ _ Hs'). simpl. f_equal. apply sub_upd_n; [done | lia | lia].
Qed.

(** Reading slot [m] when it holds [n] bytes. *)
Lemma read_slot_spec m f n b buf len pos s w h l :
  slots_ok s -> slot_at s m f n b -> 0 <= pos < 2 ^ 63 -> 0 <= len <= MAX_RW_COUNT ->
  wp (read_slot m buf len pos)
     (fun r σ => held σ = h /\ ledger σ = l /\ slots_ok (drv σ) /\
        ((r = (0, pos) /\ (n <= pos \/ len = 0)) \/
         (r.1 < 0 /\ r.2 = pos /\ pos < n) \/
         (0 < r.1 <= len /\ r.2 = pos + r.1 /\ pos + r.1 <= n /\
          umem (world σ) ≡ₘ uwrite (umem w) buf (sub pos r.1 (sub 0 n b)))) /\
        (if n <=? r.2 then message (drv σ) m = None else drv σ = s))
     (KSt s w h l).
Proof.
  intros Hok Hat Hp Hlen. pose proof Hat as [Hf Hn Hb Hl Hbd].
  pose proof Hok as [Kd Kf Kr Kw Ks Kn].
  pose proof (zget_Some _ _ _ Hf). pose proof (zget_Some _ _ _ Hn).
  unfold read_slot. wp_step; wp_step; wp_step. rewrite Hb.
  wp_step; wp_step. rewrite Hn. wp_step. unfold BUF_SIZE in *. rewrite in_bounds_true by lia.
  wp_step. apply wp_call. intros [ret pos'] w' Hr. wp_red.
  assert (Hz : zlen (sub 0 n b) = n) by (apply zlen_sub; lia).
  apply simple_read_ok in Hr; [|lia..]. rewrite Hz in Hr.
  assert (Hp' : 0 <= pos' < 2 ^ 64).
  { unfold MAX_RW_COUNT in *. destruct Hr as [(_ & -> & _)|(? & ? & -> & _)]; lia. }
  assert (Hcase : (ret = 0 /\ pos' = pos /\ (n <= pos \/ len = 0)) \/
    (ret < 0 /\ pos' = pos /\ pos < n) \/
    (0 < ret <= len /\ pos' = pos + ret /\ pos + ret <= n /\
     umem w' ≡ₘ uwrite (umem w) buf (sub pos ret (sub 0 n b)))).
  { destruct Hr as [(? & -> & ? & ?)|(? & ? & -> & Hz0 & Hle & Hm)]; [right; left; lia|].
    destruct (decide (ret = 0)) as [->|]; [left; lia|]. right. right. by split_and!; try lia. }
  rewrite u64_small by lia. wp_step.
  destruct (Z.leb_spec n pos').
  - wp_step. apply wp_set_event; [done|]. wp_red. apply wp_set_size; [done|]. wp_auto.
    split_and!; try done.
    + split; try done; simpl; [by rewrite zlen_insert..|].
      apply Forall_insert; [done|]. unfold BUF_SIZE. lia.
    + simpl. destruct Hcase as [(-> & -> & ?)|[?|?]]; [by left | by right; left | by right; right].
    + simpl. rewrite (proj2 (Z.leb_le n pos')) by done. unfold message. simpl.
      rewrite Hb. simpl. rewrite !zget_insert by (done || lia). by rewrite !decide_True.
  - wp_auto. split_and!; try done.
    + simpl. destruct Hcase as [(-> & -> & ?)|[?|?]]; [by left | by right; left | by right; right].
    + simpl. by rewrite (proj2 (Z.leb_gt n pos')).
Qed.

(** A reader that finds the event flag set. *)
Lemma slot_read_ready nb m f n b buf len pos s w h l Q :
  slot_at s m f n b -> f <> 0 ->
  wp (read_slot m buf len pos) Q (KSt s w h l) ->
  wp (my_read nb m buf len pos) Q (KSt s w h l).
Proof.
  intros [Hf _ _ _ _] Hf0 HQ. unfold my_read. wp_step; wp_step; wp_step. rewrite Hf. wp_step.
  by rewrite (proj2 (Z.eqb_neq f 0)).
Qed.

(** Any reader, when the other threads keep the slots well-formed. *)
Lemma slot_read_safe nb m buf len pos s w h l :
  (forall a b, others a b -> slots_ok a -> slots_ok b) ->
  slots_ok s -> 0 <= m < DEVICE_CNT -> 0 <= pos < 2 ^ 63 -> 0 <= len <= MAX_RW_COUNT ->
  wp (my_read nb m buf len pos)
     (fun r σ => held σ = h /\ ledger σ = l /\ slots_ok (drv σ)) (KSt s w h l).
Proof.
  intros Ho Hok Hm Hp Hlen. destruct (slot_exists s m Hok Hm) as (f & n & b & Hat).
  unfold my_read. wp_step; wp_step; wp_step. rewrite (at_flag _ _ _ _ _ Hat). wp_step.
  destruct (f =? 0); [destruct nb|].
  - by apply wp_ret.
  - wp_step. apply wp_wait. intros rc s' w' Hr _ _.
    assert (Hok' : slots_ok s') by by eapply others_keep.
    destruct (slot_exists s' m Hok' Hm) as (f' & n' & b' & Hat').
    eapply wp_mono; [by eapply read_slot_spec|]. by intros r σ (? & ? & ? & _).
  - eapply wp_mono; [by eapply read_slot_spec|]. by intros r σ (? & ? & ? & _).
Qed.

Lemma my_poll_spec m f n b s w h l :
  slot_at s m f n b ->
  wp (my_poll m) (fun r σ => r = (if f =? 0 then 0 else 65) /\ σ = KSt s w h l) (KSt s w h l).
Proof.
  intros [Hf _ _ _ _]. unfold my_poll. wp_step; wp_step; wp_step. rewrite Hf. wp_auto.
  by destruct (f =? 0).
Qed.

Lemma message_none s m f n b : slot_at s m f n b -> message s m = None -> f = 0.
Proof.
  intros Hat. rewrite (message_at _ _ _ _ _ Hat). by destruct (Z.eqb_spec f 0).
Qed.

(** C22. A write makes the slot readable, a complete read from the start of
    the file delivers the written bytes, and then the slot is not readable any
    more: poll reports POLLIN | POLLRDNORM in between and 0 afterwards. *)
Theorem poll_write_then_read (m src dst len count : Z) (s : slots) (w : W)
    (Hok : slots_ok s) (Hm : 0 <= m < DEVICE_CNT) (Hl : 0 <= len)
    (Hc : 0 <= count <= MAX_RW_COUNT) :
  wp (r1 ← my_write m src len 0; e1 ← my_poll m; r2 ← my_read true m dst count 0;
      e2 ← my_poll m; mret (r1.1, e1, r2.1, e2))
     (fun r σ =>
        let k := Z.min len 128 in
        0 <= r.1.1.1 -> r.1.2 = k ->
        r = (k, 65, k, 0) /\ message (drv σ) m = None /\
        uread (umem (world σ)) dst k = uread (umem w) src k)
     (KSt s w [] []).
Proof.
  destruct (slot_exists s m Hok Hm) as (f & n & b & Hat).
  apply wp_bind. eapply wp_mono; [by eapply slot_write_spec|].
  intros r1 [s1 w1 h1 l1] (Hh & Hled & Hok1 & Hr1). simpl in Hh, Hled, Hok1, Hr1. subst h1 l1.
  destruct (slot_exists s1 m Hok1 Hm) as (f1 & n1 & b1 & Hat1).
  apply wp_bind. eapply wp_mono; [by eapply my_poll_spec|]. intros e1 σ [-> ->].
  destruct Hr1 as [->|(-> & Hw1 & Hmsg & b2 & Hat2)].
  { apply wp_bind. destruct (decide (f1 = 0)) as [->|Hf1].
    - unfold my_read. destruct Hat1 as [Hf1 _ _ _ _]. wp_step; wp_step; wp_step. rewrite Hf1.
      wp_step. change (0 =? 0) with true. cbv zeta iota. wp_auto. unfold my_poll.
      wp_step; wp_step; wp_step. rewrite Hf1. wp_auto. intros Hneg. unfold EFAULT in *. lia.
    - eapply wp_mono; [eapply slot_read_ready; [done..|eapply read_slot_spec; try done; lia]|].
      intros r2 [s2 w2 h2 l2] (_ & _ & Hok2 & _). simpl in Hok2.
      destruct (slot_exists s2 m Hok2 Hm) as (f2 & n2 & b2 & Hat2). apply wp_bind.
      eapply wp_mono; [by eapply my_poll_spec|]. intros e2 σ _. apply wp_ret.
      simpl. unfold EFAULT. lia. }
  assert (f1 = 1 /\ n1 = Z.min len BUF_SIZE /\ b1 = b2) as (-> & -> & ->).
  { destruct Hat1 as [E1 E2 E3 _ _], Hat2 as [E4 E5 E6 _ _]. split_and!; congruence. }
  apply wp_bind. eapply wp_mono; [eapply slot_read_ready; [done..|eapply read_slot_spec; try done; lia]|].
  intros r2 [s2 w2 h2 l2] (_ & _ & Hok2 & Hr2 & Hend). simpl in Hok2, Hr2, Hend.
  destruct (slot_exists s2 m Hok2 Hm) as (f2 & n2 & b2' & Hat3). apply wp_bind.
  eapply wp_mono; [by eapply my_poll_spec|]. intros e2 σ [-> ->]. apply wp_ret.
  rewrite (message_at _ _ _ _ _ Hat2) in Hmsg. simpl in Hmsg. injection Hmsg as Hbytes.
  unfold BUF_SIZE in *. set (k := len `min` 128) in *. cbn [fst snd drv world]. intros _ Hr.
  assert (Hk : 0 <= k) by lia.
  assert (Hz : zlen (uread (umem w) src k) = k) by by apply length_uread.
  assert (r2.2 = k /\ uread (umem w2) dst k = uread (umem w) src k) as [He Hu].
  { destruct Hr2 as [(-> & _)|[[? _]|(Hr2 & -> & _ & Hmem)]]; simpl in Hr.
    - rewrite <- Hr. split; [done|]. done.
    - lia.
    - rewrite Hr in Hmem |- *. split; [done|]. rewrite Hmem, Hbytes.
      rewrite (sub_all_n k) by done. by apply uread_uwrite_n. }
  rewrite He, Z.leb_refl in Hend. rewrite (message_none _ _ _ _ _ Hat3 Hend).
  split_and!; [|done..]. by rewrite Hr.
Qed.

(** A reader whose file position is at or behind the end of a new message
    loses it: the read returns 0 as at the end of a file, and the message is
    discarded with the event. This is where every reader stands that has
    already read a message of at least that size, because a write resets the
    position of the writer's file only. *)
Theorem poll_reader_loses_message (nb : bool) (m src dst len count p wpos : Z) (s : slots) (w : W)
    (Hok : slots_ok s) (Hm : 0 <= m < DEVICE_CNT) (Hl : 0 <= len)
    (Hc : 0 <= count <= MAX_RW_COUNT) (Hp : Z.min len 128 <= p < 2 ^ 63)
    (Ho : forall a b, others a b -> slots_ok a -> slots_ok b) :
  wp (r1 ← my_write m src len wpos; r2 ← my_read nb m dst count p; mret (r1, r2))
     (fun r σ => r.1 = (Z.min len 128, 0) -> r.2 = (0, p) /\ message (drv σ) m = None)
     (KSt s w [] []).
Proof.
  apply wp_bind. destruct (slot_exists s m Hok Hm) as (f & n & b & Hat).
  eapply wp_mono; [by eapply slot_write_spec|].
  intros r1 [s1 w1 h1 l1] (Hh & Hled & Hok1 & Hr1). simpl in Hh, Hled, Hok1, Hr1. subst h1 l1.
  unfold BUF_SIZE in Hr1. destruct Hr1 as [->|(-> & _ & _ & b2 & Hat2)].
  - apply wp_bind. eapply wp_mono; [eapply slot_read_safe; done || lia|].
    intros r2 σ _. apply wp_ret. intros [= Hk ?]. unfold EFAULT in *. lia.
  - apply wp_bind.
    eapply wp_mono; [eapply slot_read_ready; [done..|eapply read_slot_spec; try done; lia]|].
    intros r2 [s2 w2 h2 l2] (_ & _ & _ & Hr2 & Hend). apply wp_ret. simpl in *. intros _.
    assert (r2 = (0, p)) as ->.
    { destruct r2 as [x y]. simpl in *. destruct Hr2 as [[? _]|[?|?]]; [done | lia | lia]. }
    split; [done|]. simpl in Hend. by rewrite (proj2 (Z.leb_le _ _)) in Hend by lia.
Qed.
End Props.

(** When creating the device of the first slot fails, the init function
    does not return the error: after the clean-up loop the index is -1, and
    reading the error from my_devices[-1] is out of bounds. *)
Theorem poll_init_error_path (s : slots) {W} `{Grants W} (w w1 w2 w3 w4 : W) (rc : Z)
    (Hs : slots_ok s) (H1 : k_grant Region w = (0, w1)) (H2 : k_grant (Cdev 0) w1 = (0, w2))
    (H3 : k_grant Class_ w2 = (0, w3)) (H4 : k_grant (Device 0) w3 = (rc, w4)) (Hrc : rc <> 0) :
  dev_init (KSt s w [] []) = Oops OutOfBounds.
Proof.
  assert (Hz : forall r w w' l, k_grant r w = (0, w') ->
    acquire r (KSt s w [] l) = Done (0, KSt s w' [] (r :: l))).
  { intros r v v' l E. unfold acquire, call, own, mbind, M_bind. simpl. by rewrite E. }
  unfold dev_init. unfold_kernel.
  rewrite (bind_done _ _ _ _ _ (Hz _ _ _ [] H1)). cbv beta. change (0 <? 0) with false. cbv iota.
  rewrite (bind_done _ _ _ _ _ (Hz _ _ _ _ H2)). cbv beta. change (0 <? 0) with false. cbv iota.
  rewrite (bind_done _ _ _ _ _ (Hz _ _ _ _ H3)). cbv beta. change (negb (0 =? 0)) with false. cbv iota.
  apply bind_oops. change (Z.to_nat DEVICE_CNT) with 2%nat. cbn [for_]. apply bind_oops.
  rewrite (bind_done _ _ rc _ (KSt s w4 [] [Class_; Cdev 0; Region])).
  2:{ unfold acquire, call, mbind, M_bind. simpl. rewrite H4.
      by rewrite (proj2 (Z.eqb_neq rc 0)). }
  destruct Hs as [Kd _ _ _ _ _].
  unfold set_device. unfold mbind, M_bind. simpl.
  rewrite zset_in by (rewrite Kd; done). simpl. by rewrite (proj2 (Z.eqb_neq rc 0)).
Qed.

(** ** The properties at concrete inputs *)

Lemma slots0_ok : slots_ok slots0.
Proof.
  split; try done; simpl.
  - repeat constructor; done.
  - repeat constructor; unfold BUF_SIZE; lia.
Qed.

(** Nobody else runs. *)
Definition alone : relation slots := fun _ _ => False.

Definition poll_user : sim := sim_at 100 (bytes_of "hello" ++ replicate 27 NUL).

Lemma poll_write_then_read_witness :
  wp (r1 ← my_write 1 100 5 0; e1 ← my_poll 1; r2 ← my_read true 1 110 16 0;
      e2 ← my_poll 1; mret (r1.1, e1, r2.1, e2))
     (fun r σ => 0 <= r.1.1.1 -> r.1.2 = 5 ->
        r = (5, 65, 5, 0) /\ message (drv σ) 1 = None /\
        uread (umem (world σ)) 110 5 = uread (umem poll_user) 100 5)
     (KSt slots0 poll_user [] []).
Proof.
  apply (poll_write_then_read 1 100 110 5 16 slots0 poll_user slots0_ok);
    unfold DEVICE_CNT, MAX_RW_COUNT; lia.
Defined.

Lemma poll_reader_loses_message_witness :
  wp (r1 ← my_write 0 100 5 0; r2 ← my_read true 0 110 16 5; mret (r1, r2))
     (fun r σ => r.1 = (5, 0) -> r.2 = (0, 5) /\ message (drv σ) 0 = None)
     (KSt slots0 poll_user [] []).
Proof.
  apply (poll_reader_loses_message (others := alone) true 0 100 110 5 16 5 0 slots0 poll_user
           slots0_ok); unfold DEVICE_CNT, MAX_RW_COUNT, alone; lia.
Defined.

(** The fourth registration fails. *)
Definition poll_denied (g : list Z) : sim := Sim ∅ [] g [] [].

Lemma poll_init_error_path_witness :
  dev_init (KSt slots0 (poll_denied [0; 0; 0; - ENOMEM]) [] []) = Oops OutOfBounds.
Proof.
  apply (poll_init_error_path slots0 (poll_denied [0; 0; 0; - ENOMEM])
           (poll_denied [0; 0; - ENOMEM]) (poll_denied [0; - ENOMEM]) (poll_denied [- ENOMEM])
           (poll_denied []) (- ENOMEM) slots0_ok); try reflexivity. discriminate.
Defined.
