(* ===== verification/PollApps.v ===== *)
(** * 014_poll_select: the three programs that watch both devices

    poll_app.c, select_app.c and epoll_app.c on top of the driver of [Poll].
    A [watcher] is the driver together with a process: the positions of its
    two open files and what it has printed. The buffer of the process is in
    its memory, where the driver's read puts the message. *)

From S2P Require Import Prelude Kernel Wp Sim Wait Poll User.

Record watcher := Watcher {
  dev : slots;
  pos0 : Z;
  pos1 : Z;
  out : list (Z * list byte);
}.

Definition file_pos (fd : Z) (x : watcher) : Z := if fd =? 0 then pos0 x else pos1 x.
Definition set_pos (fd p : Z) (x : watcher) : watcher :=
  if fd =? 0 then Watcher (dev x) p (pos1 x) (out x) else Watcher (dev x) (pos0 x) p (out x).
Definition set_dev (s : slots) (x : watcher) : watcher := Watcher s (pos0 x) (pos1 x) (out x).

Section Apps.
Context {W : Type} `{UserAccess W} `{SimpleRead W} `{Waiting W slots} `{UserMem W} `{UserStore W}.
(** The address of [char buf\[128\]]. *)
Context (buf : Z).

Definition drive {A} (m : M W slots A) : M W watcher A := zoom dev set_dev m.

(** Files opened with O_NONBLOCK. *)
Definition read_fd (fd n : Z) : M W watcher Z :=
  x ← get;
  '(ret, p) ← drive (my_read true fd buf n (file_pos fd x));
  modify (set_pos fd p);;
  mret ret.

Definition memset_buf : M W watcher unit := store buf (replicate 128 NUL).

(** printf of the buffer: the scan for the terminator ends with the array. *)
Definition print_buf (fd : Z) : M W watcher unit :=
  bytes ← load buf 128;
  str ← value OutOfBounds (cstr bytes);
  modify (fun x => Watcher (dev x) (pos0 x) (pos1 x) (out x ++ [(fd, str)])).

(** poll_app.c fills the whole buffer. *)
Definition poll_event (fd : Z) : M W watcher unit :=
  memset_buf;;
  ret ← read_fd fd 128;
  if 0 <? ret then print_buf fd else mret tt.

(** select_app.c and epoll_app.c leave room for the terminator. *)
Definition select_event (fd : Z) : M W watcher unit :=
  memset_buf;;
  ret ← read_fd fd 127;
  if 0 <? ret then
    (if in_bounds ret 1 128 then store (buf + ret) [NUL] else oops OutOfBounds);;
    print_buf fd
  else mret tt.

Definition readable (mask : Z) : bool := negb (Z.land mask POLLIN =? 0).

(** poll, select and epoll_wait without a timeout: they sleep until a device
    is ready or a signal arrives; then what my_poll says for each file. *)
Definition wait_ready : M W watcher (option (bool * bool)) :=
  rc ← drive (wait_event_interruptible (fun s => flag_set 0 s || flag_set 1 s));
  if negb (rc =? 0) then mret None
  else
    e0 ← drive (my_poll 0);
    e1 ← drive (my_poll 1);
    mret (Some (readable e0, readable e1)).

(** The loop bodies; the result tells whether the loop goes on. *)
Definition poll_round : M W watcher bool :=
  ev ← wait_ready;
  match ev with
  | None => mret false
  | Some (r0, r1) =>
      (if r0 : bool then poll_event 0 else mret tt);;
      (if r1 : bool then poll_event 1 else mret tt);;
      mret true
  end.

Definition select_round : M W watcher bool :=
  ev ← wait_ready;
  match ev with
  | None => mret false
  | Some (r0, r1) =>
      (if r0 : bool then select_event 0 else mret tt);;
      (if r1 : bool then select_event 1 else mret tt);;
      mret true
  end.

Fixpoint for_each (fds : list Z) (body : Z -> M W watcher unit) : M W watcher unit :=
  match fds with [] => mret tt | fd :: fds => body fd;; for_each fds body end.

(** epoll_wait delivers the ready files in an order of its own. *)
Definition epoll_round (order : list Z) : M W watcher bool :=
  ev ← wait_ready;
  match ev with
  | None => mret false
  | Some (r0, r1) =>
      let events := filter (fun fd : Z => (if fd =? 0 then r0 else r1 : bool) = true) order in
      for_each events select_event;;
      mret true
  end.

(** while (1), for at most [n] rounds: whether the loop was left. *)
Fixpoint loop (n : nat) (round : M W watcher bool) : M W watcher bool :=
  match n with
  | O => mret false
  | S n => go ← round; if go : bool then loop n round else mret true
  end.

Context `{Grants W}.

Definition close (name : string) : M W watcher unit := release (Fd name).

(** What poll_app.c and select_app.c share; [None] is a program that still
    runs. *)
Definition watch_main (n : nat) (round : M W watcher bool) : M W watcher (option Z) :=
  fd0 ← acquire (Fd "dev0");
  if fd0 <? 0 then mret (Some 1)
  else
    fd1 ← acquire (Fd "dev1");
    if fd1 <? 0 then close "dev0";; mret (Some 1)
    else
      left ← loop n round;
      if left : bool then close "dev0";; close "dev1";; mret (Some 0) else mret None.

Definition poll_main (n : nat) : M W watcher (option Z) := watch_main n poll_round.
Definition select_main (n : nat) : M W watcher (option Z) := watch_main n select_round.

(** epoll_app.c; the two epoll_ctl calls may fail as well. *)
Definition epoll_main (n : nat) (order : list Z) (ctl : Z -> W -> Z * W) : M W watcher (option Z) :=
  fd0 ← acquire (Fd "dev0");
  if fd0 <? 0 then mret (Some 1)
  else
    fd1 ← acquire (Fd "dev1");
    if fd1 <? 0 then close "dev0";; mret (Some 1)
    else
      epfd ← acquire (Fd "epoll");
      if epfd <? 0 then close "dev0";; close "dev1";; mret (Some 1)
      else
        c0 ← call (ctl 0);
        if c0 <? 0 then close "epoll";; close "dev0";; close "dev1";; mret (Some 1)
        else
          c1 ← call (ctl 1);
          if c1 <? 0 then close "epoll";; close "dev0";; close "dev1";; mret (Some 1)
          else
            left ← loop n (epoll_round order);
            if left : bool
            then close "epoll";; close "dev0";; close "dev1";; mret (Some 0) else mret None.
End Apps.

(** ** The contents of the buffer *)

(** A message and its terminator at the start of the buffer. *)
Lemma terminated_buf f buf data k :
  zlen data = k -> 0 <= k < 128 ->
  cstr (uread (uwrite (uwrite f buf data) (buf + k) [NUL]) buf 128) = Some (until_nul data).
Proof.
  intros Hd Hk. replace 128 with (k + (1 + (127 - k))) by lia.
  rewrite uread_app, uread_uwrite_before, (uread_uwrite_n f buf data k Hd) by lia.
  rewrite uread_app by lia. rewrite (uread_uwrite_n _ (buf + k) [NUL] 1) by done.
  apply cstr_until_nul.
Qed.

(** ** Properties *)

Definition watcher_ok (x : watcher) : Prop :=
  slots_ok (dev x) /\ 0 <= pos0 x <= 128 /\ 0 <= pos1 x <= 128.

Lemma file_pos_ok x fd : watcher_ok x -> 0 <= file_pos fd x <= 128.
Proof. intros (_ & H0 & H1). unfold file_pos. by destruct (fd =? 0). Qed.

Lemma set_pos_facts fd p s x :
  let x' := set_pos fd p (set_dev s x) in
  dev x' = s /\ file_pos fd x' = p /\ out x' = out x /\
  (slots_ok s -> watcher_ok x -> 0 <= p <= 128 -> watcher_ok x').
Proof.
  unfold set_pos, file_pos, watcher_ok. destruct (fd =? 0); simpl; split_and!; try done; tauto.
Qed.

Lemma file_pos_out x s0 o fd : file_pos fd (Watcher s0 (pos0 x) (pos1 x) o) = file_pos fd x.
Proof. done. Qed.

Section Props.
Context {W : Type} `{UserAccessOk W} `{!SimpleRead W} `{!SimpleReadOk W}.
Context {others : relation slots} `{!Waiting W slots} `{!WaitingOk W slots others}.
Context `{!UserStore W} `{!UserStoreOk W}.
Context (buf : Z).
Implicit Types (x : watcher) (w : W) (h : list lock) (l : list resource).

(** A call of the driver by the process. *)
Lemma wp_watcher {A} (m : M W slots A) Q x w h l :
  wp m (fun a σ => Q a (KSt (set_dev (drv σ) x) (world σ) (held σ) (ledger σ)))
     (KSt (dev x) w h l) ->
  wp (drive m) Q (KSt x w h l).
Proof. apply wp_zoom. Qed.

(** One ready event of select_app.c and epoll_app.c, on a message [msg]. *)
Definition event_post x (fd : Z) (msg : list byte) (x' : watcher) : Prop :=
  watcher_ok x' /\
  let p := file_pos fd x in
  exists k, 0 <= k <= 127 /\
    (k = 0 /\ out x' = out x /\ file_pos fd x' = p \/
     0 < k /\ p + k <= zlen msg /\ file_pos fd x' = p + k /\
     out x' = out x ++ [(fd, until_nul (sub p k msg))]) /\
    (zlen msg <= p + k -> message (dev x') fd = None).

Lemma select_event_spec fd msg x w h l :
  watcher_ok x -> 0 <= fd < DEVICE_CNT -> message (dev x) fd = Some msg ->
  wp (select_event buf fd)
     (fun _ σ => held σ = h /\ ledger σ = l /\ event_post x fd msg (drv σ)) (KSt x w h l).
Proof.
  intros Hx Hfd Hmsg. pose proof (file_pos_ok x fd Hx) as Hp. pose proof Hx as (Hok & Hp0 & Hp1).
  destruct (slot_exists (dev x) fd Hok Hfd) as (f & n & b & Hat).
  pose proof (message_at _ _ _ _ _ Hat) as E. rewrite Hmsg in E.
  destruct (Z.eqb_spec f 0) as [|Hf]; [done|]. injection E as ->.
  assert (Hz : zlen (sub 0 n b) = n)
    by (apply zlen_sub; destruct Hat as [_ _ _ Hl Hb]; rewrite ?Hl; lia).
  unfold select_event, memset_buf, store, read_fd. wp_step. apply wp_call. intros [] w1 _. wp_red.
  wp_step; wp_step; wp_step; wp_step. apply wp_watcher.
  eapply slot_read_ready; [done.. |].
  eapply wp_mono; [eapply read_slot_spec; [done | done | lia | unfold MAX_RW_COUNT; lia]|].
  intros [ret p'] [s2 w2 h2 l2] (Hh & Hl & Hok2 & Hcase & Hend). simpl in *. subst h2 l2.
  wp_step; wp_step; wp_step. clear Hmsg.
  destruct (set_pos_facts fd p' s2 x) as (Hdev & Hfp & Hout & Hokx).
  set (x2 := set_pos fd p' (set_dev s2 x)) in *. set (p := file_pos fd x) in *.
  assert (Hn : n <= 128) by (destruct Hat as [_ _ _ _ [_ Hb']]; exact Hb').
  assert (Hlate : n <= p' -> message (dev x2) fd = None).
  { intros Hle. rewrite Hdev. by rewrite (proj2 (Z.leb_le _ _)) in Hend. }
  unfold event_post. rewrite Hz.
  destruct (Z.ltb_spec 0 ret) as [Hret|Hret].
  - destruct Hcase as [([= -> _] & _)|[(? & _)|(Hr & -> & Hle & Hmem)]]; [lia | lia |].
    wp_step. rewrite in_bounds_true by lia. apply wp_call. intros [] w3 [= <-]. wp_red.
    unfold print_buf. wp_step. apply wp_call. intros bytes w4 [= <- <-]. wp_red.
    assert (Hstr : cstr (uread (umem (k_store (buf + ret) [NUL] w2)) buf 128) =
                   Some (until_nul (sub p ret (sub 0 n b)))).
    { rewrite (store_ok (buf + ret) [NUL] w2), Hmem.
      apply terminated_buf; [apply zlen_sub; rewrite ?Hz; lia | lia]. }
    rewrite Hstr. wp_auto. split_and!; [done | done | |].
    + apply Hokx; [done | done | lia].
    + exists ret. split; [lia|]. split; [|intros ?; apply Hlate; lia]. right.
      rewrite file_pos_out, Hout, Hfp. split_and!; try done; lia.
  - assert (p' = p) as -> by (destruct Hcase as [([= _ ->] & _)|[(_ & -> & _)|(? & _)]]; [done..|lia]).
    wp_step. split_and!; [done | done | |].
    + apply Hokx; [done | done | lia].
    + exists 0. split; [lia|]. split; [left; by split_and!|]. intros ?. apply Hlate. lia.
Qed.

(** An event for a file that is no longer ready reads EAGAIN. *)
Lemma select_event_safe fd x w h l :
  watcher_ok x -> 0 <= fd < DEVICE_CNT ->
  wp (select_event buf fd)
     (fun _ σ => held σ = h /\ ledger σ = l /\ watcher_ok (drv σ)) (KSt x w h l).
Proof.
  intros Hx Hfd. destruct (message (dev x) fd) as [msg|] eqn:Hmsg.
  { eapply wp_mono; [by apply select_event_spec|]. intros _ σ (? & ? & ? & _). done. }
  pose proof (file_pos_ok x fd Hx) as Hp. pose proof Hx as (Hok & Hp0 & Hp1).
  destruct (slot_exists (dev x) fd Hok Hfd) as (f & n & b & Hat).
  rewrite (message_none _ _ _ _ _ Hat Hmsg) in Hat. destruct Hat as [Hf _ _ _ _].
  unfold select_event, memset_buf, store, read_fd. wp_step. apply wp_call. intros [] w1 _. wp_red.
  wp_step; wp_step; wp_step; wp_step. apply wp_watcher. unfold my_read.
  wp_step; wp_step; wp_step. rewrite Hf. wp_step. change (0 =? 0) with true. cbv iota.
  wp_step. wp_step; wp_step; wp_step. change (0 <? - EAGAIN) with false. cbv iota. wp_step.
  split_and!; [done | done |].
  by apply (set_pos_facts fd (file_pos fd x) (dev x) x).
Qed.

Lemma wait_ready_safe x w h l :
  (forall a b, others a b -> slots_ok a -> slots_ok b) -> watcher_ok x ->
  wp wait_ready (fun _ σ => held σ = h /\ ledger σ = l /\ watcher_ok (drv σ)) (KSt x w h l).
Proof.
  intros Ho (Hok & Hp). unfold wait_ready. wp_step. apply wp_watcher, wp_wait.
  intros rc s' w' Hr _ _. assert (Hok' : slots_ok s') by by eapply others_keep.
  wp_red. wp_step; [|wp_auto; by split_and!].
  destruct (slot_exists s' 0 Hok') as (f0 & n0 & b0 & Hat0); [done|].
  destruct (slot_exists s' 1 Hok') as (f1 & n1 & b1 & Hat1); [done|].
  wp_step. apply wp_watcher. eapply wp_mono; [by eapply my_poll_spec|]. intros e0 σ [_ ->]. wp_red.
  wp_step. apply wp_watcher. eapply wp_mono; [by eapply my_poll_spec|]. intros e1 σ [_ ->]. wp_red.
  wp_step. by split_and!.
Qed.

Lemma epoll_round_safe order x w h l :
  (forall a b, others a b -> slots_ok a -> slots_ok b) -> watcher_ok x ->
  Forall (fun fd => 0 <= fd < DEVICE_CNT) order ->
  wp (epoll_round buf order)
     (fun _ σ => held σ = h /\ ledger σ = l /\ watcher_ok (drv σ)) (KSt x w h l).
Proof.
  intros Ho Hx Hord. unfold epoll_round. wp_step.
  eapply wp_mono; [by apply wait_ready_safe|]. intros ev [x1 w1 h1 l1] (Hh & Hl & Hx1).
  simpl in *. subst h1 l1. destruct ev as [[r0 r1]|]; [|by wp_auto].
  wp_step. set (fds := filter _ order).
  assert (Hfds : Forall (fun fd => 0 <= fd < DEVICE_CNT) fds).
  { apply Forall_forall. intros fd [_ Hin]%list_elem_of_filter. by eapply Forall_forall in Hord. }
  clearbody fds. clear x Hx Hord. revert x1 w1 Hx1.
  induction fds as [|fd fds IH]; intros x1 w1 Hx1; simpl; [by wp_auto|].
  apply Forall_cons in Hfds as [Hfd Hfds]. wp_step.
  eapply wp_mono; [by apply select_event_safe|]. intros _ [x2 w2 h2 l2] (Hh & Hl & Hx2).
  simpl in *. subst h2 l2. by apply IH.
Qed.

Lemma loop_safe n round (l : list resource) x w :
  (forall x w, watcher_ok x -> wp round (fun _ σ => held σ = [] /\ ledger σ = l /\ watcher_ok (drv σ))
                                  (KSt x w [] l)) ->
  watcher_ok x ->
  wp (loop n round) (fun _ σ => held σ = [] /\ ledger σ = l /\ watcher_ok (drv σ)) (KSt x w [] l).
Proof.
  intros Hr. revert x w. induction n as [|n IH]; intros x w Hx; simpl; [by wp_auto|].
  wp_step. eapply wp_mono; [by apply Hr|]. intros go [x1 w1 h1 l1] (Hh & Hl & Hx1).
  simpl in *. subst h1 l1. destruct go; [by apply IH | by wp_auto].
Qed.

(** epoll_app.c runs without undefined behaviour for any number of rounds
    and any order of the events, next to any other processes, and on every
    path that ends it has closed what it opened. *)
Theorem epoll_main_closes `{!Grants W} `{!GrantsOk W} (n : nat) (order : list Z)
    (ctl : Z -> W -> Z * W) (x : watcher) (w : W)
    (Ho : forall a b, others a b -> slots_ok a -> slots_ok b) (Hx : watcher_ok x)
    (Hord : Forall (fun fd => 0 <= fd < DEVICE_CNT) order) :
  wp (epoll_main buf n order ctl)
     (fun r σ => held σ = [] /\ watcher_ok (drv σ) /\
        match r with Some _ => ledger σ = [] | None => length (ledger σ) = 3%nat end)
     (KSt x w [] []).
Proof.
  unfold epoll_main, close. wp_auto; use_grants; try lia; try (by split_and!).
  all: apply wp_call; intros c0 w' _; wp_red; wp_auto; try (by split_and!).
  all: apply wp_call; intros c1 w'' _; wp_red; wp_auto; try (by split_and!).
  all: eapply wp_mono; [apply loop_safe; [intros; by apply epoll_round_safe | done]|].
  all: intros left [x8 w8 h8 l8] (Hh & Hl & Hx8); simpl in *; subst h8 l8.
  all: destruct left; wp_auto; by split_and!.
Qed.

Lemma select_round_safe x w h l :
  (forall a b, others a b -> slots_ok a -> slots_ok b) -> watcher_ok x ->
  wp (select_round buf)
     (fun _ σ => held σ = h /\ ledger σ = l /\ watcher_ok (drv σ)) (KSt x w h l).
Proof.
  intros Ho Hx. unfold select_round. wp_step.
  eapply wp_mono; [by apply wait_ready_safe|]. intros ev [x1 w1 h1 l1] (Hh & Hl & Hx1).
  simpl in *. subst h1 l1. destruct ev as [[r0 r1]|]; [|by wp_auto].
  assert (Hev : forall (r : bool) fd x w, 0 <= fd < DEVICE_CNT -> watcher_ok x ->
    wp (if r then select_event buf fd else mret tt)
       (fun _ σ => held σ = h /\ ledger σ = l /\ watcher_ok (drv σ)) (KSt x w h l)).
  { intros r fd x2 w2 Hfd Hx2. destruct r; [by apply select_event_safe | by wp_auto]. }
  wp_step. eapply wp_mono; [by apply Hev|]. intros _ [x2 w2 h2 l2] (Hh & Hl & Hx2).
  simpl in *. subst h2 l2. wp_step. eapply wp_mono; [by apply Hev|].
  intros [] [x3 w3 h3 l3] (Hh & Hl & Hx3). simpl in *. by wp_step.
Qed.

(** The same of select_app.c. *)
Lemma select_main_closes `{!Grants W} `{!GrantsOk W} (n : nat) (x : watcher) (w : W) :
  (forall a b, others a b -> slots_ok a -> slots_ok b) -> watcher_ok x ->
  wp (select_main buf n)
     (fun r σ => held σ = [] /\ watcher_ok (drv σ) /\
        match r with Some _ => ledger σ = [] | None => length (ledger σ) = 2%nat end)
     (KSt x w [] []).
Proof.
  intros Ho Hx. unfold select_main, watch_main, close. wp_auto; use_grants; try lia; try (by split_and!).
  eapply wp_mono; [apply loop_safe; [intros; by apply select_round_safe | done]|].
  intros left [x8 w8 h8 l8] (Hh & Hl & Hx8); simpl in *; subst h8 l8.
  destruct left; wp_auto; by split_and!.
Qed.

(** A message that another process writes while the program has already
    read [p] bytes from the device is printed from its byte [p] on only, and
    not at all when it has at most [p] bytes; it is gone all the same. *)
Theorem watcher_misses_prefix (fd src len wpos : Z) (x : watcher) (w : W)
    (Hx : watcher_ok x) (Hfd : 0 <= fd < DEVICE_CNT) (Hlen : 0 <= len) :
  let p := file_pos fd x in
  let msg := uread (umem w) src (Z.min len 128) in
  wp (r ← drive (my_write fd src len wpos); select_event buf fd;; mret r.1)
     (fun r σ => r = Z.min len 128 ->
        exists k, 0 <= k <= 127 /\
          (out (drv σ) = out x /\ k = 0 \/
           out (drv σ) = out x ++ [(fd, until_nul (sub p k msg))] /\ 0 < k /\ p + k <= zlen msg) /\
          (zlen msg <= p + k -> message (dev (drv σ)) fd = None))
     (KSt x w [] []).
Proof.
  intros p msg. pose proof Hx as (Hok & Hp).
  destruct (slot_exists (dev x) fd Hok Hfd) as (f & n & b & Hat).
  wp_step. apply wp_watcher. eapply wp_mono; [by eapply slot_write_spec|].
  intros r1 [s1 w1 h1 l1] (Hh & Hl & Hok1 & Hr1). simpl in *. subst h1 l1.
  assert (Hx1 : watcher_ok (set_dev s1 x)) by by split.
  destruct Hr1 as [->|(-> & _ & Hmsg & _)].
  - wp_step. eapply wp_mono; [by apply select_event_safe|]. intros _ σ _. wp_step.
    unfold EFAULT. simpl. lia.
  - wp_step. eapply wp_mono; [by apply select_event_spec|].
    intros _ [x2 w2 h2 l2] (_ & _ & _ & k & Hk & Hcase & Hend). wp_step. simpl in *. intros _.
    exists k. split; [done|]. split; [|exact Hend].
    destruct Hcase as [(-> & -> & _)|(? & ? & _ & ->)]; [by left | by right].
Qed.
End Props.

(** ** The two programs with room for the terminator are the same *)

(** A round of epoll_app.c that receives its events in the order of the
    devices is a round of select_app.c: same reads, same output, same result. *)
Theorem epoll_select_equivalent {W : Type} `{UserAccess W} `{SimpleRead W} `{Waiting W slots}
    `{UserMem W} `{UserStore W} (buf : Z) (σ : kst W watcher) :
  epoll_round buf [0; 1] σ = select_round buf σ.
Proof.
  unfold epoll_round, select_round, mbind, M_bind, mret, M_ret.
  destruct (wait_ready σ) as [[[[r0 r1]|] σ1]|u]; try done.
  destruct r0, r1; cbn; repeat case_decide; try done; cbn;
    unfold mbind, M_bind, mret, M_ret; try done.
  - destruct (select_event buf 0 σ1) as [[[] σ2]|]; [|done].
    by destruct (select_event buf 1 σ2) as [[[] ?]|].
  - by destruct (select_event buf 0 σ1) as [[[] ?]|].
  - by destruct (select_event buf 1 σ1) as [[[] ?]|].
Qed.

(** ** Witnesses *)

Definition watcher0 : watcher := Watcher slots0 0 0 [].

Lemma watcher0_ok : watcher_ok watcher0.
Proof. split; [apply slots0_ok | simpl; lia]. Qed.

Lemma epoll_main_closes_witness :
  wp (epoll_main 500 3 [1; 0] (fun _ w => (0, w)))
     (fun r σ => held σ = [] /\ watcher_ok (drv σ) /\
        match r with Some _ => ledger σ = [] | None => length (ledger σ) = 3%nat end)
     (KSt watcher0 (sim_at 100 (bytes_of "hi")) [] []).
Proof.
  apply (epoll_main_closes (others := alone) 500 3 [1; 0] (fun _ w => (0, w)) watcher0).
  - by unfold alone.
  - apply watcher0_ok.
  - unfold DEVICE_CNT. repeat constructor; lia.
Defined.

Lemma watcher_misses_prefix_witness :
  wp (r ← drive (my_write 1 100 5 0); select_event 500 1;; mret r.1)
     (fun r σ => r = 5 -> exists k, 0 <= k <= 127 /\
          (out (drv σ) = [] /\ k = 0 \/
           out (drv σ) = [(1, until_nul (sub 3 k (bytes_of "hello")))] /\ 0 < k /\ 3 + k <= 5) /\
          (5 <= 3 + k -> message (dev (drv σ)) 1 = None))
     (KSt (Watcher slots0 0 3 []) (sim_at 100 (bytes_of "hello" ++ replicate 600 NUL)) [] []).
Proof.
  eapply wp_mono.
  - apply (watcher_misses_prefix 500 1 100 5 0).
    + split; [apply slots0_ok | simpl; lia].
    + unfold DEVICE_CNT. lia.
    + lia.
  - intros r σ Hr E. destruct (Hr E) as (k & Hk & Hcase & Hend). by exists k.
Defined.

(** A message that fills the device: poll_app.c prints past its buffer,
    select_app.c does not. *)
Definition full_device : watcher :=
  Watcher (Slots (my_devices slots0) [1; 0] [replicate 128 Byte.x41; replicate 128 NUL] [128; 0]) 0 0 [].
Definition watcher_world : sim := sim_at 500 (replicate 128 NUL).

Example poll_event_overreads :
  poll_event 500 0 (KSt full_device watcher_world [] []) = Oops OutOfBounds.
Proof. vm_compute. reflexivity. Qed.

Example select_event_in_two :
  match (select_event 500 0;; select_event 500 0) (KSt full_device watcher_world [] []) with
  | Done (_, σ) => out (drv σ) = [(0, replicate 127 Byte.x41); (0, [Byte.x41])]
  | Oops _ => False
  end.
Proof. vm_compute. reflexivity. Qed.
