(* ===== verification/Readers.v ===== *)
(** * 012_multi_reader_wait: one message for two readers (driver.c)

    A write publishes a string; readers block until one is there. The second
    successful read since the write withdraws it. The requested length of a
    read is not looked at: the whole string is copied to the user. *)

From S2P Require Import Prelude Kernel Wp Sim Wait.

(** READ_TIMEOUT is 5 * HZ; HZ is a configuration constant of the kernel. *)
Definition READ_TIMEOUT (HZ : Z) : Z := 5 * HZ.

Record board := Board {
  data : list byte;
  data_ready : Z;
  readers_count : Z;
  total_readers : Z;
}.

Definition board0 : board := Board (replicate 256 NUL) 0 0 2.

Definition ready (b : board) : bool := negb (data_ready b =? 0).

Section Readers.
Context {W : Type} `{UserAccess W} `{Waiting W board}.

(** The read function once the message is there: the length asked for is
    overwritten by the length of the string. *)
Definition read_board (buf : Z) : M W board Z :=
  b ← get;
  str ← value OutOfBounds (cstr (data b));
  let len := zlen str in
  r ← copy_to_user buf (sub 0 len (data b));
  if negb (r =? 0) then mret (- EFAULT)
  else
    modify (fun b => Board (data b) (data_ready b) (s32 (readers_count b + 1)) (total_readers b));;
    b ← get;
    (if total_readers b <=? readers_count b then
       modify (fun b => Board (data b) 0 0 (total_readers b))
     else mret tt);;
    mret len.

Definition my_read (HZ buf len pos : Z) : M W board Z :=
  ret ← wait_event_interruptible_timeout ready (READ_TIMEOUT HZ);
  if ret <? 0 then mret (- ERESTARTSYS)
  else if ret =? 0 then mret (- ETIMEDOUT)
  else read_board buf.

Definition my_write (buf len pos : Z) : M W board Z :=
  let len := if 255 <? len then 255 else len in
  b ← get;
  if in_bounds 0 len (zlen (data b)) then
    '(r, bs) ← copy_from_user buf len;
    modify (fun b => Board (upd 0 bs (data b)) (data_ready b) (readers_count b) (total_readers b));;
    if negb (r =? 0) then mret (- EFAULT)
    else
      b ← get;
      text ← value OutOfBounds (zset (data b) len NUL);
      modify (fun b => Board text 1 0 (total_readers b));;
      mret len
  else oops OutOfBounds.
End Readers.

Section Module_.
Context {W D : Type} `{Grants W}.

(** Only the result of alloc_chrdev_region is looked at; a device cannot be
    created in a class that is an error pointer. *)
Definition dev_init : M W D Z :=
  ret ← alloc_chrdev_region;
  if ret <? 0 then mret ret
  else
    cdev_add 0;;
    my_class ← class_create;
    device_create_in my_class 0;;
    mret 0.

Definition dev_exit : M W D unit :=
  device_destroy 0;; class_destroy;; cdev_del 0;; unregister_chrdev_region.
End Module_.

(** ** Invariant: the last byte of the array is always a terminator *)

Record board_ok (b : board) : Prop := {
  ok_size : zlen (data b) = 256;
  ok_end : zget (data b) 255 = Some NUL;
  ok_total : total_readers b = 2;
  ok_count : 0 <= readers_count b < 2;
}.

Lemma board0_ok : board_ok board0.
Proof. by split. Qed.

Lemma board_str b :
  board_ok b -> exists s, cstr (data b) = Some s /\ zlen s <= 255 /\ sub 0 (zlen s) (data b) = s.
Proof.
  intros [_ He _ _]. destruct (cstr_bounded _ _ He) as (s & Hs & Hl).
  exists s. split_and!; [done | done | by apply cstr_prefix].
Qed.

(** What a successful read leaves: the second reader withdraws the message. *)
Definition after_read (b : board) : board :=
  if readers_count b =? 1 then Board (data b) 0 0 (total_readers b)
  else Board (data b) (data_ready b) 1 (total_readers b).

Section Props.
Context {W : Type} `{UserAccessOk W}.
Context {others : relation board} `{!Waiting W board} `{!WaitingOk W board others}.
Implicit Types (b : board) (w : W) (h : list lock) (l : list resource).

(** The part of a read behind the wait. *)
Definition read_post b (w : W) buf h l (r : Z) (σ : kst W board) : Prop :=
  held σ = h /\ ledger σ = l /\ board_ok (drv σ) /\
  exists s, cstr (data b) = Some s /\
    ((r = - EFAULT /\ drv σ = b /\ exists k, umem (world σ) ≡ₘ uwrite (umem w) buf (take k s)) \/
     (r = zlen s /\ drv σ = after_read b /\ umem (world σ) ≡ₘ uwrite (umem w) buf s)).

Lemma after_read_ok b : board_ok b -> board_ok (after_read b).
Proof.
  intros [B1 B2 B3 B4]. unfold after_read. destruct (readers_count b =? 1); split; simpl; try done; lia.
Qed.

Lemma read_board_spec buf c w h l :
  board_ok c -> wp (read_board buf) (read_post c w buf h l) (KSt c w h l).
Proof.
  intros Hc. unfold read_board.
  destruct (board_str c Hc) as (s & Hs & Hl & Hsub). pose proof (after_read_ok c Hc) as Ha.
  pose proof Hc as [Hc1 Hc2 Hc3 Hc4].
  wp_step; wp_step; wp_step. rewrite Hs. wp_step; wp_step. rewrite Hsub. wp_step.
  destruct (Z.eqb_spec r 0) as [->|]; simpl negb; cbv iota.
  2:{ wp_auto. do 3 (split; [done|]). exists s. split; [done|]. left. split_and!; try done.
      apply ctu_ok in Hctu as [_ Hm]. eexists. exact Hm. }
  apply ctu_full in Hctu. do 5 wp_step.
  rewrite Hc3, s32_small by (unfold is_int, INT_MIN, INT_MAX; lia).
  assert (Hdone : forall b', b' = after_read c ->
    wp (mret (zlen s)) (read_post c w buf h l) (KSt b' w0 h l)).
  { intros b' ->. apply wp_ret. do 3 (split; [done|]). exists s. split; [done|]. by right. }
  cbn [total_readers readers_count].
  destruct (Z.leb_spec 2 (readers_count c + 1)); wp_step; apply Hdone; unfold after_read.
  - rewrite (proj2 (Z.eqb_eq _ _)) by lia. by rewrite Hc3.
  - rewrite (proj2 (Z.eqb_neq _ _)) by lia. rewrite Hc3. f_equal. lia.
Qed.

(** A reader that finds the message published. *)
Lemma reader_ready HZ buf len pos b w h l :
  board_ok b -> ready b = true -> 0 < HZ ->
  wp (my_read HZ buf len pos) (read_post b w buf h l) (KSt b w h l).
Proof.
  intros Hb Hr Hz. unfold my_read. wp_step. apply wp_timeout_ready; [done | unfold READ_TIMEOUT; lia|].
  rewrite (proj2 (Z.ltb_ge _ _)), (proj2 (Z.eqb_neq _ _)) by (unfold READ_TIMEOUT; lia).
  by apply read_board_spec.
Qed.

(** Any reader. *)
Lemma reader_spec HZ buf len pos b w h l :
  (forall a c, others a c -> board_ok a -> board_ok c) -> board_ok b ->
  wp (my_read HZ buf len pos)
     (fun r σ =>
        (held σ = h /\ ledger σ = l /\ board_ok (drv σ) /\ (r = - ERESTARTSYS \/ r = - ETIMEDOUT)) \/
        exists c w', rtc others b c /\ ready c = true /\ umem w' ≡ₘ umem w /\
                     read_post c w' buf h l r σ)
     (KSt b w h l).
Proof.
  intros Ho Hb. unfold my_read. wp_step. apply wp_timeout. intros rc c w' Hr Hm Hrc.
  assert (Hc : board_ok c) by by eapply others_keep.
  wp_step; [wp_auto; left; auto|]. wp_step; [wp_auto; left; auto|].
  destruct Hrc as [[_ Hready]|[[? _]|?]]; [|lia|unfold ERESTARTSYS in *; lia].
  eapply wp_mono; [by apply read_board_spec|]. intros r σ Hp. right. by exists c, w'.
Qed.

Lemma terminated_ok bs b k :
  board_ok b -> zlen bs = k -> 0 <= k <= 255 ->
  zlen (upd 0 bs (data b)) = 256 /\ zget (upd 0 bs (data b)) 255 = Some NUL /\
  zlen (<[Z.to_nat k := NUL]> (upd 0 bs (data b))) = 256 /\
  zget (<[Z.to_nat k := NUL]> (upd 0 bs (data b))) 255 = Some NUL /\
  cstr (<[Z.to_nat k := NUL]> (upd 0 bs (data b))) = cstr (bs ++ [NUL]).
Proof.
  intros [B1 B2 _ _] Hz Hk.
  assert (Hu : zlen (upd 0 bs (data b)) = 256) by (rewrite zlen_upd; lia).
  assert (He : zget (upd 0 bs (data b)) 255 = Some NUL).
  { unfold zget in *. simpl in *. rewrite lookup_upd by lia. by rewrite decide_False by lia. }
  split_and!; try done.
  - by rewrite zlen_insert.
  - rewrite zget_insert by lia. by case_decide.
  - unfold upd. rewrite Z2Nat.inj_0. simpl take. rewrite app_nil_l, Nat.add_0_l.
    assert (length bs = Z.to_nat k) as El by (unfold zlen in Hz; lia).
    destruct (drop (length bs) (data b)) as [|x rest] eqn:Ed.
    { apply (f_equal length) in Ed. rewrite length_drop in Ed. unfold zlen in B1. simpl in Ed. lia. }
    rewrite insert_app_r_alt by lia. rewrite El, Nat.sub_diag. simpl.
    apply cstr_app_nul.
Qed.

Lemma board_write_spec buf len pos b w h l :
  board_ok b -> 0 <= len ->
  wp (my_write buf len pos)
     (fun r σ => held σ = h /\ ledger σ = l /\ board_ok (drv σ) /\ umem (world σ) ≡ₘ umem w /\
        let k := Z.min len 255 in
        (r = - EFAULT /\ data_ready (drv σ) = data_ready b \/
         r = k /\ data_ready (drv σ) = 1 /\ readers_count (drv σ) = 0 /\
         cstr (data (drv σ)) = cstr (uread (umem w) buf k ++ [NUL])))
     (KSt b w h l).
Proof.
  intros Hb Hlen. pose proof Hb as [B1 B2 B3 B4]. unfold my_write.
  replace (if 255 <? len then 255 else len) with (Z.min len 255)
    by (destruct (Z.ltb_spec 255 len); lia).
  set (k := len `min` 255). assert (Hk : 0 <= k <= 255) by lia. clearbody k.
  wp_step; wp_step. rewrite in_bounds_true by lia. do 4 wp_step.
  assert (Hz : zlen bs = k) by (eapply cfu_zlen; [|done]; lia).
  destruct (terminated_ok bs b k Hb Hz Hk) as (T1 & T2 & T3 & T4 & T5).
  pose proof (cfu_mem _ _ _ _ _ _ (proj1 Hk) Hcfu) as Hm.
  destruct (Z.eqb_spec r 0) as [->|]; simpl negb; cbv iota.
  - do 3 wp_step. rewrite zset_in by (simpl; lia). wp_auto. simpl.
    split_and!; try done. right. split_and!; try done. rewrite T5.
    by apply cfu_full in Hcfu as [-> _]; [|lia].
  - wp_auto. split_and!; try done. by left.
Qed.

(** A successful read copies the whole message to the user, however short
    the buffer the caller asked to fill is, and returns its length; every
    other outcome is an interrupted wait, a timeout or a fault. Other threads
    may read and write while the caller waits. *)
Theorem reader_ignores_length (HZ buf len pos : Z) (b : board) (w : W) (Hb : board_ok b)
    (Ho : forall a c, others a c -> board_ok a -> board_ok c) :
  wp (my_read HZ buf len pos)
     (fun r σ =>
        board_ok (drv σ) /\ held σ = [] /\
        ((r = - ERESTARTSYS \/ r = - ETIMEDOUT \/ r = - EFAULT) \/
         exists c s, rtc others b c /\ ready c = true /\ cstr (data c) = Some s /\
                     r = zlen s /\ umem (world σ) ≡ₘ uwrite (umem w) buf s))
     (KSt b w [] []).
Proof.
  eapply wp_mono; [by apply reader_spec|].
  intros r σ [(Hh & _ & Hok & Hr)|(c & w' & Hr & Hready & Hm & Hh & _ & Hok & s & Hs & Hpost)].
  - split_and!; [done..|]. tauto.
  - split_and!; [done..|]. destruct Hpost as [[-> _]|(-> & _ & Hu)]; [tauto|]. right.
    exists c, s. split_and!; try done. by rewrite Hu, Hm.
Qed.

(** C21. A message serves two reads: after a successful write, the first
    successful read delivers it and leaves it published, the second delivers
    it too and withdraws it, so that a third reader waits. *)
Theorem message_serves_two_reads (HZ src n dst1 len1 dst2 len2 : Z) (b : board) (w : W)
    (Hb : board_ok b) (Hn : 0 <= n) (Hz : 0 < HZ) :
  wp (r0 ← my_write src n 0;
      if r0 <? 0 then mret (r0, false, r0, r0)
      else
        r1 ← my_read HZ dst1 len1 0; c ← get;
        if r1 <? 0 then mret (r0, false, r1, r1)
        else r2 ← my_read HZ dst2 len2 0; mret (r0, ready c, r1, r2))
     (fun r σ => 0 <= r.2 ->
        exists s, cstr (uread (umem w) src (Z.min n 255) ++ [NUL]) = Some s /\
                  r = (Z.min n 255, true, zlen s, zlen s) /\ ready (drv σ) = false /\
                  umem (world σ) ≡ₘ uwrite (uwrite (umem w) dst1 s) dst2 s)
     (KSt b w [] []).
Proof.
  apply wp_bind. eapply wp_mono; [by apply board_write_spec|].
  intros r0 [b1 w1 h1 l1] (Hh & Hl & Hb1 & Hm1 & Hr0). simpl in Hh, Hl, Hb1, Hm1, Hr0. subst h1 l1.
  destruct (Z.ltb_spec r0 0); [apply wp_ret; simpl; lia|].
  destruct Hr0 as [[-> _]|(-> & Hd1 & Hc1 & Hs1)]; [unfold EFAULT in *; lia|].
  assert (Hready : ready b1 = true) by by unfold ready; rewrite Hd1.
  apply wp_bind. eapply wp_mono; [by apply reader_ready|].
  intros r1 [b2 w2 h2 l2] (Hh & Hl & Hb2 & s & Hs & Hr1). simpl in Hh, Hl, Hb2, Hr1. subst h2 l2.
  wp_step; wp_step. destruct (Z.ltb_spec r1 0); [apply wp_ret; simpl; lia|].
  destruct Hr1 as [[-> _]|(-> & Hb2e & Hm2)]; [unfold EFAULT in *; lia|].
  unfold after_read in Hb2e. rewrite Hc1 in Hb2e. simpl in Hb2e.
  assert (Hready2 : ready b2 = true) by by rewrite Hb2e; unfold ready; simpl; rewrite Hd1.
  apply wp_bind. eapply wp_mono; [by apply reader_ready|].
  intros r2 σ (_ & _ & _ & s' & Hs' & Hr2). apply wp_ret. simpl. intros Hr.
  rewrite Hb2e in Hs'. simpl in Hs'. assert (s' = s) as -> by congruence.
  destruct Hr2 as [[-> _]|(-> & Hd & Hm3)]; [unfold EFAULT in *; lia|].
  exists s. rewrite Hready2. split_and!; [congruence | done | |].
  - rewrite Hd. unfold after_read. by rewrite Hb2e.
  - by rewrite Hm3, Hm2, Hm1.
Qed.
End Props.

(** ** The properties at concrete inputs *)

Definition board_hello : board := Board (upd 0 (bytes_of "hello") (replicate 256 NUL)) 1 0 2.

Lemma board_hello_ok : board_ok board_hello.
Proof. split; try done; vm_compute; reflexivity. Qed.

Definition nobody : relation board := fun _ _ => False.
Definition readers_user : sim := sim_at 100 (bytes_of "hi" ++ replicate 30 NUL).

(** One byte is asked for; a successful read returns five. *)
Lemma reader_ignores_length_witness :
  wp (my_read 100 110 1 0) (fun r σ => r < 0 \/ r = 5) (KSt board_hello readers_user [] []).
Proof.
  eapply wp_mono.
  - apply (reader_ignores_length (others := nobody) 100 110 1 0 board_hello readers_user
             board_hello_ok). intros a c [].
  - intros r σ (_ & _ & [[->|[->| ->]]|(c & s & Hr & _ & Hs & -> & _)]); [by left..|].
    right. apply rtc_inv in Hr as [<-|(y & [] & _)].
    assert (cstr (data board_hello) = Some (bytes_of "hello")) as E by (vm_compute; reflexivity).
    rewrite E in Hs. injection Hs as <-. reflexivity.
Defined.

Lemma message_serves_two_reads_witness :
  wp (r0 ← my_write 100 2 0;
      if r0 <? 0 then mret (r0, false, r0, r0)
      else
        r1 ← my_read 100 110 8 0; c ← get;
        if r1 <? 0 then mret (r0, false, r1, r1)
        else r2 ← my_read 100 120 8 0; mret (r0, ready c, r1, r2))
     (fun r σ => 0 <= r.2 -> r = (2, true, 2, 2) /\ ready (drv σ) = false)
     (KSt board0 readers_user [] []).
Proof.
  eapply wp_mono.
  - apply (message_serves_two_reads (others := nobody) 100 100 2 110 8 120 8 board0 readers_user
             board0_ok); lia.
  - intros r σ Hr Hpos. destruct (Hr Hpos) as (s & Hs & -> & Hd & _).
    assert (cstr (uread (umem readers_user) 100 (Z.min 2 255) ++ [NUL]) = Some (bytes_of "hi")) as E
      by (vm_compute; reflexivity).
    rewrite E in Hs. injection Hs as <-. split; [reflexivity | exact Hd].
Defined.
