(* ===== verification/WaitCalls.v ===== *)
(** * 012_multi_reader_wait, 014_poll_select: calls that overlap

    The two drivers whose readers wait for a message take no lock: reads and
    writes of several processes touch the message and the flags at the same
    time. Modules [ReaderCalls] (012) and [PollCalls] (014) run any number of
    overlapping calls, one access to one shared variable or byte after the
    other (Calls.v). The accesses stay in their arrays; messages are torn,
    served too often and lost. *)

From S2P Require Import Prelude Kernel Wp Sim Sched Calls.
From S2P Require Readers Poll.

(** ** Strings, character by character *)

Lemma cstr_split (bs s : list byte) :
  cstr bs = Some s -> exists r, bs = s ++ NUL :: r /\ Forall (fun b => b <> NUL) s.
Proof.
  revert s. induction bs as [|b bs IH]; intros s; simpl; [done|]. case_decide as E.
  - intros [= <-]. exists bs. subst b. done.
  - destruct (cstr bs) as [s'|]; [|done]. intros [= <-]. destruct (IH s' eq_refl) as (r & -> & Hs).
    exists r. split; [done | by constructor].
Qed.

(** What a scan of the string finds at place [n]. *)
Lemma cstr_at (bs s : list byte) n :
  cstr bs = Some s -> 0 <= n <= zlen s ->
  exists b, zget bs n = Some b /\
    (b = NUL /\ n = zlen s \/ b <> NUL /\ n < zlen s /\ zget s n = Some b).
Proof.
  intros (r & -> & Hs)%cstr_split Hn. unfold zget. rewrite (proj2 (Z.leb_le 0 n)) by lia.
  destruct (decide (n = zlen s)) as [->|Hne].
  - exists NUL. split; [|by left]. rewrite lookup_app_r by (unfold zlen; lia).
    unfold zlen. by rewrite Nat2Z.id, Nat.sub_diag.
  - destruct (lookup_lt_is_Some_2 s (Z.to_nat n)) as [b Hb]; [unfold zlen in *; lia|].
    exists b. split; [by apply lookup_app_l_Some|]. right. split_and!; [|lia|done].
    exact (Forall_lookup_1 _ _ _ _ Hs Hb).
Qed.

Lemma sub_next {A} (l : list A) off n b :
  0 <= off -> 0 <= n -> zget l (off + n) = Some b -> sub off (n + 1) l = sub off n l ++ [b].
Proof.
  intros Ho Hn Hb. unfold zget in Hb. rewrite (proj2 (Z.leb_le 0 (off + n))) in Hb by lia. unfold sub.
  replace (Z.to_nat (n + 1)) with (S (Z.to_nat n)) by lia. apply take_S_r.
  rewrite lookup_drop. replace (Z.to_nat off + Z.to_nat n)%nat with (Z.to_nat (off + n)) by lia. done.
Qed.

Lemma sub_snoc {A} (l : list A) n b :
  zget l n = Some b -> sub 0 (n + 1) l = sub 0 n l ++ [b].
Proof. intros Hb. pose proof (zget_Some _ _ _ Hb). apply sub_next; [done | lia | done]. Qed.

(** ** 012_multi_reader_wait/driver.c *)
Module ReaderCalls.
Import Readers.

(** How a wait ends that does not find the message. *)
Inductive ending := TimedOut | Interrupted.

(** A read, with the way its wait ends while the message is not there ([None]:
    it goes on waiting) and the bytes copy_to_user can store before it
    faults; a write whose caller offers as many bytes as [bs], which is what
    copy_from_user makes of them: with [fault] it could not read them all. *)
Inductive request := Read (ends : option ending) (room : Z) | Write (bs : list byte) (fault : bool).

(** A read in strlen, copying, at readers_count++ (a load and a store), at the
    test and the two resets; a write copying, at the terminator, at the flag
    and at the counter. [out] are the bytes handed to the user. *)
Inductive loc :=
  | Begin | Scan (n : Z) | CopyOut (n : Z) (out : list byte)
  | Load (out : list byte) | Store (out : list byte) (c : Z) | Compare (out : list byte)
  | ZeroCount (out : list byte) | ClearReady (out : list byte)
  | Fill (k : Z) | Terminate | Publish | ResetCount
  | Return (r : Z) (out : list byte) | Wild.

Record call := Call { what : request; at_ : loc }.

(** len, cut to what the array holds beside a terminator. *)
Definition count (bs : list byte) : Z := if 255 <? zlen bs then 255 else zlen bs.

Definition next (c : call) (s : board) : option (call * board) :=
  let go l s := Some (Call (what c) l, s) in
  match what c, at_ c with
  | Read ends _, Begin =>
      if ready s then go (Scan 0) s
      else match ends with
           | Some Interrupted => go (Return (- ERESTARTSYS) []) s
           | Some TimedOut => go (Return (- ETIMEDOUT) []) s
           | None => None
           end
  | Read _ _, Scan n =>
      match zget (data s) n with
      | Some b => go (if bool_decide (b = NUL) then CopyOut n [] else Scan (n + 1)) s
      | None => go Wild s
      end
  | Read _ room, CopyOut n out =>
      if zlen out <? Z.min n room then
        match zget (data s) (zlen out) with
        | Some b => go (CopyOut n (out ++ [b])) s
        | None => go Wild s
        end
      else go (if room <? n then Return (- EFAULT) out else Load out) s
  | Read _ _, Load out => go (Store out (readers_count s)) s
  | Read _ _, Store out c =>
      go (Compare out) (Board (data s) (data_ready s) (s32 (c + 1)) (total_readers s))
  | Read _ _, Compare out =>
      go (if total_readers s <=? readers_count s then ZeroCount out else Return (zlen out) out) s
  | Read _ _, ZeroCount out => go (ClearReady out) (Board (data s) (data_ready s) 0 (total_readers s))
  | Read _ _, ClearReady out =>
      go (Return (zlen out) out) (Board (data s) 0 (readers_count s) (total_readers s))
  | Write _ _, Begin => go (Fill 0) s
  | Write bs fault, Fill k =>
      if k <? count bs then
        match zget bs k ≫= zset (data s) k with
        | Some d => go (Fill (k + 1)) (Board d (data_ready s) (readers_count s) (total_readers s))
        | None => go Wild s
        end
      else go (if fault then Return (- EFAULT) [] else Terminate) s
  | Write bs _, Terminate =>
      match zset (data s) (count bs) NUL with
      | Some d => go Publish (Board d (data_ready s) (readers_count s) (total_readers s))
      | None => go Wild s
      end
  | Write _ _, Publish => go ResetCount (Board (data s) 1 (readers_count s) (total_readers s))
  | Write bs _, ResetCount =>
      go (Return (count bs) []) (Board (data s) (data_ready s) 0 (total_readers s))
  | _, _ => None
  end.

Definition start (s : board) (rs : list request) : conc := Conc s ((fun r => Call r Begin) <$> rs).

Lemma count_min bs : count bs = Z.min (zlen bs) 255.
Proof. unfold count. destruct (Z.ltb_spec 255 (zlen bs)); lia. Qed.

(** *** Every interleaving *)
Section Inv.
Context (s0 : board) (rs : list request).

(** The bytes that were there or that somebody writes. *)
Definition written (r : request) : list byte := match r with Write bs _ => bs | Read _ _ => [] end.
Definition source : list byte := NUL :: data s0 ++ rs ≫= written.

Definition from_source (bs : list byte) : Prop := Forall (fun b => b ∈ source) bs.

Definition loc_ok (c : call) : Prop :=
  match what c, at_ c with
  | _, Begin => True
  | Read _ _, Scan n => 0 <= n <= 255
  | Read _ _, CopyOut n out => zlen out <= n <= 255 /\ from_source out
  | Read _ _, (Load out | Store out _ | Compare out | ZeroCount out | ClearReady out) =>
      zlen out <= 255 /\ from_source out
  | Read _ _, Return r out => (r < 0 \/ r = zlen out) /\ zlen out <= 255 /\ from_source out
  | Write bs _, Fill k => 0 <= k <= count bs
  | Write bs _, (Terminate | Publish | ResetCount) => True
  | Write bs _, Return r out => (r < 0 \/ r = count bs) /\ out = []
  | _, _ => False
  end.

Record text_ok (d : list byte) : Prop := {
  t_size : zlen d = 256;
  t_end : zget d 255 = Some NUL;
  t_source : from_source d;
}.

Record inv (c : conc) : Prop := {
  i_what : what <$> calls c = rs;
  i_text : text_ok (data (shared c));
  i_loc : Forall loc_ok (calls c);
}.

Lemma zget_source d n b : from_source d -> zget d n = Some b -> b ∈ source.
Proof.
  intros Hd Hb. unfold zget in Hb. destruct (0 <=? n); [|done]. by eapply (Forall_lookup_1 _ _ _ _ Hd).
Qed.

(** Storing a byte of a message, or its terminator. *)
Lemma text_store d k b :
  text_ok d -> 0 <= k <= 255 -> b ∈ source -> (k = 255 -> b = NUL) ->
  exists d', zset d k b = Some d' /\ text_ok d'.
Proof.
  intros [Hs He Hf] Hk Hb Hn. exists (<[Z.to_nat k := b]> d). rewrite zset_in by lia. split; [done|]. split.
  - by rewrite zlen_insert.
  - rewrite zget_insert by lia. case_decide as E; [by rewrite Hn|done].
  - by apply Forall_insert.
Qed.

Lemma written_source i bs f k b :
  rs !! i = Some (Write bs f) -> zget bs k = Some b -> b ∈ source.
Proof.
  intros Hi Hb. right. apply elem_of_app. right. apply list_elem_of_bind. exists (Write bs f).
  split; [|by eapply list_elem_of_lookup_2]. unfold zget in Hb. destruct (0 <=? k); [|done].
  by eapply list_elem_of_lookup_2.
Qed.

(** A turn leads to a place that is in order and keeps the text in order. *)
Lemma turn_ok c s c' s' i :
  rs !! i = Some (what c) -> text_ok (data s) -> loc_ok c -> next c s = Some (c', s') ->
  exists l, c' = Call (what c) l /\ loc_ok c' /\ text_ok (data s').
Proof.
  intros Hi Ht Hl Hn. pose proof Ht as [Hs He Hf]. destruct c as [r l]. unfold next, loc_ok in *. simpl in *.
  destruct r as [ends room | bs fault], l; try done.
  - destruct (ready s); [injection Hn as <- <-; eexists; split_and!; try done; simpl; lia|].
    destruct ends as [[]|]; [| |done]; injection Hn as <- <-; eexists; split_and!; try done; simpl.
    all: split_and!; [by left | done | constructor].
  - destruct (zget_in (data s) n) as [b Hb]; [lia|]. rewrite Hb in Hn. injection Hn as <- <-.
    eexists. split_and!; try done. simpl. case_bool_decide as E; [split; [done | constructor]|].
    assert (n <> 255) by (intros ->; congruence). lia.
  - destruct Hl as [Hlen Hout]. destruct (Z.ltb_spec (zlen out) (n `min` room)).
    + destruct (zget_in (data s) (zlen out)) as [b Hb]; [pose proof (zlen_nonneg out); lia|].
      rewrite Hb in Hn. injection Hn as <- <-. eexists. split_and!; try done. simpl.
      rewrite zlen_app. change (zlen [b]) with 1. split; [lia|].
      apply Forall_app. split; [done|]. constructor; [by eapply zget_source | constructor].
    + injection Hn as <- <-. eexists. split_and!; try done. simpl.
      destruct (room <? n); split_and!; try done; try lia. by left.
  - injection Hn as <- <-. by eexists.
  - injection Hn as <- <-. by eexists.
  - injection Hn as <- <-. eexists. split_and!; try done. simpl.
    destruct (total_readers s <=? readers_count s); [done|]. split; [by right | done].
  - injection Hn as <- <-. by eexists.
  - injection Hn as <- <-. eexists. split_and!; try done. simpl. split; [by right | done].
  - injection Hn as <- <-. eexists. split_and!; try done. simpl. rewrite count_min. pose proof (zlen_nonneg bs). lia.
  - rewrite count_min in *. destruct (Z.ltb_spec k (zlen bs `min` 255)).
    + destruct (zget_in bs k) as [b Hb]; [lia|]. rewrite Hb in Hn. simpl in Hn.
      destruct (text_store (data s) k b Ht) as (d & Hd & Hok); [lia | by eapply written_source | lia |].
      rewrite Hd in Hn. injection Hn as <- <-. eexists. split_and!; try done. simpl. rewrite count_min. lia.
    + injection Hn as <- <-. eexists. split_and!; try done. simpl. destruct fault; [|done]. split; [by left | done].
  - destruct (text_store (data s) (count bs) NUL Ht) as (d & Hd & Hok);
      [rewrite count_min; pose proof (zlen_nonneg bs); lia | by left | done |].
    rewrite Hd in Hn. injection Hn as <- <-. by eexists.
  - injection Hn as <- <-. by eexists.
  - injection Hn as <- <-. eexists. split_and!; try done. simpl. split; [by right | done].
Qed.

Lemma readers_run ts c :
  inv c -> exists c', exec (call_step next) ts (Done c) = Done c' /\ inv c'.
Proof.
  apply calls_inv. intros s ls i l l' s' [Hw Ht Hl] Hi Hn. simpl in *.
  assert (Hr : rs !! i = Some (what l)) by (by rewrite <- Hw, list_lookup_fmap, Hi).
  destruct (turn_ok l s l' s' i Hr Ht (Forall_lookup_1 _ _ _ _ Hl Hi) Hn)
    as (l2 & -> & Hok & Ht').
  split; simpl; [by eapply kept_insert | done | by apply Forall_insert].
Qed.

Lemma readers_start : board_ok s0 -> inv (start s0 rs).
Proof.
  intros [Hs He _ _]. split; simpl.
  - rewrite <- list_fmap_compose. apply list_fmap_id.
  - split; [done | done |]. apply Forall_forall. intros b Hb. right. apply elem_of_app. by left.
  - apply Forall_forall. intros c (r & -> & _)%list_elem_of_fmap. by destruct r.
Qed.

(** While nobody writes, the text stays what it is. *)
Section Quiet.
Context (str : list byte).
Hypothesis no_write : Forall (fun r => match r with Read _ _ => True | Write _ _ => False end) rs.
Hypothesis text : cstr (data s0) = Some str.

Definition quiet_loc (c : call) : Prop :=
  match at_ c with
  | Scan n => 0 <= n <= zlen str
  | CopyOut n out => n = zlen str /\ out = sub 0 (zlen out) str /\ zlen out <= zlen str
  | Load out | Store out _ | Compare out | ZeroCount out | ClearReady out => out = str
  | Return r out => 0 <= r -> out = str /\ r = zlen str
  | _ => True
  end.

Record quiet (c : conc) : Prop := {
  q_what : what <$> calls c = rs;
  q_text : data (shared c) = data s0;
  q_loc : Forall quiet_loc (calls c);
}.

Lemma quiet_turn c s c' s' :
  data s = data s0 -> quiet_loc c -> match what c with Read _ _ => True | Write _ _ => False end ->
  next c s = Some (c', s') ->
  exists l, c' = Call (what c) l /\ quiet_loc c' /\ data s' = data s0.
Proof.
  intros Hd Hl Hr Hn. destruct c as [r l]. unfold next, quiet_loc in *. simpl in *. rewrite ?Hd in Hn.
  destruct r as [ends room|]; [|done]. pose proof (zlen_nonneg str) as Hp. destruct l; try done.
  - destruct (ready s); [injection Hn as <- <-; eexists; split_and!; try done; simpl; lia|].
    destruct ends as [[]|]; [| |done]; injection Hn as <- <-; eexists; (split_and!; [done | intros E; exfalso; by apply E | done]).
  - destruct (cstr_at _ _ n text Hl) as (b & Hb & Hcase). rewrite Hb in Hn. injection Hn as <- <-.
    eexists. split_and!; try done. destruct Hcase as [[-> ->]|(? & ? & ?)]; simpl.
    + split_and!; [done | done | apply zlen_nonneg].
    + rewrite bool_decide_false by done. simpl. lia.
  - destruct Hl as (-> & Ho & Hz). destruct (Z.ltb_spec (zlen out) (zlen str `min` room)).
    + destruct (cstr_at _ _ (zlen out) text) as (b & Hb & Hcase); [pose proof (zlen_nonneg out); lia|].
      rewrite Hb in Hn. injection Hn as <- <-. eexists. split_and!; try done. simpl.
      destruct Hcase as [[]|(? & ? & Hs)]; [lia|]. rewrite zlen_app. change (zlen [b]) with 1.
      split_and!; [done | | lia]. by rewrite (sub_snoc str (zlen out) b Hs), <- Ho.
    + injection Hn as <- <-. eexists. split_and!; try done. simpl.
      destruct (Z.ltb_spec room (zlen str)); simpl; [done|].
      rewrite Ho. replace (zlen out) with (zlen str) by lia. apply sub_all.
  - injection Hn as <- <-. eexists. by split_and!.
  - injection Hn as <- <-. eexists. by split_and!.
  - injection Hn as <- <-. eexists. split_and!; try done. simpl. destruct (total_readers s <=? readers_count s); simpl; by subst.
  - injection Hn as <- <-. eexists. by split_and!.
  - injection Hn as <- <-. eexists. split_and!; [done | simpl; by subst | done].
Qed.

Lemma quiet_run ts c :
  quiet c -> exists c', exec (call_step next) ts (Done c) = Done c' /\ quiet c'.
Proof.
  apply calls_inv. intros s ls i l l' s' [Hw Ht Hl] Hi Hn. simpl in *.
  assert (Hr : rs !! i = Some (what l)) by (by rewrite <- Hw, list_lookup_fmap, Hi).
  destruct (quiet_turn l s l' s' Ht (Forall_lookup_1 _ _ _ _ Hl Hi) (Forall_lookup_1 _ _ _ _ no_write Hr) Hn)
    as (l2 & -> & Hok & Ht').
  split; simpl; [by eapply kept_insert | done | by apply Forall_insert].
Qed.
End Quiet.

Lemma quiet_start str : quiet str (start s0 rs).
Proof.
  split; simpl; [|done|].
  - rewrite <- list_fmap_compose. apply list_fmap_id.
  - apply Forall_forall. by intros c (r & -> & _)%list_elem_of_fmap.
Qed.
End Inv.

(** *** Without interference: Readers.v *)

Definition moves_to (c : call) (s : board) (c' : call) (s' : board) : Prop :=
  exists ts, exec (call_step next) ts (Done (Conc s [c])) = Done (Conc s' [c']).

Lemma moves_refl c s : moves_to c s c s.
Proof. by exists []. Qed.

Lemma moves_step c s c1 s1 c' s' :
  next c s = Some (c1, s1) -> moves_to c1 s1 c' s' -> moves_to c s c' s'.
Proof.
  intros Hn [ts Hts]. exists (0%nat :: ts). unfold exec, call_step in *. simpl in *. by rewrite Hn.
Qed.

Lemma scan_alone e room n s str c' s' :
  cstr (data s) = Some str -> 0 <= n <= zlen str ->
  moves_to (Call (Read e room) (CopyOut (zlen str) [])) s c' s' ->
  moves_to (Call (Read e room) (Scan n)) s c' s'.
Proof.
  intros Hs Hn Hto. remember (Z.to_nat (zlen str - n)) as k eqn:Hk. revert n Hn Hk.
  induction k as [|k IH]; intros n Hn Hk; destruct (cstr_at _ _ n Hs Hn) as (b & Hb & [[-> ->]|(Hne & ? & ?)]); try lia.
  all: eapply moves_step; [unfold next; simpl; rewrite Hb; reflexivity|].
  - by rewrite bool_decide_true.
  - rewrite bool_decide_false by done. apply IH; lia.
Qed.

Lemma copy_alone e room n s str c' s' :
  cstr (data s) = Some str -> zlen str <= room -> 0 <= n <= zlen str ->
  moves_to (Call (Read e room) (Load str)) s c' s' ->
  moves_to (Call (Read e room) (CopyOut (zlen str) (sub 0 n str))) s c' s'.
Proof.
  intros Hs Hroom Hn Hto. remember (Z.to_nat (zlen str - n)) as k eqn:Hk. revert n Hn Hk.
  assert (Hz : forall n, 0 <= n <= zlen str -> zlen (sub 0 n str) = n).
  { intros n Hn. rewrite zlen_sub; lia. }
  induction k as [|k IH]; intros n Hn Hk.
  - assert (n = zlen str) as -> by lia. rewrite sub_all. eapply moves_step; [unfold next; simpl|exact Hto].
    by rewrite (proj2 (Z.ltb_ge _ _)), (proj2 (Z.ltb_ge _ _)) by lia.
  - destruct (cstr_at _ _ n Hs Hn) as (b & Hb & [[_ ?]|(_ & _ & Hb')]); [lia|].
    eapply moves_step; [|apply (IH (n + 1)); lia].
    unfold next. simpl. rewrite Hz by lia. rewrite (proj2 (Z.ltb_lt _ _)) by lia.
    by rewrite Hb, (sub_snoc _ _ _ Hb').
Qed.

Lemma read_alone e room s str :
  board_ok s -> ready s = true -> cstr (data s) = Some str -> zlen str <= room ->
  moves_to (Call (Read e room) Begin) s (Call (Read e room) (Return (zlen str) str)) (after_read s).
Proof.
  intros [_ _ Ht Hc] Hr Hs Hroom. pose proof (zlen_nonneg str).
  eapply moves_step; [unfold next; simpl; rewrite Hr; reflexivity|].
  eapply scan_alone; [done | lia|].
  eapply (copy_alone _ _ 0); [done | done | lia|].
  do 2 (eapply moves_step; [reflexivity|]). unfold after_read.
  rewrite s32_small by (unfold is_int, INT_MIN, INT_MAX; lia).
  destruct (Z.eqb_spec (readers_count s) 1) as [E|E].
  - do 3 (eapply moves_step; [unfold next; simpl; rewrite ?Ht, ?E; reflexivity|]).
    rewrite Ht. apply moves_refl.
  - replace (readers_count s) with 0 by lia. eapply moves_step; [unfold next; simpl; rewrite Ht; reflexivity|].
    rewrite Ht. apply moves_refl.
Qed.

(** *** Every interleaving *)

Lemma call_in_order b rs c i l :
  inv b rs c -> calls c !! i = Some l -> rs !! i = Some (what l) /\ loc_ok b rs l.
Proof.
  intros [Hw _ Hl] Hi. split; [|by eapply (Forall_lookup_1 _ _ _ _ Hl)].
  by rewrite <- Hw, list_lookup_fmap, Hi.
Qed.

(** C11. Any number of reads and writes of the driver overlap in any order,
    one byte after the other: no access leaves the message array, which stays
    terminated, and a read that succeeds reports as many bytes as it handed
    out, at most 255, each of them from the old message or from one of the
    writes. They may come from several messages; while nobody writes they are
    the message. A write that succeeds reports what it was offered, cut to 255
    bytes. *)
Theorem readers_overlap (b : board) (rs : list request) (ts : list nat)
    (Hb : board_ok b) :
  exists c, exec (call_step next) ts (Done (start b rs)) = Done c /\
    zlen (data (shared c)) = 256 /\ zget (data (shared c)) 255 = Some NUL /\
    forall i l, calls c !! i = Some l -> rs !! i = Some (what l) /\ at_ l <> Wild /\
      forall r out, at_ l = Return r out -> 0 <= r ->
        match what l with
        | Read _ _ => r = zlen out /\ r <= 255 /\ from_source b rs out /\
            (Forall (fun r => match r with Read _ _ => True | Write _ _ => False end) rs ->
               cstr (data b) = Some out)
        | Write bs _ => r = Z.min (zlen bs) 255
        end.
Proof.
  destruct (readers_run b rs ts _ (readers_start b rs Hb)) as (c & Hc & Hinv).
  exists c. split; [done|]. pose proof Hinv as [_ [Hs He _] _]. do 2 (split; [done|]). intros i l Hi.
  destruct (call_in_order _ _ _ _ _ Hinv Hi) as [Hr Hl]. split; [done|]. unfold loc_ok in Hl.
  split; [intros E; rewrite E in Hl; by destruct (what l)|]. intros r out E Hpos. rewrite E in Hl.
  destruct (what l) as [e room|bs f]; [|destruct Hl as [[Hn|Hn] _]; [lia | by rewrite <- count_min]].
  destruct Hl as ([Hn|Hn] & Hlen & Hf); [lia|]. rewrite Hn. split_and!; try done. intros Hq.
  destruct (board_str b Hb) as (str & Hstr & _).
  destruct (quiet_run b rs str Hq Hstr ts _ (quiet_start b rs str)) as (c' & Hc' & [_ _ Hq']).
  rewrite Hc in Hc'. injection Hc' as <-. rewrite Hstr. f_equal. symmetry.
  pose proof (Forall_lookup_1 _ _ _ _ Hq' Hi) as Hq2. unfold quiet_loc in Hq2. rewrite E in Hq2. by apply Hq2.
Qed.

(** *** Messages that are torn, and served too often *)

Definition board_with (text : list byte) : board := Board (upd 0 text (replicate 256 NUL)) 1 0 2.
Definition turns (n i : nat) : list nat := replicate n i.
Definition outputs (r : outcome (@conc board call)) : option (list loc * Z * Z) :=
  match r with
  | Done c => Some (at_ <$> calls c, data_ready (shared c), readers_count (shared c))
  | Oops _ => None
  end.

(** Readers that count themselves at the same time: the increments but one
    are lost, and after four readers the message is still there. *)
Example served_to_four :
  outputs (exec (call_step next) (([0; 1; 2; 3]%nat ≫= turns 8) ++ ([0; 1; 2; 3]%nat ≫= turns 2))
             (Done (start (board_with (bytes_of "hi")) (replicate 4 (Read None 100))))) =
    Some (replicate 4 (Return 2 (bytes_of "hi")), 1, 1).
Proof. vm_compute. reflexivity. Qed.

(** A write between two bytes of a read: the reader gets a message that
    nobody wrote. *)
Example message_torn :
  outputs (exec (call_step next) (turns 6 0 ++ turns 8 1 ++ turns 6 0)
             (Done (start (board_with (bytes_of "old")) [Read None 100; Write (bytes_of "new") false]))) =
    Some ([Return 3 (bytes_of "oew"); Return 3 []], 1, 1).
Proof. vm_compute. reflexivity. Qed.

Lemma readers_overlap_witness :
  exists c, exec (call_step next) (turns 6 0 ++ turns 8 1 ++ turns 6 0)
      (Done (start board0 [Read (Some TimedOut) 100; Write (bytes_of "new") false])) = Done c /\
    zlen (data (shared c)) = 256.
Proof.
  destruct (readers_overlap board0 [Read (Some TimedOut) 100; Write (bytes_of "new") false]
              (turns 6 0 ++ turns 8 1 ++ turns 6 0)) as (c & Hc & Hs & _).
  - apply board0_ok.
  - exists c. split; assumption.
Defined.

End ReaderCalls.

(** ** 014_poll_select/poll.c *)
Module PollCalls.
Import Poll.

(** A read of slot [m]: [give n] is what simple_read_from_buffer returns when
    it is offered [n] bytes; [signal]: its wait ends without the event, which
    the driver takes for the event. A write whose caller offers as many bytes
    as [bs], which is what copy_from_user makes of them: with [fault] it could
    not read them all. *)
Inductive request :=
  | Read (m len pos : Z) (nonblock signal : bool) (give : Z -> Z)
  | Write (m : Z) (bs : list byte) (fault : bool).

(** A read at the flag, asleep, at the size it hands to
    simple_read_from_buffer, copying [r] bytes, at the comparison with the
    size, at the two resets; a write copying, at the size, at the flag. *)
Inductive loc :=
  | Begin | Asleep | Size | CopyOut (r : Z) (out : list byte)
  | Compare (r : Z) (out : list byte) | ClearFlag (r : Z) (out : list byte) | ClearSize (r : Z) (out : list byte)
  | Fill (k : Z) | SetSize | SetFlag
  | Return (r pos : Z) (out : list byte) | Wild.

Record call := Call { what : request; at_ : loc }.

Definition advance (pos r : Z) : Z := if r <? 0 then pos else pos + r.

(** len, cut to the size of the slot. *)
Definition count (bs : list byte) : Z := if BUF_SIZE <? zlen bs then BUF_SIZE else zlen bs.

Definition next (c : call) (s : slots) : option (call * slots) :=
  let go l s := Some (Call (what c) l, s) in
  let flags f := Slots (my_devices s) f (buffer s) (buffer_size s) in
  let rows b := Slots (my_devices s) (event_flag s) b (buffer_size s) in
  let sizes n := Slots (my_devices s) (event_flag s) (buffer s) n in
  match what c, at_ c with
  | Read m len pos nonblock _ _, Begin =>
      match zget (event_flag s) m with
      | Some f => go (if f =? 0 then if nonblock then Return (- EAGAIN) pos [] else Asleep else Size) s
      | None => go Wild s
      end
  | Read m _ _ _ signal _, Asleep =>
      match zget (event_flag s) m with
      | Some f => if (f =? 0) && negb signal then None else go Size s
      | None => go Wild s
      end
  | Read m _ _ _ _ give, Size =>
      match zget (buffer_size s) m with Some n => go (CopyOut (give n) []) s | None => go Wild s end
  | Read m _ pos _ _ _, CopyOut r out =>
      if zlen out <? r then
        match zget (buffer s) m ≫= fun b => zget b (pos + zlen out) with
        | Some b => go (CopyOut r (out ++ [b])) s
        | None => go Wild s
        end
      else go (Compare r out) s
  | Read m _ pos _ _ _, Compare r out =>
      match zget (buffer_size s) m with
      | Some n => go (if n <=? u64 (advance pos r) then ClearFlag r out else Return r (advance pos r) out) s
      | None => go Wild s
      end
  | Read m _ _ _ _ _, ClearFlag r out =>
      match zset (event_flag s) m 0 with Some f => go (ClearSize r out) (flags f) | None => go Wild s end
  | Read m _ pos _ _ _, ClearSize r out =>
      match zset (buffer_size s) m 0 with
      | Some n => go (Return r (advance pos r) out) (sizes n)
      | None => go Wild s
      end
  | Write _ _ _, Begin => go (Fill 0) s
  | Write m bs fault, Fill k =>
      if k <? count bs then
        match (b ← zget bs k; r ← zget (buffer s) m; r ← zset r k b; zset (buffer s) m r) with
        | Some d => go (Fill (k + 1)) (rows d)
        | None => go Wild s
        end
      else go (if fault then Return (- EFAULT) 0 [] else SetSize) s
  | Write m bs _, SetSize =>
      match zset (buffer_size s) m (count bs) with Some n => go SetFlag (sizes n) | None => go Wild s end
  | Write m bs _, SetFlag =>
      match zset (event_flag s) m 1 with
      | Some f => go (Return (count bs) 0 []) (flags f)
      | None => go Wild s
      end
  | _, _ => None
  end.

Definition start (s : slots) (rs : list request) : conc := Conc s ((fun r => Call r Begin) <$> rs).

Definition request_ok (r : request) : Prop :=
  match r with
  | Read m len pos _ _ give =>
      0 <= m < DEVICE_CNT /\ 0 <= pos < 2 ^ 63 /\ 0 <= len /\
      forall n, 0 <= n <= BUF_SIZE -> give n < 0 \/ 0 <= give n <= len /\ (give n = 0 \/ pos + give n <= n)
  | Write m _ _ => 0 <= m < DEVICE_CNT
  end.

Lemma count_range bs : 0 <= count bs <= BUF_SIZE /\ count bs <= zlen bs.
Proof.
  pose proof (zlen_nonneg bs). unfold count. destruct (Z.ltb_spec BUF_SIZE (zlen bs)); unfold BUF_SIZE in *; lia.
Qed.

(** *** Every interleaving *)
Section Inv.
Context (s0 : slots) (rs : list request).

(** Nobody writes to slot [m]. *)
Definition reads_only (m : Z) : Prop :=
  Forall (fun r => match r with Read _ _ _ _ _ _ => True | Write m' _ _ => m' <> m end) rs.

(** What has been copied out of slot [m] from [pos] on. *)
Definition copied (m pos : Z) (out : list byte) : Prop :=
  reads_only m -> forall b, zget (buffer s0) m = Some b -> out = sub pos (zlen out) b.

Definition loc_ok (c : call) : Prop :=
  match what c, at_ c with
  | _, Begin => True
  | Read _ _ _ _ _ _, (Asleep | Size) => True
  | Read m len pos _ _ _, CopyOut r out =>
      copied m pos out /\
      (out = [] /\ r <= 0 \/ zlen out <= r <= len /\ pos + r <= BUF_SIZE)
  | Read m len pos _ _ _, (Compare r out | ClearFlag r out | ClearSize r out) =>
      copied m pos out /\ (r < 0 \/ r = zlen out /\ r <= len)
  | Read m len pos _ _ _, Return r pos' out =>
      copied m pos out /\ pos' = advance pos r /\ (r < 0 \/ r = zlen out /\ r <= len)
  | Write _ bs _, Fill k => 0 <= k <= count bs
  | Write _ _ _, (SetSize | SetFlag) => True
  | Write _ bs _, Return r pos out => pos = 0 /\ out = [] /\ (r < 0 \/ r = count bs)
  | _, _ => False
  end.

Record inv (c : conc) : Prop := {
  i_what : what <$> calls c = rs;
  i_slots : slots_ok (shared c);
  i_quiet : forall m, reads_only m -> zget (buffer (shared c)) m = zget (buffer s0) m;
  i_loc : Forall loc_ok (calls c);
}.

(** Storing a byte, a size or a flag keeps the slots in order. *)
Lemma store_byte s m k x :
  slots_ok s -> 0 <= m < DEVICE_CNT -> 0 <= k < BUF_SIZE ->
  exists d, (r ← zget (buffer s) m; r ← zset r k x; zset (buffer s) m r) = Some d /\
    slots_ok (Slots (my_devices s) (event_flag s) d (buffer_size s)) /\
    forall m', m' <> m -> zget d m' = zget (buffer s) m'.
Proof.
  intros Hs Hm Hk. destruct (slot_exists s m Hs Hm) as (f & n & b & [_ _ Hb Hl _]).
  pose proof (zget_Some _ _ _ Hb). destruct Hs as [K1 K2 K3 K4 K5 K6].
  exists (<[Z.to_nat m := <[Z.to_nat k := x]> b]> (buffer s)). rewrite Hb. simpl.
  rewrite zset_in by lia. simpl. rewrite zset_in by done. split_and!; [done| |].
  - split; try done; simpl; [by rewrite zlen_insert|]. apply Forall_insert; [done|]. by rewrite zlen_insert.
  - intros m' Hne. unfold zget. destruct (Z.leb_spec 0 m'); [|done]. apply list_lookup_insert_ne. lia.
Qed.

Lemma store_size s m n :
  slots_ok s -> 0 <= m < DEVICE_CNT -> 0 <= n <= BUF_SIZE ->
  exists d, zset (buffer_size s) m n = Some d /\ slots_ok (Slots (my_devices s) (event_flag s) (buffer s) d).
Proof.
  intros [K1 K2 K3 K4 K5 K6] Hm Hn. exists (<[Z.to_nat m := n]> (buffer_size s)). rewrite zset_in by lia.
  split; [done|]. split; try done; simpl; [by rewrite zlen_insert|]. by apply Forall_insert.
Qed.

Lemma store_flag s m f :
  slots_ok s -> 0 <= m < DEVICE_CNT ->
  exists d, zset (event_flag s) m f = Some d /\ slots_ok (Slots (my_devices s) d (buffer s) (buffer_size s)).
Proof.
  intros [K1 K2 K3 K4 K5 K6] Hm. exists (<[Z.to_nat m := f]> (event_flag s)). rewrite zset_in by lia.
  split; [done|]. split; try done; simpl. by rewrite zlen_insert.
Qed.

Definition slots_in_order (s : slots) : Prop :=
  slots_ok s /\ forall m, reads_only m -> zget (buffer s) m = zget (buffer s0) m.

(** A turn of a read. *)
Lemma read_turn m len pos nb sg give l s c' s' :
  request_ok (Read m len pos nb sg give) -> slots_in_order s -> loc_ok (Call (Read m len pos nb sg give) l) ->
  next (Call (Read m len pos nb sg give) l) s = Some (c', s') ->
  exists l', c' = Call (Read m len pos nb sg give) l' /\ loc_ok c' /\ slots_in_order s'.
Proof.
  intros (Hm & Hp & Hcount & Hg) [Hs Hq] Hl Hn. destruct (slot_exists s m Hs Hm) as (f & n & b & [Hf Hz Hb Hlen Hbd]).
  unfold next, loc_ok in *. simpl in *. rewrite ?Hf, ?Hz, ?Hb in Hn.
  assert (Hnil : copied m pos []) by (by intros ? ?).
  destruct l as [| | |r out|r out|r out|r out|k| | |r p out|]; try done.
  - injection Hn as <- <-. eexists. split; [done|]. split; [|done]. simpl.
    destruct (f =? 0); [|done]. destruct nb; [|done]. split_and!; [done | done | by left].
  - destruct ((f =? 0) && negb sg); [done|]. injection Hn as <- <-. by eexists.
  - injection Hn as <- <-. eexists. split; [done|]. split; [|done]. simpl. split; [done|].
    unfold BUF_SIZE in *. destruct (Hg n Hbd) as [?|[? [?|?]]]; [left; split; [done|lia] | left; split; [done|lia] | right; change (zlen (@nil byte)) with 0; lia].
  - destruct Hl as [Hc Hr]. destruct (Z.ltb_spec (zlen out) r).
    + destruct Hr as [[-> ?]|(? & ?)]; [change (zlen (@nil byte)) with 0 in *; lia|]. pose proof (zlen_nonneg out). simpl in Hn.
      destruct (zget_in b (pos + zlen out)) as [x Hx]; [lia|]. rewrite Hx in Hn. injection Hn as <- <-.
      eexists. split; [done|]. split; [|done]. simpl. rewrite zlen_app. change (zlen [x]) with 1. split; [|right; lia].
      intros Hro b0 Hb0. rewrite zlen_app. change (zlen [x]) with 1. rewrite <- (Hq m Hro), Hb in Hb0. injection Hb0 as <-.
      rewrite (sub_next b pos (zlen out) x), <- (Hc Hro b); [done | by rewrite <- (Hq m Hro) | lia.. | done].
    + injection Hn as <- <-. eexists. split; [done|]. split; [|done]. simpl. split; [done|].
      destruct Hr as [[-> ?]|(? & ?)]; [change (zlen (@nil byte)) with 0|]; lia.
  - destruct Hl as [Hc Hr]. injection Hn as <- <-. eexists. split; [done|]. split; [|done]. simpl.
    by destruct (n <=? u64 (advance pos r)).
  - destruct (store_flag s m 0 Hs Hm) as (d & Hd & Hok). rewrite Hd in Hn. injection Hn as <- <-. by eexists.
  - destruct (store_size s m 0 Hs Hm) as (d & Hd & Hok); [done|]. rewrite Hd in Hn. injection Hn as <- <-.
    eexists. split; [done|]. split; [|done]. simpl. by destruct Hl.
Qed.

(** A turn of a write. *)
Lemma write_turn m bs fault l s c' s' :
  request_ok (Write m bs fault) -> ~ reads_only m -> slots_in_order s -> loc_ok (Call (Write m bs fault) l) ->
  next (Call (Write m bs fault) l) s = Some (c', s') ->
  exists l', c' = Call (Write m bs fault) l' /\ loc_ok c' /\ slots_in_order s'.
Proof.
  intros Hm Hw [Hs Hq] Hl Hn. unfold next, loc_ok in *. simpl in *. pose proof (count_range bs) as [? ?].
  destruct l as [| | |r out|r out|r out|r out|k| | |r p out|]; try done.
  - injection Hn as <- <-. eexists. split; [done|]. split; [simpl; lia | done].
  - destruct (Z.ltb_spec k (count bs)).
    + destruct (zget_in bs k) as [b Hb]; [lia|]. rewrite Hb in Hn.
      destruct (store_byte s m k b Hs Hm) as (d & Hd & Hok & Hrest); [lia|]. simpl in Hn, Hd. rewrite Hd in Hn.
      injection Hn as <- <-. eexists. split; [done|]. split; [simpl; lia|]. split; [done|].
      intros m' Hro. simpl. rewrite Hrest; [by apply Hq|]. by intros ->.
    + injection Hn as <- <-. eexists. split; [done|]. split; [|done]. simpl. destruct fault; [|done].
      split_and!; [done | done | by left].
  - destruct (store_size s m (count bs) Hs Hm) as (d & Hd & Hok); [lia|]. rewrite Hd in Hn.
    injection Hn as <- <-. by eexists.
  - destruct (store_flag s m 1 Hs Hm) as (d & Hd & Hok). rewrite Hd in Hn. injection Hn as <- <-.
    eexists. split; [done|]. split; [|done]. simpl. split_and!; [done | done | by right].
Qed.

Lemma polls_run ts c :
  Forall request_ok rs -> inv c -> exists c', exec (call_step next) ts (Done c) = Done c' /\ inv c'.
Proof.
  intros Hrs. apply calls_inv. intros s ls i [r l] l' s' [Hw Ht Hq Hl] Hi Hn. simpl in *.
  assert (Hr : rs !! i = Some r) by (by rewrite <- Hw, list_lookup_fmap, Hi).
  pose proof (Forall_lookup_1 _ _ _ _ Hrs Hr) as Hok. pose proof (Forall_lookup_1 _ _ _ _ Hl Hi) as Hlo.
  assert (exists l2, l' = Call r l2 /\ loc_ok l' /\ slots_in_order s') as (l2 & -> & Hlo' & Ht' & Hq').
  { destruct r as [m len pos nb sg give|m bs fault]; [by eapply read_turn|].
    eapply write_turn; try done. intros Hro. by apply (Forall_lookup_1 _ _ _ _ Hro Hr). }
  split; simpl; [by eapply kept_insert | done | done | by apply Forall_insert].
Qed.

Lemma polls_start : slots_ok s0 -> inv (start s0 rs).
Proof.
  intros Hs. split; simpl; [|done|done|].
  - rewrite <- list_fmap_compose. apply list_fmap_id.
  - apply Forall_forall. intros c (r & -> & _)%list_elem_of_fmap. by destruct r.
Qed.
End Inv.

(** C12. Any number of reads and writes of the two slots overlap in any order,
    one byte after the other: no access leaves its array, the slots stay in
    order, a read that succeeds reports as many bytes as it handed out, at
    most what was asked for, and moves the position by as much; while nobody
    writes to the slot they are the bytes of the message from the position on.
    A write that succeeds reports what it was offered, cut to the size of the
    slot. *)
Theorem polls_overlap (s : slots) (rs : list request) (ts : list nat)
    (Hs : slots_ok s) (Hrs : Forall request_ok rs) :
  exists c, exec (call_step next) ts (Done (start s rs)) = Done c /\ slots_ok (shared c) /\
    forall i l, calls c !! i = Some l -> rs !! i = Some (what l) /\ at_ l <> Wild /\
      forall r p out, at_ l = Return r p out -> 0 <= r ->
        match what l with
        | Read m len pos _ _ _ =>
            r = zlen out /\ r <= len /\ p = pos + r /\
            (reads_only rs m -> forall b, zget (buffer s) m = Some b -> out = sub pos r b)
        | Write _ bs _ => r = Z.min (zlen bs) BUF_SIZE /\ p = 0
        end.
Proof.
  destruct (polls_run s rs ts _ Hrs (polls_start s rs Hs)) as (c & Hc & [Hw Hok _ Hl]).
  exists c. do 2 (split; [done|]). intros i [r l] Hi. pose proof (Forall_lookup_1 _ _ _ _ Hl Hi) as Hlo.
  split; [by rewrite <- Hw, list_lookup_fmap, Hi|]. unfold loc_ok in Hlo. simpl in *.
  split; [intros ->; by destruct r|]. intros n p out -> Hn.
  destruct r as [m len pos nb sg give|m bs fault].
  - destruct Hlo as (Hcp & -> & [?|[-> ?]]); [lia|]. unfold advance. rewrite (proj2 (Z.ltb_ge _ _)) by done.
    by split_and!.
  - destruct Hlo as (-> & _ & [?| ->]); [lia|]. unfold count. destruct (Z.ltb_spec BUF_SIZE (zlen bs)); split; done || lia.
Qed.

(** *** A message that is lost *)

Definition offered (len pos n : Z) : Z := if n <=? pos then 0 else Z.min len (n - pos).
Definition slots_with (text : list byte) : slots :=
  Slots [0; 0] [1; 0] (replicate 2 (upd 0 text (replicate 128 NUL))) [zlen text; 0].
Definition turns (n i : nat) : list nat := replicate n i.
Definition outputs (r : outcome (@conc slots call)) : option (list loc * option (list byte)) :=
  match r with
  | Done c => Some (at_ <$> calls c, message (shared c) 0)
  | Oops _ => None
  end.

(** A write between the copy of a read and its two resets: the write reports
    success, no reader has got a byte of its message, and the slot is empty. *)
Example message_lost :
  outputs (exec (call_step next) (turns 7 0 ++ turns 8 1 ++ turns 2 0)
             (Done (start (slots_with (bytes_of "old"))
                [Read 0 100 0 false false (offered 100 0); Write 0 (bytes_of "new") false]))) =
    Some ([Return 3 3 (bytes_of "old"); Return 3 0 []], None).
Proof. vm_compute. reflexivity. Qed.

Lemma polls_overlap_witness :
  exists c, exec (call_step next) (turns 5 0 ++ turns 8 1 ++ turns 4 0)
      (Done (start slots0 [Read 0 100 0 false true (offered 100 0); Write 1 (bytes_of "new") false])) = Done c /\
    slots_ok (shared c).
Proof.
  destruct (polls_overlap slots0 [Read 0 100 0 false true (offered 100 0); Write 1 (bytes_of "new") false]
              (turns 5 0 ++ turns 8 1 ++ turns 4 0)) as (c & Hc & Hs & _).
  - apply slots0_ok.
  - constructor; [|constructor; [|constructor]]; simpl; unfold BUF_SIZE, DEVICE_CNT.
    + do 3 (split; [lia|]). intros n Hn. unfold offered. destruct (Z.leb_spec n 0); lia.
    + lia.
  - exists c. split; assumption.
Defined.
End PollCalls.
