(* ===== verification/ReaderApp.v ===== *)
(** * 012_multi_reader_wait: the user program (app.c)

    Two reader threads wait in the driver for a message, the main thread
    writes one after a second and joins them. Main, the two readers and the
    timeout of each waiting read are actors of a schedule. Their calls of the
    driver are those of WaitCalls.v, one access to one shared variable or byte
    per turn, so that the two reads and the write overlap. *)

From S2P Require Import Prelude Kernel Wp Sim Wait Sched Readers Calls WaitCalls User.

Definition BUFFER_SIZE : Z := 256.

Inductive reader := R1 | R2.
#[export] Instance reader_eq_dec : EqDecision reader.
Proof. solve_decision. Defined.
Definition other (i : reader) : reader := match i with R1 => R2 | R2 => R1 end.

Inductive line :=
  | Perror (call : string) | Wrote (n : Z) | Got (i : reader) (msg : list byte) | ReadError (i : reader) (ret : Z).

(** Where main is: at the call named, in the write of [bs] at [l], or past
    its return. *)
Inductive mphase :=
  | Malloc1 | Open1 | Malloc2 | Open2 | Create1 | Create2 | Pause | OpenWriter | Write
  | Writing (bs : list byte) (fault : bool) (l : ReaderCalls.loc)
  | Join1 | Join2 | Returned (rc : Z).

(** Where a reader thread is: before its read, in it at [l], behind it with
    its result [ret], ended. *)
Inductive place := Absent | Start | Reading (l : ReaderCalls.loc) | Report (ret : Z) | Gone (ret : Z).

Record app (W : Type) := App {
  board_ : board;
  mem : W;
  phase : mphase;
  place1 : place;
  place2 : place;
  out : list line;
}.
Arguments App {W}.
Arguments board_ {W}.
Arguments mem {W}.
Arguments phase {W}.
Arguments place1 {W}.
Arguments place2 {W}.
Arguments out {W}.

Section State.
Context {W : Type}.
Implicit Types (s : app W).

Definition place_of (i : reader) s : place := match i with R1 => place1 s | R2 => place2 s end.
Definition set_place (i : reader) (p : place) s : app W :=
  match i with
  | R1 => App (board_ s) (mem s) (phase s) p (place2 s) (out s)
  | R2 => App (board_ s) (mem s) (phase s) (place1 s) p (out s)
  end.
Definition set_mem (w : W) s : app W := App (board_ s) w (phase s) (place1 s) (place2 s) (out s).
Definition set_board (b : board) s : app W := App b (mem s) (phase s) (place1 s) (place2 s) (out s).
Definition set_phase (p : mphase) s : app W := App (board_ s) (mem s) p (place1 s) (place2 s) (out s).
Definition say (l : line) s : app W := App (board_ s) (mem s) (phase s) (place1 s) (place2 s) (out s ++ [l]).


Lemma place_of_set_place i j p s :
  place_of i (set_place j p s) = if decide (i = j) then p else place_of i s.
Proof. by destruct i, j. Qed.
End State.

Inductive actor := Main | Reader (i : reader) | Timeout (i : reader).

Section App.
Context {W : Type} `{UserMem W} `{UserStore W} `{Grants W}.
(** The buffers of the two threads and the string literal. *)
Context (buf : reader -> Z) (test_message : Z).
(** The bytes copy_to_user can store for a reader before it faults; what
    copy_from_user makes of the message, and whether it faults. *)
Context (room : reader -> Z) (copied_in : list byte -> list byte * bool).
Implicit Types (s : app W).

Definition request (r : resource) s : Z * app W :=
  let '(rc, w) := k_grant r (mem s) in (rc, set_mem w s).

(** A turn that copies a byte to the user stores it behind the others. *)
Definition handed (a : Z) (l l' : ReaderCalls.loc) (w : W) : W :=
  match l, l' with
  | ReaderCalls.CopyOut _ o, ReaderCalls.CopyOut _ o' => k_store (a + zlen o) (drop (length o) o') w
  | _, _ => w
  end.

(** A turn of the read of thread [i]; [ends] is how its wait may end. *)
Definition read_step (ends : option ReaderCalls.ending) (i : reader) (l : ReaderCalls.loc) s
  : option (outcome (app W)) :=
  match ReaderCalls.next (ReaderCalls.Call (ReaderCalls.Read ends (room i)) l) (board_ s) with
  | Some (c, b) =>
      let l' := ReaderCalls.at_ c in
      Some (Done (set_place i (Reading l') (set_mem (handed (buf i) l l' (mem s)) (set_board b s))))
  | None => None
  end.

(** A reader thread; [None] while it waits. *)
Definition reader_thread (i : reader) s : option (outcome (app W)) :=
  match place_of i s with
  | Absent | Gone _ => None
  | Start =>
      Some (Done (set_place i (Reading ReaderCalls.Begin)
                   (set_mem (k_store (buf i) (replicate (Z.to_nat BUFFER_SIZE) NUL) (mem s)) s)))
  | Reading (ReaderCalls.Return ret _) => Some (Done (set_place i (Report ret) s))
  | Reading ReaderCalls.Wild => Some (Oops OutOfBounds)
  | Reading l => read_step None i l s
  | Report ret =>
      Some (if 0 <? ret then
              if in_bounds ret 1 BUFFER_SIZE then
                let w := k_store (buf i + ret) [NUL] (mem s) in
                match cstr (uread (umem w) (buf i) BUFFER_SIZE) with
                | Some str => Done (set_place i (Gone ret) (say (Got i str) (set_mem w s)))
                | None => Oops OutOfBounds
                end
              else Oops OutOfBounds
            else if ret <? 0 then Done (set_place i (Gone ret) (say (ReadError i ret) s))
            else Done (set_place i (Gone ret) s))
  end.

(** The wait of my_read ends after READ_TIMEOUT. *)
Definition read_timeout (i : reader) s : option (outcome (app W)) :=
  match place_of i s with
  | Reading ReaderCalls.Begin =>
      if ready (board_ s) then None else read_step (Some ReaderCalls.TimedOut) i ReaderCalls.Begin s
  | _ => None
  end.

(** strlen(message) bytes of it. *)
Definition writer_func (s : app W) : outcome (app W) :=
  match cstr (uread (umem (mem s)) test_message 256) with
  | None => Oops OutOfBounds
  | Some message => Done (set_phase (uncurry Writing (copied_in message) ReaderCalls.Begin) s)
  end.

(** A turn of the write, and what writer_func does with its result. *)
Definition write_step (bs : list byte) (fault : bool) (l : ReaderCalls.loc) s : outcome (app W) :=
  match l with
  | ReaderCalls.Return ret _ => Done (set_phase Join1 (say (if 0 <? ret then Wrote ret else Perror "write") s))
  | _ =>
      match ReaderCalls.next (ReaderCalls.Call (ReaderCalls.Write bs fault) l) (board_ s) with
      | Some (c, b) => Done (set_phase (Writing bs fault (ReaderCalls.at_ c)) (set_board b s))
      | None => Oops OutOfBounds
      end
  end.

(** args->reader_id = ... without a look at what malloc returned. *)
Definition malloc_args (name : string) (next : mphase) s : outcome (app W) :=
  let '(rc, s) := request (Heap name) s in
  if rc =? 0 then Done (set_phase next s) else Oops NullDeref.

Definition open_reader (name : string) (next : mphase) s : outcome (app W) :=
  let '(fd, s) := request (Fd name) s in
  Done (if fd <? 0 then say (Perror name) (set_phase (Returned 1) s) else set_phase next s).

(** Joining a thread whose creation failed uses an uninitialised variable. *)
Definition create (i : reader) (name : string) (next : mphase) s : outcome (app W) :=
  let '(rc, s) := request (Heap name) s in
  Done (set_phase next (if rc =? 0 then set_place i Start s else s)).

Definition join (i : reader) (next : mphase) s : option (outcome (app W)) :=
  match place_of i s with
  | Absent => Some (Oops BadPointer)
  | Gone _ => Some (Done (set_phase next s))
  | _ => None
  end.

Definition main_step s : option (outcome (app W)) :=
  match phase s with
  | Malloc1 => Some (malloc_args "args1" Open1 s)
  | Open1 => Some (open_reader "open reader 1" Malloc2 s)
  | Malloc2 => Some (malloc_args "args2" Open2 s)
  | Open2 => Some (open_reader "open reader 2" Create1 s)
  | Create1 => Some (create R1 "reader1" Create2 s)
  | Create2 => Some (create R2 "reader2" Pause s)
  | Pause => Some (Done (set_phase OpenWriter s))
  | OpenWriter =>
      let '(fd, s) := request (Fd "open for write") s in
      Some (Done (if fd <? 0 then say (Perror "open for write") (set_phase Join1 s) else set_phase Write s))
  | Write => Some (writer_func s)
  | Writing bs fault l => Some (write_step bs fault l s)
  | Join1 => join R1 Join2 s
  | Join2 => join R2 (Returned 0) s
  | Returned _ => None
  end.

(** The process ends with main. *)
Definition step (t : actor) s : option (outcome (app W)) :=
  match phase s, t with
  | Returned _, _ => None
  | _, Main => main_step s
  | _, Reader i => reader_thread i s
  | _, Timeout i => read_timeout i s
  end.
End App.

Definition app0 {W} (w : W) : app W := App board0 w Malloc1 Absent Absent [].

(** ** Invariant *)

Definition hello : list byte := bytes_of "Hello World".

(** Two blocks of memory do not overlap. *)
Definition apart (a n b m : Z) : Prop := a + n <= b \/ b + m <= a.

Lemma uread_apart f a n b data :
  apart a n b (zlen data) -> uread (uwrite f b data) a n = uread f a n.
Proof.
  intros Hap. unfold uread. apply list_fmap_ext. intros i x Hx.
  apply lookup_seqZ in Hx as [-> Hi]. unfold uwrite. unfold apart in Hap.
  rewrite decide_False by lia. done.
Qed.

Definition who (l : line) : option reader :=
  match l with Got i _ | ReadError i _ => Some i | _ => None end.
Definition lines (i : reader) (o : list line) : list line := filter (fun l => who l = Some i) o.

Lemma lines_app i o l : lines i (o ++ [l]) = lines i o ++ if decide (who l = Some i) then [l] else [].
Proof. unfold lines. rewrite filter_app. f_equal. Qed.

Lemma lines_other i o l : who l <> Some i -> lines i (o ++ [l]) = lines i o.
Proof. intros Hl. rewrite lines_app, decide_False by done. apply app_nil_r. Qed.

(** A reader whose wait has found the message; whether it has counted
    itself. *)
Definition inside (p : place) : bool :=
  match p with
  | Reading (ReaderCalls.Scan _ | ReaderCalls.CopyOut _ _ | ReaderCalls.Load _ | ReaderCalls.Store _ _
            | ReaderCalls.Compare _ | ReaderCalls.ZeroCount _ | ReaderCalls.ClearReady _) => true
  | Reading (ReaderCalls.Return r _) | Report r | Gone r => 0 <? r
  | _ => false
  end.
Definition counted (p : place) : Z :=
  match p with
  | Reading (ReaderCalls.Compare _ | ReaderCalls.ZeroCount _ | ReaderCalls.ClearReady _) => 1
  | Reading (ReaderCalls.Return r _) | Report r | Gone r => if 0 <? r then 1 else 0
  | _ => 0
  end.

(** What a reader has seen of the other one, of which [k] says whether it has
    counted itself. *)
Definition seen (p : place) (k : Z) : Prop :=
  match p with
  | Reading (ReaderCalls.Store _ c) => 0 <= c <= k
  | Reading (ReaderCalls.ZeroCount _ | ReaderCalls.ClearReady _) => k = 1
  | _ => True
  end.

Lemma counted_range p : 0 <= counted p <= 1.
Proof. destruct p as [| |[]| |]; simpl; try lia; case_match; lia. Qed.

(** The message is out: behind data_ready = 1. *)
Definition sending (p : mphase) : bool :=
  match p with
  | Writing _ _ ReaderCalls.ResetCount => true
  | Writing _ _ (ReaderCalls.Return r _) => 0 <? r
  | _ => false
  end.
Definition sent {W} (s : app W) : Prop := sending (phase s) = true \/ Wrote 11 ∈ out s.

Definition wrote_ok (p : mphase) (o : list line) : Prop :=
  match p with
  | Join1 | Join2 | Returned _ => forall n, Wrote n ∈ o -> n = 11
  | _ => forall n, Wrote n ∉ o
  end.

(** What the write has stored. *)
Definition writer_ok (p : mphase) (d : list byte) : Prop :=
  match p with
  | Writing bs fault l =>
      zlen bs = 11 /\ (fault = false -> bs = hello) /\
      match l with
      | ReaderCalls.Begin => True
      | ReaderCalls.Fill k => 0 <= k <= 11 /\ sub 0 k d = sub 0 k bs
      | ReaderCalls.Terminate => sub 0 11 d = hello
      | ReaderCalls.Publish | ReaderCalls.ResetCount => cstr d = Some hello
      | ReaderCalls.Return r _ => r < 0 \/ r = 11
      | _ => False
      end
  | _ => True
  end.

Definition running (p : place) : Prop := p <> Absent.
Definition ended (p : place) : Prop := exists r, p = Gone r.
Definition active (p : place) : Prop := match p with Start | Reading _ | Report _ => True | _ => False end.
Definition phase_ok (p : mphase) (p1 p2 : place) : Prop :=
  match p with
  | Malloc1 | Open1 | Malloc2 | Open2 | Create1 | Returned 1 => p1 = Absent /\ p2 = Absent
  | Create2 => running p1 /\ p2 = Absent
  | Pause | OpenWriter | Write | Writing _ _ _ | Join1 => running p1 /\ running p2
  | Join2 => ended p1 /\ running p2
  | Returned rc => rc = 0 /\ ended p1 /\ ended p2
  end.

Section Props.
Context {W : Type} `{UserMem W} `{!UserStore W} `{!UserStoreOk W} `{!Grants W} `{!GrantsOk W} `{!GrantsFrame W}.
Context (buf : reader -> Z) (test_message : Z) (room : reader -> Z) (copied_in : list byte -> list byte * bool).
Hypothesis Hbufs : apart (buf R1) BUFFER_SIZE (buf R2) BUFFER_SIZE.
Hypothesis Hmsg : forall i, apart test_message 12 (buf i) BUFFER_SIZE.
Hypothesis Hcopy : forall m, zlen (copied_in m).1 = zlen m /\ ((copied_in m).2 = false -> (copied_in m).1 = m).
(** malloc and pthread_create succeed. *)
Hypothesis Hheap : forall name w, (k_grant (Heap name) w).1 = 0.
Implicit Types (s : app W) (i j : reader).

(** What a read has put into the buffer of its thread. *)
Definition read_ok (f : Z -> byte) i (l : ReaderCalls.loc) : Prop :=
  match l with
  | ReaderCalls.Begin => True
  | ReaderCalls.Scan n => 0 <= n <= 11
  | ReaderCalls.CopyOut n o => n = 11 /\ zlen o <= 11 /\ o = sub 0 (zlen o) hello /\ uread f (buf i) (zlen o) = o
  | ReaderCalls.Load o | ReaderCalls.Store o _ | ReaderCalls.Compare o | ReaderCalls.ZeroCount o
  | ReaderCalls.ClearReady o => o = hello /\ uread f (buf i) 11 = hello
  | ReaderCalls.Return r _ => r < 0 \/ r = 11 /\ uread f (buf i) 11 = hello
  | _ => False
  end.

Definition place_ok (f : Z -> byte) i (p : place) (o : list line) : Prop :=
  match p with
  | Reading l => lines i o = [] /\ read_ok f i l
  | Report r => lines i o = [] /\ (r < 0 \/ r = 11 /\ uread f (buf i) 11 = hello)
  | Gone r => r < 0 /\ lines i o = [ReadError i r] \/ r = 11 /\ lines i o = [Got i hello]
  | _ => lines i o = []
  end.

Record inv s : Prop := {
  i_size : zlen (data (board_ s)) = 256;
  i_total : total_readers (board_ s) = 2;
  i_msg : uread (umem (mem s)) test_message 12 = hello ++ [NUL];
  i_place i : place_ok (umem (mem s)) i (place_of i s) (out s);
  i_phase : phase_ok (phase s) (place1 s) (place2 s);
  i_writer : writer_ok (phase s) (data (board_ s));
  i_wrote : wrote_ok (phase s) (out s);
  i_inside i : inside (place_of i s) = true -> sent s;
  i_text : sent s -> cstr (data (board_ s)) = Some hello;
  i_ready : ready (board_ s) = true -> sent s;
  i_count : 0 <= readers_count (board_ s) <= counted (place1 s) + counted (place2 s);
  i_seen i : seen (place_of i s) (counted (place_of (other i) s));
  i_gone i : sent s -> ready (board_ s) = false -> counted (place_of i s) = 1;
}.

Lemma place_ok_mem f g i p o : f ≡ₘ g -> place_ok f i p o -> place_ok g i p o.
Proof. intros Hfg. destruct p as [| |[]| |]; simpl; try done; by rewrite Hfg. Qed.

Lemma place_ok_line f i p o l : who l <> Some i -> place_ok f i p o -> place_ok f i p (o ++ [l]).
Proof. intros Hl. destruct p; simpl; by rewrite lines_other. Qed.

(** A write to the buffer of [j] does not touch the other buffer. *)
Lemma uread_other f i j data off n :
  i <> j -> 0 <= n <= BUFFER_SIZE -> 0 <= off -> off + zlen data <= BUFFER_SIZE ->
  uread (uwrite f (buf j + off) data) (buf i) n = uread f (buf i) n.
Proof.
  intros Hij Hn Hoff Hlen. apply uread_apart. pose proof Hbufs as Hb. unfold apart, BUFFER_SIZE in *.
  destruct i, j; try done; lia.
Qed.

Lemma place_ok_write f i j p o data off :
  i <> j -> 0 <= off -> off + zlen data <= BUFFER_SIZE ->
  place_ok f i p o -> place_ok (uwrite f (buf j + off) data) i p o.
Proof.
  intros Hij Hoff Hlen.
  assert (Hu : forall n, 0 <= n <= 11 -> uread (uwrite f (buf j + off) data) (buf i) n = uread f (buf i) n)
    by (intros n Hn; apply uread_other; unfold BUFFER_SIZE in *; done || lia).
  destruct p as [| |[]| |]; simpl; try done; rewrite ?Hu by lia; try done.
  intros (? & ? & ? & ? & E). rewrite Hu by (pose proof (zlen_nonneg out0); lia). done.
Qed.

Lemma msg_write f j data off :
  0 <= off -> off + zlen data <= BUFFER_SIZE ->
  uread (uwrite f (buf j + off) data) test_message 12 = uread f test_message 12.
Proof.
  intros Hoff Hlen. apply uread_apart. pose proof (Hmsg j) as Hm. unfold apart, BUFFER_SIZE in *. lia.
Qed.

Lemma inv_app0 w : uread (umem w) test_message 12 = hello ++ [NUL] -> inv (app0 w).
Proof.
  intros Hw. assert (Hno : forall n, Wrote n ∉ []) by (intros n; apply not_elem_of_nil).
  assert (Hs : ~ sent (app0 w)) by (intros [?|?%Hno]; done).
  split; simpl; try done; by intros [].
Qed.

(** *** Steps of the readers *)

Lemma phase_ok_set i p s :
  active (place_of i s) -> running p -> phase_ok (phase s) (place1 s) (place2 s) ->
  phase_ok (phase s) (place1 (set_place i p s)) (place2 (set_place i p s)).
Proof.
  intros Ha Hp Hph. unfold running, ended in *.
  assert (Hne : place_of i s <> Absent) by by intros E; rewrite E in Ha.
  assert (Hng : ~ exists r, place_of i s = Gone r) by by intros [r E]; rewrite E in Ha.
  destruct i; simpl in *; destruct (phase s) as [| | | | | | | | | | | |rc]; simpl in *; try tauto.
  all: destruct rc as [|[]|]; tauto.
Qed.

(** A step of thread [i] to [p]: the text stays, the thread writes to its own
    buffer and prints its own lines only. *)
Definition moved i p (b : board) (w : W) (o : list line) s : app W :=
  set_place i p (App b w (phase s) (place1 s) (place2 s) o).

(** What the step does to the two counters. *)
Record counts_ok i p (b : board) s : Prop := {
  k_active : active (place_of i s);
  k_running : running p;
  k_data : data b = data (board_ s);
  k_total : total_readers b = total_readers (board_ s);
  k_ready : ready b = true -> ready (board_ s) = true;
  k_count : 0 <= readers_count b <= counted p + counted (place_of (other i) s);
  k_counted : counted (place_of i s) <= counted p;
  k_inside : inside p = true -> sent s;
  k_seen : seen p (counted (place_of (other i) s));
  k_gone : ready b = false -> ready (board_ s) = true ->
           counted p = 1 /\ counted (place_of (other i) s) = 1;
}.

Lemma seen_mono p k k' : k <= k' <= 1 -> seen p k -> seen p k'.
Proof. destruct p as [| |[]| |]; simpl; try done; lia. Qed.

Lemma inv_moved i p b w o s :
  inv s -> counts_ok i p b s ->
  uread (umem w) test_message 12 = uread (umem (mem s)) test_message 12 ->
  (forall n, Wrote n ∈ o <-> Wrote n ∈ out s) ->
  (forall j, j <> i -> place_ok (umem (mem s)) j (place_of j s) (out s) ->
             place_ok (umem w) j (place_of j s) o) ->
  place_ok (umem w) i p o -> inv (moved i p b w o s).
Proof.
  intros Hi [Ka Kr Kd Kt Kre Kc Kco Ki Ks Kg] Hm Hw Ho Hp. unfold moved.
  set (s1 := App b w (phase s) (place1 s) (place2 s) o).
  assert (Hps : forall j, place_of j s1 = place_of j s) by by intros [].
  assert (Hsent : sent (set_place i p s1) <-> sent s).
  { unfold sent. rewrite <- (Hw 11). by destruct i. }
  assert (Hb : board_ (set_place i p s1) = b) by by destruct i.
  assert (Hph : phase (set_place i p s1) = phase s) by by destruct i.
  pose proof (counted_range p) as Hcr. destruct Hi. split; rewrite ?Hb, ?Hph, ?Hsent, ?Kd, ?Kt; try done.
  - rewrite <- i_msg0, <- Hm. by destruct i.
  - intros j. rewrite place_of_set_place, Hps. destruct (decide (j = i)) as [->|Hne]; [by destruct i|].
    destruct i; exact (Ho j Hne (i_place0 j)).
  - pose proof (phase_ok_set i p s1) as Hpo. rewrite Hps in Hpo. by apply Hpo.
  - assert (out (set_place i p s1) = o) as -> by by destruct i.
    destruct (phase s); simpl in *; intros n; rewrite Hw; apply i_wrote0.
  - intros j. rewrite Hsent, place_of_set_place, Hps. case_decide; [done | apply i_inside0].
  - intros Hr. by apply i_ready0, Kre.
  - destruct i; simpl in *; lia.
  - intros j. rewrite !place_of_set_place, !Hps. destruct (decide (j = i)) as [->|Hne].
    + rewrite decide_False by by destruct i. done.
    + replace (other j) with i by by destruct i, j. rewrite decide_True by done.
      eapply seen_mono; [|apply (i_seen0 j)]. replace (other j) with i by by destruct i, j. lia.
  - intros j Hs%Hsent Hr. rewrite place_of_set_place, Hps.
    assert (Hboth : counted p = 1 /\ counted (place_of (other i) s) = 1).
    { destruct (ready (board_ s)) eqn:Er; [by apply Kg|].
      split; [pose proof (i_gone0 i Hs eq_refl); lia | by apply i_gone0]. }
    destruct Hboth. case_decide as E; [done|]. by replace j with (other i) by by destruct i, j.
Qed.

(** A step that leaves the two counters alone. *)
Lemma counts_same i p s :
  inv s -> active (place_of i s) -> running p -> counted p = counted (place_of i s) ->
  (inside p = true -> sent s) -> seen p (counted (place_of (other i) s)) -> counts_ok i p (board_ s) s.
Proof.
  intros Hi Ha Hr Hc Hin Hse. pose proof (i_count s Hi).
  split; try done; try lia; [destruct i; simpl in *; lia | congruence].
Qed.

(** How many steps are left. *)
Definition loc_rank (l : ReaderCalls.loc) : nat :=
  match l with
  | ReaderCalls.Begin => 32
  | ReaderCalls.Scan n => 20 + Z.to_nat (11 - n)
  | ReaderCalls.CopyOut _ o => 8 + Z.to_nat (11 - zlen o)
  | ReaderCalls.Load _ => 7 | ReaderCalls.Store _ _ => 6 | ReaderCalls.Compare _ => 5
  | ReaderCalls.ZeroCount _ => 4 | ReaderCalls.ClearReady _ => 3 | ReaderCalls.Return _ _ => 2
  | _ => 0
  end.
Definition place_rank (p : place) : nat :=
  match p with Absent => 34 | Start => 33 | Reading l => loc_rank l | Report _ => 1 | Gone _ => 0 end.
Definition phase_rank (p : mphase) : nat :=
  match p with
  | Malloc1 => 28 | Open1 => 27 | Malloc2 => 26 | Open2 => 25 | Create1 => 24 | Create2 => 23 | Pause => 22
  | OpenWriter => 21 | Write => 20
  | Writing _ _ l =>
      match l with
      | ReaderCalls.Begin => 19 | ReaderCalls.Fill k => 7 + Z.to_nat (11 - k) | ReaderCalls.Terminate => 6
      | ReaderCalls.Publish => 5 | ReaderCalls.ResetCount => 4 | _ => 3
      end
  | Join1 => 2 | Join2 => 1 | Returned _ => 0
  end.
Definition rank s : nat := phase_rank (phase s) + place_rank (place1 s) + place_rank (place2 s).

(** A step keeps the invariant and is one step less to go. *)
Definition good (s : app W) (c : outcome (app W)) : Prop :=
  exists s', c = Done s' /\ inv s' /\ (rank s' < rank s)%nat.

(** Memory that differs in the buffer of thread [i] at most. *)
Definition own_write i (w : W) s : Prop :=
  exists off data, 0 <= off /\ off + zlen data <= BUFFER_SIZE /\
    umem w ≡ₘ uwrite (umem (mem s)) (buf i + off) data.

Lemma own_same i s : own_write i (mem s) s.
Proof.
  exists 0, []. split_and!; [done | done |]. intros a. unfold uwrite.
  rewrite decide_False; [done|]. change (zlen (@nil byte)) with 0. lia.
Qed.

Lemma own_store i off data s :
  0 <= off -> off + zlen data <= BUFFER_SIZE -> own_write i (k_store (buf i + off) data (mem s)) s.
Proof. intros. exists off, data. split_and!; [done | done |]. apply store_ok. Qed.

Lemma good_moved i p b w o s :
  inv s -> counts_ok i p b s -> own_write i w s -> (place_rank p < place_rank (place_of i s))%nat ->
  (o = out s \/ exists l, who l = Some i /\ o = out s ++ [l]) ->
  place_ok (umem w) i p o -> good s (Done (moved i p b w o s)).
Proof.
  intros Hi Hk (off & data & Hoff & Hlen & Hm) Hr Ho Hp.
  eexists. split; [done|]. split; [|unfold rank, moved; destruct i; simpl in *; lia].
  apply inv_moved; try done.
  - by rewrite Hm, msg_write.
  - intros n. destruct Ho as [->|(l & Hl & ->)]; [done|]. rewrite elem_of_app, list_elem_of_singleton.
    split; [intros [?|<-]; done | by left].
  - intros j Hj Hpj. apply (place_ok_mem (uwrite (umem (mem s)) (buf i + off) data)); [by symmetry|].
    apply place_ok_write; try done. destruct Ho as [->|(l & Hl & ->)]; [done|].
    apply place_ok_line; [|done]. rewrite Hl. congruence.
Qed.

(** *** A turn of a read *)

Lemma good_read i l l' b w s :
  inv s -> place_of i s = Reading l -> counts_ok i (Reading l') b s -> own_write i w s ->
  (loc_rank l' < loc_rank l)%nat -> read_ok (umem w) i l' ->
  good s (Done (set_place i (Reading l') (set_mem w (set_board b s)))).
Proof.
  intros Hi Hp Hk Hw Hr Hl. pose proof (i_place s Hi i) as Hpi. rewrite Hp in Hpi.
  replace (set_place i _ _) with (moved i (Reading l') b w (out s) s) by by destruct i.
  apply good_moved; try done; [by rewrite Hp | by left | by split; [apply Hpi|]].
Qed.

(** One that leaves the two counters alone. *)
Lemma good_quiet i l l' w s :
  inv s -> place_of i s = Reading l -> own_write i w s ->
  counted (Reading l') = counted (Reading l) -> (inside (Reading l') = true -> sent s) ->
  seen (Reading l') (counted (place_of (other i) s)) ->
  (loc_rank l' < loc_rank l)%nat -> read_ok (umem w) i l' ->
  good s (Done (set_place i (Reading l') (set_mem w (set_board (board_ s) s)))).
Proof.
  intros Hi Hp Hw Hc Hin Hse Hr Hl. eapply good_read; try done. apply counts_same; rewrite ?Hp; done.
Qed.

Lemma both_counts i s : counted (place1 s) + counted (place2 s) = counted (place_of i s) + counted (place_of (other i) s).
Proof. destruct i; simpl; lia. Qed.

Lemma hello_at s n :
  inv s -> sent s -> 0 <= n <= 11 ->
  exists b, zget (data (board_ s)) n = Some b /\
    (b = NUL /\ n = 11 \/ b <> NUL /\ n < 11 /\ zget hello n = Some b).
Proof. intros Hi Hs Hn. exact (cstr_at _ hello n (i_text s Hi Hs) Hn). Qed.

Lemma read_begin ends i s c :
  inv s -> place_of i s = Reading ReaderCalls.Begin ->
  read_step buf room ends i ReaderCalls.Begin s = Some c -> good s c.
Proof.
  intros Hi Hp. unfold read_step, ReaderCalls.next. simpl. destruct (ready (board_ s)) eqn:Er.
  - intros [= <-]. eapply good_quiet; try done; [apply own_same | intros _; by apply i_ready | simpl; lia].
  - destruct ends as [[]|]; [| |done]; intros [= <-].
    all: eapply good_quiet; try done; [apply own_same | simpl; lia | by left].
Qed.

Lemma read_scan ends i n s c :
  inv s -> place_of i s = Reading (ReaderCalls.Scan n) ->
  read_step buf room ends i (ReaderCalls.Scan n) s = Some c -> good s c.
Proof.
  intros Hi Hp. assert (Hs : sent s) by (apply (i_inside s Hi i); by rewrite Hp).
  pose proof (i_place s Hi i) as Hpi. rewrite Hp in Hpi. destruct Hpi as [_ Hn]. simpl in Hn.
  destruct (hello_at s n Hi Hs Hn) as (b & Hb & Hcase). unfold read_step, ReaderCalls.next. simpl. rewrite Hb. simpl.
  destruct Hcase as [[-> ->]|(Hne & Hlt & _)].
  - rewrite bool_decide_true by done. intros [= <-].
    eapply good_quiet; try done; [apply own_same | vm_compute; lia].
  - rewrite bool_decide_false by done. intros [= <-].
    eapply good_quiet; try done; [apply own_same | simpl; lia | simpl; lia].
Qed.

Lemma read_copy ends i n o s c :
  inv s -> place_of i s = Reading (ReaderCalls.CopyOut n o) ->
  read_step buf room ends i (ReaderCalls.CopyOut n o) s = Some c -> good s c.
Proof.
  intros Hi Hp. assert (Hs : sent s) by (apply (i_inside s Hi i); by rewrite Hp).
  pose proof (i_place s Hi i) as Hpi. rewrite Hp in Hpi. destruct Hpi as [_ (-> & Hlen & Ho & Hu)].
  pose proof (zlen_nonneg o) as Ho0. unfold read_step, ReaderCalls.next. simpl.
  destruct (Z.ltb_spec (zlen o) (11 `min` room i)) as [Hlt|Hge].
  - destruct (hello_at s (zlen o) Hi Hs) as (b & Hb & [[_ ?]|(_ & _ & Hb')]); [lia | lia |]. rewrite Hb.
    intros [= <-]. simpl. rewrite drop_app_length.
    eapply good_quiet; try done; [apply own_store; [done | change (zlen [b]) with 1; unfold BUFFER_SIZE; lia] | |].
    + simpl. rewrite zlen_app. change (zlen [b]) with 1. lia.
    + simpl. rewrite zlen_app. change (zlen [b]) with 1. split_and!; [done | lia | |].
      * by rewrite (sub_snoc hello _ b Hb'), <- Ho.
      * rewrite (store_ok (buf i + zlen o) [b] (mem s)), uread_app, uread_uwrite_before, Hu by lia.
        by rewrite uread_uwrite_n.
  - destruct (Z.ltb_spec (room i) 11); intros [= <-].
    + eapply good_quiet; try done; [apply own_same | simpl; lia | by left].
    + assert (Ho' : o = hello) by (rewrite Ho; replace (zlen o) with (zlen hello) by (change (zlen hello) with 11; lia); apply sub_all).
      eapply good_quiet; try done; [apply own_same | simpl; lia |]. split; [done|]. by rewrite Ho' in Hu.
Qed.

Lemma read_count ends i l s c :
  inv s -> place_of i s = Reading l ->
  match l with
  | ReaderCalls.Load _ | ReaderCalls.Store _ _ | ReaderCalls.Compare _ | ReaderCalls.ZeroCount _
  | ReaderCalls.ClearReady _ => True
  | _ => False
  end ->
  read_step buf room ends i l s = Some c -> good s c.
Proof.
  intros Hi Hp Hl Hc.
  assert (Hs : sent s) by (apply (i_inside s Hi i); rewrite Hp; by destruct l).
  pose proof (i_place s Hi i) as Hpi. rewrite Hp in Hpi. destruct Hpi as [_ Hpi].
  pose proof (i_count s Hi) as Hcnt. rewrite (both_counts i), Hp in Hcnt.
  pose proof (i_seen s Hi i) as Hse. rewrite Hp in Hse. pose proof (i_total s Hi) as Ht.
  pose proof (counted_range (place_of (other i) s)) as Hco.
  unfold read_step, ReaderCalls.next in Hc. destruct l; try done; simpl in Hc, Hpi, Hcnt, Hse;
    injection Hc as <-; try destruct Hpi as [-> Hu].
  - eapply good_quiet; try done; [apply own_same | simpl; lia].
  - rewrite s32_small by (unfold is_int, INT_MIN, INT_MAX; lia).
    eapply good_read; try done; [|apply own_same | simpl; lia].
    split; rewrite ?Hp; try done; simpl; first [lia | by unfold ready; simpl; intros ->].
  - rewrite Ht. destruct (Z.leb_spec 2 (readers_count (board_ s))).
    + eapply good_quiet; try done; [apply own_same | simpl; lia | simpl; lia].
    + eapply good_quiet; try done; [apply own_same | simpl; lia | by right].
  - eapply good_read; try done; [|apply own_same | simpl; lia].
    split; rewrite ?Hp; try done; simpl; first [lia | by unfold ready; simpl; intros ->].
  - eapply good_read; try done; [|apply own_same | simpl; lia | by right].
    split; rewrite ?Hp; try done; simpl; lia.
Qed.

Lemma read_good ends i l s c :
  inv s -> place_of i s = Reading l -> read_step buf room ends i l s = Some c -> good s c.
Proof.
  intros Hi Hp Hc. pose proof (i_place s Hi i) as Hpi. rewrite Hp in Hpi. destruct Hpi as [_ Hpi].
  destruct l; try done; first
    [ by eapply read_begin | by eapply read_scan | by eapply read_copy | by eapply read_count ].
Qed.

Lemma reader_good i s c : inv s -> reader_thread buf room i s = Some c -> good s c.
Proof.
  intros Hi. unfold reader_thread. pose proof (i_place s Hi i) as Hp. pose proof (i_inside s Hi i) as Hin.
  pose proof (i_seen s Hi i) as Hse.
  destruct (place_of i s) as [| |l|ret|ret] eqn:Hpl; try done.
  - intros [= <-]. set (z := replicate (Z.to_nat BUFFER_SIZE) NUL).
    replace (set_place i _ _) with (moved i (Reading ReaderCalls.Begin) (board_ s) (k_store (buf i) z (mem s)) (out s) s)
      by by destruct i.
    apply good_moved; rewrite ?Hpl; try done; [apply counts_same; rewrite ?Hpl; done | | simpl; lia | by left].
    rewrite <- (Z.add_0_r (buf i)). by apply own_store.
  - intros Hc. destruct l; try (by eapply read_good); [|by destruct Hp].
    injection Hc as <-. replace (set_place i _ s) with (moved i (Report r) (board_ s) (mem s) (out s) s) by by destruct i, s.
    apply good_moved; rewrite ?Hpl; try done; [|apply own_same | simpl; lia | by left].
    apply counts_same; rewrite ?Hpl; done.
  - intros Hc. apply (inj Some) in Hc as <-. destruct Hp as [Hli [Hneg|[-> Hu]]].
    + rewrite (proj2 (Z.ltb_ge 0 ret)), (proj2 (Z.ltb_lt ret 0)) by lia.
      replace (set_place i _ _) with (moved i (Gone ret) (board_ s) (mem s) (out s ++ [ReadError i ret]) s) by by destruct i, s.
      apply good_moved; rewrite ?Hpl; try done; [|apply own_same | simpl; lia | right; by exists (ReadError i ret) |].
      * apply counts_same; rewrite ?Hpl; done.
      * left. by rewrite lines_app, Hli, decide_True.
    + destruct (Z.ltb_spec 0 11); [|lia]. destruct (in_bounds 11 1 BUFFER_SIZE) eqn:Eb; [|done].
      pose proof (store_ok (buf i + 11) [NUL] (mem s)) as Hst. cbv zeta.
      assert (Hstr : cstr (uread (umem (k_store (buf i + 11) [NUL] (mem s))) (buf i) BUFFER_SIZE) = Some hello).
      { change BUFFER_SIZE with (11 + (1 + 244)). rewrite Hst, uread_app, uread_uwrite_before, Hu by lia.
        rewrite uread_app, (uread_uwrite_n _ (buf i + 11) [NUL] 1) by done. done. }
      rewrite Hstr.
      replace (set_place i _ _) with
        (moved i (Gone 11) (board_ s) (k_store (buf i + 11) [NUL] (mem s)) (out s ++ [Got i hello]) s) by by destruct i.
      apply good_moved; rewrite ?Hpl; try done; [|by apply own_store | simpl; lia | right; by exists (Got i hello) |].
      * apply counts_same; rewrite ?Hpl; done.
      * right. by rewrite lines_app, Hli, decide_True.
Qed.

Lemma timeout_good i s c : inv s -> read_timeout buf room i s = Some c -> good s c.
Proof.
  intros Hi. unfold read_timeout. destruct (place_of i s) as [| |[]| |] eqn:Hp; try done.
  destruct (ready (board_ s)); [done | by apply read_good].
Qed.

(** *** Steps of main *)

Lemma place_ok_lines f i p o o' : lines i o' = lines i o -> place_ok f i p o -> place_ok f i p o'.
Proof. intros E. destruct p; simpl; by rewrite E. Qed.

Lemma inv_main p b w o s :
  let s' := App b w p (place1 s) (place2 s) o in
  inv s -> phase_ok p (place1 s) (place2 s) -> writer_ok p (data b) -> wrote_ok p o ->
  umem w ≡ₘ umem (mem s) -> zlen (data b) = 256 -> total_readers b = 2 ->
  0 <= readers_count b <= readers_count (board_ s) -> (forall i, lines i o = lines i (out s)) ->
  (sent s -> sent s') -> (sent s' -> cstr (data b) = Some hello) -> (ready b = true -> sent s') ->
  (sent s' -> ready b = false -> sent s /\ ready (board_ s) = false) -> inv s'.
Proof.
  intros s' Hi Hp Hwr Hwo Hm Hz Ht Hc Hl Hs Htx Hr Hg. destruct Hi. split; try done; simpl.
  - by rewrite Hm.
  - intros i. eapply place_ok_mem; [symmetry; exact Hm|]. eapply place_ok_lines; [apply Hl|].
    specialize (i_place0 i). by destruct i.
  - intros i Hin. apply Hs, (i_inside0 i). by destruct i.
  - lia.
  - intros i Hst Hrd. destruct (Hg Hst Hrd) as [? ?]. specialize (i_gone0 i). destruct i; by apply i_gone0.
Qed.

(** The phases before data_ready = 1. *)
Definition early (p : mphase) : bool :=
  match p with
  | Join1 | Join2 | Returned _ => false
  | _ => negb (sending p)
  end.

Lemma early_unsent s : early (phase s) = true -> wrote_ok (phase s) (out s) -> ~ sent s.
Proof.
  intros He Hw [Hs|Hs]; unfold early in He.
  - destruct (phase s); simpl in Hs, He; try done. by rewrite Hs in He.
  - destruct (phase s); try done; by apply (Hw 11).
Qed.

(** A step of main that is not the last of the early ones. *)
Lemma good_early p b w o s :
  inv s -> early (phase s) = true -> (early p = true \/ p = Returned 1) -> (phase_rank p < phase_rank (phase s))%nat ->
  phase_ok p (place1 s) (place2 s) -> writer_ok p (data b) ->
  umem w ≡ₘ umem (mem s) -> zlen (data b) = 256 -> total_readers b = 2 ->
  readers_count b = readers_count (board_ s) -> ready b = ready (board_ s) ->
  (o = out s \/ exists call, o = out s ++ [Perror call]) ->
  good s (Done (App b w p (place1 s) (place2 s) o)).
Proof.
  intros Hi He Hep Hr Hp Hwr Hm Hz Ht Hc Hrd Ho.
  pose proof (early_unsent s He (i_wrote s Hi)) as Hns.
  assert (Hno : forall n, Wrote n ∉ o).
  { intros n Hn. assert (Hin : Wrote n ∈ out s).
    { destruct Ho as [->|[c ->]]; [done|]. apply elem_of_app in Hn as [?|Hn]; [done|].
      by apply list_elem_of_singleton in Hn. }
    pose proof (i_wrote s Hi) as Hw. by destruct (phase s); try done; apply (Hw n). }
  assert (Hns' : ~ sent (App b w p (place1 s) (place2 s) o)).
  { intros [Hs|Hs]; [|by apply (Hno 11)]. simpl in Hs. destruct Hep as [Hep| ->]; [|done].
    unfold early in Hep. rewrite Hs in Hep. by destruct p. }
  eexists. split; [done|]. split; [|unfold rank; simpl; lia].
  pose proof (i_count s Hi). pose proof (i_ready s Hi) as Hir.
  apply (inv_main _ _ _ _ s); try done; [| lia | | by rewrite Hrd; intros ?%Hir].
  - destruct p; simpl; intros n Hn; by destruct (Hno n).
  - intros i. destruct Ho as [->|[c ->]]; [done|]. by apply lines_other.
Qed.

Lemma request_spec r s :
  exists rc w, request r s = (rc, set_mem w s) /\ rc <= 0 /\ umem w ≡ₘ umem (mem s) /\
    (forall name, r = Heap name -> rc = 0).
Proof.
  unfold request. destruct (k_grant r (mem s)) as [rc w] eqn:E. exists rc, w.
  pose proof (grant_ok _ _ _ _ E). pose proof (grant_frame _ _ _ _ E) as Hm.
  split_and!; try done. intros name ->. pose proof (Hheap name (mem s)) as Hh. by rewrite E in Hh.
Qed.

(** Main goes on to [next] and leaves the driver alone. *)
Definition next_early (next : mphase) s : Prop :=
  early (phase s) = true /\ early next = true /\ (phase_rank next < phase_rank (phase s))%nat /\
  writer_ok next (data (board_ s)).

Lemma malloc_good name next s :
  inv s -> next_early next s -> phase_ok next (place1 s) (place2 s) -> good s (malloc_args name next s).
Proof.
  intros Hi (He & Hn & Hr & Hwr) Hp. unfold malloc_args.
  destruct (request_spec (Heap name) s) as (rc & w & -> & _ & Hm & Hrc). rewrite (Hrc name eq_refl).
  unfold set_phase, set_mem. simpl. apply good_early; try done; try apply Hi; by left.
Qed.

Lemma open_good name next s :
  inv s -> next_early next s -> phase_ok next (place1 s) (place2 s) ->
  phase_ok (Returned 1) (place1 s) (place2 s) -> good s (open_reader name next s).
Proof.
  intros Hi (He & Hn & Hr & Hwr) Hp Hp1. unfold open_reader.
  destruct (request_spec (Fd name) s) as (rc & w & -> & _ & Hm & _).
  unfold say, set_phase, set_mem. destruct (rc <? 0); simpl.
  - apply good_early; try done; try apply Hi; [by right | simpl; lia | right; by eexists].
  - apply good_early; try done; try apply Hi; by left.
Qed.

Lemma create_good i name next s :
  inv s -> next_early next s -> place_of i s = Absent ->
  phase_ok next (place1 (set_place i Start s)) (place2 (set_place i Start s)) ->
  good s (create i name next s).
Proof.
  intros Hi (He & Hn & Hr & Hwr) Hpl Hp. unfold create.
  destruct (request_spec (Heap name) s) as (rc & w & -> & _ & Hm & Hrc). rewrite (Hrc name eq_refl). clear rc Hrc.
  pose proof (early_unsent s He (i_wrote s Hi)) as Hns.
  eexists. split; [done|]. split; [|unfold rank; destruct i; simpl in *; rewrite Hpl; simpl; lia].
  assert (Hns' : ~ sent (set_phase next (set_place i Start (set_mem w s)))).
  { intros [Hs|Hs]; [|apply Hns; right; by destruct i]. simpl in Hs. unfold early in Hn. rewrite Hs in Hn. by destruct next. }
  assert (Hps : forall j, place_of j (set_phase next (set_place i Start (set_mem w s))) = if decide (j = i) then Start else place_of j s).
  { by intros []; destruct i. }
  destruct Hi. split; try done.
  - by destruct i.
  - by destruct i.
  - destruct i; simpl; by rewrite Hm.
  - intros j. rewrite Hps. eapply place_ok_mem; [symmetry; destruct i; exact Hm|].
    replace (out _) with (out s) by by destruct i. specialize (i_place0 j). case_decide as E; [|done].
    subst j. by rewrite Hpl in i_place0.
  - by destruct i.
  - by destruct i.
  - assert (Hno : forall n, Wrote n ∉ out s) by (unfold early in He; by destruct (phase s)).
    replace (out _) with (out s) by by destruct i. unfold early in Hn. by destruct next.
  - intros j. rewrite Hps. case_decide; [done|]. intros Hin. by destruct (Hns (i_inside0 j Hin)).
  - intros Hrd. destruct Hns. apply i_ready0. by destruct i.
  - destruct i; simpl in *; rewrite Hpl in i_count0; simpl in *; lia.
  - intros j. rewrite !Hps. specialize (i_seen0 j). case_decide as E; [done|].
    replace (other j) with i in * by by destruct i, j. rewrite decide_True by done. by rewrite Hpl in i_seen0.
Qed.

(** *** The write *)

Lemma literal w :
  uread (umem w) test_message 12 = hello ++ [NUL] -> cstr (uread (umem w) test_message 256) = Some hello.
Proof. intros Hw. change 256 with (12 + 244). by rewrite uread_app, Hw by lia. Qed.

Lemma enter_good s : inv s -> phase s = Write -> good s (writer_func test_message copied_in s).
Proof.
  intros Hi Hph. unfold writer_func. rewrite (literal _ (i_msg s Hi)).
  destruct (Hcopy hello) as [Hz Hf]. destruct (copied_in hello) as [bs fault]. simpl in *.
  pose proof (i_phase s Hi) as Hp. rewrite Hph in Hp.
  unfold set_phase. simpl. apply good_early; try done; try apply Hi; [by rewrite Hph | by left | rewrite Hph; simpl; lia | by left].
Qed.

(** A turn of the write before data_ready = 1. *)
Lemma good_write bs fault l l' b s :
  inv s -> phase s = Writing bs fault l -> early (Writing bs fault l) = true -> early (Writing bs fault l') = true ->
  (phase_rank (Writing bs fault l') < phase_rank (Writing bs fault l))%nat ->
  zlen (data b) = 256 -> total_readers b = total_readers (board_ s) ->
  readers_count b = readers_count (board_ s) -> data_ready b = data_ready (board_ s) ->
  writer_ok (Writing bs fault l') (data b) -> good s (Done (set_phase (Writing bs fault l') (set_board b s))).
Proof.
  intros Hi Hph He He' Hr Hz Ht Hc Hd Hwr. pose proof (i_phase s Hi) as Hp. rewrite Hph in Hp.
  unfold set_phase, set_board. simpl. apply good_early; rewrite ?Hph; try done; [by left | by rewrite Ht, (i_total s Hi) | by unfold ready; rewrite Hd | by left].
Qed.

Lemma hello_stored d : sub 0 11 d = hello -> zlen d = 256 -> cstr (<[11%nat := NUL]> d) = Some hello.
Proof.
  intros Hs Hz. assert (E : <[11%nat := NUL]> d = hello ++ NUL :: drop 12 d).
  { rewrite insert_take_drop by (unfold zlen in Hz; lia). f_equal. exact Hs. }
  rewrite E. reflexivity.
Qed.

Lemma fill_good bs fault k s :
  inv s -> phase s = Writing bs fault (ReaderCalls.Fill k) ->
  good s (write_step bs fault (ReaderCalls.Fill k) s).
Proof.
  intros Hi Hph. pose proof (i_writer s Hi) as Hw. rewrite Hph in Hw. destruct Hw as (Hz & Hf & Hk & Hd).
  assert (Hc : ReaderCalls.count bs = 11) by (rewrite ReaderCalls.count_min; lia).
  pose proof (i_size s Hi) as Hsz. unfold write_step, ReaderCalls.next. simpl. rewrite Hc.
  destruct (Z.ltb_spec k 11).
  - destruct (zget_in bs k) as [x Hx]; [lia|]. rewrite Hx. simpl. rewrite zset_in by lia.
    eapply good_write; try done; [simpl; lia | simpl; by rewrite zlen_insert |]. simpl.
    split_and!; try done; [lia | lia |].
    rewrite (sub_snoc _ k x), (sub_snoc bs k x Hx) by (rewrite zget_insert by lia; by rewrite decide_True).
    f_equal. rewrite <- Hd. unfold sub. rewrite Z2Nat.inj_0, !drop_0. by rewrite take_insert_ge by lia.
  - assert (k = 11) as -> by lia. destruct fault; simpl.
    + eapply good_write; try done; [simpl; lia |]. simpl. split_and!; [done | done | by left].
    + eapply good_write; try done; [simpl; lia |]. simpl. split_and!; [done | done |].
      rewrite Hd, (Hf eq_refl). apply (sub_all hello).
Qed.

(** data_ready = 1. *)
Lemma publish_good bs fault s :
  inv s -> phase s = Writing bs fault ReaderCalls.Publish ->
  good s (write_step bs fault ReaderCalls.Publish s).
Proof.
  intros Hi Hph. pose proof (i_writer s Hi) as Hw. rewrite Hph in Hw. pose proof (i_wrote s Hi) as Ho. rewrite Hph in Ho.
  pose proof (i_phase s Hi) as Hp. rewrite Hph in Hp. pose proof (i_count s Hi).
  eexists. split; [done|]. split; [|unfold rank; rewrite Hph; simpl; lia].
  apply (inv_main _ _ _ _ s); try done; try apply Hi; simpl; [lia | by left | intros _; apply Hw | by left].
Qed.

(** readers_count = 0, and what comes behind it: the message is out. *)
Lemma good_sent p b o s :
  inv s -> sent s -> sent (App b (mem s) p (place1 s) (place2 s) o) ->
  (phase_rank p < phase_rank (phase s))%nat -> phase_ok p (place1 s) (place2 s) ->
  data b = data (board_ s) -> total_readers b = total_readers (board_ s) -> data_ready b = data_ready (board_ s) ->
  0 <= readers_count b <= readers_count (board_ s) ->
  writer_ok p (data b) -> wrote_ok p o -> (forall i, lines i o = lines i (out s)) ->
  good s (Done (App b (mem s) p (place1 s) (place2 s) o)).
Proof.
  intros Hi Hs Hs' Hr Hp Hd Ht Hrd Hc Hwr Hwo Hl.
  eexists. split; [done|]. split; [|unfold rank; simpl; lia].
  apply (inv_main _ _ _ _ s); try done; unfold ready; rewrite ?Hd, ?Ht, ?Hrd; try apply Hi; try done.
  intros _. by apply i_text.
Qed.

Lemma write_returns bs fault r o s :
  inv s -> phase s = Writing bs fault (ReaderCalls.Return r o) ->
  good s (write_step bs fault (ReaderCalls.Return r o) s).
Proof.
  intros Hi Hph. pose proof (i_writer s Hi) as Hr. rewrite Hph in Hr. destruct Hr as (_ & _ & Hr).
  pose proof (i_wrote s Hi) as Ho. rewrite Hph in Ho. pose proof (i_phase s Hi) as Hp. rewrite Hph in Hp.
  pose proof (i_count s Hi) as Hc. simpl. destruct Hr as [Hr| ->].
  - rewrite (proj2 (Z.ltb_ge 0 r)) by lia.
    assert (Hns : ~ sent s).
    { apply early_unsent; [|by rewrite Hph]. rewrite Hph. simpl. by rewrite (proj2 (Z.ltb_ge 0 r)) by lia. }
    assert (Hno : forall n, Wrote n ∉ out s ++ [Perror "write"]).
    { intros n [?|E%list_elem_of_singleton]%elem_of_app; [by apply (Ho n) | done]. }
    assert (Hns' : ~ sent (App (board_ s) (mem s) Join1 (place1 s) (place2 s) (out s ++ [Perror "write"])))
      by (intros [?|?%Hno]; done).
    eexists. split; [done|]. split; [|unfold rank; rewrite Hph; simpl; lia].
    apply (inv_main _ _ _ _ s); try done; try apply Hi; simpl.
    all: first [ lia | by intros n ?%Hno | by intros i; apply lines_other
               | intros Hrd; by destruct (Hns (i_ready s Hi Hrd)) ].
  - unfold set_phase, say. simpl. apply good_sent; try done; try (rewrite Hph; simpl; lia).
    + left. by rewrite Hph.
    + right. apply elem_of_app. right. by apply list_elem_of_singleton.
    + lia.
    + intros n [?|E%list_elem_of_singleton]%elem_of_app; [by destruct (Ho n) | by injection E].
    + intros i. by apply lines_other.
Qed.

Lemma write_good bs fault l s :
  inv s -> phase s = Writing bs fault l -> good s (write_step bs fault l s).
Proof.
  intros Hi Hph. pose proof (i_writer s Hi) as Hw. rewrite Hph in Hw. destruct Hw as (Hz & Hf & Hl).
  pose proof (i_wrote s Hi) as Ho. rewrite Hph in Ho. pose proof (i_phase s Hi) as Hp. rewrite Hph in Hp.
  pose proof (i_size s Hi) as Hsz. pose proof (i_count s Hi) as Hc.
  assert (Hcnt : ReaderCalls.count bs = 11) by (rewrite ReaderCalls.count_min; lia).
  destruct l; try done.
  - eapply good_write; try done. simpl. lia.
  - by apply fill_good.
  - unfold write_step, ReaderCalls.next. simpl. rewrite Hcnt, zset_in by lia.
    eapply good_write; try done; [simpl; lia | simpl; by rewrite zlen_insert |].
    split_and!; try done. by apply hello_stored.
  - by apply publish_good.
  - unfold write_step, ReaderCalls.next. simpl. rewrite Hcnt.
    unfold set_phase, set_board. simpl. apply good_sent; try done; try (rewrite Hph; simpl; lia); [by left; rewrite Hph | by left | simpl; lia |].
    split_and!; try done. by right.
  - by apply write_returns.
Qed.

(** *** Joining *)

Lemma join_good next s :
  inv s -> phase s = Join1 \/ phase s = Join2 -> next = Join2 \/ next = Returned 0 ->
  (phase_rank next < phase_rank (phase s))%nat -> phase_ok next (place1 s) (place2 s) ->
  good s (Done (set_phase next s)).
Proof.
  intros Hi Hp Hn Hr Hph. pose proof (i_count s Hi). pose proof (i_wrote s Hi) as Hw.
  assert (Hs : sent s <-> sent (set_phase next s)).
  { unfold sent. destruct Hp as [-> | ->], Hn as [-> | ->]; done. }
  eexists. split; [done|]. split; [|unfold rank; simpl; lia].
  apply (inv_main _ _ _ _ s); try done; try apply Hi; try (intros ?; by apply Hs); try lia.
  - by destruct Hn as [-> | ->].
  - destruct Hp as [E|E], Hn as [-> | ->]; rewrite E in Hw; exact Hw.
  - intros Hst. by apply i_text, Hs.
  - intros Hrd. by apply Hs, i_ready.
  - intros Hst Hrd. split; [by apply Hs | done].
Qed.

(** *** Every step *)

Lemma main_good s c : inv s -> main_step test_message copied_in s = Some c -> good s c.
Proof.
  intros Hi. pose proof (i_phase s Hi) as Hph. unfold main_step.
  destruct (phase s) eqn:Hp; intros Hc; try (apply (inj Some) in Hc as <-); try done.
  all: assert (Hm : forall next, early (phase s) = true -> early next = true ->
         (phase_rank next < phase_rank (phase s))%nat -> writer_ok next (data (board_ s)) ->
         next_early next s) by (intros; by split_and!); rewrite Hp in Hm; simpl in Hm.
  - apply malloc_good; [done | apply Hm; simpl; (done || lia) | done].
  - apply open_good; [done | apply Hm; simpl; (done || lia) | done | done].
  - apply malloc_good; [done | apply Hm; simpl; (done || lia) | done].
  - apply open_good; [done | apply Hm; simpl; (done || lia) | done | done].
  - destruct Hph as [H1' H2']. apply create_good; [done | apply Hm; simpl; (done || lia) | done |]. by split.
  - destruct Hph as [H1' H2']. apply create_good; [done | apply Hm; simpl; (done || lia) | done |]. by split.
  - unfold set_phase. apply good_early; rewrite ?Hp; try done; try apply Hi; [by left | simpl; lia | by left].
  - destruct (request_spec (Fd "open for write") s) as (fd & w & E & _ & Hw & _). rewrite E in Hc.
    injection Hc as <-. destruct (fd <? 0); [|unfold set_phase, set_mem; simpl].
    + pose proof (early_unsent s ltac:(by rewrite Hp) (i_wrote s Hi)) as Hns.
      pose proof (i_wrote s Hi) as Ho. rewrite Hp in Ho. pose proof (i_count s Hi).
      assert (Hno : forall n, Wrote n ∉ out s ++ [Perror "open for write"]).
      { intros n [?|E'%list_elem_of_singleton]%elem_of_app; [by apply (Ho n) | done]. }
      assert (Hns' : ~ sent (App (board_ s) w Join1 (place1 s) (place2 s) (out s ++ [Perror "open for write"])))
        by (intros [?|?%Hno]; done).
      eexists. split; [done|]. split; [|unfold rank; rewrite Hp; simpl; lia].
      apply (inv_main _ _ _ _ s); try done; try apply Hi; simpl.
      all: first [ lia | by intros n ?%Hno | by intros i; apply lines_other
                 | intros Hrd; by destruct (Hns (i_ready s Hi Hrd)) ].
    + apply good_early; rewrite ?Hp; try done; try apply Hi; [by left | simpl; lia | by left].
  - by apply enter_good.
  - by apply write_good.
  - unfold join in Hc. destruct Hph as [H1' H2'].
    destruct (place_of R1 s) eqn:E; try done. apply (inj Some) in Hc as <-.
    apply join_good; rewrite ?Hp; simpl; auto. split; [by eexists | done].
  - unfold join in Hc. destruct Hph as [H1' H2'].
    destruct (place_of R2 s) eqn:E; try done. apply (inj Some) in Hc as <-.
    apply join_good; rewrite ?Hp; simpl; auto. split_and!; [done | done | by eexists].
Qed.

Lemma step_good t s c : inv s -> step buf test_message room copied_in t s = Some c -> good s c.
Proof.
  intros Hi. unfold step. destruct t as [|i|i], (phase s); try done;
    intros Hc; first [by apply main_good | by eapply reader_good | by eapply timeout_good].
Qed.

(** ** Results *)

Definition returned (c : outcome (app W)) : Prop :=
  match c with Done s => match phase s with Returned _ => True | _ => False end | Oops _ => False end.
#[local] Instance returned_dec c : Decision (returned c).
Proof. destruct c as [s|]; simpl; [destruct (phase s)|]; apply _. Defined.

(** Who can always move: main, or the thread it joins, or its timeout. *)
Definition joined i s : actor :=
  match place_of i s with
  | Reading ReaderCalls.Begin => if ready (board_ s) then Reader i else Timeout i
  | Gone _ | Absent => Main
  | _ => Reader i
  end.
Definition helper s : actor :=
  match phase s with Join1 => joined R1 s | Join2 => joined R2 s | _ => Main end.

Lemma joined_moves i next s :
  inv s -> place_of i s <> Absent ->
  match joined i s with
  | Main => join i next s | Reader j => reader_thread buf room j s | Timeout j => read_timeout buf room j s
  end <> None.
Proof.
  intros Hi Ha. pose proof (i_place s Hi i) as Hp. unfold joined, join.
  destruct (place_of i s) as [| |l| |] eqn:E; try done; [by unfold reader_thread; rewrite E| |by unfold reader_thread; rewrite E].
  destruct Hp as [_ Hp]. destruct l; try done.
  { destruct (ready (board_ s)) eqn:Er; unfold reader_thread, read_timeout, read_step, ReaderCalls.next;
      rewrite E; simpl; by rewrite Er. }
  all: unfold reader_thread, read_step, ReaderCalls.next; rewrite E; simpl; repeat case_match; congruence.
Qed.

Lemma helper_moves s :
  inv s -> ~ returned (Done s) -> step buf test_message room copied_in (helper s) s <> None.
Proof.
  intros Hi Hr. pose proof (i_phase s Hi) as Hph. unfold helper, step, main_step. simpl in Hr.
  destruct (phase s); try done.
  - by destruct (request _ s).
  - pose proof (joined_moves R1 Join2 s Hi) as Hj. destruct (joined R1 s); by apply Hj, Hph.
  - pose proof (joined_moves R2 (Returned 0) s Hi) as Hj. destruct (joined R2 s); by apply Hj, Hph.
Qed.

Lemma app_progress : progresses (step buf test_message room copied_in) returned (fun _ => True) inv rank helper.
Proof.
  intros t s _ Hi Hg. split; [done|]. destruct (step buf test_message room copied_in t s) as [c|] eqn:E.
  - destruct (step_good t s c Hi E) as (s' & -> & Hi' & Hr). by eapply good_down.
  - apply good_blocked; [done | done |]. intros ->. by apply (helper_moves s Hi Hg).
Qed.

(** What each reader has printed when main has returned 0. *)
Definition outcome_ok s : Prop :=
  (forall i, lines i (out s) = [Got i hello] \/
             exists r, r < 0 /\ lines i (out s) = [ReadError i r]) /\
  (forall i, lines i (out s) = [Got i hello] -> Wrote 11 ∈ out s) /\
  (forall n, Wrote n ∈ out s ->
     n = 11 /\ (ready (board_ s) = false -> forall i, lines i (out s) = [Got i hello])).

Lemma inv_outcome s : inv s -> phase s = Returned 0 -> outcome_ok s.
Proof.
  intros Hi Hp. pose proof (i_phase s Hi) as Hph. rewrite Hp in Hph. destruct Hph as (_ & [r1 E1] & [r2 E2]).
  assert (Hg : forall i, exists r, place_of i s = Gone r) by (intros []; eauto).
  assert (Hsent : sent s <-> Wrote 11 ∈ out s).
  { split; [|by right]. intros [Hs|Hs]; [|done]. by rewrite Hp in Hs. }
  split_and!.
  - intros i. destruct (Hg i) as [r Hr]. pose proof (i_place s Hi i) as Hpl. rewrite Hr in Hpl.
    destruct Hpl as [[? ->]|[_ ->]]; [right; eauto | by left].
  - intros i Hl. destruct (Hg i) as [r Hr]. pose proof (i_place s Hi i) as Hpl. rewrite Hr in Hpl.
    apply Hsent, (i_inside s Hi i). rewrite Hr. destruct Hpl as [[_ ?]|[-> _]]; [congruence | done].
  - intros n Hn. pose proof (i_wrote s Hi) as Hw. rewrite Hp in Hw. pose proof (Hw n Hn) as ->.
    split; [done|]. intros Hrd i. apply Hsent in Hn. pose proof (i_gone s Hi i Hn Hrd) as Hc.
    destruct (Hg i) as [r Hr]. pose proof (i_place s Hi i) as Hpl. rewrite Hr in Hpl, Hc. simpl in Hc.
    destruct Hpl as [[? _]|[_ ->]]; [|done]. by rewrite (proj2 (Z.ltb_ge 0 r)) in Hc by lia.
Qed.

(** C8. app.c in every interleaving of main, the two reader threads and the
    timeouts, their calls of the driver cut into single accesses, when malloc
    and pthread_create succeed: no step has undefined behaviour, and when main
    has returned 0 each reader has printed exactly one line, the whole message
    or the error of its read; the message only if the write was reported as
    successful; and when the driver has withdrawn it, both have printed it.
    (The buffers of the readers and the literal do not overlap; the copies to
    and from the program may fault at any byte.) *)
Theorem readers_session (w : W) (ts : list actor)
    (Hw : uread (umem w) test_message 12 = hello ++ [NUL]) :
  exists s, exec (step buf test_message room copied_in) ts (Done (app0 w)) = Done s /\
    (phase s = Returned 0 -> outcome_ok s).
Proof.
  destruct (exec_safe (step buf test_message room copied_in) inv ts (app0 w)) as (s & Hr & Hi).
  - intros t s c Hi E. destruct (step_good t s c Hi E) as (s' & -> & Hi' & _). eauto.
  - by apply inv_app0.
  - exists s. split; [done|]. intros Hp. by apply inv_outcome.
Qed.

(** C17. When malloc and pthread_create succeed, main returns under every
    schedule that gives main, the readers and the timeouts turns for ever,
    because a read that the writer does not end is ended by its timeout. (When
    they fail, the program uses a null pointer or joins a thread that does not
    exist: [malloc_unchecked], [create_unchecked].) *)
Theorem readers_return (w : W) (sched : nat -> actor) (Hfair : fair sched)
    (Hw : uread (umem w) test_message 12 = hello ++ [NUL]) :
  exists n s rc, runs (step buf test_message room copied_in) sched n (Done (app0 w)) = Done s /\ phase s = Returned rc.
Proof.
  destruct (fair_eventually (step buf test_message room copied_in) returned (fun _ => True) inv rank helper
              sched (app0 w) Hfair app_progress) as [n Hn]; [by apply inv_app0|].
  destruct (runs _ sched n _) as [s|] eqn:E; [|done]. simpl in Hn.
  destruct (phase s) as [| | | | | | | | | | | |rc] eqn:Hp; try done. by exists n, s, rc.
Qed.
End Props.

(** ** Witnesses *)

Definition app_buf (i : reader) : Z := match i with R1 => 1000 | R2 => 2000 end.
Definition app_world : sim := Sim (put_bytes (hello ++ [NUL]) (put_bytes (replicate 2000 NUL) ∅ 1000) 100) [] [] [] [].
Definition app_room (_ : reader) : Z := 256.
Definition app_copy (m : list byte) : list byte * bool := (m, false).

Lemma app_layout :
  apart (app_buf R1) BUFFER_SIZE (app_buf R2) BUFFER_SIZE /\
  (forall i, apart 100 12 (app_buf i) BUFFER_SIZE).
Proof. unfold apart, BUFFER_SIZE. split; [simpl; lia|]. intros []; simpl; lia. Qed.

Lemma app_copy_ok m : zlen (app_copy m).1 = zlen m /\ ((app_copy m).2 = false -> (app_copy m).1 = m).
Proof. done. Qed.

(** The simulated system of these witnesses refuses nothing. *)
#[local] Instance generous : Grants sim := { k_grant _ w := (0, w) }.
#[local] Instance generous_ok : GrantsOk sim.
Proof. split. by intros r w rc w' [= <- <-]. Qed.
#[local] Instance generous_frame : GrantsFrame sim.
Proof. split. by intros r w rc w' [= <- <-]. Qed.

Lemma generous_heap name (w : sim) : (k_grant (Heap name) w).1 = 0.
Proof. done. Qed.

Lemma literal_there : uread (umem app_world) 100 12 = hello ++ [NUL].
Proof. vm_compute. reflexivity. Qed.

Definition times (n : nat) (t : actor) : list actor := replicate n t.
Local Abbreviation app_run ts := (exec (step app_buf 100 app_room app_copy) ts (Done (app0 app_world))).

(** Both readers wait, the writer writes, the second reader is the first to
    read. *)
Definition good_schedule : list actor :=
  times 6 Main ++ times 1 (Reader R1) ++ times 1 (Reader R2) ++ times 20 Main ++
  times 40 (Reader R2) ++ times 40 (Reader R1) ++ times 2 Main.

Lemma readers_session_witness : exists s,
  app_run good_schedule = Done s /\ phase s = Returned 0 /\ outcome_ok s.
Proof.
  destruct (readers_session app_buf 100 app_room app_copy (proj1 app_layout) (proj2 app_layout) app_copy_ok
              generous_heap app_world good_schedule literal_there) as (s & Hr & Hs).
  assert (Hp : match app_run good_schedule with
               | Done s => phase s = Returned 0 | Oops _ => False end) by (vm_compute; reflexivity).
  rewrite Hr in Hp. exists s. split_and!; [done | done | by apply Hs].
Defined.

Definition turns : list actor := [Main; Reader R1; Timeout R1; Reader R2; Timeout R2].

Lemma readers_return_witness : exists n s rc,
  runs (step app_buf 100 app_room app_copy) (round_robin turns Main) n (Done (app0 app_world)) = Done s /\
  phase s = Returned rc.
Proof.
  apply (readers_return app_buf 100 app_room app_copy (proj1 app_layout) (proj2 app_layout) app_copy_ok generous_heap).
  - apply round_robin_all. intros [|[]|[]]; repeat constructor.
  - exact literal_there.
Defined.

(** What is left when main has returned: its result, the lines and whether
    the message is still there. *)
Definition left_over (r : outcome (app sim)) : option (mphase * list line * bool) :=
  match r with Done s => Some (phase s, out s, ready (board_ s)) | Oops _ => None end.

Example good_outcome :
  left_over (app_run good_schedule) = Some (Returned 0, [Wrote 11; Got R2 hello; Got R1 hello], false).
Proof. vm_compute. reflexivity. Qed.

(** Both readers have printed the message and it is still there: they count
    themselves at the same time, or main stores readers_count = 0 behind the
    first one. *)
Example count_lost :
  left_over (app_run (times 6 Main ++ times 2 (Reader R1) ++ times 2 (Reader R2) ++ times 20 Main ++
    times 25 (Reader R1) ++ times 25 (Reader R2) ++ [Reader R1; Reader R2] ++
    times 10 (Reader R1) ++ times 10 (Reader R2) ++ times 2 Main)) =
  Some (Returned 0, [Wrote 11; Got R1 hello; Got R2 hello], true).
Proof. vm_compute. reflexivity. Qed.

Example reset_late :
  left_over (app_run (times 6 Main ++ times 2 (Reader R1) ++ times 2 (Reader R2) ++ times 18 Main ++
    times 40 (Reader R1) ++ times 4 Main ++ times 40 (Reader R2) ++ times 4 Main)) =
  Some (Returned 0, [Got R1 hello; Wrote 11; Got R2 hello], true).
Proof. vm_compute. reflexivity. Qed.

(** Without a look at the result of malloc: a NULL dereference. *)
Example malloc_unchecked :
  step (H1 := @Build_Grants sim (fun r w => (if bool_decide (r = Heap "args1") then - ENOMEM else 0, w)))
    app_buf 100 app_room app_copy Main (app0 app_world) = Some (Oops NullDeref).
Proof. vm_compute. reflexivity. Qed.

(** Without a look at the result of pthread_create: main joins a thread that
    does not exist. *)
Example create_unchecked :
  exec (step (H1 := @Build_Grants sim (fun r w => (if bool_decide (r = Heap "reader1") then - EAGAIN else 0, w)))
    app_buf 100 app_room app_copy) (times 40 Main) (Done (app0 app_world)) = Oops BadPointer.
Proof. vm_compute. reflexivity. Qed.
