(* ===== verification/Temperature.v ===== *)
(** * The temperature drivers: 001_temp_log and 004_temp_sens_atomic

    Module [Atomic] is temp_kernel.c: thresholds, a current temperature and a
    count of readings outside the thresholds, each an atomic_t. Module [Log]
    is driver.c with helper.c, whose threshold check has dangling [else]s. *)

From S2P Require Import Prelude Kernel Wp Sim.

(** ** 004_temp_sens_atomic/temp_kernel.c *)
Module Atomic.

Definition TEMP_SET_HIGH : Z := _IOW 65 1 sizeof_int.
Definition TEMP_SET_LOW : Z := _IOW 66 2 sizeof_int.
Definition TEMP_GET_CURRENT : Z := _IOR 67 3 sizeof_int.
Definition TEMP_GET_ALERTS : Z := _IOR 68 4 sizeof_int.

Record temp_sensor := TempSensor {
  current_temp : Z;
  high_threshold : Z;
  low_threshold : Z;
  alert_count : Z;
}.

Section Handlers.
Context {W : Type} `{UserAccess W}.

(** copy_from_user into an [int], then the continuation on success. *)
Definition set_int (arg : Z) (f : Z -> temp_sensor -> temp_sensor) : M W temp_sensor Z :=
  '(r, bs) ← copy_from_user arg sizeof_int;
  if negb (r =? 0) then mret (- EFAULT)
  else modify (f (bytes_int bs));; mret 0.

Definition get_int (arg : Z) (f : temp_sensor -> Z) : M W temp_sensor Z :=
  s ← get;
  r ← copy_to_user arg (int_bytes (f s));
  if negb (r =? 0) then mret (- EFAULT) else mret 0.

Definition temp_ioctl (cmd arg : Z) : M W temp_sensor Z :=
  if cmd =? TEMP_SET_HIGH then
    set_int arg (fun v s => TempSensor (current_temp s) v (low_threshold s) (alert_count s))
  else if cmd =? TEMP_SET_LOW then
    set_int arg (fun v s => TempSensor (current_temp s) (high_threshold s) v (alert_count s))
  else if cmd =? TEMP_GET_CURRENT then get_int arg current_temp
  else if cmd =? TEMP_GET_ALERTS then get_int arg alert_count
  else mret (- EINVAL).

(** The length is not looked at. *)
Definition temp_write (buf len off : Z) : M W temp_sensor Z :=
  '(r, bs) ← copy_from_user buf sizeof_int;
  if negb (r =? 0) then mret (- EFAULT)
  else
    let new_temp := bytes_int bs in
    modify (fun s => TempSensor new_temp (high_threshold s) (low_threshold s) (alert_count s));;
    s ← get;
    (if (high_threshold s <? new_temp) || (new_temp <? low_threshold s) then
       modify (fun s => TempSensor (current_temp s) (high_threshold s) (low_threshold s)
                                   (s32 (alert_count s + 1)))
     else mret tt);;
    mret sizeof_int.
End Handlers.

(** No result of a registration is looked at. *)
Definition temp_init {W} `{Grants W} : M W temp_sensor Z :=
  alloc_chrdev_region;;
  cdev_add 0;;
  temp_class ← class_create;
  device_create_in temp_class 0;;
  modify (fun _ => TempSensor 25 30 20 0);;
  mret 0.

Definition temp_exit {W D} : M W D unit :=
  device_destroy 0;; class_destroy;; cdev_del 0;; unregister_chrdev_region.

Section Props.
Context {W : Type} `{UserAccessOk W}.

Lemma set_int_spec arg f s (w : W) h l :
  wp (set_int arg f)
     (fun r σ => held σ = h /\ ledger σ = l /\ umem (world σ) ≡ₘ umem w /\
        (r = - EFAULT /\ drv σ = s \/ r = 0 /\ drv σ = f (user_int w arg) s))
     (KSt s w h l).
Proof.
  unfold set_int, user_int. change 4 with sizeof_int. wp_step; wp_step.
  destruct (Z.eqb_spec r 0) as [->|]; simpl negb; cbv iota; wp_auto.
  - apply cfu_full in Hcfu as [-> Hm]; [|done]. split_and!; auto.
  - apply cfu_mem in Hcfu; [|done]. split_and!; auto.
Qed.

Lemma get_int_spec arg f s (w : W) h l :
  wp (get_int arg f)
     (fun r σ => held σ = h /\ ledger σ = l /\ drv σ = s /\
        (r = - EFAULT \/ r = 0 /\ user_int (world σ) arg = s32 (f s)))
     (KSt s w h l).
Proof.
  unfold get_int. wp_auto; split_and!; auto. right. split; [done|]. subst r.
  apply ctu_full in Hctu. unfold user_int. rewrite Hctu, uread_uwrite_n by done.
  apply bytes_int_of.
Qed.

Lemma temp_write_spec buf len off s (w : W) h l :
  wp (temp_write buf len off)
     (fun r σ => held σ = h /\ ledger σ = l /\ umem (world σ) ≡ₘ umem w /\
        (r = - EFAULT /\ drv σ = s \/
         let v := user_int w buf in
         r = 4 /\ drv σ = TempSensor v (high_threshold s) (low_threshold s)
           (if decide (low_threshold s <= v <= high_threshold s) then alert_count s
            else s32 (alert_count s + 1))))
     (KSt s w h l).
Proof.
  unfold temp_write, user_int. change 4 with sizeof_int. wp_step; wp_step.
  destruct (Z.eqb_spec r 0) as [->|]; simpl negb; cbv iota.
  2:{ wp_auto. apply cfu_mem in Hcfu; [|done]. split_and!; auto. }
  apply cfu_full in Hcfu as [-> Hm]; [|done]. set (v := bytes_int _). do 5 wp_step.
  simpl high_threshold. simpl low_threshold.
  destruct (Z.ltb_spec (high_threshold s) v), (Z.ltb_spec v (low_threshold s)); simpl orb;
    cbv iota; wp_auto; split_and!; auto; right; split; try done; case_decide; try lia; done.
Qed.

(** The session of temp_user.c: set both thresholds, write a reading, ask
    for the number of alerts. When every call succeeds, the number delivered
    is one more than before exactly when the reading is outside the
    thresholds just set (computed in 32 bits), whatever they were before. *)
Theorem alert_counted (ah al av aout : Z) (s : temp_sensor) (w : W) :
  wp (r1 ← temp_ioctl TEMP_SET_HIGH ah; r2 ← temp_ioctl TEMP_SET_LOW al;
      r3 ← temp_write av 4 0; r4 ← temp_ioctl TEMP_GET_ALERTS aout; mret (r1, r2, r3, r4))
     (fun r σ => r = (0, 0, 4, 0) ->
        let high := user_int w ah in let low := user_int w al in let v := user_int w av in
        current_temp (drv σ) = v /\ held σ = [] /\
        user_int (world σ) aout =
          s32 (if decide (low <= v <= high) then alert_count s else alert_count s + 1))
     (KSt s w [] []).
Proof.
  change (temp_ioctl TEMP_SET_HIGH ah) with (set_int (W := W) ah
    (fun v s => TempSensor (current_temp s) v (low_threshold s) (alert_count s))).
  change (temp_ioctl TEMP_SET_LOW al) with (set_int (W := W) al
    (fun v s => TempSensor (current_temp s) (high_threshold s) v (alert_count s))).
  change (temp_ioctl TEMP_GET_ALERTS aout) with (get_int (W := W) aout alert_count).
  apply wp_bind. eapply wp_mono; [apply set_int_spec|].
  intros r1 [s1 w1 h1 l1] (Hh & Hl & Hm1 & Hr1). simpl in *. subst h1 l1.
  apply wp_bind. eapply wp_mono; [apply set_int_spec|].
  intros r2 [s2 w2 h2 l2] (Hh & Hl & Hm2 & Hr2). simpl in *. subst h2 l2.
  apply wp_bind. eapply wp_mono; [apply temp_write_spec|].
  intros r3 [s3 w3 h3 l3] (Hh & Hl & Hm3 & Hr3). simpl in *. subst h3 l3.
  apply wp_bind. eapply wp_mono; [apply get_int_spec|].
  intros r4 [s4 w4 h4 l4] (Hh & Hl & Hs4 & Hr4). simpl in *. apply wp_ret. simpl.
  intros [= -> -> -> ->]. unfold EFAULT in *.
  destruct Hr1 as [[? _]|[_ ->]]; [lia|]. destruct Hr2 as [[? _]|[_ ->]]; [lia|].
  destruct Hr3 as [[? _]|[_ ->]]; [lia|]. destruct Hr4 as [?|[_ ->]]; [lia|].
  subst. simpl. rewrite (user_int_mem w2 w), (user_int_mem w1 w) by (by rewrite ?Hm2, ?Hm1).
  split_and!; [done..|]. case_decide; [done|]. by apply swrap_idem.
Qed.
End Props.

(** The values of temp_user.c (30, 20, 32), and room for the answer. *)
Definition session_user : sim :=
  sim_at 100 (int_bytes 30 ++ int_bytes 20 ++ int_bytes 32 ++ replicate 4 NUL).

Lemma alert_counted_witness :
  wp (r1 ← temp_ioctl TEMP_SET_HIGH 100; r2 ← temp_ioctl TEMP_SET_LOW 104;
      r3 ← temp_write 108 4 0; r4 ← temp_ioctl TEMP_GET_ALERTS 112; mret (r1, r2, r3, r4))
     (fun r σ => r = (0, 0, 4, 0) -> user_int (world σ) 112 = 1)
     (KSt (TempSensor 25 30 20 0) session_user [] []).
Proof.
  eapply wp_mono; [apply (alert_counted 100 104 108 112 (TempSensor 25 30 20 0) session_user)|].
  intros r σ Hr E. destruct (Hr E) as (_ & _ & ->). vm_compute. reflexivity.
Defined.
End Atomic.

(** ** 001_temp_log/driver.c and helper.c

    The text of [device_read] lacks a closing parenthesis (line 30); the model
    is of the statement with the parenthesis added. *)
Module Log.

Definition THRESHOLD_CHECK : Z := _IOWR 97 17 sizeof_int.

Definition th_high : Z := 34.
Definition th_low : Z := 51.
Definition th_with_limit : Z := 68.

(** [sensor] is the [temp] of helper.c; the rest is driver.c's. *)
Record temp_log := TempLog {
  sensor : Z;
  temp : Z;
  threshold_high : Z;
  threshold_low : Z;
}.

(** The module parameters before any is given. *)
Definition temp_log0 : temp_log := TempLog 20 0 0 0.

Section Handlers.
Context {W : Type} `{UserAccess W}.

Definition get_temp_val : M W temp_log Z := s ← get; mret (sensor s).

Definition device_read (usr_buf len off : Z) : M W temp_log Z :=
  v ← get_temp_val;
  modify (fun s => TempLog (sensor s) v (threshold_high s) (threshold_low s));;
  s ← get;
  r ← copy_to_user usr_buf (int_bytes (temp s));
  if negb (r =? 0) then mret (- EFAULT) else mret 1.

Definition device_write (usr_buf len off : Z) : M W temp_log Z := mret 0.

Definition device_open : M W temp_log Z := mret 0.
Definition device_release : M W temp_log Z := mret 0.

(** Each [else] belongs to the [if] of the copy in front of it. *)
Definition device_ioctl (cmd arg : Z) : M W temp_log Z :=
  if cmd =? THRESHOLD_CHECK then
    s ← get;
    if threshold_high s <? temp s then
      r ← copy_to_user arg (int_bytes th_high);
      if negb (r =? 0) then mret (- EFAULT)
      else if temp s <? threshold_low s then
        r ← copy_to_user arg (int_bytes th_low);
        if negb (r =? 0) then mret (- EFAULT)
        else
          r ← copy_to_user arg (int_bytes th_with_limit);
          if negb (r =? 0) then mret (- EFAULT) else mret 0
      else mret 0
    else mret 0
  else mret 0.
End Handlers.

Section Module_.
Context {W : Type} `{Grants W}.

(** helper.c has nothing to set up or to give back. *)
Definition helper_init : M W temp_log Z := mret 0.
Definition helper_exit : M W temp_log unit := mret tt.

Definition temp_init : M W temp_log Z :=
  cl ← class_create;
  rc ← alloc_chrdev_region;
  if rc =? 0 then cdev_add 0;; device_create_in cl 0;; get_temp_val;; mret 0
  else mret 0.

Definition temp_exit : M W temp_log unit :=
  device_destroy 0;; class_destroy;; cdev_del 0;; unregister_chrdev_region.
End Module_.

Section Props.
Context {W : Type} `{UserAccessOk W}.

(** The threshold check answers only for a temperature above the upper
    threshold. For every other temperature, below the lower threshold or
    within the limits, it reports success and leaves the user's variable as
    it was. With ordered thresholds a successful answer is always "high". *)
Theorem threshold_check_answers (arg : Z) (s : temp_log) (w : W)
    (Ho : threshold_low s <= threshold_high s) :
  wp (device_ioctl THRESHOLD_CHECK arg)
     (fun r σ =>
        drv σ = s /\ held σ = [] /\
        if decide (temp s <= threshold_high s) then r = 0 /\ world σ = w
        else r = - EFAULT \/ r = 0 /\ user_int (world σ) arg = th_high)
     (KSt s w [] []).
Proof.
  unfold device_ioctl. rewrite Z.eqb_refl. wp_step; wp_step.
  destruct (Z.ltb_spec (threshold_high s) (temp s)).
  2:{ wp_auto. by rewrite decide_True. }
  destruct (decide (temp s <= threshold_high s)); [lia|]. wp_step; wp_step.
  destruct (Z.eqb_spec r 0) as [->|]; simpl negb; cbv iota; [|wp_auto; auto].
  rewrite (proj2 (Z.ltb_ge _ _)) by lia. wp_auto. split_and!; try done. right. split; [done|].
  apply ctu_full in Hctu. unfold user_int. by rewrite Hctu, uread_uwrite_n.
Qed.
End Props.

(** A reading of 15 with limits 20 and 30: no answer. *)
Lemma threshold_check_answers_witness :
  wp (device_ioctl THRESHOLD_CHECK 100) (fun r σ => r = 0 /\ world σ = sim_at 100 (int_bytes 0))
     (KSt (TempLog 15 15 30 20) (sim_at 100 (int_bytes 0)) [] []).
Proof.
  eapply wp_mono.
  - apply (threshold_check_answers 100 (TempLog 15 15 30 20) (sim_at 100 (int_bytes 0))).
    simpl. lia.
  - intros r σ (_ & _ & Hr). exact Hr.
Defined.
End Log.
