(* ===== verification/Light.v ===== *)
(** * 005_atomic_light: the light device (light_kernel.c)

    Three atomics and a packed structure of three bytes [lightStatus]
    exchanged with the user: a [_Bool] and two [uint8_t]. *)

From S2P Require Import Prelude Kernel Wp Sim.

Definition LED_ON : Z := _IO 65 0.
Definition LED_OFF : Z := _IO 66 1.
Definition LED_SET_BRIGHTNESS : Z := _IOW 67 2 sizeof_int.
Definition LED_GET_STATE : Z := _IOR 68 3 sizeof_int.
Definition LED_GET_BRIGHTNESS : Z := _IOR 69 4 sizeof_int.

(** sizeof(lightStatus) *)
Definition sizeof_status : Z := 3.

Record light := Light { g_state : Z; g_brightness : Z; g_temperature : Z }.

Definition light0 : light := Light 0 0 25.

(** The value of a [_Bool] object: a byte that is neither 0 nor 1 is not one. *)
Definition bool_val (b : byte) : option Z :=
  if byte_val b <=? 1 then Some (byte_val b) else None.

Section Light.
Context {W : Type} `{UserAccess W}.

(** Conversion to [_Bool] is comparison with 0, to [uint8_t] is modulo 256. *)
Definition light_read (user_buffer length offset : Z) : M W light Z :=
  s ← get;
  let lRead := [if g_state s =? 0 then Byte.x00 else Byte.x01;
                byte_of_Z (g_brightness s); byte_of_Z (g_temperature s)] in
  r ← copy_to_user user_buffer lRead;
  if negb (r =? 0) then mret (- EFAULT) else mret sizeof_status.

Definition light_write (user_buffer length offset : Z) : M W light Z :=
  '(r, bs) ← copy_from_user user_buffer sizeof_status;
  if negb (r =? 0) then mret (- EFAULT)
  else
    b0 ← value OutOfBounds (zget bs 0);
    state ← value InvalidBool (bool_val b0);
    brightness ← value OutOfBounds (zget bs 1);
    temperature ← value OutOfBounds (zget bs 2);
    modify (fun s => Light state (g_brightness s) (g_temperature s));;
    modify (fun s => Light (g_state s) (byte_val brightness) (g_temperature s));;
    modify (fun s => Light (g_state s) (g_brightness s) (byte_val temperature));;
    mret sizeof_status.

Definition light_open : M W light Z := mret 0.
Definition light_release : M W light Z := mret 0.

Definition light_ioctl (cmd arg : Z) : M W light Z :=
  if cmd =? LED_ON then
    modify (fun s => Light 1 (g_brightness s) (g_temperature s));; mret 0
  else if cmd =? LED_OFF then
    modify (fun s => Light 0 (g_brightness s) (g_temperature s));; mret 0
  else if cmd =? LED_SET_BRIGHTNESS then
    '(r, bs) ← copy_from_user arg sizeof_int;
    if negb (r =? 0) then mret (- EFAULT)
    else modify (fun s => Light (g_state s) (bytes_int bs) (g_temperature s));; mret 0
  else if cmd =? LED_GET_STATE then
    s ← get;
    r ← copy_to_user arg (int_bytes (g_state s));
    if negb (r =? 0) then mret (- EFAULT) else mret 0
  else if cmd =? LED_GET_BRIGHTNESS then
    s ← get;
    r ← copy_to_user arg (int_bytes (g_brightness s));
    if negb (r =? 0) then mret (- EFAULT) else mret 0
  else mret (- EINVAL).
End Light.

(** No result of a registration is looked at. *)
Definition light_driver_init {W} `{Grants W} : M W light Z :=
  alloc_chrdev_region;;
  cdev_add 0;;
  light_class ← class_create;
  device_create_in light_class 0;;
  mret 0.

Definition light_driver_exit {W D} : M W D unit :=
  device_destroy 0;; class_destroy;; cdev_del 0;; unregister_chrdev_region.

(** ** Properties *)

Section Props.
Context {W : Type} `{UserAccessOk W}.
Implicit Types (s : light) (w : W) (h : list lock) (l : list resource).

Lemma three_bytes (f : Z -> byte) a : uread f a 3 = [f a; f (a + 1); f (a + 2)].
Proof. unfold uread. simpl. by rewrite Z.add_0_r. Qed.

Lemma light_write_spec buf len off s w h l :
  byte_val (umem w buf) <= 1 ->
  wp (light_write buf len off)
     (fun r σ => held σ = h /\ ledger σ = l /\ umem (world σ) ≡ₘ umem w /\
        (r = - EFAULT /\ drv σ = s \/
         r = 3 /\ drv σ = Light (byte_val (umem w buf)) (byte_val (umem w (buf + 1)))
                                (byte_val (umem w (buf + 2)))))
     (KSt s w h l).
Proof.
  intros Hb. unfold light_write. wp_step; wp_step.
  destruct (Z.eqb_spec r 0) as [->|]; simpl negb; cbv iota.
  2:{ wp_auto. apply cfu_mem in Hcfu; [|done]. split_and!; auto. }
  apply cfu_full in Hcfu as [-> Hm]; [|done]. unfold sizeof_status. rewrite three_bytes.
  unfold zget, bool_val. simpl. wp_auto. rewrite (proj2 (Z.leb_le _ _)) by done.
  wp_auto. split_and!; auto.
Qed.

Lemma light_read_spec buf len off s w h l :
  wp (light_read buf len off)
     (fun r σ => held σ = h /\ ledger σ = l /\ drv σ = s /\
        (r = - EFAULT \/
         r = 3 /\ uread (umem (world σ)) buf 3 =
           [if g_state s =? 0 then Byte.x00 else Byte.x01;
            byte_of_Z (g_brightness s); byte_of_Z (g_temperature s)]))
     (KSt s w h l).
Proof.
  unfold light_read. wp_step; wp_step; wp_step. wp_step. wp_step; wp_auto; split_and!; auto.
  right. split; [done|]. subst r. apply ctu_full in Hctu.
  by rewrite Hctu, uread_uwrite_n.
Qed.

(** The three bytes of a status that was written are the three bytes a
    later read delivers, as long as the first one is a [_Bool] (0 or 1). *)
Theorem light_write_read (src dst len1 len2 : Z) (s : light) (w : W)
    (Hb : byte_val (umem w src) <= 1) :
  wp (r1 ← light_write src len1 0; r2 ← light_read dst len2 0; mret (r1, r2))
     (fun r σ => held σ = [] /\
        (r = (3, 3) -> uread (umem (world σ)) dst 3 = uread (umem w) src 3))
     (KSt s w [] []).
Proof.
  apply wp_bind. eapply wp_mono; [by apply light_write_spec|].
  intros r1 [s1 w1 h1 l1] (Hh & Hl & Hm & Hr1). simpl in *. subst h1 l1.
  apply wp_bind. eapply wp_mono; [apply light_read_spec|].
  intros r2 [s2 w2 h2 l2] (Hh & Hl & Hs & Hr2). simpl in *. apply wp_ret. simpl.
  split; [done|]. intros [= -> ->]. unfold EFAULT in *.
  destruct Hr1 as [[? _]|[_ ->]]; [lia|]. destruct Hr2 as [?|[_ ->]]; [lia|].
  rewrite three_bytes. simpl. rewrite !byte_of_val. f_equal.
  pose proof (byte_val_range (umem w src)).
  rewrite <- (byte_of_val (umem w src)).
  destruct (Z.eqb_spec (byte_val (umem w src)) 0) as [->|]; [done|].
  by replace (byte_val (umem w src)) with 1 by lia.
Qed.

(** The brightness command accepts any [int] and keeps it whole; the status
    shows its low eight bits only. *)
Lemma brightness_truncated (arg buf len : Z) (s : light) (w : W) :
  wp (r1 ← light_ioctl LED_SET_BRIGHTNESS arg; r2 ← light_read buf len 0; mret (r1, r2))
     (fun r σ => r = (0, 3) ->
        g_brightness (drv σ) = user_int w arg /\
        byte_val (umem (world σ) (buf + 1)) = user_int w arg mod 256)
     (KSt s w [] []).
Proof.
  apply wp_bind. change (light_ioctl LED_SET_BRIGHTNESS arg) with
    ('(r, bs) ← copy_from_user arg sizeof_int;
     if negb (r =? 0) then mret (- EFAULT)
     else modify (fun s => Light (g_state s) (bytes_int bs) (g_temperature s));; mret 0
     : M W light Z).
  wp_step; wp_step. destruct (Z.eqb_spec r 0) as [->|]; simpl negb; cbv iota.
  2:{ wp_step. apply wp_bind. eapply wp_mono; [apply light_read_spec|].
      intros r2 σ _. apply wp_ret. by intros [=]. }
  apply cfu_full in Hcfu as [-> Hm]; [|done]. wp_step; wp_step; wp_step.
  apply wp_bind. eapply wp_mono; [apply light_read_spec|].
  intros r2 σ (_ & _ & Hs & Hr2). apply wp_ret. intros [= ->]. rewrite Hs. split; [done|].
  unfold EFAULT in *. destruct Hr2 as [?|[_ Hr2]]; [lia|]. rewrite three_bytes in Hr2.
  injection Hr2 as _ -> _. by rewrite byte_val_of.
Qed.
End Props.

(** The status of light_user.c: on, brightness 50, temperature 25. *)
Definition light_user : sim := sim_at 100 [Byte.x01; Byte.x32; Byte.x19; NUL; NUL; NUL].

Lemma light_write_read_witness :
  wp (r1 ← light_write 100 3 0; r2 ← light_read 103 3 0; mret (r1, r2))
     (fun r σ => r = (3, 3) -> uread (umem (world σ)) 103 3 = [Byte.x01; Byte.x32; Byte.x19])
     (KSt light0 light_user [] []).
Proof.
  eapply wp_mono.
  - apply (light_write_read 100 103 3 3 light0 light_user). vm_compute. discriminate.
  - intros r σ [_ Hr] E. rewrite (Hr E). vm_compute. reflexivity.
Defined.
