(* ===== verification/Atomics.v ===== *)
(** * Overlapping calls of the drivers that use atomics: 004 and 005

    temp_kernel.c and light_kernel.c take no lock: every shared variable is an
    atomic_t. Module [TempCalls] runs any number of overlapping calls of the
    temperature sensor, [LightCalls] of the light device, one atomic access
    after the other. A call starts when its arguments have been copied in and
    ends with the value that it copies out. *)

From S2P Require Import Prelude Kernel Wp Sim Sched Calls Temperature Light.

(** ** 004_temp_sens_atomic/temp_kernel.c *)
Module TempCalls.
Import Temperature.Atomic.

Inductive request := SetHigh (v : Z) | SetLow (v : Z) | GetCurrent | GetAlerts | Write (v : Z).

(** Before the first access; in a write at the two tests and at the
    increment; at the return with the value answered or the result. *)
Inductive loc := Begin | TestHigh | TestLow | Count | Return (v : Z).

Record call := Call { what : request; at_ : loc }.

Definition next (c : call) (s : temp_sensor) : option (call * temp_sensor) :=
  let go l s := Some (Call (what c) l, s) in
  match what c, at_ c with
  | SetHigh v, Begin =>
      go (Return 0) (TempSensor (current_temp s) v (low_threshold s) (alert_count s))
  | SetLow v, Begin =>
      go (Return 0) (TempSensor (current_temp s) (high_threshold s) v (alert_count s))
  | GetCurrent, Begin => go (Return (current_temp s)) s
  | GetAlerts, Begin => go (Return (alert_count s)) s
  | Write v, Begin =>
      go TestHigh (TempSensor v (high_threshold s) (low_threshold s) (alert_count s))
  | Write v, TestHigh => go (if high_threshold s <? v then Count else TestLow) s
  | Write v, TestLow => go (if v <? low_threshold s then Count else Return 4) s
  | Write v, Count =>
      go (Return 4) (TempSensor (current_temp s) (high_threshold s) (low_threshold s)
                                (s32 (alert_count s + 1)))
  | _, _ => None
  end.

Definition start (s : temp_sensor) (rs : list request) : conc :=
  Conc s ((fun r => Call r Begin) <$> rs).

(** A call that runs alone does what the handler does in one piece. *)
Lemma write_alone v s :
  exec (call_step next) (replicate 4 0%nat) (Done (start s [Write v])) =
  Done (Conc (TempSensor v (high_threshold s) (low_threshold s)
               (if decide (low_threshold s <= v <= high_threshold s) then alert_count s
                else s32 (alert_count s + 1))) [Call (Write v) (Return 4)]).
Proof.
  destruct s as [c hi lo n]. unfold exec, start, move, call_step. simpl.
  destruct (Z.ltb_spec hi v); simpl; [by rewrite decide_False by lia|].
  destruct (Z.ltb_spec v lo); simpl; [by rewrite decide_False by lia | by rewrite decide_True by lia].
Qed.

(** ** What the thresholds can be while the calls run *)
Section Limits.
Context (s0 : temp_sensor) (rs : list request).

Definition highs : list Z :=
  high_threshold s0 :: omap (fun r => match r with SetHigh v => Some v | _ => None end) rs.
Definition lows : list Z :=
  low_threshold s0 :: omap (fun r => match r with SetLow v => Some v | _ => None end) rs.

(** Outside whatever the limits are, and outside for some limits. *)
Definition surely (v : Z) : bool := forallb (fun h => h <? v) highs || forallb (fun l => v <? l) lows.
Definition possibly (v : Z) : bool := existsb (fun h => h <? v) highs || existsb (fun l => v <? l) lows.

(** The number of writes of a value with [f]. *)
Definition wrote (f : Z -> bool) (r : request) : Z :=
  match r with Write v => Z.b2z (f v) | _ => 0 end.
Definition writes (f : Z -> bool) : Z := total (wrote f) rs.

(** A write that has returned. *)
Definition done_write (f : Z -> bool) (c : call) : Z :=
  match what c, at_ c with Write v, Return _ => Z.b2z (f v) | _, _ => 0 end.

Definition loc_ok (c : call) : Prop :=
  match what c, at_ c with
  | Write v, TestLow => exists h, h ∈ highs /\ v <= h
  | Write v, Count => possibly v = true
  | _, _ => True
  end.

Record inv (c : conc) : Prop := {
  i_what : what <$> calls c = rs;
  i_high : high_threshold (shared c) ∈ highs;
  i_low : low_threshold (shared c) ∈ lows;
  i_loc : Forall loc_ok (calls c);
  i_count : exists k, total (done_write surely) (calls c) <= k <= total (done_write possibly) (calls c) /\
                      alert_count (shared c) = s32 (alert_count s0 + k);
}.

Lemma possibly_high h v : h ∈ highs -> h < v -> possibly v = true.
Proof.
  intros Hh Hv. unfold possibly. apply orb_true_iff. left. apply existsb_exists. exists h.
  split; [by apply list_elem_of_In | lia].
Qed.

Lemma possibly_low l v : l ∈ lows -> v < l -> possibly v = true.
Proof.
  intros Hl Hv. unfold possibly. apply orb_true_iff. right. apply existsb_exists. exists l.
  split; [by apply list_elem_of_In | lia].
Qed.

Lemma not_surely h l v : h ∈ highs -> v <= h -> l ∈ lows -> l <= v -> surely v = false.
Proof.
  intros Hh Hvh Hl Hvl. unfold surely. apply orb_false_iff. split; apply not_true_iff_false.
  - rewrite forallb_forall. intros H. apply list_elem_of_In, H in Hh. lia.
  - rewrite forallb_forall. intros H. apply list_elem_of_In, H in Hl. lia.
Qed.

Lemma high_mem i v : rs !! i = Some (SetHigh v) -> v ∈ highs.
Proof.
  intros Hi. apply list_elem_of_further, list_elem_of_omap. exists (SetHigh v).
  split; [by eapply list_elem_of_lookup_2 | done].
Qed.

Lemma low_mem i v : rs !! i = Some (SetLow v) -> v ∈ lows.
Proof.
  intros Hi. apply list_elem_of_further, list_elem_of_omap. exists (SetLow v).
  split; [by eapply list_elem_of_lookup_2 | done].
Qed.

(** An access that counts [d] alerts keeps the invariant. *)
Lemma inv_access s ls i c l s' d :
  inv (Conc s ls) -> ls !! i = Some c -> loc_ok (Call (what c) l) ->
  high_threshold s' ∈ highs -> low_threshold s' ∈ lows ->
  alert_count s' = (if d =? 0 then alert_count s else s32 (alert_count s + d)) ->
  done_write surely (Call (what c) l) - done_write surely c <= d <=
    done_write possibly (Call (what c) l) - done_write possibly c ->
  inv (Conc s' (<[i := Call (what c) l]> ls)).
Proof.
  intros [Hw Hh Hl Hloc (k & Hk & Ha)] Hi Hlc Hh' Hl' Ha' Hd. simpl in *. split; simpl.
  - by eapply kept_insert.
  - done.
  - done.
  - by apply Forall_insert.
  - exists (k + d). rewrite !(total_insert _ _ _ _ _ Hi). split; [lia|].
    rewrite Ha'. destruct (Z.eqb_spec d 0) as [->|_]; [by rewrite Z.add_0_r|].
    by rewrite Ha, swrap_add_l, Z.add_assoc.
Qed.

(** Whatever access comes next, it keeps the invariant. *)
Lemma temp_inv_next s ls i c c' s' :
  inv (Conc s ls) -> ls !! i = Some c -> next c s = Some (c', s') -> inv (Conc s' (<[i := c']> ls)).
Proof.
  intros Hinv Hi Hn. pose proof Hinv as [Hw Hh Hl Hloc _]. simpl in *.
  assert (Hr : rs !! i = Some (what c)) by (by rewrite <- Hw, list_lookup_fmap, Hi).
  pose proof (Forall_lookup_1 _ _ _ _ Hloc Hi) as Hc.
  assert (Hpos : forall v, 0 <= Z.b2z (possibly v)) by (intros v; destruct (possibly v); simpl; lia).
  destruct c as [r l]. unfold next in Hn. simpl in *.
  destruct r as [v|v| | |v], l; try done; injection Hn as <- <-.
  1: apply (inv_access _ _ _ _ _ _ 0 Hinv Hi); unfold done_write; simpl; try done; by apply (high_mem i).
  1: apply (inv_access _ _ _ _ _ _ 0 Hinv Hi); unfold done_write; simpl; try done; by apply (low_mem i).
  1-3: by apply (inv_access _ _ _ _ _ _ 0 Hinv Hi); unfold done_write.
  - apply (inv_access _ _ _ _ _ _ 0 Hinv Hi); try done; unfold loc_ok, done_write; simpl;
      destruct (Z.ltb_spec (high_threshold s) v); try done; [by eapply possibly_high | eauto].
  - destruct Hc as (h & Hhm & Hv). apply (inv_access _ _ _ _ _ _ 0 Hinv Hi); try done;
      unfold loc_ok, done_write; simpl; destruct (Z.ltb_spec v (low_threshold s)); try done;
      [by eapply possibly_low|]. specialize (Hpos v).
    rewrite (not_surely h (low_threshold s)) by done. simpl. lia.
  - apply (inv_access _ _ _ _ _ _ 1 Hinv Hi); try done. unfold done_write, loc_ok in *. simpl in *.
    rewrite Hc. destruct (surely v); simpl; lia.
Qed.

Lemma inv_start : is_int (alert_count s0) -> inv (start s0 rs).
Proof.
  intros Ha. unfold start. split; simpl.
  - rewrite <- list_fmap_compose. apply list_fmap_id.
  - apply list_elem_of_here.
  - apply list_elem_of_here.
  - apply Forall_forall. intros c (r & -> & _)%list_elem_of_fmap. by destruct r.
  - exists 0. rewrite !(total_const _ 0); [split; [lia|]; rewrite Z.add_0_r; symmetry; by apply s32_small|..].
    all: intros c (r & -> & _)%list_elem_of_fmap; unfold done_write; simpl; by destruct r.
Qed.

(** When every call has returned, the writes among the calls have. *)
Lemma done_writes f c :
  what <$> calls c = rs -> total (done_write f) (calls c) <= writes f /\
    (returned next c -> total (done_write f) (calls c) = writes f).
Proof.
  unfold writes. intros <-. unfold returned. induction (calls c) as [|x ls [IH1 IH2]]; [done|].
  rewrite fmap_cons, !total_cons. assert (done_write f x <= wrote f (what x)).
  { unfold done_write, wrote. destruct x as [[] []]; simpl; try lia; by destruct (f v). }
  split; [lia|]. intros [Hx Hls]%Forall_cons. rewrite (IH2 Hls). f_equal.
  specialize (Hx s0). unfold done_write, wrote. destruct x as [[] []]; done.
Qed.

(** Without changes both are the comparison with the two thresholds. *)
Lemma limits_fixed v :
  (forall v, ~ (SetHigh v ∈ rs) /\ ~ (SetLow v ∈ rs)) ->
  let out := (high_threshold s0 <? v) || (v <? low_threshold s0) in
  surely v = out /\ possibly v = out.
Proof.
  intros Hno. assert (Hh : highs = [high_threshold s0]).
  { unfold highs. f_equal. apply elem_of_nil_inv. intros x ([] & Hx & [=])%list_elem_of_omap.
    by destruct (Hno v0). }
  assert (Hl : lows = [low_threshold s0]).
  { unfold lows. f_equal. apply elem_of_nil_inv. intros x ([] & Hx & [=])%list_elem_of_omap.
    by destruct (Hno v0). }
  unfold surely, possibly. rewrite Hh, Hl. simpl. by rewrite !andb_true_r, !orb_false_r.
Qed.
End Limits.

(** C32. In every interleaving of any number of overlapping calls of the
    sensor, with the thresholds being changed in between, the number of alerts
    grows by one for each write of a value outside all the thresholds that
    ever applied, by none for a value that was always within them, and at most
    by one for any other write; so while no threshold is changed, the count is
    exact. No increment is lost (the count is kept in 32 bits). *)
Theorem alerts_between (s0 : temp_sensor) (rs : list request) (ts : list nat)
    (Ha : is_int (alert_count s0)) :
  exists c k, exec (call_step next) ts (Done (start s0 rs)) = Done c /\
    alert_count (shared c) = s32 (alert_count s0 + k) /\
    0 <= k <= writes rs (possibly s0 rs) /\
    (returned next c -> writes rs (surely s0 rs) <= k) /\
    ((forall v, ~ (SetHigh v ∈ rs) /\ ~ (SetLow v ∈ rs)) -> returned next c ->
       k = writes rs (fun v => (high_threshold s0 <? v) || (v <? low_threshold s0))).
Proof.
  destruct (calls_inv next (inv s0 rs) ts (start s0 rs)) as (c & Hc & Hinv).
  - intros. by eapply temp_inv_next.
  - by apply inv_start.
  - destruct Hinv as [Hw _ _ _ (k & Hk & Hcount)]. exists c, k.
    destruct (done_writes s0 rs (surely s0 rs) c Hw) as [_ Hall].
    destruct (done_writes s0 rs (possibly s0 rs) c Hw) as [Hle Hall'].
    assert (0 <= total (done_write (surely s0 rs)) (calls c)).
    { apply total_nonneg. intros x. unfold done_write.
      destruct (what x), (at_ x); try done. by destruct (surely s0 rs v). }
    split_and!; [done | done | lia | lia | intros Hr; rewrite <- Hall by done; lia |].
    intros Hno Hr. specialize (Hall Hr). specialize (Hall' Hr).
    assert (Heq : forall f, (forall v, f v = (high_threshold s0 <? v) || (v <? low_threshold s0)) ->
              writes rs f = writes rs (fun v => (high_threshold s0 <? v) || (v <? low_threshold s0))).
    { intros f Hf. apply total_ext. intros [| | | |v]; simpl; by rewrite ?Hf. }
    rewrite (Heq (surely s0 rs)) in Hall by (intros v; by apply limits_fixed).
    rewrite (Heq (possibly s0 rs)) in Hall' by (intros v; by apply limits_fixed). lia.
Qed.

(** The accesses a call has left. *)
Definition left (c : call) : nat :=
  match what c, at_ c with
  | Write _, Begin => 4
  | Write _, TestHigh => 3
  | Write _, TestLow => 2
  | Write _, Count => 1
  | _, Begin => 1
  | _, _ => 0
  end.

Lemma next_left c s c' s' : next c s = Some (c', s') -> (left c' < left c)%nat.
Proof.
  destruct c as [[] []]; unfold next; simpl; try done; intros E; injection E as <- _;
    unfold left; simpl; try destruct (_ <? _); simpl; lia.
Qed.

Lemma next_total c s : (0 < left c)%nat -> next c s <> None.
Proof. destruct c as [[] []]; unfold left; simpl; (lia || done). Qed.

(** Handlers without a lock return whatever the others do. *)
Lemma temp_calls_return (s0 : temp_sensor) (rs : list request) (sched : nat -> nat) :
  fair_among (fun i => (i < length rs)%nat) sched ->
  exists n c, runs (call_step next) sched n (Done (start s0 rs)) = Done c /\ returned next c.
Proof.
  intros Hf. destruct (calls_return next left next_left next_total sched (start s0 rs)) as [n Hn].
  { simpl. by rewrite length_fmap. }
  destruct (runs _ sched n _) as [c|] eqn:E; [|done]. exists n, c. split; [done|].
  unfold returned. revert Hn. generalize (calls c). intros ls. clear.
  induction ls as [|x ls IH]; [by constructor|].
  change (work left (x :: ls)) with (left x + work left ls)%nat. intros Hn.
  constructor; [|apply IH; lia]. intros s.
  destruct (next x s) as [[x' s']|] eqn:E; [|done]. apply next_left in E. lia.
Qed.

Definition limits0 : temp_sensor := TempSensor 25 30 20 0.

Lemma alerts_between_witness :
  exists c k, exec (call_step next) [0; 1; 0; 1; 0; 1; 0; 1]%nat (Done (start limits0 [Write 32; Write 19])) = Done c /\
    alert_count (shared c) = s32 (0 + k) /\ 0 <= k <= 2.
Proof.
  destruct (alerts_between limits0 [Write 32; Write 19] [0; 1; 0; 1; 0; 1; 0; 1]%nat)
    as (c & k & Hc & Hk & Hle & _).
  - unfold is_int, INT_MIN, INT_MAX. simpl. lia.
  - exists c, k. split; [exact Hc|]. split; [exact Hk|].
    change (writes [Write 32; Write 19] (possibly limits0 [Write 32; Write 19])) with 2 in Hle. exact Hle.
Defined.

(** The limits go from 20 to 30 up to 40 to 50. A reading of 35 is outside
    both, but its write compares it with the new upper and the old lower one:
    no alert is counted. *)
Example alert_missed :
  exec (call_step next) [2; 0; 2; 2; 1]%nat (Done (start limits0 [SetHigh 50; SetLow 40; Write 35])) =
  Done (Conc (TempSensor 35 50 40 0)
         [Call (SetHigh 50) (Return 0); Call (SetLow 40) (Return 0); Call (Write 35) (Return 4)]).
Proof. reflexivity. Qed.
End TempCalls.

(** ** 005_atomic_light/light_kernel.c *)
Module LightCalls.
Import Light.

Inductive request :=
  | On | Off | SetBrightness (v : Z) | GetState | GetBrightness | ReadStatus
  | WriteStatus (state brightness temperature : Z).

(** Between the accesses of a read or a write of the status; at the return
    with the values answered. *)
Inductive loc := Begin | Wrote1 | Wrote2 | Read1 (s : Z) | Read2 (s b : Z) | Return (answer : list Z).

Record call := Call { what : request; at_ : loc }.

Definition next (c : call) (s : light) : option (call * light) :=
  let go l s := Some (Call (what c) l, s) in
  match what c, at_ c with
  | On, Begin => go (Return []) (Light 1 (g_brightness s) (g_temperature s))
  | Off, Begin => go (Return []) (Light 0 (g_brightness s) (g_temperature s))
  | SetBrightness v, Begin => go (Return []) (Light (g_state s) v (g_temperature s))
  | GetState, Begin => go (Return [g_state s]) s
  | GetBrightness, Begin => go (Return [g_brightness s]) s
  | ReadStatus, Begin => go (Read1 (Z.b2z (negb (g_state s =? 0)))) s
  | ReadStatus, Read1 st => go (Read2 st (uwrap 8 (g_brightness s))) s
  | ReadStatus, Read2 st b => go (Return [st; b; uwrap 8 (g_temperature s)]) s
  | WriteStatus st b t, Begin => go Wrote1 (Light st (g_brightness s) (g_temperature s))
  | WriteStatus st b t, Wrote1 => go Wrote2 (Light (g_state s) b (g_temperature s))
  | WriteStatus st b t, Wrote2 => go (Return []) (Light (g_state s) (g_brightness s) t)
  | _, _ => None
  end.

Definition start (s : light) (rs : list request) : conc :=
  Conc s ((fun r => Call r Begin) <$> rs).

(** Alone, a status written and then read is the status. *)
Lemma write_read_alone s st b t :
  0 <= st <= 1 -> 0 <= b < 256 -> 0 <= t < 256 ->
  exec (call_step next) [0; 0; 0; 1; 1; 1]%nat (Done (start s [WriteStatus st b t; ReadStatus])) =
  Done (Conc (Light st b t)
         [Call (WriteStatus st b t) (Return []); Call ReadStatus (Return [st; b; t])]).
Proof.
  intros Hs Hb Ht. unfold exec, start, move, call_step. simpl.
  rewrite !uwrap_small by (simpl; lia). assert (st = 0 \/ st = 1) as [-> | ->] by lia; done.
Qed.

(** ** Every value read was written *)
Section Values.
Context (s0 : light) (rs : list request).

Definition states : list Z :=
  g_state s0 :: omap (fun r => match r with On => Some 1 | Off => Some 0
                                       | WriteStatus st _ _ => Some st | _ => None end) rs.
Definition brightnesses : list Z :=
  g_brightness s0 :: omap (fun r => match r with SetBrightness v => Some v
                                            | WriteStatus _ b _ => Some b | _ => None end) rs.
Definition temperatures : list Z :=
  g_temperature s0 :: omap (fun r => match r with WriteStatus _ _ t => Some t | _ => None end) rs.

Definition state_read (v : Z) : Prop := exists x, x ∈ states /\ v = Z.b2z (negb (x =? 0)).
Definition byte_read (vs : list Z) (v : Z) : Prop := exists x, x ∈ vs /\ v = uwrap 8 x.

(** What a call has read so far, or answers. *)
Definition reads_ok (c : call) : Prop :=
  match what c, at_ c with
  | GetState, Return [v] => v ∈ states
  | GetBrightness, Return [v] => v ∈ brightnesses
  | ReadStatus, Read1 st => state_read st
  | ReadStatus, Read2 st b => state_read st /\ byte_read brightnesses b
  | ReadStatus, Return [st; b; t] =>
      state_read st /\ byte_read brightnesses b /\ byte_read temperatures t
  | _, _ => True
  end.

Record inv (c : conc) : Prop := {
  i_what : what <$> calls c = rs;
  i_state : g_state (shared c) ∈ states;
  i_brightness : g_brightness (shared c) ∈ brightnesses;
  i_temperature : g_temperature (shared c) ∈ temperatures;
  i_reads : Forall reads_ok (calls c);
}.

Lemma in_omap {B} (f : request -> option B) i r (v x : B) :
  rs !! i = Some r -> f r = Some v -> v ∈ x :: omap f rs.
Proof.
  intros Hi Hf. apply list_elem_of_further, list_elem_of_omap. exists r.
  split; [by eapply list_elem_of_lookup_2 | done].
Qed.

Lemma light_inv_next s ls i c c' s' :
  inv (Conc s ls) -> ls !! i = Some c -> next c s = Some (c', s') -> inv (Conc s' (<[i := c']> ls)).
Proof.
  intros [Hw Hs Hb Ht Hr] Hi Hn. simpl in *.
  assert (Hri : rs !! i = Some (what c)) by (by rewrite <- Hw, list_lookup_fmap, Hi).
  pose proof (Forall_lookup_1 _ _ _ _ Hr Hi) as Hc.
  assert (Hkeep : exists l, c' = Call (what c) l).
  { destruct c as [[] []]; unfold next in Hn; simpl in *; try done; injection Hn as <- _; eauto. }
  split; simpl.
  - destruct Hkeep as [l ->]. rewrite list_fmap_insert. simpl. rewrite Hw. by apply list_insert_id.
  - destruct c as [[] []]; unfold next in Hn; simpl in *; try done; injection Hn as _ <-; try done;
      simpl; by eapply in_omap.
  - destruct c as [[] []]; unfold next in Hn; simpl in *; try done; injection Hn as _ <-; try done;
      simpl; by eapply in_omap.
  - destruct c as [[] []]; unfold next in Hn; simpl in *; try done; injection Hn as _ <-; try done;
      simpl; by eapply in_omap.
  - apply Forall_insert; [done|].
    destruct c as [[] []]; unfold next in Hn; simpl in *; try done; injection Hn as <- _;
      unfold reads_ok in *; simpl in *; try done.
    + by exists (g_state s).
    + split; [done|]. by exists (g_brightness s).
    + destruct Hc. split_and!; [done..|]. by exists (g_temperature s).
Qed.

(** In every interleaving of overlapping calls of the light device, each value
    that a call delivers was the initial one or was written by a call, and so
    was each value that is left. *)
Lemma light_reads_written (ts : list nat) :
  exists c, exec (call_step next) ts (Done (start s0 rs)) = Done c /\
    g_state (shared c) ∈ states /\ g_brightness (shared c) ∈ brightnesses /\
    g_temperature (shared c) ∈ temperatures /\ Forall reads_ok (calls c).
Proof.
  destruct (calls_inv next inv ts (start s0 rs)) as (c & Hc & [_ Hs Hb Ht Hr]).
  - intros. by eapply light_inv_next.
  - unfold start. split; simpl; try apply list_elem_of_here.
    + rewrite <- list_fmap_compose. apply list_fmap_id.
    + apply Forall_forall. intros c (r & -> & _)%list_elem_of_fmap. by destruct r.
  - by exists c.
Qed.
End Values.

(** A status read while another one is written can be neither the old one
    (0, 0, 25) nor the new one (1, 50, 30). *)
Example status_torn :
  exec (call_step next) [0; 1; 1; 0; 1; 0]%nat (Done (start light0 [WriteStatus 1 50 30; ReadStatus])) =
  Done (Conc (Light 1 50 30)
         [Call (WriteStatus 1 50 30) (Return []); Call ReadStatus (Return [1; 0; 25])]).
Proof. reflexivity. Qed.
End LightCalls.
