(* ===== verification/Irq.v ===== *)
(** * 021_interrupt_handler: counters fed by an interrupt handler, a tasklet
    and a work item (irq_handler_kernel.c)

    A scheduled tasklet or work item is a pending bit of the kernel: setting
    it twice runs the function once. [run_event] is one thing that happens to
    the module, from user space, from the hardware or from the kernel's
    deferred-work machinery; a history is a list of them. *)

From S2P Require Import Prelude Kernel Wp Sim.

(** The last two fields are the kernel's pending bits of [demo_tasklet] and
    [demo_work]. *)
Record irq_stats := IrqStats {
  interrupt_count : Z;
  tasklet_count : Z;
  work_queue_count : Z;
  irq_number : Z;
  tasklet_sched : bool;
  work_pending : bool;
}.

Definition stats0 : irq_stats := IrqStats 0 0 0 0 false false.

Definition set_counts (i t q : Z) (s : irq_stats) : irq_stats :=
  IrqStats i t q (irq_number s) (tasklet_sched s) (work_pending s).

Section Irq.
Context {W : Type} `{UserAccess W}.

Definition tasklet_schedule : M W irq_stats unit :=
  modify (fun s => IrqStats (interrupt_count s) (tasklet_count s) (work_queue_count s)
                            (irq_number s) true (work_pending s)).
Definition schedule_work : M W irq_stats unit :=
  modify (fun s => IrqStats (interrupt_count s) (tasklet_count s) (work_queue_count s)
                            (irq_number s) (tasklet_sched s) true).

Definition irq_handler : M W irq_stats unit :=
  modify (fun s => set_counts (u64 (interrupt_count s + 1)) (tasklet_count s)
                              (work_queue_count s) s);;
  tasklet_schedule.

Definition tasklet_func : M W irq_stats unit :=
  modify (fun s => set_counts (interrupt_count s) (u64 (tasklet_count s + 1))
                              (work_queue_count s) s).
Definition work_func : M W irq_stats unit :=
  modify (fun s => set_counts (interrupt_count s) (tasklet_count s)
                              (u64 (work_queue_count s + 1)) s).

(** ** Sysfs attributes *)

Definition irq_count_show : M W irq_stats (Z * list byte) :=
  s ← get;
  let out := bytes_of "IRQ Count: " ++ dec (interrupt_count s) ++ [LF] ++
             bytes_of "Tasklet Count: " ++ dec (tasklet_count s) ++ [LF] ++
             bytes_of "Work Queue Count: " ++ dec (work_queue_count s) ++ [LF] in
  mret (zlen out, out).

Definition irq_info_show : M W irq_stats (Z * list byte) :=
  s ← get;
  let out := if 0 <? irq_number s
             then bytes_of "Registered IRQ: " ++ dec (irq_number s) ++ [LF] ++
                  bytes_of "IRQ Handler: irq_handler" ++ [LF]
             else bytes_of "No IRQ registered" ++ [LF] in
  mret (zlen out, out).

Definition trigger_work_store (count : Z) : M W irq_stats Z := schedule_work;; mret count.
Definition trigger_tasklet_store (count : Z) : M W irq_stats Z := tasklet_schedule;; mret count.
Definition reset_count_store (count : Z) : M W irq_stats Z := modify (set_counts 0 0 0);; mret count.

(** ** The character device *)

(** [msg] has 256 bytes, the terminator included. *)
Definition irq_message (s : irq_stats) : list byte :=
  bytes_of "Interrupt Statistics:" ++ [LF] ++
  bytes_of "IRQ Interrupts: " ++ dec (interrupt_count s) ++ [LF] ++
  bytes_of "Tasklet Executions: " ++ dec (tasklet_count s) ++ [LF] ++
  bytes_of "Work Queue Executions: " ++ dec (work_queue_count s) ++ [LF] ++
  bytes_of "Total Events: " ++
  dec (u64 (u64 (interrupt_count s + tasklet_count s) + work_queue_count s)) ++ [LF].

Definition irq_read (buf size offset : Z) : M W irq_stats Z :=
  s ← get;
  let msg := irq_message s in
  if zlen msg + 1 <=? 256 then
    r ← copy_to_user buf msg;
    if negb (r =? 0) then mret (- EFAULT) else mret (zlen msg)
  else oops OutOfBounds.

Definition irq_write (buf size offset : Z) : M W irq_stats Z :=
  '(r, bs) ← copy_from_user buf 1;
  if negb (r =? 0) then mret (- EFAULT)
  else
    command ← value OutOfBounds (zget bs 0);
    (if bool_decide (command = Byte.x54) then tasklet_schedule
     else if bool_decide (command = Byte.x57) then schedule_work
     else if bool_decide (command = Byte.x52) then modify (set_counts 0 0 0)
     else mret tt);;
    mret size.
End Irq.

Section Module_.
Context {W D : Type} `{Grants W}.

Definition irq_init : M W D Z :=
  ret ← alloc_chrdev_region;
  if ret <? 0 then mret ret
  else
    ret ← cdev_add 0;
    if ret <? 0 then unregister_chrdev_region;; mret ret
    else
      irq_class ← class_create;
      if IS_ERR irq_class then
        cdev_del 0;; unregister_chrdev_region;; mret (PTR_ERR irq_class)
      else
        irq_device ← device_create 0;
        if IS_ERR irq_device then
          class_destroy;; cdev_del 0;; unregister_chrdev_region;; mret (PTR_ERR irq_device)
        else
          ret ← sysfs_create_group;
          if negb (ret =? 0) then
            device_destroy 0;; class_destroy;; cdev_del 0;; unregister_chrdev_region;; mret ret
          else mret 0.

Definition irq_exit : M W D unit :=
  sysfs_remove_group;; device_destroy 0;; class_destroy;; cdev_del 0;;
  unregister_chrdev_region.
End Module_.

(** ** Histories *)

(** Interrupts; the tasklet and work triggers of a user; the kernel running
    what is pending; a reset; reading the statistics. *)
Inductive event := Interrupt | TriggerTasklet | TriggerWork | RunTasklet | RunWork | Reset | Show.

(** The kernel clears the pending bit before it calls the function. *)
Definition run_event {W} (e : event) : M W irq_stats unit :=
  match e with
  | Interrupt => irq_handler
  | TriggerTasklet => trigger_tasklet_store 1;; mret tt
  | TriggerWork => trigger_work_store 1;; mret tt
  | RunTasklet =>
      s ← get;
      if tasklet_sched s then
        modify (fun s => IrqStats (interrupt_count s) (tasklet_count s) (work_queue_count s)
                                  (irq_number s) false (work_pending s));;
        tasklet_func
      else mret tt
  | RunWork =>
      s ← get;
      if work_pending s then
        modify (fun s => IrqStats (interrupt_count s) (tasklet_count s) (work_queue_count s)
                                  (irq_number s) (tasklet_sched s) false);;
        work_func
      else mret tt
  | Reset => reset_count_store 1;; mret tt
  | Show => irq_count_show;; mret tt
  end.

Fixpoint run_events {W} (es : list event) : M W irq_stats unit :=
  match es with
  | [] => mret tt
  | e :: es => run_event e;; run_events es
  end.

(** What an event makes of the counters, in any world. *)
Definition next_stats (e : event) (s : irq_stats) : irq_stats :=
  match run_event e (KSt s tt [] []) with Done (_, σ) => drv σ | Oops _ => s end.
Definition after (es : list event) (s : irq_stats) : irq_stats :=
  foldl (fun s e => next_stats e s) s es.

Lemma run_events_after {W} es s (w : W) h l :
  run_events es (KSt s w h l) = Done (tt, KSt (after es s) w h l).
Proof.
  assert (Hone : forall e s, run_event e (KSt s w h l) = Done (tt, KSt (next_stats e s) w h l)).
  { intros e s'. unfold next_stats. destruct e, s' as [? ? ? ? [] []]; reflexivity. }
  revert s. induction es as [|e es IH]; intros s; [done|].
  cbn [run_events]. unfold mbind, M_bind. by rewrite Hone, IH.
Qed.

(** ** Invariant of histories since the last reset *)

Definition wants_tasklet (e : event) : bool :=
  match e with Interrupt | TriggerTasklet => true | _ => false end.
Definition wants_work (e : event) : bool := match e with TriggerWork => true | _ => false end.
Definition is_interrupt (e : event) : bool := match e with Interrupt => true | _ => false end.

Definition number (f : event -> bool) (es : list event) : Z := zlen (filter (fun e => f e = true) es).

(** [i] interrupts, [t] tasklet requests and [q] work requests were made. *)
Record counted (i t q : Z) (s : irq_stats) : Prop := {
  c_int : interrupt_count s = i;
  c_task : 0 <= tasklet_count s /\ tasklet_count s + Z.b2z (tasklet_sched s) <= t /\
           (0 < t -> 0 < tasklet_count s + Z.b2z (tasklet_sched s));
  c_work : 0 <= work_queue_count s /\ work_queue_count s + Z.b2z (work_pending s) <= q /\
           (0 < q -> 0 < work_queue_count s + Z.b2z (work_pending s));
}.

(** Executions so far, with the one that may be pending. *)
Definition tasklet_total (s : irq_stats) : Z := tasklet_count s + Z.b2z (tasklet_sched s).
Definition work_total (s : irq_stats) : Z := work_queue_count s + Z.b2z (work_pending s).

Lemma number_cons f e es : number f (e :: es) = Z.b2z (f e) + number f es.
Proof.
  unfold number, zlen. rewrite filter_cons.
  destruct (f e) eqn:E; case_decide; try congruence; simpl; lia.
Qed.

Lemma number_nonneg f es : 0 <= number f es.
Proof. apply zlen_nonneg. Qed.

Section Histories.
Context {W : Type}.
Implicit Types (s : irq_stats) (w : W) (h : list lock) (l : list resource).

Lemma run_event_counted e i t q s w h l :
  e <> Reset -> counted i t q s -> 0 <= i < 2 ^ 63 -> 0 <= t < 2 ^ 63 -> 0 <= q < 2 ^ 63 ->
  wp (run_event e)
     (fun _ σ => counted (i + Z.b2z (is_interrupt e)) (t + Z.b2z (wants_tasklet e))
                         (q + Z.b2z (wants_work e)) (drv σ) /\
                 world σ = w /\ held σ = h /\ ledger σ = l)
     (KSt s w h l).
Proof.
  intros He [Hi [Ht0 [Ht Ht1]] [Hq0 [Hq Hq1]]] Bi Bt Bq.
  destruct s as [ci ct cq n bt bq]. simpl in *.
  assert (0 <= Z.b2z bt <= 1) by (destruct bt; simpl; lia).
  assert (0 <= Z.b2z bq <= 1) by (destruct bq; simpl; lia).
  destruct e; try done; simpl; unfold irq_handler, trigger_tasklet_store, trigger_work_store,
    tasklet_func, work_func, tasklet_schedule, schedule_work, irq_count_show, set_counts.
  4: destruct bt. 6: destruct bq.
  all: wp_auto; split_and!; try done; split; simpl in *; rewrite ?u64_small by lia;
    try split_and!; try lia.
Qed.

Lemma run_events_counted es i t q s w h l :
  Reset ∉ es -> counted i t q s -> 0 <= i -> 0 <= t -> 0 <= q ->
  i + zlen es < 2 ^ 63 -> t + zlen es < 2 ^ 63 -> q + zlen es < 2 ^ 63 ->
  wp (run_events es)
     (fun _ σ => counted (i + number is_interrupt es) (t + number wants_tasklet es)
                         (q + number wants_work es) (drv σ) /\
                 world σ = w /\ held σ = h /\ ledger σ = l)
     (KSt s w h l).
Proof.
  revert i t q s. induction es as [|e es IH]; intros i t q s Hr Hc Hi Ht Hq Bi Bt Bq.
  { simpl. apply wp_ret. unfold number. simpl. change (zlen []) with 0.
    rewrite !Z.add_0_r. by split_and!. }
  apply not_elem_of_cons in Hr as [He Hr].
  assert (zlen (e :: es) = 1 + zlen es) as Hz by (unfold zlen; simpl; lia).
  pose proof (zlen_nonneg es). rewrite Hz in *.
  cbn [run_events]. apply wp_bind. eapply wp_mono; [apply run_event_counted; [done | done | lia..]|].
  intros [] [s' w' h' l'] (Hc' & E1 & E2 & E3). simpl in Hc', E1, E2, E3. subst w' h' l'.
  assert (Hb : forall b, 0 <= Z.b2z b <= 1) by (intros []; simpl; lia).
  pose proof (Hb (is_interrupt e)). pose proof (Hb (wants_tasklet e)).
  pose proof (Hb (wants_work e)).
  eapply wp_mono; [apply IH; [done | exact Hc' | lia..]|].
  intros [] σ' Hc''. rewrite !number_cons, !Z.add_assoc. exact Hc''.
Qed.
End Histories.

(** ** Properties *)

(** Counters of events so far and the one that is pending do not go back, and
    a request makes one of them pending. *)
Lemma next_stats_up e i t q s :
  e <> Reset -> counted i t q s -> 0 <= t < 2 ^ 63 -> 0 <= q < 2 ^ 63 ->
  let s' := next_stats e s in
  tasklet_total s <= tasklet_total s' /\ (wants_tasklet e = true -> tasklet_count s < tasklet_total s') /\
  work_total s <= work_total s' /\ (wants_work e = true -> work_queue_count s < work_total s').
Proof.
  intros He [_ (Ht0 & Ht & _) (Hq0 & Hq & _)] Bt Bq. unfold tasklet_total, work_total.
  destruct s as [ci ct cq n [] []], e; try done; unfold next_stats; simpl in *;
    rewrite ?u64_small by lia; split_and!; lia || done.
Qed.

Lemma after_counted es :
  Reset ∉ es -> zlen es < 2 ^ 63 ->
  counted (number is_interrupt es) (number wants_tasklet es) (number wants_work es) (after es stats0).
Proof.
  intros Hr Hn. pose proof (zlen_nonneg es).
  assert (H0 : counted 0 0 0 stats0) by (split; [done | |]; split_and!; simpl; lia).
  pose proof (run_events_counted es 0 0 0 stats0 tt [] [] Hr H0) as Hw.
  unfold wp in Hw. rewrite run_events_after in Hw. simpl in Hw. apply Hw; lia.
Qed.

Lemma after_history es1 es2 s : after (es1 ++ es2) s = after es2 (after es1 s).
Proof. apply foldl_app. Qed.

Lemma number_bound f es : 0 <= number f es <= zlen es.
Proof.
  split; [apply number_nonneg|]. unfold number, zlen. pose proof (length_filter (fun e => f e = true) es). lia.
Qed.

(** A step of a history without a reset. *)
Lemma after_up es e :
  Reset ∉ es ++ [e] -> zlen (es ++ [e]) < 2 ^ 63 ->
  let s := after es stats0 in let s' := after (es ++ [e]) stats0 in
  tasklet_total s <= tasklet_total s' /\ (wants_tasklet e = true -> tasklet_count s < tasklet_total s') /\
  work_total s <= work_total s' /\ (wants_work e = true -> work_queue_count s < work_total s').
Proof.
  intros Hr Hn. apply not_elem_of_app in Hr as [Hr He]. rewrite zlen_app in Hn. change (zlen [e]) with 1 in Hn.
  pose proof (number_bound wants_tasklet es). pose proof (number_bound wants_work es).
  cbv zeta. rewrite after_history. simpl. eapply next_stats_up; [| by apply after_counted; [|lia] | lia | lia].
  intros ->. apply He. by left.
Qed.

Lemma after_up_all es1 es2 :
  Reset ∉ es1 ++ es2 -> zlen (es1 ++ es2) < 2 ^ 63 ->
  tasklet_total (after es1 stats0) <= tasklet_total (after (es1 ++ es2) stats0) /\
  work_total (after es1 stats0) <= work_total (after (es1 ++ es2) stats0).
Proof.
  revert es1. induction es2 as [|e es2 IH]; intros es1 Hr Hn; [rewrite app_nil_r; lia|].
  rewrite cons_middle, app_assoc in *. destruct (IH _ Hr Hn) as [H1 H2].
  destruct (after_up es1 e) as (H3 & _ & H4 & _); [..|lia].
  - intros Hin. apply Hr, elem_of_app. by left.
  - rewrite zlen_app in Hn. pose proof (zlen_nonneg es2). lia.
Qed.

(** C29. Along any history without a reset (of fewer than 2^63 events) from
    the loaded state, the interrupt counter is the number of interrupts; the
    tasklet has been executed, counting the execution that may be pending, at
    most as often as it was requested, and no request is lost: wherever the
    history has one, an execution came after it or is pending at the end.
    Several requests may be served by one execution. The same holds of the
    work item. *)
Theorem deferred_work_counts {W} (es : list event) (w : W) (Hr : Reset ∉ es)
    (Hn : zlen es < 2 ^ 63) :
  wp (run_events es)
     (fun _ σ =>
        let s := drv σ in
        interrupt_count s = number is_interrupt es /\
        tasklet_count s + Z.b2z (tasklet_sched s) <= number wants_tasklet es /\
        work_queue_count s + Z.b2z (work_pending s) <= number wants_work es /\
        (forall es1 e es2, es = es1 ++ e :: es2 ->
           (wants_tasklet e = true ->
              tasklet_count (after es1 stats0) < tasklet_count s + Z.b2z (tasklet_sched s)) /\
           (wants_work e = true ->
              work_queue_count (after es1 stats0) < work_queue_count s + Z.b2z (work_pending s))) /\
        held σ = [] /\ ledger σ = [])
     (KSt stats0 w [] []).
Proof.
  unfold wp. rewrite run_events_after. destruct (after_counted es Hr Hn) as [Hi (_ & Ht & _) (_ & Hq & _)].
  split_and!; try done. intros es1 e es2 ->. rewrite cons_middle, app_assoc in *.
  destruct (after_up_all _ _ Hr Hn) as [H1 H2]. destruct (after_up es1 e) as (_ & H3 & _ & H4).
  - intros Hin. apply Hr, elem_of_app. by left.
  - rewrite zlen_app in Hn. pose proof (zlen_nonneg es2). lia.
  - unfold tasklet_total, work_total in *. simpl in *. split; intros Hw; [specialize (H3 Hw) | specialize (H4 Hw)]; lia.
Qed.

(** Counters are [unsigned long]s. *)
Definition stats_ok (s : irq_stats) : Prop :=
  0 <= interrupt_count s < 2 ^ 64 /\ 0 <= tasklet_count s < 2 ^ 64 /\
  0 <= work_queue_count s < 2 ^ 64.

Lemma dec_u64 z : 0 <= z < 2 ^ 64 -> zlen (dec z) <= 20.
Proof. intros Hz. unfold zlen. pose proof (length_dec 20 z ltac:(lia) ltac:(lia)). lia. Qed.

Lemma irq_message_len s : stats_ok s -> zlen (irq_message s) <= 179.
Proof.
  intros (Hi & Ht & Hq).
  pose proof (dec_u64 _ Hi). pose proof (dec_u64 _ Ht). pose proof (dec_u64 _ Hq).
  set (total := u64 (u64 (interrupt_count s + tasklet_count s) + work_queue_count s)).
  assert (Hl : zlen (dec total) <= 20) by (apply dec_u64, uwrap_range; lia).
  unfold irq_message. fold total. rewrite !zlen_app.
  change (zlen [LF]) with 1. change (zlen (bytes_of "Interrupt Statistics:")) with 21.
  change (zlen (bytes_of "IRQ Interrupts: ")) with 16.
  change (zlen (bytes_of "Tasklet Executions: ")) with 20.
  change (zlen (bytes_of "Work Queue Executions: ")) with 23.
  change (zlen (bytes_of "Total Events: ")) with 14. lia.
Qed.

(** Whatever the counters are, the statistics fit the 256-byte buffer with
    room to spare (at most 179 characters), and the read delivers all of them
    at the user's address: the size the caller passed does not limit it. *)
Theorem irq_read_fits {W} `{UserAccessOk W} (buf size offset : Z) (s : irq_stats) (w : W)
    (Hs : stats_ok s) :
  wp (irq_read buf size offset)
     (fun r σ =>
        drv σ = s /\ held σ = [] /\
        (r = - EFAULT \/
         r = zlen (irq_message s) /\ r <= 179 /\
         umem (world σ) ≡ₘ uwrite (umem w) buf (irq_message s)))
     (KSt s w [] []).
Proof.
  unfold irq_read. pose proof (irq_message_len s Hs) as Hm.
  do 2 wp_step. cbv zeta. set (msg := irq_message s) in *. clearbody msg.
  rewrite (proj2 (Z.leb_le _ _)) by lia. wp_auto; split_and!; auto.
  right. split_and!; try done. subst r. by apply ctu_full.
Qed.

Definition irq_history : list event := [Interrupt; Interrupt; RunTasklet; TriggerWork; RunTasklet].

(** Two interrupts before the tasklet runs: one execution serves both. *)
Lemma deferred_work_counts_witness :
  wp (run_events irq_history)
     (fun _ σ => interrupt_count (drv σ) = 2 /\
                 tasklet_count (drv σ) + Z.b2z (tasklet_sched (drv σ)) <= 2)
     (KSt stats0 tt [] []).
Proof.
  eapply wp_mono.
  - apply (deferred_work_counts irq_history tt).
    + unfold irq_history. repeat (apply not_elem_of_cons; split; [discriminate|]).
      apply not_elem_of_nil.
    + reflexivity.
  - intros r σ (H1 & H2 & _). split; [exact H1 | exact H2].
Defined.

Lemma irq_read_fits_witness :
  wp (irq_read 100 10 0) (fun r σ => r <= 179) (KSt stats0 (sim_at 100 (replicate 200 NUL)) [] []).
Proof.
  eapply wp_mono.
  - apply (irq_read_fits 100 10 0 stats0 (sim_at 100 (replicate 200 NUL))).
    unfold stats_ok. simpl. lia.
  - intros r σ (_ & _ & [->|(_ & Hr & _)]); [discriminate | exact Hr].
Defined.

(** Loading registers everything or gives everything back; unloading gives
    everything back. *)
Lemma irq_load_unload {W D} `{GrantsOk W} (d : D) (w : W) :
  wp irq_init
     (fun rc σ => drv σ = d /\ held σ = [] /\
        if rc =? 0 then
          ledger σ = [SysGroup; Device 0; Class_; Cdev 0; Region] /\
          wp irq_exit (fun _ σ' => ledger σ' = [] /\ held σ' = []) σ
        else rc < 0 /\ ledger σ = [])
     (KSt d w [] []).
Proof.
  unfold irq_init, irq_exit. unfold_kernel. wp_auto; use_grants; try lia.
  { do 3 (split; [done|]). by wp_auto. }
  all: destruct (Z.eqb_spec rc 0); [lia|]; split_and!; try done; lia.
Qed.
