(* ===== verification/Apps.v ===== *)
(** * The small user programs of 001, 002, 004 and 005

    key_user.c, temp_user.c, user_app.c and light_user.c, each run against the
    model of its driver; the variables whose address a program hands over are
    parameters. *)

From S2P Require Import Prelude Kernel Wp Sim Queue Keypad Temperature Light Irq User.

(** The value of an [int] just stored. *)
Lemma stored_user_int {W} `{UserMem W} a v (w w' : W) :
  umem w' ≡ₘ uwrite (umem w) a (int_bytes v) -> user_int w' a = s32 v.
Proof.
  intros Hw. unfold user_int. rewrite Hw, uread_uwrite_n by done. apply bytes_int_of.
Qed.

(** ** 002_char_keypad_driver/key_user.c *)
Module KeyApp.

Inductive line := KeypadValue (v : Z) | Cleared | Perror (call : string).

Section App.
Context {W : Type} `{UserAccess W} `{UserMem W} `{UserStore W} `{Grants W}.
(** The addresses of ch and myKey, and the indeterminate [val] of the driver. *)
Context (ch myKey : Z) (junk : byte).

Definition main_ : M W (proc queue line) Z :=
  fd ← open_file "/dev/keypadDev";
  if fd <? 0 then print (Perror "open");; mret (-1)
  else
    store ch [Byte.x61];;
    r ← drive (device_write ch 1 0);
    if r <? 0 then print (Perror "write");; close_file "/dev/keypadDev";; mret 1
    else
      drive (device_read junk myKey 4 0);;
      bs ← load myKey 4;
      print (KeypadValue (bytes_int bs));;
      r ← drive (device_ioctl CLEAR_BUF 0);
      if r <? 0 then print (Perror "ioctl");; mret (-1)
      else
        print Cleared;;
        close_file "/dev/keypadDev";;
        mret 0.
End App.

Section Props.
Context {W : Type} `{UserAccessOk W} `{!UserStore W} `{!UserStoreOk W} `{!Grants W}
        `{!GrantsOk W} `{!GrantsFrame W}.

Lemma head_push x l : head (Spec.push x l).2 = head (l ++ [x]).
Proof.
  unfold Spec.push. destruct l as [|k l]; [done|]. by destruct (zlen (k :: l) =? QUEUE_SIZE).
Qed.

Lemma device_write_spec a n off q (w : W) l :
  queue_ok q ->
  wp (device_write a n off)
     (fun r σ => held σ = [] /\ ledger σ = l /\ queue_ok (drv σ) /\ umem (world σ) ≡ₘ umem w /\
        (r = - EFAULT /\ contents (drv σ) = contents q \/
         r = 1 /\ contents (drv σ) = (Spec.push (umem w a) (contents q)).2))
     (KSt q w [] l).
Proof.
  intros Hq. unfold device_write. wp_step; wp_step.
  destruct (Z.eqb_spec r 0) as [->|]; simpl negb; cbv iota.
  2:{ wp_auto. apply cfu_mem in Hcfu; [|done]. split_and!; auto. }
  apply cfu_full in Hcfu as [-> Hm]; [|done].
  assert (zget (uread (umem w) a 1) 0 = Some (umem w a)) as ->.
  { unfold uread, zget. simpl. by rewrite Z.add_0_r. }
  wp_step. wp_step. wp_step. unfold keypad_inject_event. apply wp_bind.
  eapply wp_mono; [apply enqueue_spec; [done | apply lock_not_in_nil]|].
  intros rc [q' w' h' l'] (_ & Hq' & Hc & Hw & Hh & Hl). simpl in *. subst. wp_auto.
  split_and!; auto.
Qed.

Lemma device_read_spec junk a n off q (w : W) l :
  queue_ok q ->
  wp (device_read junk a n off)
     (fun r σ => held σ = [] /\ ledger σ = l /\ queue_ok (drv σ) /\
        contents (drv σ) = tail (contents q) /\
        (r = - EFAULT /\ umem (world σ) ≡ₘ umem w \/
         r = 1 /\ umem (world σ) ≡ₘ uwrite (umem w) a [default junk (head (contents q))]))
     (KSt q w [] l).
Proof.
  intros Hq. unfold device_read. apply wp_bind.
  eapply wp_mono; [apply keypad_get_event_spec; [done | apply lock_not_in_nil]|].
  intros o [q' w' h' l'] [-> (Hq' & Hc & Hw & Hh & Hl)]. simpl in *. subst. wp_auto.
  - subst. split_and!; auto. right. split; [done|]. by apply ctu_full.
  - split_and!; auto. left. split; [done|]. apply ctu_ok in Hctu as [Hr Hm].
    change (zlen [_]) with 1 in Hr, Hm. replace r with 1 in Hm by lia.
    rewrite Hm. intros x. unfold uwrite. by rewrite decide_False by (unfold zlen; simpl; lia).
Qed.

(** key_user.c queues the letter a, reads one key and clears the queue.
    From any state of the driver it ends with the file closed; unless the open
    or the write fails the queue is empty afterwards, whatever keys were
    waiting. Since the driver delivers one byte and the variable has four,
    the number printed is the oldest key in its low byte and three bytes of
    the uninitialised variable above it. *)
Theorem key_app_session (ch myKey : Z) (junk : byte) (q : queue) (w : W)
    (Hq : queue_ok q) (Hapart : ch + 1 <= myKey \/ myKey + 4 <= ch) :
  wp (main_ ch myKey junk)
     (fun r σ =>
        let before := uread (umem w) (myKey + 1) 3 in
        let key := default junk (head (contents q ++ [Byte.x61])) in
        held σ = [] /\ ledger σ = [] /\
        (r = -1 /\ dev (drv σ) = q /\ out (drv σ) = [Perror "open"] \/
         r = 1 /\ contents (dev (drv σ)) = contents q /\ out (drv σ) = [Perror "write"] \/
         r = 0 /\ contents (dev (drv σ)) = [] /\
         exists low, out (drv σ) = [KeypadValue (bytes_int (low :: before)); Cleared] /\
           (low = key \/ low = umem w myKey)))
     (KSt (Proc q []) w [] []).
Proof.
  unfold main_, open_file, close_file. up_step. apply wp_acquire.
  2:{ intros rc w1 Hne Hg. pose proof (grant_ok _ _ _ _ Hg).
      rewrite (proj2 (Z.ltb_lt rc 0)) by lia. repeat up_step. split_and!; try done. by left. }
  intros w1 Hg. apply grant_frame in Hg as Hm1. change (0 <? 0) with false. cbv iota. wp_red.
  do 4 up_step. eapply wp_mono; [by apply device_write_spec|].
  intros r [q2 w2 h2 l2] (Hh & Hl & Hq2 & Hm2 & Hr). simpl in *. subst h2 l2.
  destruct Hr as [[-> Hc2]|[-> Hc2]].
  { change (- EFAULT <? 0) with true. cbv iota. repeat up_step. split_and!; try done.
    right; left. by split_and!. }
  change (1 <? 0) with false. cbv iota. do 2 up_step.
  eapply wp_mono; [by apply device_read_spec|].
  intros r [q3 w3 h3 l3] (Hh & Hl & Hq3 & Hc3 & Hr). simpl in *. subst h3 l3. do 6 up_step.
  unfold device_ioctl. rewrite Z.eqb_refl. apply wp_bind.
  eapply wp_mono; [apply queue_empty_spec; [done | apply lock_not_in_nil]|].
  intros [] [q4 w4 h4 l4] (Hq4 & Hc4 & Hw & Hh & Hl). simpl in *. subst w4 h4 l4.
  repeat up_step; [lia|]. split_and!; try done. right; right. split_and!; try done.
  assert (Hhead : head (contents q2) = head (contents q ++ [Byte.x61])).
  { rewrite Hc2, Hst, head_push. unfold uwrite.
    by rewrite decide_True, Z.sub_diag by (unfold zlen; simpl; lia). }
  assert (Hbase : forall n a, myKey <= a -> a + n <= myKey + 4 ->
            uread (umem w2) a n = uread (umem w) a n).
  { intros n a Ha Hn. rewrite Hm2, Hst, uread_uwrite_apart, Hm1; [done|].
    change (zlen [_]) with 1. lia. }
  change 4 with (1 + 3). rewrite uread_app by lia.
  assert (Hone : forall f, uread f myKey 1 = [f myKey]).
  { intros f. unfold uread. simpl. by rewrite Z.add_0_r. }
  destruct Hr as [[_ Hm3]|[_ Hm3]]; eexists; (split; [cbn [out app]; rewrite Hm3|]).
  - by rewrite !Hbase, Hone by lia.
  - by right.
  - rewrite (uread_uwrite_apart _ (myKey + 1)) by (change (zlen [_]) with 1; lia). rewrite (Hbase 3) by lia.
    by rewrite (uread_uwrite_n _ _ [_]).
  - left. by rewrite Hhead.
Qed.
End Props.

(** An empty queue, and memory that is not 0: 'a' is 97. *)
Definition key_user : sim := sim_at 100 (replicate 8 Byte.x01).

Lemma key_app_session_witness :
  wp (main_ 100 104 NUL)
     (fun r σ => held σ = [] /\ ledger σ = []) (KSt (Proc keyQueue0 []) key_user [] []).
Proof.
  eapply wp_mono.
  - apply (key_app_session 100 104 NUL keyQueue0 key_user queue_ok_init). lia.
  - intros r σ (Hh & Hl & _). split; [exact Hh | exact Hl].
Defined.

Example key_app_runs :
  exists σ, main_ 100 104 NUL (KSt (Proc keyQueue0 []) key_user [] []) = Done (0, σ) /\
    out (drv σ) = [KeypadValue 16843105; Cleared].
Proof. eexists. vm_compute. split; reflexivity. Qed.
End KeyApp.

(** ** 004_temp_sens_atomic/temp_user.c *)
Module TempApp.
Import Temperature.Atomic.

Inductive line := Opened | Current (v : Z) | Alerts (v : Z) | Perror (call : string).

Definition high : Z := 30.
Definition low : Z := 20.
Definition new_temp : Z := 32.

Section App.
Context {W : Type} `{UserAccess W} `{UserMem W} `{UserStore W} `{Grants W}.
(** The addresses of the variables of main. *)
Context (high_ low_ new_temp_ current alerts : Z).

(** A call of which only the failure is reported. *)
Definition or_perror (r : Z) (msg : string) : M W (proc temp_sensor line) unit :=
  if r <? 0 then print (Perror msg) else mret tt.

(** An answer of the driver, printed when the call succeeded. *)
Definition ask (cmd a : Z) (show : Z -> line) (msg : string) : M W (proc temp_sensor line) unit :=
  r ← drive (temp_ioctl cmd a);
  if r =? 0 then bs ← load a 4; print (show (bytes_int bs)) else print (Perror msg).

Definition main_ : M W (proc temp_sensor line) Z :=
  fd ← open_file "/dev/TempSensor";
  if fd <? 0 then print (Perror "open");; mret 1
  else
    print Opened;;
    store high_ (int_bytes high);;
    store low_ (int_bytes low);;
    r ← drive (temp_ioctl TEMP_SET_HIGH high_);
    or_perror r "TEMP_SET_HIGH";;
    r ← drive (temp_ioctl TEMP_SET_LOW low_);
    or_perror r "TEMP_SET_LOW";;
    store new_temp_ (int_bytes new_temp);;
    r ← drive (temp_write new_temp_ 4 0);
    (if negb (r =? 4) then print (Perror "write") else mret tt);;
    ask TEMP_GET_CURRENT current Current "TEMP_GET_CURRENT";;
    ask TEMP_GET_ALERTS alerts Alerts "TEMP_GET_ALERTS";;
    close_file "/dev/TempSensor";;
    mret 0.
End App.

(** No call failed. *)
Definition failed (o : list line) : bool :=
  existsb (fun x => match x with Perror _ => true | _ => false end) o.

Lemma failed_app o o' : failed (o ++ o') = failed o || failed o'.
Proof. apply existsb_app. Qed.

Section Props.
Context {W : Type} `{UserAccessOk W} `{!UserStore W} `{!UserStoreOk W} `{!Grants W} `{!GrantsOk W}.
Implicit Types (s : temp_sensor) (w : W) (o : list line) (l : list resource).

Lemma set_call_spec cmd f a msg s o w l :
  (forall w : W, temp_ioctl (W := W) cmd a = set_int a f) ->
  wp (r ← drive (temp_ioctl cmd a); or_perror r msg)
     (fun _ σ => held σ = [] /\ ledger σ = l /\ umem (world σ) ≡ₘ umem w /\
        exists e, out (drv σ) = o ++ e /\
          (failed e = false -> e = [] /\ dev (drv σ) = f (user_int w a) s))
     (KSt (Proc s o) w [] l).
Proof.
  intros Hcmd. rewrite (Hcmd w). up_step; up_step.
  eapply wp_mono; [apply set_int_spec|].
  intros r [s1 w1 h1 l1] (-> & -> & Hm & [[-> ->]|[-> ->]]); unfold or_perror; simpl.
  - repeat up_step. split_and!; try done. by eexists.
  - repeat up_step. split_and!; try done. exists []. by rewrite app_nil_r.
Qed.

Lemma temp_ask_spec cmd f a show msg s o w l :
  (forall w : W, temp_ioctl (W := W) cmd a = get_int a f) ->
  wp (ask cmd a show msg)
     (fun _ σ => held σ = [] /\ ledger σ = l /\ dev (drv σ) = s /\
        exists e, out (drv σ) = o ++ e /\ (failed e = false -> e = [show (s32 (f s))]))
     (KSt (Proc s o) w [] l).
Proof.
  intros Hcmd. unfold ask. rewrite (Hcmd w). up_step; up_step.
  eapply wp_mono; [apply get_int_spec|].
  intros r [s1 w1 h1 l1] (-> & -> & -> & [->|[-> E]]); simpl.
  - up_step. split_and!; try done. by eexists.
  - do 3 up_step. split_and!; try done. eexists. split; [done|]. intros _.
    unfold user_int in E. simpl in E. by rewrite E.
Qed.

Lemma write_call_spec a s o w l :
  wp (r ← drive (temp_write a 4 0); if negb (r =? 4) then print (Perror "write") else mret tt)
     (fun _ σ => held σ = [] /\ ledger σ = l /\ umem (world σ) ≡ₘ umem w /\
        exists e, out (drv σ) = o ++ e /\
          (failed e = false -> let v := user_int w a in
             e = [] /\ dev (drv σ) = TempSensor v (high_threshold s) (low_threshold s)
               (if decide (low_threshold s <= v <= high_threshold s) then alert_count s
                else s32 (alert_count s + 1))))
     (KSt (Proc s o) w [] l).
Proof.
  up_step; up_step. eapply wp_mono; [apply temp_write_spec|].
  intros r [s1 w1 h1 l1] (-> & -> & Hm & [[-> ->]|[-> ->]]); simpl.
  - repeat up_step. split_and!; try done. by eexists.
  - repeat up_step. split_and!; try done. exists []. by rewrite app_nil_r.
Qed.

(** temp_user.c sets the limits 20 and 30, writes the reading 32 and asks
    for the current temperature and the number of alerts. Whatever the sensor
    held before, the file is closed at the end, and when nothing is reported
    to have failed it has printed 32 and one alert more than before (in 32
    bits), and the sensor holds the three values. *)
Theorem temp_app_session (high_ low_ new_temp_ current alerts : Z) (s : temp_sensor) (w : W)
    (Hapart : high_ + 4 <= low_ \/ low_ + 4 <= high_) :
  wp (main_ high_ low_ new_temp_ current alerts)
     (fun r σ => held σ = [] /\ ledger σ = [] /\
        (failed (out (drv σ)) = false ->
         let n := s32 (alert_count s + 1) in
         r = 0 /\ out (drv σ) = [Opened; Current 32; Alerts n] /\
         dev (drv σ) = TempSensor 32 30 20 n))
     (KSt (Proc s []) w [] []).
Proof.
  unfold main_, open_file, close_file. up_step. apply wp_acquire.
  2:{ intros rc w1 Hne Hg. pose proof (grant_ok _ _ _ _ Hg).
      rewrite (proj2 (Z.ltb_lt rc 0)) by lia. by repeat up_step. }
  intros w1 _. change (0 <? 0) with false. cbv iota. wp_red. do 6 up_step.
  assert (Hhigh : user_int w2 high_ = 30 /\ user_int w2 low_ = 20).
  { split; [|by apply (stored_user_int _ 20) in Hst0].
    apply (stored_user_int _ 30) in Hst. etrans; [|exact Hst]. unfold user_int. f_equal. rewrite Hst0.
    apply uread_uwrite_apart. change (zlen (int_bytes low)) with 4. lia. }
  destruct Hhigh as [Hhigh Hlow].
  apply wp_assoc, wp_bind.
  eapply wp_mono; [apply set_call_spec; intros w'; reflexivity|].
  intros [] [[s1 o1] w3 h3 l3] (Hh & Hl & Hm1 & e1 & Ho1 & E1). simpl in *. subst.
  apply wp_assoc, wp_bind.
  eapply wp_mono; [apply set_call_spec; intros w'; reflexivity|].
  intros [] [[s2 o2] w4 h4 l4] (Hh & Hl & Hm2 & e2 & Ho2 & E2). simpl in *. subst.
  do 2 up_step. apply wp_assoc, wp_bind. eapply wp_mono; [apply write_call_spec|].
  intros [] [[s3 o3] w6 h6 l6] (Hh & Hl & Hm3 & e3 & Ho3 & E3). simpl in *. subst.
  apply wp_bind. eapply wp_mono; [apply temp_ask_spec; intros w'; reflexivity|].
  intros [] [[s4 o4] w7 h7 l7] (Hh & Hl & Hs & e4 & Ho4 & E4). simpl in *. subst.
  apply wp_bind. eapply wp_mono; [apply temp_ask_spec; intros w'; reflexivity|].
  intros [] [[s5 o5] w8 h8 l8] (Hh & Hl & Hs & e5 & Ho5 & E5). simpl in *. subst.
  repeat up_step. split_and!; try done. cbn [drv dev out].
  change (failed (Opened :: ?o)) with (failed o). rewrite !failed_app.
  intros ((((F1 & F2)%orb_false_iff & F3)%orb_false_iff & F4)%orb_false_iff & F5)%orb_false_iff.
  destruct (E1 F1) as [-> ->], (E2 F2) as [-> ->], (E3 F3) as [-> ->].
  rewrite (E4 F4), (E5 F5). cbn [current_temp high_threshold low_threshold alert_count].
  rewrite (user_int_mem w3 w2), Hhigh, Hlow, (stored_user_int _ 32 _ _ Hst1) by done.
  change (s32 32) with 32. rewrite decide_False by lia.
  split_and!; try done. simpl. by rewrite swrap_idem.
Qed.
End Props.

Definition temp_user : sim := sim_at 100 (replicate 20 NUL).

Lemma temp_app_session_witness :
  wp (main_ 100 104 108 112 116)
     (fun r σ => failed (out (drv σ)) = false -> r = 0 /\ out (drv σ) = [Opened; Current 32; Alerts 1])
     (KSt (Proc (TempSensor 25 30 20 0) []) temp_user [] []).
Proof.
  eapply wp_mono; [apply (temp_app_session 100 104 108 112 116 (TempSensor 25 30 20 0) temp_user); lia|].
  intros r σ (_ & _ & Hr) F. destruct (Hr F) as (-> & -> & _). by vm_compute.
Defined.

Example temp_app_runs :
  exists σ, main_ 100 104 108 112 116 (KSt (Proc (TempSensor 25 30 20 0) []) temp_user [] [])
            = Done (0, σ) /\ out (drv σ) = [Opened; Current 32; Alerts 1].
Proof. eexists. vm_compute. split; reflexivity. Qed.
End TempApp.

(** ** 005_atomic_light/light_user.c *)
Module LightApp.
Import Light.

Inductive line :=
  | Opened | ReadStatus (state brightness temperature : byte) | Written
  | LedState (v : Z) | LedBrightness (v : Z) | Perror (call : string).

(** { .state = 1, .brightness = 50, .temperature = 25 }, packed. *)
Definition lightStatusWrite : list byte := [Byte.x01; Byte.x32; Byte.x19].

Section App.
Context {W : Type} `{UserAccess W} `{UserMem W} `{UserStore W} `{Grants W}.
(** The addresses of the variables of main. *)
Context (lightStatusRead lightStatusWrite_ brightness state : Z).
Local Abbreviation P := (M W (proc light line)).

Definition show_status : P unit :=
  r ← drive (light_read lightStatusRead 3 0);
  if 0 <? r then
    bs ← load lightStatusRead 3;
    match bs with
    | [s; b; t] => print (ReadStatus s b t)
    | _ => oops OutOfBounds
    end
  else mret tt.

Definition write_status : P unit :=
  r ← drive (light_write lightStatusWrite_ 3 0);
  if 0 <? r then print Written else mret tt.

Definition command (cmd arg : Z) (msg : string) : P unit :=
  r ← drive (light_ioctl cmd arg);
  if r <? 0 then print (Perror msg) else mret tt.

Definition ask (cmd a : Z) (show : Z -> line) : P unit :=
  r ← drive (light_ioctl cmd a);
  if r =? 0 then bs ← load a 4; print (show (bytes_int bs)) else mret tt.

Definition main_ : P Z :=
  fd ← open_file "/dev/LightDevice";
  if fd <? 0 then print (Perror "open");; mret 1
  else
    print Opened;;
    store lightStatusRead [NUL; NUL; NUL];;
    store lightStatusWrite_ lightStatusWrite;;
    show_status;;
    write_status;;
    command LED_ON 0 "LED_ON";;
    store brightness (int_bytes 100);;
    command LED_SET_BRIGHTNESS brightness "LED_SET_BRIGHTNESS";;
    ask LED_GET_STATE state LedState;;
    ask LED_GET_BRIGHTNESS brightness LedBrightness;;
    command LED_OFF 0 "LED_OFF";;
    close_file "/dev/LightDevice";;
    mret 0.
End App.

Section Props.
Context {W : Type} `{UserAccessOk W} `{!UserStore W} `{!UserStoreOk W} `{!Grants W} `{!GrantsOk W}.
Context (lightStatusRead lightStatusWrite_ brightness state : Z).
Implicit Types (s : light) (w : W) (o : list line) (l : list resource).

(** What every call leaves: no lock, the file still open, output that only
    grew. [P] is about the driver and what was printed. *)
Definition call_ok (l : list resource) (o : list line) (P : light -> list line -> Prop)
    (σ : kst W (proc light line)) : Prop :=
  held σ = [] /\ ledger σ = l /\ exists e, out (drv σ) = o ++ e /\ P (dev (drv σ)) e.

Lemma light_read_frame buf len off s w h l :
  wp (light_read buf len off)
     (fun _ σ => forall a, a < buf \/ buf + 3 <= a -> umem (world σ) a = umem w a) (KSt s w h l).
Proof. unfold light_read. wp_auto; intros a Ha; by apply (ctu_outside _ _ _ _ _ _ Hctu). Qed.

Lemma show_status_spec s o w l :
  wp (show_status lightStatusRead)
     (fun _ σ => call_ok l o (fun s' e => s' = s /\
        (e = [] \/ exists st, byte_val st <= 1 /\
           e = [ReadStatus st (byte_of_Z (g_brightness s)) (byte_of_Z (g_temperature s))])) σ /\
        forall a, a < lightStatusRead \/ lightStatusRead + 3 <= a -> umem (world σ) a = umem w a)
     (KSt (Proc s o) w [] l).
Proof.
  unfold show_status. up_step; up_step.
  eapply wp_mono; [apply wp_conj; [apply light_read_spec | apply light_read_frame]|].
  intros r [s1 w1 h1 l1] [(Hh & Hl & Hs & Hr) Hf]. simpl in *. subst.
  destruct Hr as [->|[-> Hr]].
  - up_step; [unfold EFAULT in *; lia|]. up_step. split; [|exact Hf]. split_and!; try done.
    exists []. rewrite app_nil_r. auto.
  - up_step; [|lia]. do 2 up_step. rewrite Hr. up_step. split; [|exact Hf].
    split_and!; try done. eexists. split; [done|]. split; [done|]. right. eexists. split; [|done].
    by destruct (g_state s =? 0).
Qed.

Lemma write_status_spec s o w l :
  umem w lightStatusWrite_ = Byte.x01 ->
  wp (write_status lightStatusWrite_)
     (fun _ => call_ok l o (fun _ e => e = [] \/ e = [Written])) (KSt (Proc s o) w [] l).
Proof.
  intros Hb. unfold write_status. up_step; up_step.
  eapply wp_mono; [apply light_write_spec; by rewrite Hb|].
  intros r [s1 w1 h1 l1] (Hh & Hl & _ & Hr). simpl in *. subst.
  up_step; up_step; (split_and!; try done).
  - eexists. eauto.
  - exists []. rewrite app_nil_r. auto.
Qed.

Lemma set_brightness_spec s o w l :
  wp (command LED_SET_BRIGHTNESS brightness "LED_SET_BRIGHTNESS")
     (fun _ => call_ok l o (fun s' e =>
        e = [] /\ s' = Light (g_state s) (user_int w brightness) (g_temperature s) \/
        e = [Perror "LED_SET_BRIGHTNESS"] /\ s' = s)) (KSt (Proc s o) w [] l).
Proof.
  unfold command. up_step; up_step.
  change (light_ioctl LED_SET_BRIGHTNESS brightness) with
    ('(r, bs) ← copy_from_user brightness sizeof_int;
     if negb (r =? 0) then mret (- EFAULT)
     else modify (fun s => Light (g_state s) (bytes_int bs) (g_temperature s));; mret 0
     : M W light Z).
  wp_step; wp_step. destruct (Z.eqb_spec r 0) as [->|]; simpl negb; cbv iota.
  - do 3 wp_step. apply cfu_full in Hcfu as [-> Hm]; [|done]. change (0 <? 0) with false. cbv iota. up_step.
    split_and!; try done. exists []. rewrite app_nil_r. auto.
  - wp_step. change (- EFAULT <? 0) with true. cbv iota. up_step. split_and!; try done. eexists. eauto.
Qed.

Lemma light_ask_spec cmd f a show s o w l :
  light_ioctl cmd a = (s ← get; r ← copy_to_user a (int_bytes (f s));
                       if negb (r =? 0) then mret (- EFAULT) else mret 0 : M W light Z) ->
  wp (ask cmd a show)
     (fun _ => call_ok l o (fun s' e => s' = s /\ (e = [] \/ e = [show (s32 (f s))])))
     (KSt (Proc s o) w [] l).
Proof.
  intros Hcmd. unfold ask. rewrite Hcmd. up_step; up_step. do 4 wp_step.
  destruct (Z.eqb_spec r 0) as [->|]; simpl negb; cbv iota; wp_step.
  - change (0 =? 0) with true. cbv iota. do 3 up_step. split_and!; try done. eexists.
    split; [done|]. split; [done|]. right. apply ctu_full in Hctu.
    by rewrite Hctu, uread_uwrite_n, bytes_int_of.
  - change (- EFAULT =? 0) with false. cbv iota. up_step. split_and!; try done. exists [].
    rewrite app_nil_r. auto.
Qed.

Lemma switch_spec cmd v msg s o w l :
  light_ioctl cmd 0 = (modify (fun s => Light v (g_brightness s) (g_temperature s));; mret 0
                       : M W light Z) ->
  wp (command cmd 0 msg)
     (fun _ σ => umem (world σ) = umem w /\
        call_ok l o (fun s' e => e = [] /\ s' = Light v (g_brightness s) (g_temperature s)) σ)
     (KSt (Proc s o) w [] l).
Proof.
  intros Hcmd. unfold command. rewrite Hcmd. do 5 up_step. change (0 <? 0) with false. cbv iota.
  up_step. split; [done|]. split_and!; try done. exists []. by rewrite app_nil_r.
Qed.

(** light_user.c reads the status, writes another one, switches the
    light on, sets the brightness 100, asks for both and switches it off.
    Whatever fails, the light is off and the file closed at the end; the state
    printed is 1 and the brightness printed is 100, unless setting the
    brightness is reported to have failed. *)
Theorem light_app_session (s : light) (w : W)
    (Hapart : lightStatusRead + 3 <= lightStatusWrite_ \/ lightStatusWrite_ + 3 <= lightStatusRead) :
  wp (main_ lightStatusRead lightStatusWrite_ brightness state)
     (fun r σ => held σ = [] /\ ledger σ = [] /\
        (r = 1 /\ dev (drv σ) = s \/
         r = 0 /\ g_state (dev (drv σ)) = 0 /\
         (forall v, LedState v ∈ out (drv σ) -> v = 1) /\
         (Perror "LED_SET_BRIGHTNESS" ∈ out (drv σ) \/
          g_brightness (dev (drv σ)) = 100 /\ forall v, LedBrightness v ∈ out (drv σ) -> v = 100)))
     (KSt (Proc s []) w [] []).
Proof.
  unfold main_, open_file, close_file. up_step. apply wp_acquire.
  2:{ intros rc w1 Hne Hg. pose proof (grant_ok _ _ _ _ Hg).
      rewrite (proj2 (Z.ltb_lt rc 0)) by lia. repeat up_step. split_and!; auto. }
  intros w1 _. change (0 <? 0) with false. cbv iota. wp_red. do 6 up_step.
  apply wp_bind. eapply wp_mono; [apply show_status_spec|].
  intros [] [[s1 o1] w3 h3 l3] [(Hh & Hl & e1 & Ho & _ & He1) Hf]. simpl in *. subst.
  apply wp_bind. eapply wp_mono; [apply write_status_spec|].
  { rewrite Hf by lia. rewrite (Hst0 _). unfold uwrite, zlen. simpl.
    by rewrite decide_True, Z.sub_diag by lia. }
  intros [] [[s2 o2] w4 h4 l4] (Hh & Hl & e2 & Ho & He2). simpl in *. subst.
  apply wp_bind. eapply wp_mono; [by apply (switch_spec LED_ON 1)|].
  intros [] [[s3 o3] w5 h5 l5] [_ (Hh & Hl & e3 & Ho & He3 & Hs)]. simpl in *. subst.
  up_step; up_step. apply (stored_user_int _ 100) in Hst1.
  apply wp_bind. eapply wp_mono; [apply set_brightness_spec|].
  intros [] [[s4 o4] w7 h7 l7] (Hh & Hl & e4 & Ho & He4). simpl in *. subst.
  apply wp_bind. eapply wp_mono; [by apply (light_ask_spec LED_GET_STATE g_state)|].
  intros [] [[s5 o5] w8 h8 l8] (Hh & Hl & e5 & Ho & Hs5 & He5). simpl in *. subst.
  apply wp_bind. eapply wp_mono; [by apply (light_ask_spec LED_GET_BRIGHTNESS g_brightness)|].
  intros [] [[s6 o6] w9 h9 l9] (Hh & Hl & e6 & Ho & Hs6 & He6). simpl in *. subst.
  apply wp_bind. eapply wp_mono; [by apply (switch_spec LED_OFF 0)|].
  intros [] [[s7 o7] w10 h10 l10] [_ (Hh & Hl & e7 & Ho & He7 & Hs)]. simpl in *. subst.
  repeat up_step. split_and!; try done. right.
  assert (Hone : g_state s4 = 1) by (by destruct He4 as [[_ ->]|[_ ->]]). rewrite Hone in He5.
  cbn [drv dev out g_state g_brightness]. rewrite !app_nil_r. clear Hapart Hst Hst0 Hf.
  split_and!; [done..| |].
  - intros v Hv. destruct He1 as [->|(?&_&->)], He2 as [->| ->], He4 as [[-> _]|[-> _]],
      He5 as [->| ->], He6 as [->| ->]; set_solver.
  - destruct He4 as [[-> ->]|[-> _]]; [right | set_solver]. split; [done|]. intros v Hv.
    cbn [g_brightness] in He6. rewrite Hst1 in He6.
    destruct He1 as [->|(?&_&->)], He2 as [->| ->], He5 as [->| ->], He6 as [->| ->]; set_solver.
Qed.
End Props.

Definition light_user : sim := sim_at 100 (replicate 16 NUL).

Lemma light_app_session_witness :
  wp (main_ 100 104 108 112) (fun r σ => held σ = [] /\ ledger σ = [])
     (KSt (Proc light0 []) light_user [] []).
Proof.
  eapply wp_mono; [apply (light_app_session 100 104 108 112 light0 light_user); lia|].
  intros r σ (Hh & Hl & _). split; [exact Hh | exact Hl].
Defined.

Example light_app_runs :
  exists σ, main_ 100 104 108 112 (KSt (Proc light0 []) light_user [] []) = Done (0, σ) /\
    out (drv σ) = [Opened; ReadStatus NUL NUL Byte.x19; Written; LedState 1; LedBrightness 100] /\
    dev (drv σ) = Light 0 100 25.
Proof. eexists. vm_compute. repeat split. Qed.
End LightApp.

(** ** 001_temp_log/user_app.c *)
Module LogApp.
Import Log.

Inductive line := Temp (v : Z) | Verifying | Higher | Lower | WithinLimit | Perror (call : string).

Definition TH_HIGH : Z := 34.
Definition TH_LOW : Z := 51.
Definition TH_WITH_IN_LIMIT : Z := 68.

Section App.
Context {W : Type} `{UserAccess W} `{UserMem W} `{UserStore W} `{Grants W}.
(** The addresses of temp and arg. *)
Context (temp_ arg_ : Z).

(** What the C library returns for the result of a system call. *)
Definition libc (r : Z) : Z := if r <? 0 then -1 else r.

(** int arg = 0; the check, and what its answer means. *)
Definition check_threshold : M W (proc temp_log line) unit :=
  store arg_ (int_bytes 0);;
  print Verifying;;
  drive (device_ioctl THRESHOLD_CHECK arg_);;
  bs ← load arg_ 4;
  let arg := bytes_int bs in
  if arg =? TH_HIGH then print Higher
  else if arg =? TH_LOW then print Lower
  else if arg =? TH_WITH_IN_LIMIT then print WithinLimit
  else mret tt.

Definition main_ : M W (proc temp_log line) Z :=
  store temp_ (int_bytes 0);;
  fd ← open_file "/dev/mydevice";
  if libc fd =? -1 then print (Perror "open");; mret (-1)
  else
    drive (device_read temp_ 4 0);;
    bs ← load temp_ 4;
    print (Temp (bytes_int bs));;
    check_threshold;;
    close_file "/dev/mydevice";;
    mret 0.
End App.

Section Props.
Context {W : Type} `{UserAccessOk W} `{!UserStore W} `{!UserStoreOk W} `{!Grants W} `{!GrantsOk W}.
Implicit Types (s : temp_log) (w : W).

(** With [arg] 0 before and ordered thresholds, [arg] is 0 or "high"
    afterwards, even when the copy of the answer is cut short. *)
Lemma check_spec f a s w l :
  threshold_low s <= threshold_high s -> umem w ≡ₘ uwrite f a (int_bytes 0) ->
  wp (device_ioctl THRESHOLD_CHECK a)
     (fun r σ => held σ = [] /\ ledger σ = l /\ drv σ = s /\
        (user_int (world σ) a = 0 \/ user_int (world σ) a = TH_HIGH /\ threshold_high s < temp s))
     (KSt s w [] l).
Proof.
  intros Hle Hz. assert (Hzero : user_int w a = 0).
  { unfold user_int. by rewrite Hz, uread_uwrite_n. }
  assert (Hcopy : forall r w', k_copy_to_user a (int_bytes th_high) w = (r, w') ->
            user_int w' a = 0 \/ user_int w' a = TH_HIGH).
  { intros r w' [Hr Hm]%ctu_ok. change (zlen (int_bytes th_high)) with 4 in *.
    set (data := take _ _) in Hm.
    assert (Hd : zlen data = 4 - r) by (unfold data, zlen; rewrite length_take; simpl; lia).
    unfold user_int. rewrite Hm, uread_uwrite_front, Hz, uread_uwrite_sub; rewrite ?Hd; try lia;
      [|change (zlen (int_bytes 0)) with 4; lia].
    unfold data. assert (r = 0 \/ r = 1 \/ r = 2 \/ r = 3 \/ r = 4) as Hc by lia.
    repeat destruct Hc as [->|Hc]; subst; vm_compute; auto. }
  unfold device_ioctl. rewrite Z.eqb_refl. wp_step; wp_step.
  destruct (Z.ltb_spec (threshold_high s) (temp s)); [|wp_auto; by auto]. wp_step; wp_step.
  apply Hcopy in Hctu. rewrite (proj2 (Z.ltb_ge _ _)) by lia.
  wp_auto; split_and!; try done; destruct Hctu; auto.
Qed.

Lemma check_threshold_spec arg_ s o w l :
  threshold_low s <= threshold_high s ->
  wp (check_threshold arg_)
     (fun _ σ => held σ = [] /\ ledger σ = l /\ exists answer,
        out (drv σ) = o ++ Verifying :: answer /\
        (answer = [] \/ answer = [Higher] /\ threshold_high s < temp s))
     (KSt (Proc s o) w [] l).
Proof.
  intros Hle. unfold check_threshold. do 6 up_step.
  eapply wp_mono; [by eapply check_spec|].
  intros r [s1 w1 h1 l1] (Hh & Hl & Hs & Hr). simpl in *. subst. do 2 up_step.
  unfold user_int in Hr. destruct Hr as [->|[-> Hlt]]; simpl; repeat up_step.
  all: split_and!; try done; eexists; rewrite <- ?app_assoc; by auto.
Qed.

(** user_app.c of 001 prints the reading and asks for the threshold check.
    With ordered thresholds it answers "higher" only for a reading above the
    upper one, and in every other case it prints no answer at all. *)
Theorem log_app_session (temp_ arg_ : Z) (s : temp_log) (w : W)
    (Hle : threshold_low s <= threshold_high s) :
  wp (main_ temp_ arg_)
     (fun r σ => held σ = [] /\ ledger σ = [] /\
        (r = -1 /\ out (drv σ) = [Perror "open"] \/
         r = 0 /\ exists v answer, out (drv σ) = [Temp v; Verifying] ++ answer /\
           (answer = [] \/ answer = [Higher] /\ threshold_high s < sensor s)))
     (KSt (Proc s []) w [] []).
Proof.
  unfold main_, open_file, close_file. do 3 up_step. apply wp_acquire.
  2:{ intros rc w1 Hne Hg. pose proof (grant_ok _ _ _ _ Hg). unfold libc.
      rewrite (proj2 (Z.ltb_lt rc 0)) by lia. repeat up_step. split_and!; auto. }
  intros w1 _. change (libc 0 =? -1) with false. cbv iota. wp_red. do 2 up_step.
  unfold device_read, get_temp_val. repeat up_step.
  all: eapply wp_mono; [by apply check_threshold_spec|].
  all: intros [] [[s1 o1] wf hf lf] (Hh & Hl & answer & Ho & Ha); simpl in *; subst.
  all: repeat up_step; split_and!; try done; right; eauto 6.
Qed.
End Props.

Definition log_user : sim := sim_at 100 (replicate 8 NUL).

Lemma log_app_session_witness :
  wp (main_ 100 104) (fun r σ => held σ = [] /\ ledger σ = [])
     (KSt (Proc (TempLog 15 0 30 20) []) log_user [] []).
Proof.
  eapply wp_mono; [apply (log_app_session 100 104 (TempLog 15 0 30 20) log_user); simpl; lia|].
  intros r σ (Hh & Hl & _). split; [exact Hh | exact Hl].
Defined.

(** A reading of 15 with the limits 20 and 30: no answer; the limits of a
    module loaded without parameters are 0, so 20 is "higher". *)
Example log_app_runs :
  (exists σ, main_ 100 104 (KSt (Proc (TempLog 15 0 30 20) []) log_user [] []) = Done (0, σ) /\
     out (drv σ) = [Temp 15; Verifying]) /\
  (exists σ, main_ 100 104 (KSt (Proc temp_log0 []) log_user [] []) = Done (0, σ) /\
     out (drv σ) = [Temp 20; Verifying; Higher]).
Proof. split; eexists; vm_compute; split; reflexivity. Qed.
End LogApp.
