(* ===== verification/IrqApp.v ===== *)
(** * 021_interrupt_handler: the user program (irq_handler_user.c)

    The program triggers the tasklet and the work item and prints the
    statistics in between. Interrupts and deferred work happen between its
    system calls and while it sleeps: [Background] says which. *)

From S2P Require Import Prelude Kernel Wp Sim Irq User.

(** What the driver goes through until the program's next call. *)
Class Background (W : Type) := { k_background : W -> list event * W }.
Class BackgroundOk (W : Type) `{Background W} `{UserMem W} : Prop := {
  background_ok w es w' : k_background w = (es, w') -> umem w' ≡ₘ umem w;
}.

Section App.
Context {W : Type} `{UserAccess W} `{UserMem W} `{Grants W} `{Background W}.
(** The addresses of buffer and of the texts T, W and R. *)
Context (buffer T_ W_ R_ : Z).
(** Next to a text the model keeps the driver's variables at the read that
    the text comes from. *)
Local Abbreviation P := (M W (proc irq_stats (irq_stats * list byte))).

Definition background : P unit := drive (es ← call k_background; run_events es).
Definition enter {A} (m : M W irq_stats A) : P A := background;; drive m.

(** sleep takes whole seconds, so that of sleep(0.5) none is left; the driver
    does not look at the position that lseek sets. *)
Definition sleep : P unit := background.
Definition rewind : P unit := background.

Definition command (a : Z) : P unit := enter (irq_write a 1 0);; mret tt.

(** printf reads up to a terminator, which read does not deliver. *)
Definition show : P unit :=
  '(stats, r) ← enter (stats ← get; r ← irq_read buffer 512 0; mret (stats, r));
  if 0 <? r then
    bytes ← load buffer 512;
    s ← value OutOfBounds (cstr bytes);
    print (stats, s)
  else mret tt.

Definition main_ : P Z :=
  fd ← open_file "/dev/irq_demo";
  if fd <? 0 then mret 1
  else
    show;;
    command T_;; sleep;;
    rewind;; show;;
    command W_;; sleep;;
    rewind;; show;;
    for_ 3 0 (fun _ => command T_;; sleep;; command W_;; sleep;; mret (None : option Z));;
    rewind;; show;;
    command R_;; sleep;;
    rewind;; show;;
    close_file "/dev/irq_demo";;
    mret 0.
End App.

(** ** The statistics stay in range and are text *)

Lemma irq_message_text s : Forall (fun c => c <> NUL) (irq_message s).
Proof.
  unfold irq_message. repeat (apply Forall_app; split); try apply dec_text.
  all: vm_compute; repeat constructor; discriminate.
Qed.

Lemma after_ok es s : stats_ok s -> stats_ok (after es s).
Proof.
  assert (Hu : forall z, 0 <= u64 z < 2 ^ 64) by (intros z; apply uwrap_range; lia).
  revert s. induction es as [|e es IH]; intros s Hs; [done|]. apply IH. clear IH.
  destruct Hs as (Hi & Ht & Hq), s as [ci ct cq n [] []], e;
    unfold stats_ok, next_stats; simpl in *; split_and!; try apply Hu; lia.
Qed.

(** ** Properties *)

Section Props.
Context {W : Type} `{UserAccessOk W} `{!Grants W} `{!GrantsOk W} `{!GrantsFrame W}
        `{!Background W} `{!BackgroundOk W}.
Context (buffer T_ W_ R_ : Z) (s0 : irq_stats) (s0_ok : stats_ok s0).

(** A text that starts with the statistics of the moment of its read. *)
Definition shown (x : irq_stats * list byte) : Prop := irq_message x.1 `prefix_of` x.2.

(** Some events lead from each of the moments to the next one, from the state
    before the run to the one at its end. *)
Fixpoint passes (s : irq_stats) (moments : list irq_stats) (s' : irq_stats) : Prop :=
  match moments with
  | [] => exists es, s' = after es s
  | m :: moments => (exists es, m = after es s) /\ passes m moments s'
  end.

Lemma passes_after s ms s' es : passes s ms s' -> passes s ms (after es s').
Proof.
  revert s. induction ms as [|m ms IH]; intros s; simpl.
  - intros [es0 ->]. exists (es0 ++ es). by rewrite after_history.
  - intros [Hm Hp]. split; [done | by apply IH].
Qed.

Lemma passes_snoc s ms s' : passes s ms s' -> passes s (ms ++ [s']) s'.
Proof.
  revert s. induction ms as [|m ms IH]; intros s; simpl.
  - intros Hs. split; [done | by exists []].
  - intros [Hm Hp]. split; [done | by apply IH].
Qed.

Lemma passes_ok s ms s' : stats_ok s -> passes s ms s' -> stats_ok s'.
Proof.
  revert s. induction ms as [|m ms IH]; intros s Hs; simpl.
  - intros [es ->]. by apply after_ok.
  - intros [[es ->] Hp]. eapply IH; [by apply after_ok | done].
Qed.

(** Behind the longest statistics the buffer holds a terminator. *)
Definition terminated (w : W) : Prop := exists p, 179 <= p < 512 /\ umem w (buffer + p) = NUL.

Definition app_ok (l : list resource) (σ : kst W (proc irq_stats (irq_stats * list byte))) : Prop :=
  held σ = [] /\ ledger σ = l /\ passes s0 (out (drv σ)).*1 (dev (drv σ)) /\ terminated (world σ) /\
  Forall shown (out (drv σ)).

Lemma terminated_mem (w w' : W) : umem w' ≡ₘ umem w -> terminated w -> terminated w'.
Proof. intros Hm (p & Hp & Hn). exists p. split; [done|]. by rewrite (Hm _). Qed.

Lemma background_spec l σ : app_ok l σ -> wp background (fun _ => app_ok l) σ.
Proof.
  destruct σ as [[s o] w h l0]. intros (Hh & Hl & Hs & Ht & Ho). simpl in *. subst.
  unfold background. apply wp_drive. apply wp_bind, wp_call. intros es w' Hb. wp_red.
  unfold wp. rewrite run_events_after. split_and!; try done; [by apply passes_after|].
  eapply terminated_mem; [by apply background_ok in Hb | done].
Qed.

Lemma irq_read_mem size off s (w : W) l :
  stats_ok s ->
  wp (irq_read buffer size off)
     (fun r σ => held σ = [] /\ ledger σ = l /\ drv σ = s /\
        exists pre, zlen pre <= 179 /\ umem (world σ) ≡ₘ uwrite (umem w) buffer pre /\
                    (0 < r -> pre = irq_message s))
     (KSt s w [] l).
Proof.
  intros Hs. pose proof (irq_message_len s Hs) as Hm. unfold irq_read. do 2 wp_step. cbv zeta.
  set (msg := irq_message s) in *. clearbody msg. rewrite (proj2 (Z.leb_le _ _)) by lia. wp_step.
  wp_step. destruct (Z.eqb_spec r 0) as [->|]; simpl negb; cbv iota; wp_step; split_and!; try done.
  - exists msg. split_and!; [done | by apply ctu_full | done].
  - apply ctu_ok in Hctu as [Hr Hw]. eexists. split; [|split; [exact Hw | unfold EFAULT; lia]].
    unfold zlen in *. rewrite length_take. lia.
Qed.

Lemma irq_write_ok a size off s (w : W) l :
  wp (irq_write a size off)
     (fun _ σ => held σ = [] /\ ledger σ = l /\ (exists es, drv σ = after es s) /\ umem (world σ) ≡ₘ umem w)
     (KSt s w [] l).
Proof.
  unfold irq_write. wp_step; wp_step. pose proof Hcfu as Hm. apply cfu_mem in Hm; [|done].
  destruct (Z.eqb_spec r 0) as [->|]; simpl negb; cbv iota; [|by wp_auto; split_and!; try done; exists []].
  apply cfu_full in Hcfu as [-> _]; [|done].
  change (uread (umem w) a 1) with [umem w (a + 0)].
  change (zget [umem w (a + 0)] 0) with (Some (umem w (a + 0))).
  unfold tasklet_schedule, schedule_work. wp_auto; split_and!; try done.
  - by exists [TriggerTasklet].
  - by exists [TriggerWork].
  - by exists [Reset].
  - by exists [].
Qed.

Lemma command_spec a l σ : app_ok l σ -> wp (command a) (fun _ => app_ok l) σ.
Proof.
  intros Hσ. unfold command, enter. do 2 apply wp_bind.
  eapply wp_mono; [by apply background_spec|].
  intros [] [[s o] w h l0] (Hh & Hl & Hs & Ht & Ho). simpl in *. subst. apply wp_drive.
  eapply wp_mono; [by apply irq_write_ok|].
  intros r [s1 w1 h1 l1] (Hh & Hl & [es Hs1] & Hm). simpl in *. subst. apply wp_ret. split_and!; try done; [by apply passes_after|].
  by eapply terminated_mem.
Qed.

(** After a read the buffer holds the statistics, then some terminator. *)
Lemma show_spec l σ : app_ok l σ -> wp (show buffer) (fun _ => app_ok l) σ.
Proof.
  intros Hσ. unfold show, enter. do 2 apply wp_bind.
  eapply wp_mono; [by apply background_spec|].
  intros [] [[s o] w h l0] (Hh & Hl & Hs & (p & Hp & Hn) & Ho). simpl in *. subst. apply wp_drive.
  apply wp_bind, wp_get, wp_bind.
  eapply wp_mono; [apply irq_read_mem; by eapply passes_ok|].
  intros r [s1 w1 h1 l1] (Hh & Hl & Hs1 & pre & Hpre & Hm & Hr). simpl in *. subst. apply wp_ret. wp_red.
  assert (Ht : umem w1 (buffer + p) = NUL).
  { rewrite (Hm _). unfold uwrite. by rewrite decide_False by lia. }
  assert (Ht1 : terminated w1) by (by exists p).
  destruct (Z.ltb_spec 0 r); [|by up_step]. rewrite (Hr ltac:(lia)) in *. do 3 up_step.
  destruct (cstr_bounded (uread (umem w) (buffer + zlen (irq_message s)) (512 - zlen (irq_message s)))
              (p - zlen (irq_message s))) as (rest & Hrest & _).
  { rewrite zget_uread by lia. f_equal. rewrite <- Hn. f_equal. lia. }
  rewrite Hm, uread_uwrite_front, cstr_text, Hrest by (lia || apply irq_message_text).
  change ((fun s0 => irq_message s ++ s0) <$> Some rest) with (Some (irq_message s ++ rest)).
  do 2 up_step. split_and!; try done.
  - simpl. rewrite fmap_app. by apply passes_snoc.
  - apply Forall_app. split; [done|]. constructor; [by eexists | done].
Qed.

Lemma for_app_ok l n i (body : Z -> M W (proc irq_stats (irq_stats * list byte)) (option Z)) σ :
  (forall j σ, app_ok l σ -> wp (body j) (fun r σ' => r = None /\ app_ok l σ') σ) ->
  app_ok l σ -> wp (for_ n i body) (fun _ => app_ok l) σ.
Proof.
  intros Hb. revert i σ. induction n as [|n IH]; intros i σ Hσ; [by apply wp_ret|].
  cbn [for_]. apply wp_bind. eapply wp_mono; [by apply Hb|].
  intros r σ' [-> Hσ']. by apply IH.
Qed.

Ltac app_step :=
  apply wp_bind; eapply wp_mono;
  [ first [by apply show_spec | by apply command_spec | by apply background_spec]
  | let σ := fresh "σ" in let Hσ := fresh "Hσ" in intros [] σ Hσ ].

(** C31. Whatever interrupts and deferred work come in between, every text that
    irq_handler_user.c prints starts with the statistics of the driver's
    variables as they were at the read the text comes from; these moments
    follow each other, from the state before the run to the one after it; and
    the file is closed. Since read delivers no terminator, this needs one in
    the uninitialised buffer beyond the longest statistics. *)
Theorem irq_app_session (w : W) (Ht : terminated w) :
  wp (main_ buffer T_ W_ R_)
     (fun r σ => held σ = [] /\ ledger σ = [] /\ (r = 0 \/ r = 1) /\
        passes s0 (out (drv σ)).*1 (dev (drv σ)) /\ Forall shown (out (drv σ)))
     (KSt (Proc s0 []) w [] []).
Proof.
  unfold main_, open_file, close_file, sleep, rewind. up_step. apply wp_acquire.
  2:{ intros rc w1 Hne Hg. pose proof (grant_ok _ _ _ _ Hg).
      rewrite (proj2 (Z.ltb_lt rc 0)) by lia. repeat up_step. split_and!; auto; by exists []. }
  intros w1 Hg. change (0 <? 0) with false. cbv iota. wp_red.
  assert (Hok : app_ok [Fd "/dev/irq_demo"] (KSt (Proc s0 []) w1 [] [Fd "/dev/irq_demo"])).
  { split_and!; try done; [by exists []|].
    eapply terminated_mem; [by apply grant_frame in Hg | done]. }
  revert Hok. generalize (KSt (Proc s0 ([] : list (irq_stats * list byte))) w1 [] [Fd "/dev/irq_demo"]).
  intros σ Hσ. do 9 app_step. apply wp_bind. eapply wp_mono.
  { apply for_app_ok; [|done]. intros j σ' Hσ'. do 4 app_step. by apply wp_ret. }
  intros rf σ' Hσ'. cbv beta in Hσ'. do 6 app_step.
  match goal with |- wp _ _ ?x => destruct x as [[s' o'] w' h' l'] end.
  match goal with H : app_ok _ (KSt (Proc s' o') _ _ _) |- _ => destruct H as (Hh & Hl & Hs' & _ & Ho) end.
  simpl in *. subst. repeat up_step. by split_and!; auto.
Qed.
End Props.

(** While the program is away, an interrupt comes and everything pending runs. *)
Definition busy : Background sim := {| k_background w := ([Interrupt; RunTasklet; RunWork], w) |}.

Lemma busy_ok : @BackgroundOk sim busy _.
Proof. split. by intros w es w' [= <- <-]. Qed.

Definition irq_user : sim := sim_at 0 (replicate 512 NUL ++ bytes_of "TWR").

Lemma irq_app_session_witness :
  wp (main_ (H2 := busy) 0 512 513 514)
     (fun r σ => held σ = [] /\ ledger σ = [] /\ Forall shown (out (drv σ)))
     (KSt (Proc stats0 []) irq_user [] []).
Proof.
  eapply wp_mono.
  - apply (@irq_app_session sim _ _ _ _ _ _ busy busy_ok 0 512 513 514 stats0).
    + vm_compute. repeat split; discriminate.
    + exists 300. split; [lia | vm_compute; reflexivity].
  - intros r σ (Hh & Hl & _ & _ & Ho). split; [exact Hh|]. split; [exact Hl | exact Ho].
Defined.

(** The texts of a run in which ten interrupts come before every call: after
    the reset the statistics are shorter than the ones before, and the end of
    those is printed behind them. *)
Definition flood : Background sim :=
  {| k_background w := (replicate 10 Interrupt ++ [RunTasklet; RunWork], w) |}.

Definition last_text (x : outcome (Z * kst sim (proc irq_stats (irq_stats * list byte)))) : option (list byte) :=
  match x with Done (_, σ) => List.last (Some <$> (out (drv σ)).*2) None | Oops _ => None end.

Example irq_app_leftover :
  last_text (main_ (H2 := flood) 0 512 513 514 (KSt (Proc stats0 []) irq_user [] [])) =
  Some (irq_message (IrqStats 30 3 0 0 false false) ++ bytes_of "57" ++ [LF]).
Proof. vm_compute. reflexivity. Qed.
