(* ===== verification/LinkedList.v ===== *)
(** * 024_linked_list: a list of allocated nodes (list.c)

    The nodes live in a heap; the order is kept by the kernel's list macros,
    which are an interface here: [ListOps] has the operations the module calls
    and [ListLaws] what linux/list.h promises of them. A node that is read
    after it was freed is a bad pointer. *)

From S2P Require Import Prelude Kernel Wp Sim.

(** The ring of a list head, seen as the addresses of its entries in order. *)
Class ListOps := {
  list_add_tail : Z -> list Z -> list Z;
  list_del : Z -> list Z -> list Z;
  first_entry : list Z -> option Z;
  next_entry : Z -> list Z -> option Z;
}.

(** [None] stands for the list head. *)
Class ListLaws `{ListOps} : Prop := {
  add_tail_law a l : list_add_tail a l = l ++ [a];
  del_law a l1 l2 : NoDup (l1 ++ a :: l2) -> list_del a (l1 ++ a :: l2) = l1 ++ l2;
  first_law l : first_entry l = head l;
  next_law a l1 l2 : NoDup (l1 ++ a :: l2) -> next_entry a (l1 ++ a :: l2) = head l2;
}.

(** kmalloc gives a block that is not in use, or NULL. *)
Class Alloc (W : Type) := { k_kmalloc : gset Z -> W -> option Z * W }.
Class AllocOk (W : Type) `{Alloc W} : Prop := {
  kmalloc_fresh live w a w' : k_kmalloc live w = (Some a, w') -> a ∉ live;
}.

(** The allocated nodes with their data, and the ring of [Head_Node]. *)
Record nodes := Nodes { heap : gmap Z Z; ring : list Z }.

Definition nodes0 : nodes := Nodes ∅ [].

Section LinkedList.
Context {W : Type} `{Alloc W} `{ListOps}.

(** cursor->data *)
Definition data_of (a : Z) : M W nodes Z := s ← get; value BadPointer (heap s !! a).

Definition kmalloc_node : M W nodes (option Z) :=
  s ← get;
  o ← call (k_kmalloc (dom (heap s)));
  match o with
  | None => mret None
  | Some a => modify (fun s => Nodes (<[a := 0]> (heap s)) (ring s));; mret (Some a)
  end.

Definition kfree (a : Z) : M W nodes unit :=
  data_of a;; modify (fun s => Nodes (delete a (heap s)) (ring s)).

Definition add_node (value : Z) : M W nodes unit :=
  o ← kmalloc_node;
  match o with
  | None => mret tt
  | Some new =>
      modify (fun s => Nodes (<[new := value]> (heap s)) (ring s));;
      modify (fun s => Nodes (heap s) (list_add_tail new (ring s)))
  end.

(** The data printed by the traversals, in the order of printing. *)
Fixpoint print_nodes (l : list Z) : M W nodes (list Z) :=
  match l with
  | [] => mret []
  | a :: l => d ← data_of a; ds ← print_nodes l; mret (d :: ds)
  end.

Definition traverse_list : M W nodes (list Z) := s ← get; print_nodes (ring s).
Definition traverse_list_reverse : M W nodes (list Z) := s ← get; print_nodes (reverse (ring s)).

(** n = list_next_entry(n): the entry after [n], which has to be alive. *)
Definition next_of (n : option Z) : M W nodes (option Z) :=
  match n with
  | None => mret None
  | Some a => data_of a;; s ← get; mret (next_entry a (ring s))
  end.

(** list_for_each_entry_safe with the removal of the entries whose data
    satisfies [p]: the following entry is fetched before the body runs. *)
Fixpoint sweep (fuel : nat) (p : Z -> bool) (cursor tmp : option Z) : M W nodes unit :=
  match cursor with
  | None => mret tt
  | Some c =>
      match fuel with
      | O => oops OutOfFuel
      | S fuel =>
          d ← data_of c;
          (if p d then
             modify (fun s => Nodes (heap s) (list_del c (ring s)));; kfree c
           else mret tt);;
          tmp' ← next_of tmp;
          sweep fuel p tmp tmp'
      end
  end.

(** One more step than there are entries is enough. *)
Definition for_each_safe (p : Z -> bool) : M W nodes unit :=
  s ← get;
  let cursor := first_entry (ring s) in
  tmp ← next_of cursor;
  sweep (length (ring s)) p cursor tmp.

Definition remove_node (value : Z) : M W nodes unit := for_each_safe (fun d => d =? value).
Definition cleanup_list : M W nodes unit := for_each_safe (fun _ => true).

Definition list_init : M W nodes Z :=
  add_node 10;; add_node 20;; add_node 30;; add_node 40;; add_node 50;;
  traverse_list;; traverse_list_reverse;;
  remove_node 20;;
  traverse_list;;
  mret 0.

Definition list_exit : M W nodes unit := cleanup_list.
End LinkedList.

(** ** Invariant: the live nodes are exactly the entries of the list *)

Record nodes_ok (s : nodes) : Prop := {
  ok_nodup : NoDup (ring s);
  ok_live : forall a, a ∈ ring s <-> is_Some (heap s !! a);
}.

(** The data of the list, in order. *)
Definition values (s : nodes) : list Z := (fun a => default 0 (heap s !! a)) <$> ring s.

Lemma nodes0_ok : nodes_ok nodes0.
Proof.
  split; [constructor|]. intros a. simpl. rewrite lookup_empty. split; [by intros ?%elem_of_nil|].
  by intros [? ?].
Qed.

Section Specs.
Context {W : Type} `{AllocOk W} `{ListLaws}.
Implicit Types (s : nodes) (w : W) (h : list lock) (l : list resource).

Lemma wp_data_of a v Q s w h l :
  heap s !! a = Some v -> Q v (KSt s w h l) -> wp (data_of a) Q (KSt s w h l).
Proof. intros Ha HQ. unfold data_of. wp_step; wp_step. by rewrite Ha. Qed.

Lemma print_nodes_spec rs s w h l :
  nodes_ok s -> (forall a, a ∈ rs -> a ∈ ring s) ->
  wp (print_nodes rs)
     (fun ds σ => ds = (fun a => default 0 (heap s !! a)) <$> rs /\ σ = KSt s w h l) (KSt s w h l).
Proof.
  intros Hok. induction rs as [|a rs IH]; intros Hin; simpl; [by apply wp_ret|].
  destruct (proj1 (ok_live s Hok a) (Hin a ltac:(constructor))) as [v Hv].
  apply wp_bind, wp_data_of with v; [done|]. apply wp_bind.
  eapply wp_mono; [apply IH; intros b Hb; apply Hin; by constructor|].
  intros ds σ [-> ->]. apply wp_ret. by rewrite Hv.
Qed.

Lemma add_node_spec v s w h l :
  nodes_ok s ->
  wp (add_node v)
     (fun _ σ => nodes_ok (drv σ) /\ held σ = h /\ ledger σ = l /\
        (drv σ = s \/ values (drv σ) = values s ++ [v]))
     (KSt s w h l).
Proof.
  intros Hok. destruct Hok as [Hnd Hlive]. unfold add_node, kmalloc_node.
  wp_step; wp_step; wp_step. wp_step. apply wp_call. intros o w' E. wp_red.
  destruct o as [a|]; wp_auto.
  2:{ split_and!; auto. by split. }
  apply kmalloc_fresh in E. apply not_elem_of_dom in E.
  assert (Ha : a ∉ ring s) by (intros Ha%Hlive; rewrite E in Ha; by destruct Ha).
  simpl. rewrite add_tail_law. split_and!; try done.
  - split; simpl.
    + apply NoDup_app. split_and!; [done | | apply NoDup_singleton].
      intros b Hb ->%list_elem_of_singleton. done.
    + intros b. rewrite elem_of_app, list_elem_of_singleton, Hlive. rewrite insert_insert_eq.
      destruct (decide (b = a)) as [->|Hne].
      * rewrite lookup_insert_eq. split; [by eauto | by right].
      * rewrite lookup_insert_ne by done. tauto.
  - right. unfold values. simpl. rewrite fmap_app, insert_insert_eq. simpl.
    rewrite lookup_insert_eq. f_equal. apply list_fmap_ext. intros i b Hb.
    rewrite lookup_insert_ne; [done|]. intros ->. by apply list_elem_of_lookup_2 in Hb.
Qed.

Lemma next_of_spec pre rest s w h l :
  nodes_ok s -> ring s = pre ++ rest ->
  wp (next_of (head rest)) (fun r σ => r = head (tail rest) /\ σ = KSt s w h l) (KSt s w h l).
Proof.
  intros Hok Hr. destruct rest as [|t rest]; simpl; [by apply wp_ret|].
  destruct (proj1 (ok_live s Hok t)) as [v Hv].
  { rewrite Hr. apply elem_of_app. right. by constructor. }
  apply wp_bind, wp_data_of with v; [done|]. wp_auto.
  rewrite Hr, next_law; [done|]. rewrite <- Hr. apply Hok.
Qed.

(** Unlinking and freeing the entry [c]. *)
Lemma unlink_ok c pre rest s :
  nodes_ok s -> ring s = pre ++ c :: rest ->
  nodes_ok (Nodes (delete c (heap s)) (pre ++ rest)).
Proof.
  intros [Hnd Hlive] Hr. rewrite Hr in Hnd, Hlive.
  pose proof Hnd as Hnd'. apply NoDup_app in Hnd' as (N1 & N2 & [N3 N4]%NoDup_cons).
  split; simpl.
  - apply NoDup_app. split_and!; [done | | done]. intros a Ha Hin. apply (N2 a Ha). by constructor.
  - intros a. destruct (decide (a = c)) as [->|Hne].
    + rewrite lookup_delete_eq, elem_of_app. split; [|by intros [? ?]].
      intros [Hc|Hc]; [|done]. destruct (N2 c Hc). by constructor.
    + rewrite lookup_delete_ne by done. rewrite <- Hlive, !elem_of_app, elem_of_cons. tauto.
Qed.

(** The data of the entries is a function [val] of their addresses. *)
Definition labelled (val : Z -> Z) s : Prop :=
  forall a, a ∈ ring s -> heap s !! a = Some (val a).

Lemma values_labelled val s : labelled val s -> values s = val <$> ring s.
Proof.
  intros Hv. apply list_fmap_ext. intros i a Ha%list_elem_of_lookup_2. by rewrite Hv.
Qed.

Lemma labelled_self s : nodes_ok s -> labelled (fun a => default 0 (heap s !! a)) s.
Proof. intros Hok a [v Hv]%(ok_live s Hok). by rewrite Hv. Qed.

(** The loop over [rest], with [pre] already kept in front of it. *)
Lemma sweep_spec p val fuel pre rest s w h l :
  nodes_ok s -> labelled val s -> ring s = pre ++ rest -> (length rest <= fuel)%nat ->
  wp (sweep fuel p (head rest) (head (tail rest)))
     (fun _ σ => nodes_ok (drv σ) /\ labelled val (drv σ) /\ held σ = h /\ ledger σ = l /\
        ring (drv σ) = pre ++ filter (fun a => p (val a) = false) rest)
     (KSt s w h l).
Proof.
  revert fuel pre s w. induction rest as [|c rest IH]; intros fuel pre s w Hok Hval Hr Hf.
  { destruct fuel; apply wp_ret; split_and!; done. }
  destruct fuel as [|fuel]; [simpl in Hf; lia|].
  assert (Hv : heap s !! c = Some (val c)).
  { apply Hval. rewrite Hr. apply elem_of_app. right. by constructor. }
  cbn [sweep head tail]. apply wp_bind, wp_data_of with (val c); [done|]. apply wp_bind.
  rewrite filter_cons. simpl in Hf.
  destruct (p (val c)) eqn:Ep; [rewrite decide_False by done | rewrite decide_True by done].
  - wp_step; wp_step. unfold kfree. apply wp_bind, wp_data_of with (val c); [done|].
    wp_step. simpl. rewrite Hr, del_law by (rewrite <- Hr; apply Hok).
    pose proof (unlink_ok c pre rest s Hok Hr) as Hok'.
    set (s' := Nodes _ _) in *. wp_step. eapply wp_mono; [by apply (next_of_spec pre rest)|].
    intros tmp σ [-> ->]. apply (IH fuel pre s'); [done | | done | lia].
    intros a Ha. pose proof (proj1 (ok_live s' Hok' a) Ha) as Hlive. simpl in *.
    destruct (decide (a = c)) as [->|Hne]; [rewrite lookup_delete_eq in Hlive; by destruct Hlive|].
    rewrite lookup_delete_ne by done. apply Hval. rewrite Hr.
    rewrite elem_of_app in Ha |- *. rewrite elem_of_cons. tauto.
  - wp_step. apply wp_bind.
    assert (Hr' : ring s = (pre ++ [c]) ++ rest) by by rewrite <- app_assoc.
    eapply wp_mono; [by apply (next_of_spec (pre ++ [c]) rest)|]. intros tmp σ [-> ->].
    eapply wp_mono; [apply (IH fuel (pre ++ [c]) s); [done | done | done | lia]|].
    intros [] σ (? & ? & ? & ? & Hring). split_and!; try done. by rewrite Hring, <- app_assoc.
Qed.

Lemma filter_values (p : Z -> bool) (val : Z -> Z) (rs : list Z) :
  val <$> filter (fun a => p (val a) = false) rs = filter (fun d => p d = false) (val <$> rs).
Proof.
  induction rs as [|a rs IH]; [done|]. rewrite fmap_cons, !filter_cons.
  case_decide; [by rewrite fmap_cons, IH | done].
Qed.

Lemma for_each_safe_spec p s w h l :
  nodes_ok s ->
  wp (for_each_safe p)
     (fun _ σ => nodes_ok (drv σ) /\ held σ = h /\ ledger σ = l /\
                 values (drv σ) = filter (fun d => p d = false) (values s))
     (KSt s w h l).
Proof.
  intros Hok. pose proof (labelled_self s Hok) as Hval. set (val := fun a => _) in Hval.
  unfold for_each_safe. wp_step; wp_step. cbv zeta. rewrite first_law. wp_step.
  eapply wp_mono; [by apply (next_of_spec [] (ring s))|]. intros tmp σ [-> ->].
  eapply wp_mono; [by apply (sweep_spec p val _ [] (ring s))|].
  intros [] σ (Hok' & Hval' & Hh & Hl & Hring). split_and!; try done.
  rewrite (values_labelled val _ Hval'), (values_labelled val _ Hval), Hring. apply filter_values.
Qed.

(** C27. Removing a value unlinks and frees every node that holds it and no
    other, keeps the order of the rest, leaves no freed node on the list and
    no live node off it, and never reads a freed node or runs out of steps. *)
Theorem remove_node_removes (v : Z) (s : nodes) (w : W) (Hok : nodes_ok s) :
  wp (remove_node v)
     (fun _ σ => nodes_ok (drv σ) /\ held σ = [] /\
                 values (drv σ) = filter (fun d => d <> v) (values s))
     (KSt s w [] []).
Proof.
  eapply wp_mono; [by apply for_each_safe_spec|]. intros [] σ (Hok' & Hh & _ & Hv).
  split_and!; try done. rewrite Hv. apply list_filter_iff. intros d. apply Z.eqb_neq.
Qed.

(** Adding to a well-formed list: what [vs] gains is at most the new value. *)
Lemma wp_add_node v (vs : list Z) Q s w h l :
  nodes_ok s -> sublist (values s) vs ->
  (forall s' w', nodes_ok s' -> sublist (values s') (vs ++ [v]) -> Q tt (KSt s' w' h l)) ->
  wp (add_node v) Q (KSt s w h l).
Proof.
  intros Hok Hs HQ. eapply wp_mono; [by apply add_node_spec|].
  intros [] [s' w' h' l'] (Hok' & Hh & Hl & Hv). simpl in *. subst h' l'. apply HQ; [done|].
  destruct Hv as [->| ->]; [by apply sublist_inserts_r | by apply sublist_app].
Qed.

Lemma wp_print_nodes rs Q s w h l :
  nodes_ok s -> (forall a, a ∈ rs -> a ∈ ring s) ->
  (forall ds, Q ds (KSt s w h l)) -> wp (print_nodes rs) Q (KSt s w h l).
Proof.
  intros Hok Hin HQ. eapply wp_mono; [by apply print_nodes_spec|]. by intros ds σ [_ ->].
Qed.

Lemma filter_sublist (p : Z -> Prop) `{!forall x, Decision (p x)} (l1 l2 : list Z) :
  sublist l1 l2 -> sublist (filter p l1) (filter p l2).
Proof.
  induction 1 as [|x a b _ IH|x a b _ IH]; [done| |]; rewrite ?filter_cons.
  - case_decide; [by constructor | done].
  - case_decide; [by constructor | done].
Qed.

(** Loading and unloading leaks nothing, whichever allocations fail: after
    the load the list holds those of 10, 30, 40 and 50 that could be
    allocated, in that order, and after the unload no node is left. *)
Theorem list_load_unload (w : W) :
  wp (rc ← list_init; s ← get; list_exit;; mret (rc, values s))
     (fun r σ => r.1 = 0 /\ sublist r.2 [10; 30; 40; 50] /\
                 ring (drv σ) = [] /\ heap (drv σ) = ∅ /\ held σ = [])
     (KSt nodes0 w [] []).
Proof.
  unfold list_init, traverse_list, traverse_list_reverse.
  do 2 apply wp_bind. apply (wp_add_node 10 []); [apply nodes0_ok | apply sublist_nil_l|]. intros s1 w1 O1 S1.
  apply wp_bind. eapply wp_add_node; [done..|]. intros s2 w2 O2 S2.
  apply wp_bind. eapply wp_add_node; [done..|]. intros s3 w3 O3 S3.
  apply wp_bind. eapply wp_add_node; [done..|]. intros s4 w4 O4 S4.
  apply wp_bind. eapply wp_add_node; [done..|]. intros s5 w5 O5 S5. simpl in S5.
  do 3 wp_step. apply wp_print_nodes; [done | done|]. intros _.
  do 3 wp_step. apply wp_print_nodes; [done | by intros a; rewrite elem_of_reverse|]. intros _.
  wp_step. eapply wp_mono; [by apply for_each_safe_spec|].
  intros [] [s6 w6 h6 l6] (O6 & Hh & Hl & V6). simpl in *. subst h6 l6.
  do 3 wp_step. apply wp_print_nodes; [done | done|]. intros _.
  do 4 wp_step. eapply wp_mono; [by apply for_each_safe_spec|].
  intros [] [s7 w7 h7 l7] (O7 & Hh & Hl & V7). simpl in *. subst h7 l7. apply wp_ret. simpl.
  assert (Hring : ring s7 = []).
  { destruct (ring s7) as [|a rs] eqn:Er; [done|]. exfalso.
    assert (default 0 (heap s7 !! a) ∈ values s7) as Hin
      by (unfold values; rewrite Er; by constructor).
    rewrite V7 in Hin. by apply list_elem_of_filter in Hin as [? _]. }
  split_and!; try done.
  - rewrite V6. change [10; 30; 40; 50] with (filter (fun d => (d =? 20) = false) [10; 20; 30; 40; 50]).
    by apply filter_sublist.
  - apply map_empty. intros a. destruct (heap s7 !! a) as [v|] eqn:E; [|done].
    assert (a ∈ ring s7) as Ha by (apply (ok_live s7 O7); eauto).
    rewrite Hring in Ha. by apply elem_of_nil in Ha.
Qed.
End Specs.

(** ** An implementation of the interface, and the properties at it *)

Fixpoint after (a : Z) (l : list Z) : option Z :=
  match l with
  | [] => None
  | b :: l => if decide (a = b) then head l else after a l
  end.

#[export] Instance ring_ops : ListOps := {
  list_add_tail a l := l ++ [a];
  list_del a l := default l (remove_one a l);
  first_entry := head;
  next_entry := after;
}.

Lemma remove_one_app (a : Z) l1 l2 :
  a ∉ l1 -> remove_one a (l1 ++ a :: l2) = Some (l1 ++ l2).
Proof.
  induction l1 as [|b l1 IH]; intros Ha; simpl; [by rewrite decide_True|].
  apply not_elem_of_cons in Ha as [Hb Ha]. rewrite decide_False by done. by rewrite IH.
Qed.

Lemma after_app (a : Z) l1 l2 : a ∉ l1 -> after a (l1 ++ a :: l2) = head l2.
Proof.
  induction l1 as [|b l1 IH]; intros Ha; simpl; [by rewrite decide_True|].
  apply not_elem_of_cons in Ha as [Hb Ha]. rewrite decide_False by done. by apply IH.
Qed.

Lemma nodup_mid (a : Z) l1 l2 : NoDup (l1 ++ a :: l2) -> a ∉ l1.
Proof. intros (_ & Hd & _)%NoDup_app Ha. apply (Hd a Ha). by constructor. Qed.

#[export] Instance ring_laws : ListLaws.
Proof.
  split; simpl; try done.
  - intros a l1 l2 Hn. by rewrite remove_one_app by (by eapply nodup_mid).
  - intros a l1 l2 Hn. apply after_app. by eapply nodup_mid.
Qed.

(** A zero grants an allocation. *)
#[export] Instance sim_alloc : Alloc sim := {
  k_kmalloc live w :=
    match sim_grants w with
    | [] => (Some (fresh live), w)
    | g :: gs => (if g =? 0 then Some (fresh live) else None, set_grants gs w)
    end;
}.

#[export] Instance sim_alloc_ok : AllocOk sim.
Proof.
  split. intros live w a w'. simpl. destruct (sim_grants w) as [|g gs].
  - intros [= <- _]. apply is_fresh.
  - destruct (g =? 0); [|done]. intros [= <- _]. apply is_fresh.
Qed.

Definition two_nodes : nodes := Nodes {[ 8 := 20; 9 := 30; 10 := 20 ]} [8; 9; 10].

Lemma two_nodes_ok : nodes_ok two_nodes.
Proof.
  assert (Hd : forall a, is_Some (heap two_nodes !! a) <-> a ∈ dom (heap two_nodes))
    by (intros a; by rewrite elem_of_dom).
  split.
  - apply (bool_decide_unpack _). vm_compute. exact I.
  - intros a. rewrite Hd. simpl. rewrite !dom_insert, dom_singleton. set_solver.
Qed.

Lemma remove_node_removes_witness :
  wp (remove_node 20) (fun _ σ => values (drv σ) = [30]) (KSt two_nodes (sim_at 0 []) [] []).
Proof.
  eapply wp_mono; [apply (remove_node_removes 20 two_nodes (sim_at 0 []) two_nodes_ok)|].
  intros r σ (_ & _ & ->). vm_compute. reflexivity.
Defined.

(** The second and the fourth allocation fail. *)
Lemma list_load_unload_witness :
  wp (rc ← list_init; s ← get; list_exit;; mret (rc, values s))
     (fun r σ => r.1 = 0 /\ heap (drv σ) = ∅)
     (KSt nodes0 (set_grants [0; 1; 0; 1] (sim_at 0 [])) [] []).
Proof.
  eapply wp_mono; [apply (list_load_unload (set_grants [0; 1; 0; 1] (sim_at 0 [])))|].
  intros r σ (H1 & _ & _ & H2 & _). split; [exact H1 | exact H2].
Defined.
