(* ===== verification/Sensor.v ===== *)
(** * The platform sensors: 016, 017 and 018

    Three versions of a driver that shows a temperature register and stores
    to a control register. They differ in where probe finds the registers: a
    platform resource (016, module [Plat]; 017, module [Dt], the same text
    bound through the device tree) or custom device tree properties (018,
    module [Of]). Registers, device tree and number parsing are interfaces. *)

From S2P Require Import Prelude Kernel Wp Sim.

(** platform_get_resource, of_property_read_u32_index, devm_ioremap (the
    address, or NULL), ioread32 and iowrite32. *)
Class Platform (W : Type) := {
  k_get_resource : W -> option (Z * Z);
  k_of_u32 : string -> Z -> W -> option Z;
  k_ioremap : Z -> Z -> W -> option Z * W;
  k_ioread32 : Z -> W -> Z * W;
  k_iowrite32 : Z -> Z -> W -> W;
}.

(** A read delivers 32 bits. *)
Class PlatformOk (W : Type) `{Platform W} : Prop := {
  ioread_ok a w v w' : k_ioread32 a w = (v, w') -> 0 <= v < 2 ^ 32;
}.

(** kstrtouint(s, base, &val): the result and the value. In base 0 a decimal
    string, with or without the newline that echo adds, is its number. *)
Class ParseUint := { k_kstrtouint : list byte -> Z -> Z * Z }.
Class ParseUintOk `{ParseUint} : Prop := {
  parse_dec v : 0 <= v < 2 ^ 32 -> k_kstrtouint (dec v) 0 = (0, v);
  parse_dec_lf v : 0 <= v < 2 ^ 32 -> k_kstrtouint (dec v ++ [LF]) 0 = (0, v);
}.

(** A mapped register block. *)
Record iomem := IoMem { io_addr : Z; io_size : Z }.

Section Access.
Context {W D : Type} `{Platform W}.

(** A 32-bit access at [off], inside the mapping. *)
Definition ioread32 (m : iomem) (off : Z) : M W D Z :=
  if in_bounds off 4 (io_size m) then call (k_ioread32 (io_addr m + off)) else oops OutOfBounds.
Definition iowrite32 (v : Z) (m : iomem) (off : Z) : M W D unit :=
  if in_bounds off 4 (io_size m)
  then call (fun w => (tt, k_iowrite32 v (io_addr m + off) w)) else oops OutOfBounds.

Definition devm_ioremap (start size : Z) : M W D (option iomem) :=
  o ← call (k_ioremap start size);
  mret ((fun a => IoMem a size) <$> o).

(** devm_kzalloc: the device core frees the block with the device, so the
    module does not own it. *)
Definition devm_kzalloc `{Grants W} : M W D Z := call (k_grant (Heap "pdata")).

(** device_remove_file does nothing for a file that was not created. *)
Definition device_remove_file_if (m : Z) (attr : string) : M W D unit := fun σ =>
  match remove_one (DevFile m attr) (ledger σ) with
  | Some l => Done (tt, set_ledger l σ)
  | None => Done (tt, σ)
  end.
End Access.

(** sensor_pltdvc.c: the memory resource, first and last address. *)
Definition sensor_resources : Z * Z := (1342177280, 1342181375).

(** resource_size(res) *)
Definition resource_size (r : Z * Z) : Z := r.2 - r.1 + 1.

(** ** 016_platform_sensor_data *)
Module Plat.

Record sensor_dev := SensorDev {
  mem_res : Z * Z;
  base_addr : iomem;
  control_value : Z;
}.

(** The driver data of the device, [None] for NULL. *)
Definition drvdata : Type := option sensor_dev.

Section Handlers.
Context {W : Type} `{Platform W} `{ParseUint} `{Grants W}.

(** The result and the text left in the page. *)
Definition temp_show : M W drvdata (Z * list byte) :=
  d ← get;
  pdata ← value NullDeref d;
  temp_value ← ioread32 (base_addr pdata) 0;
  let out := dec temp_value ++ [LF] in
  mret (zlen out, out).

Definition control_store (buf : list byte) (count : Z) : M W drvdata Z :=
  d ← get;
  pdata ← value NullDeref d;
  let '(rc, val) := k_kstrtouint buf 0 in
  (if rc =? 0 then
     modify (fun _ => Some (SensorDev (mem_res pdata) (base_addr pdata) val));;
     iowrite32 val (base_addr pdata) 4
   else mret tt);;
  mret count.

Definition sensor_probe : M W drvdata Z :=
  rc ← devm_kzalloc;
  if negb (rc =? 0) then mret (- ENOMEM)
  else
    r ← call (fun w => (k_get_resource w, w));
    match r with
    | None => mret (- ENOENT)
    | Some res =>
        m ← devm_ioremap res.1 (resource_size res);
        match m with
        | None => mret (- ENOMEM)
        | Some base =>
            modify (fun _ => Some (SensorDev res base 0));;
            device_create_file 0 "temp";;
            device_create_file 0 "control";;
            mret 0
        end
    end.

Definition sensor_remove : M W drvdata Z :=
  device_remove_file_if 0 "temp";;
  device_remove_file_if 0 "control";;
  mret 0.
End Handlers.
End Plat.

(** ** 017_platform_sys_dt: the same functions in its own sensor_pltdrv.c *)
Module Dt.
Definition sensor_dev : Type := Plat.sensor_dev.
Definition temp_show {W} `{Platform W} : M W Plat.drvdata (Z * list byte) := Plat.temp_show.
Definition control_store {W} `{Platform W} `{ParseUint} (buf : list byte) (count : Z)
  : M W Plat.drvdata Z := Plat.control_store buf count.
Definition sensor_probe {W} `{Platform W} `{Grants W} : M W Plat.drvdata Z := Plat.sensor_probe.
Definition sensor_remove {W} : M W Plat.drvdata Z := Plat.sensor_remove.
End Dt.

(** ** 018_pltdrv_dt_ofread *)
Module Of.

Record sensor_dev := SensorDev {
  base_addr : iomem;
  control_value : Z;
  threshold : Z;
}.

Definition drvdata : Type := option sensor_dev.

Section Handlers.
Context {W : Type} `{Platform W} `{ParseUint} `{Grants W}.

Definition temp_show : M W drvdata (Z * list byte) :=
  d ← get;
  pdata ← value NullDeref d;
  temp_value ← ioread32 (base_addr pdata) 0;
  let out := dec temp_value ++ [LF] in
  mret (zlen out, out).

Definition control_store (buf : list byte) (count : Z) : M W drvdata Z :=
  d ← get;
  pdata ← value NullDeref d;
  let '(rc, val) := k_kstrtouint buf 0 in
  (if rc =? 0 then
     modify (fun _ => Some (SensorDev (base_addr pdata) val (threshold pdata)));;
     iowrite32 val (base_addr pdata) 4
   else mret tt);;
  mret count.

Definition threshold_show : M W drvdata (Z * list byte) :=
  d ← get;
  pdata ← value NullDeref d;
  let out := dec (threshold pdata) ++ [LF] in
  mret (zlen out, out).

Definition sensor_probe : M W drvdata Z :=
  rc ← devm_kzalloc;
  if negb (rc =? 0) then mret (- ENOMEM)
  else
    base ← call (fun w => (k_of_u32 "my-reg" 0 w, w));
    size ← call (fun w => (k_of_u32 "my-reg" 1 w, w));
    match base, size with
    | Some base, Some size =>
        m ← devm_ioremap base size;
        match m with
        | None => mret (- ENOMEM)
        | Some m =>
            thr ← call (fun w => (k_of_u32 "threshold" 0 w, w));
            modify (fun _ => Some (SensorDev m 0 (default 0 thr)));;
            device_create_file 0 "temp";;
            device_create_file 0 "control";;
            device_create_file 0 "threshold";;
            mret 0
        end
    | _, _ => mret (- EINVAL)
    end.

Definition sensor_remove : M W drvdata Z :=
  device_remove_file_if 0 "temp";;
  device_remove_file_if 0 "control";;
  device_remove_file_if 0 "threshold";;
  mret 0.
End Handlers.
End Of.

(** ** Properties *)

Lemma remove_one_notin (r : resource) l : r ∉ l -> remove_one r l = None.
Proof.
  induction l as [|r' l IH]; [done|]. intros [Hne Hin]%not_elem_of_cons. simpl.
  rewrite decide_False by done. by rewrite IH.
Qed.

Section Props.
Context {W : Type} `{!Platform W} `{!PlatformOk W} `{!ParseUint} `{!ParseUintOk} `{!Grants W}.
Implicit Types (w : W) (h : list lock) (l : list resource).

(** The ledger after an attribute was created or not. *)
Definition created (attr : string) (P : list resource -> Prop) l : Prop :=
  exists l0, P l0 /\ (l = l0 \/ l = DevFile 0 attr :: l0).

(** After creating the attribute or not, removing it leaves what was there. *)
Lemma wp_create_ignored {D} attr Q (d : D) w h l :
  (forall l' rc w', l' = l \/ l' = DevFile 0 attr :: l -> Q rc (KSt d w' h l')) ->
  wp (device_create_file 0 attr) Q (KSt d w h l).
Proof.
  intros HQ. unfold device_create_file. apply wp_acquire.
  - intros w' _. apply HQ. by right.
  - intros rc w' _ _. apply HQ. by left.
Qed.

Lemma wp_remove_if {D} attr Q (d : D) w h l l' :
  remove_one (DevFile 0 attr) l = Some l' \/ remove_one (DevFile 0 attr) l = None /\ l' = l ->
  Q tt (KSt d w h l') -> wp (device_remove_file_if 0 attr) Q (KSt d w h l).
Proof.
  intros Hr HQ. unfold wp, device_remove_file_if. simpl.
  destruct Hr as [->|[-> ->]]; done.
Qed.

Lemma plat_probe_spec w h l :
  wp Plat.sensor_probe
     (fun rc σ => held σ = h /\
        ((rc < 0 /\ drv σ = None /\ ledger σ = l) \/
         (rc = 0 /\ exists res base w',
            k_get_resource w' = Some res /\
            drv σ = Some (Plat.SensorDev res (IoMem base (resource_size res)) 0) /\
            created "control" (created "temp" (eq l)) (ledger σ))))
     (KSt None w h l).
Proof.
  unfold Plat.sensor_probe, devm_kzalloc. wp_step. apply wp_call. intros rc w1 _. wp_red.
  destruct (negb (rc =? 0)); [apply wp_ret; split; [done|]; by left|].
  wp_step. apply wp_call. intros o w2 [= <- <-]. wp_red.
  destruct (k_get_resource w1) as [res|] eqn:Er; [|apply wp_ret; split; [done|]; by left].
  unfold devm_ioremap. do 2 wp_step. apply wp_call. intros m w2 _. wp_red. wp_step.
  destruct m as [a|]; simpl; [|apply wp_ret; split; [done|]; by left].
  do 2 wp_step. wp_step. apply wp_create_ignored. intros l1 r1 w3 Hl1.
  wp_step. apply wp_create_ignored. intros l2 r2 w4 Hl2. wp_step. split; [done|]. right.
  split; [done|]. exists res, a, w1. split_and!; [done..|]. exists l1. split; [|done]. by exists l.
Qed.

(** The session of the driver and sensor_app.c: when probe succeeds on a
    resource of at least two registers, writing a number to the control
    attribute stores it in the control register and in the driver data, and
    the temperature attribute then shows, in decimal, what the temperature
    register reads; both registers lie in the mapping. *)
Theorem sensor_session (v : Z) (w : W) (Hv : 0 <= v < 2 ^ 32)
    (Hres : forall w r, k_get_resource w = Some r -> 8 <= resource_size r) :
  wp (rc ← Plat.sensor_probe;
      if negb (rc =? 0) then mret (rc, 0, [])
      else n ← Plat.control_store (dec v) (zlen (dec v));
           t ← Plat.temp_show; mret (rc, n, t.2))
     (fun r σ => held σ = [] /\
        (r.1.1 = 0 ->
         exists pdata temp w1 base,
           drv σ = Some pdata /\ Plat.control_value pdata = v /\
           io_addr (Plat.base_addr pdata) = base /\
           k_ioread32 base (k_iowrite32 v (base + 4) w1) = (temp, world σ) /\
           r = (0, zlen (dec v), dec temp ++ [LF]) /\ of_digits (dec temp) = temp))
     (KSt None w [] []).
Proof.
  apply wp_bind. eapply wp_mono; [apply plat_probe_spec|].
  intros rc [d w1 h1 l1] (Hh & Hr). simpl in *. subst h1.
  destruct Hr as [(Hneg & _ & _)|(-> & res & base & w' & Er & -> & _)].
  { rewrite (proj2 (Z.eqb_neq rc 0)) by lia. wp_auto. split; [done|]. lia. }
  pose proof (Hres _ _ Er) as Hsz. change (negb (0 =? 0)) with false. cbv iota.
  unfold Plat.control_store. do 4 wp_step. rewrite parse_dec by done. wp_step.
  change (0 =? 0) with true. cbv iota. do 2 wp_step. unfold iowrite32. simpl.
  rewrite in_bounds_true by lia. apply wp_call. intros [] w2 [= <-]. wp_red.
  wp_step. unfold Plat.temp_show. do 3 wp_step. wp_step. wp_step. unfold ioread32. simpl.
  rewrite in_bounds_true by lia. wp_step. apply wp_call. rewrite Z.add_0_r. intros temp w3 Et. wp_red.
  wp_auto. split; [done|]. intros _. eexists _, temp, w1, base. split_and!; try done.
  apply dec_roundtrip. by apply ioread_ok in Et as [? _].
Qed.

Lemma of_probe_spec w h l :
  wp Of.sensor_probe
     (fun rc σ => held σ = h /\
        ((rc < 0 /\ drv σ = None /\ ledger σ = l) \/
         (rc = 0 /\
          (exists base size w' w'', k_of_u32 "my-reg" 1 w' = Some size /\
             drv σ = Some (Of.SensorDev (IoMem base size) 0 (default 0 (k_of_u32 "threshold" 0 w'')))) /\
          created "threshold" (created "control" (created "temp" (eq l))) (ledger σ))))
     (KSt None w h l).
Proof.
  unfold Of.sensor_probe, devm_kzalloc. wp_step. apply wp_call. intros rc w1 _. wp_red.
  destruct (negb (rc =? 0)); [apply wp_ret; split; [done|]; by left|].
  wp_step. apply wp_call. intros o1 w2 [= <- <-]. wp_step. apply wp_call. intros o2 w2 [= <- <-].
  wp_red. destruct (k_of_u32 "my-reg" 0 w1) as [base|]; [|apply wp_ret; split; [done|]; by left].
  destruct (k_of_u32 "my-reg" 1 w1) as [size|] eqn:Es; [|apply wp_ret; split; [done|]; by left].
  unfold devm_ioremap. do 2 wp_step. apply wp_call. intros m w2 _. wp_red. wp_step.
  destruct m as [a|]; simpl; [|apply wp_ret; split; [done|]; by left].
  wp_step. apply wp_call. intros thr w3 [= <- <-]. do 2 wp_step.
  wp_step. apply wp_create_ignored. intros l1 r1 w3 Hl1.
  wp_step. apply wp_create_ignored. intros l2 r2 w4 Hl2.
  wp_step. apply wp_create_ignored. intros l3 r3 w5 Hl3. wp_step. split; [done|]. right.
  split; [done|]. split; [by eexists _, _, w1, _|].
  exists l2. split; [|done]. exists l1. split; [|done]. by exists l.
Qed.

(** A device of 018 that probes leaves nothing behind: a failed probe owns
    no attribute, and after a successful one, whichever of the three attribute
    files could be created (their results are ignored), remove takes all of
    them away. *)
Theorem of_probe_remove (w : W) :
  wp (rc ← Of.sensor_probe;
      if negb (rc =? 0) then mret rc else Of.sensor_remove;; mret rc)
     (fun rc σ => rc <= 0 /\ held σ = [] /\ ledger σ = [] /\
                  (rc < 0 -> drv σ = None) /\ (rc = 0 -> is_Some (drv σ)))
     (KSt None w [] []).
Proof.
  apply wp_bind. eapply wp_mono; [apply of_probe_spec|].
  intros rc [d w1 h1 l1] (Hh & Hr). simpl in *. subst h1.
  destruct Hr as [(Hneg & -> & ->)|(-> & (base & size & w' & w'' & _ & ->) & Hl)].
  { rewrite (proj2 (Z.eqb_neq rc 0)) by lia. wp_auto. split_and!; try done; lia. }
  change (negb (0 =? 0)) with false. cbv iota. unfold Of.sensor_remove.
  destruct Hl as (l2 & (l3 & (? & <- & [->| ->]) & [->| ->]) & [->| ->]).
  all: wp_step; wp_step; (eapply wp_remove_if; [first [by left | by right]|]).
  all: wp_step; (eapply wp_remove_if; [first [by left | by right]|]).
  all: wp_step; (eapply wp_remove_if; [first [by left | by right]|]).
  all: wp_auto; split_and!; try done; lia.
Qed.
End Props.

(** ** The properties at concrete inputs *)

(** Two registers at address 0 of the simulated memory; the resource of
    sensor_pltdvc.c; no device tree. *)
#[export] Instance sim_platform : Platform sim := {
  k_get_resource _ := Some sensor_resources;
  k_of_u32 p i w := if bool_decide (p = "my-reg"%string) then Some (4096 * (1 - i) + 4096) else None;
  k_ioremap a _ w := (Some a, w);
  k_ioread32 a w := (u32 (le_val (uread (umem w) a 4)), w);
  k_iowrite32 v a w := set_mem (snd (foldl (fun '(i, m) b => (i + 1, <[i := b]> m))
                                           (a, sim_mem w) (le_bytes 4 v))) w;
}.

#[export] Instance sim_platform_ok : PlatformOk sim.
Proof. split. intros a w v w' [= <- <-]. by apply uwrap_range. Qed.

(** Decimal digits, with an optional newline. *)
Definition parse_digits (s : list byte) (base : Z) : Z * Z :=
  let ds := filter (fun c => c <> LF) s in
  if forallb (fun c => (48 <=? byte_val c) && (byte_val c <=? 57)) ds
  then (0, of_digits ds) else (- EINVAL, 0).

#[export] Instance digit_parser : ParseUint := { k_kstrtouint := parse_digits }.

Lemma digits_are_digits n z :
  0 <= z -> forallb (fun c => (48 <=? byte_val c) && (byte_val c <=? 57)) (digits n z) = true /\
  filter (fun c => c <> LF) (digits n z) = digits n z.
Proof.
  revert z. induction n as [|n IH]; intros z Hz; [done|]. cbn [digits].
  destruct (IH (z / 10) ltac:(dlia)) as [IH1 IH2].
  pose proof (Z.mod_pos_bound z 10 ltac:(lia)).
  assert (Hc : byte_val (byte_of_Z (48 + z mod 10)) = 48 + z mod 10)
    by (rewrite byte_val_of; apply uwrap_small; lia).
  assert (Hd : byte_of_Z (48 + z mod 10) <> LF) by (intros E; rewrite E in Hc; unfold LF in Hc; vm_compute byte_val in Hc; lia).
  split.
  - rewrite forallb_app. destruct (z <? 10); simpl; rewrite ?IH1, Hc; simpl;
      rewrite andb_true_r, !andb_true_iff, !Z.leb_le; lia.
  - rewrite filter_app, filter_cons, decide_True by done. destruct (z <? 10); by rewrite ?IH2.
Qed.

#[export] Instance digit_parser_ok : ParseUintOk.
Proof.
  assert (Hp : forall v, 0 <= v -> filter (fun c => c <> LF) (dec v) = dec v /\
    forallb (fun c => (48 <=? byte_val c) && (byte_val c <=? 57)) (dec v) = true).
  { intros v Hv. unfold dec. destruct (Z.ltb_spec v 0); [lia|].
    destruct (digits_are_digits (S (Z.to_nat (Z.log2 (Z.abs v)))) v Hv). by split. }
  split; intros v [Hv _]; destruct (Hp v Hv) as [Hf Ha]; simpl; unfold parse_digits.
  - rewrite Hf, Ha. by rewrite dec_roundtrip.
  - rewrite filter_app, Hf. rewrite filter_cons, decide_False by (intros Hne; by apply Hne).
    rewrite filter_nil, app_nil_r, Ha. by rewrite dec_roundtrip.
Qed.

(** The control value 0xDEAD of sensor_app.c. *)
Lemma sensor_session_witness :
  wp (rc ← Plat.sensor_probe;
      if negb (rc =? 0) then mret (rc, 0, [])
      else n ← Plat.control_store (dec 57005) (zlen (dec 57005));
           t ← Plat.temp_show; mret (rc, n, t.2))
     (fun r σ => r.1.1 = 0 -> exists pdata, drv σ = Some pdata /\ Plat.control_value pdata = 57005)
     (KSt None (sim_at 0 []) [] []).
Proof.
  eapply wp_mono.
  - apply (sensor_session 57005 (sim_at 0 [])); [lia|]. intros w r [= <-]. vm_compute. discriminate.
  - intros r σ [_ Hr] E. destruct (Hr E) as (pdata & temp & w1 & base & Hd & Hc & _).
    exists pdata. split; [exact Hd | exact Hc].
Defined.
