(* ===== verification/Leds.v ===== *)
(** * LEDs behind sysfs attributes: 006_led_sysfs_attr and 007_gpiod_sysfs_led

    Module [Rgb] is led_rgb_sysfs_attr.c, whose [color] array has 10 bytes;
    module [Gpio] is gpiod_led_sysfs.c. Module [Pin] is the driver of
    019_pltdrv_dt_gpios, which shows and sets a line from a platform device.
    Number parsing and the GPIO line are interfaces. *)

From S2P Require Import Prelude Kernel Wp Sim Sensor.

(** kstrtoint(s, 10, &v) and sscanf(s, "%d", &v): the number, or the error;
    nothing is stored when there is none. *)
Class ParseInt := {
  k_kstrtoint : list byte -> Z + Z;
  k_sscanf_d : list byte -> option Z;
}.

(** gpiod_set_value, gpiod_get_value and gpiod_get_direction on the one line
    a driver holds. *)
Class GpioLine (W : Type) := {
  k_gpiod_set_value : Z -> W -> W;
  k_gpiod_get_value : W -> Z;
  k_gpiod_get_direction : W -> Z;
}.

(** strncpy(dst, src, n): the bytes written, [src] up to a terminator filled
    up with zeros to [n]; [None] when it would read past [src]. *)
Definition strncpy_bytes (src : list byte) (n : Z) : option (list byte) :=
  let s := until_nul (take (Z.to_nat n) src) in
  if (zlen src <? n) && (zlen s =? zlen src) then None
  else Some (s ++ replicate (Z.to_nat (n - zlen s)) NUL).

(** kobject_put of the only reference: the kobject's directory goes away with
    the group in it. *)
Definition kobject_put {W D} : M W D unit := fun σ =>
  match remove_one Kobject (ledger σ) with
  | Some l => Done (tt, set_ledger (filter (fun r => r <> SysGroup) l) σ)
  | None => Oops NotOwned
  end.

Lemma wp_kobject_put {W D} (Q : unit -> kst W D -> Prop) d w h l l' :
  remove_one Kobject l = Some l' ->
  Q tt (KSt d w h (filter (fun r => r <> SysGroup) l')) -> wp kobject_put Q (KSt d w h l).
Proof. unfold wp, kobject_put. simpl. by intros ->. Qed.

(** ** 006_led_sysfs_attr/led_rgb_sysfs_attr.c *)
Module Rgb.

(** sizeof(color) *)
Definition sizeof_color : Z := 10.

Record rgb := MkRgb { color : list byte; brightness : Z; power : Z }.

Definition rgb0 : rgb := MkRgb (bytes_of "red" ++ replicate 7 NUL) 50 1.

Section Handlers.
Context {W : Type} `{ParseInt}.

(** The result and the text left in the page. *)
Definition color_show : M W rgb (Z * list byte) :=
  s ← get;
  str ← value OutOfBounds (cstr (color s));
  mret (zlen (str ++ [LF]), str ++ [LF]).

Definition brightness_show : M W rgb (Z * list byte) :=
  s ← get; let out := dec (brightness s) ++ [LF] in mret (zlen out, out).

Definition power_show : M W rgb (Z * list byte) :=
  s ← get; let out := dec (power s) ++ [LF] in mret (zlen out, out).

(** The check compares with [>], so [count] may be the size of the array. *)
Definition color_store (buf : list byte) (count : Z) : M W rgb Z :=
  if sizeof_color <? count then mret (- EINVAL)
  else
    src ← value OutOfBounds (strncpy_bytes buf count);
    s ← get;
    (if in_bounds 0 count (zlen (color s))
     then modify (fun s => MkRgb (upd 0 src (color s)) (brightness s) (power s))
     else oops OutOfBounds);;
    s ← get;
    c ← value OutOfBounds (zset (color s) count NUL);
    modify (fun s => MkRgb c (brightness s) (power s));;
    mret count.

(** Nothing is stored when the text is no number. *)
Definition brightness_store (buf : list byte) (count : Z) : M W rgb Z :=
  match k_kstrtoint buf with
  | inl v => modify (fun s => MkRgb (color s) v (power s));; mret count
  | inr ret => if ret <? 0 then mret ret else mret count
  end.

Definition power_store (buf : list byte) (count : Z) : M W rgb Z :=
  match k_kstrtoint buf with
  | inl v => modify (fun s => MkRgb (color s) (brightness s) v);; mret count
  | inr ret => if ret <? 0 then mret ret else mret count
  end.
End Handlers.

Section Module_.
Context {W : Type} `{Grants W}.

(** The kobject stays when the group cannot be created. *)
Definition led_rgb_init : M W rgb Z :=
  null ← acquire Kobject;
  if negb (null =? 0) then mret (- ENOMEM)
  else sysfs_create_group.

Definition led_rgb_exit : M W rgb unit := kobject_put.
End Module_.
End Rgb.

(** ** 007_gpiod_sysfs_led/gpiod_led_sysfs.c; the state is [led_state] *)
Module Gpio.

Section Driver.
Context {W : Type} `{ParseInt} `{GpioLine W} `{Grants W}.

Definition value_show : M W Z (Z * list byte) :=
  led_state ← get;
  let out := dec led_state ++ [LF] in mret (zlen out, out).

(** The result of [sscanf] is not looked at. *)
Definition value_store (buf : list byte) (count : Z) : M W Z Z :=
  (match k_sscanf_d buf with
   | Some v => modify (fun _ => v)
   | None => mret tt
   end);;
  led_state ← get;
  call (fun w => (tt, k_gpiod_set_value led_state w));;
  mret count.

(** The line is not put back when a later step fails. *)
Definition gpio_led_probe : M W Z Z :=
  led_gpio ← acquire (Kernel.Gpio "led");
  if IS_ERR led_gpio then mret (PTR_ERR led_gpio)
  else
    null ← acquire Kobject;
    if negb (null =? 0) then mret (- ENOMEM)
    else
      ret ← sysfs_create_group;
      if negb (ret =? 0) then kobject_put;; mret ret
      else mret 0.

Definition gpio_led_remove : M W Z Z :=
  release (Kernel.Gpio "led");; kobject_put;; mret 0.
End Driver.
End Gpio.

(** ** 019_pltdrv_dt_gpios/sensor_pltdrv.c; the state is whether the driver
    data of the device is the descriptor of the line *)
Module Pin.

Section Driver.
Context {W : Type} `{ParseUint} `{GpioLine W} `{Grants W}.

(** The GPIO functions ignore a NULL descriptor. *)
Definition gpio_state_show : M W bool (Z * list byte) :=
  gpio_desc ← get;
  state ← call (fun w => ((if gpio_desc : bool then k_gpiod_get_value w else 0), w));
  let out := dec state ++ [LF] in mret (zlen out, out).

Definition gpio_state_store (buf : list byte) (count : Z) : M W bool Z :=
  gpio_desc ← get;
  let '(rc, val) := k_kstrtouint buf 0 in
  (if rc =? 0 then
     call (fun w => (tt, if gpio_desc : bool
                         then k_gpiod_set_value (if val =? 0 then 0 else 1) w else w))
   else mret tt);;
  mret count.

Definition gpio_direction_show : M W bool (Z * list byte) :=
  gpio_desc ← get;
  direction ← call (fun w => ((if gpio_desc : bool then k_gpiod_get_direction w else - EINVAL), w));
  let out := bytes_of (if direction =? 0 then "out" else "in") ++ [LF] in mret (zlen out, out).

(** devm_gpiod_get: the device core puts the line back. *)
Definition sensor_probe : M W bool Z :=
  gpio_desc ← call (k_grant (Kernel.Gpio "sensor"));
  if IS_ERR gpio_desc then mret (PTR_ERR gpio_desc)
  else
    modify (fun _ => true);;
    device_create_file 0 "gpio_state";;
    device_create_file 0 "gpio_direction";;
    mret 0.

(** The removal of the other attribute stands inside the match table below. *)
Definition sensor_remove : M W bool Z :=
  device_remove_file_if 0 "gpio_direction";; mret 0.
End Driver.
End Pin.

(** ** Properties *)

(** The color array has its ten bytes, one of them a terminator. *)
Record rgb_ok (s : Rgb.rgb) : Prop := {
  ok_color : zlen (Rgb.color s) = Rgb.sizeof_color;
  ok_end : is_Some (cstr (Rgb.color s));
}.

(** A copy of [n] bytes out of a buffer that has them. *)
Lemma strncpy_enough src n :
  0 <= n <= zlen src -> exists k, strncpy_bytes src n =
    Some (until_nul (take (Z.to_nat n) src) ++ replicate k NUL) /\
    zlen (until_nul (take (Z.to_nat n) src)) + Z.of_nat k = n.
Proof.
  intros Hn. unfold strncpy_bytes. set (s := until_nul _).
  assert (Hs : zlen s <= n).
  { pose proof (zlen_until_nul (take (Z.to_nat n) src)) as Hl. fold s in Hl. unfold zlen in *.
    rewrite length_take in Hl. lia. }
  destruct (Z.ltb_spec (zlen src) n); [lia|]. simpl. eexists. split; [done|].
  rewrite Z2Nat.id; lia.
Qed.

(** A copy into the front of an array, terminated right behind it. *)
Lemma terminated_copy (b : list byte) k (col : list byte) count :
  zlen (until_nul b) + Z.of_nat k = count -> count < zlen col ->
  cstr (<[Z.to_nat count := NUL]> (upd 0 (until_nul b ++ replicate k NUL) col)) =
    Some (until_nul b).
Proof.
  intros Hk Hc. rewrite cstr_terminated by (rewrite ?zlen_app, ?zlen_replicate; lia).
  f_equal. destruct k; [by rewrite app_nil_r, until_nul_idem|]. apply until_nul_app.
Qed.

Section RgbProps.
Context {W : Type} `{ParseInt}.
Implicit Types (s : Rgb.rgb) (σ : kst W Rgb.rgb).

(** A colour of fewer than ten bytes is stored up to its first
    terminator and shown again with a newline, the array staying terminated;
    more than ten bytes are rejected; exactly ten pass the check and the
    terminator is written one past the array. *)
Theorem color_store_bounds (buf : list byte) (count : Z) σ
    (Hs : rgb_ok (drv σ)) (Hc : 0 <= count <= zlen buf) :
  let t := until_nul (take (Z.to_nat count) buf) in
  if count <? 10 then
    wp (r ← Rgb.color_store buf count; p ← Rgb.color_show; mret (r, p))
       (fun x σ' => x = (count, (zlen t + 1, t ++ [LF])) /\ rgb_ok (drv σ')) σ
  else if count =? 10 then Rgb.color_store buf count σ = Oops OutOfBounds
  else Rgb.color_store buf count σ = Done (- EINVAL, σ).
Proof.
  intros t. destruct σ as [[col b p] w h l]. destruct Hs as [Hlen _]. simpl in *.
  destruct (strncpy_enough buf count Hc) as (k & E & Hk). fold t in E, Hk.
  assert (Hstore : count <= 10 -> Rgb.color_store buf count (KSt (Rgb.MkRgb col b p) w h l) =
    (c ← value OutOfBounds (zset (upd 0 (t ++ replicate k NUL) col) count NUL);
     modify (fun s => Rgb.MkRgb c (Rgb.brightness s) (Rgb.power s));; mret count)
    (KSt (Rgb.MkRgb (upd 0 (t ++ replicate k NUL) col) b p) w h l)).
  { intros Hle. unfold Rgb.color_store, Rgb.sizeof_color in *.
    rewrite (proj2 (Z.ltb_ge _ _)), E by lia.
    unfold mbind, M_bind, value, mret, M_ret, get, modify. cbn [drv Rgb.color].
    rewrite Hlen, in_bounds_true by lia. done. }
  assert (Hz : count <= 10 -> zlen (upd 0 (t ++ replicate k NUL) col) = 10).
  { intros Hle. rewrite zlen_upd; [done|done|]. rewrite zlen_app, zlen_replicate.
    unfold Rgb.sizeof_color in Hlen. lia. }
  assert (Ht : count < 10 ->
    cstr (<[Z.to_nat count := NUL]> (upd 0 (t ++ replicate k NUL) col)) = Some t).
  { intros Hlt. apply terminated_copy; [done|]. unfold Rgb.sizeof_color in Hlen. lia. }
  destruct (Z.ltb_spec count 10).
  - specialize (Hz ltac:(lia)). apply wp_bind. unfold wp. rewrite Hstore by lia. rewrite zset_in by lia.
    unfold Rgb.color_show, mbind, M_bind, value, mret, M_ret, get, modify. simpl.
    rewrite Ht by done. simpl.
    split; [by rewrite zlen_app|]. split; simpl.
    + by rewrite zlen_insert.
    + by rewrite Ht by done.
  - destruct (Z.eqb_spec count 10) as [->|].
    + rewrite Hstore by lia. unfold zset. by rewrite Hz.
    + unfold Rgb.color_store, Rgb.sizeof_color. by rewrite (proj2 (Z.ltb_lt _ _)) by lia.
Qed.
End RgbProps.

(** "blue" and the newline of echo, into the array that holds "red". *)
Lemma color_store_bounds_witness :
  wp (r ← Rgb.color_store (bytes_of "blue" ++ [LF; NUL]) 5; p ← Rgb.color_show; mret (r, p))
     (fun x _ => x = (5, (6, bytes_of "blue" ++ [LF; LF]))) (KSt Rgb.rgb0 tt [] []).
Proof.
  eapply wp_mono.
  - apply (color_store_bounds (bytes_of "blue" ++ [LF; NUL]) 5 (KSt Rgb.rgb0 tt [] [])).
    + split; [done | by eexists].
    + vm_compute. split; discriminate.
  - intros x σ [-> _]. reflexivity.
Defined.

(** Ten letters without a newline. *)
Example color_store_ten :
  Rgb.color_store (bytes_of "aquamarine" ++ [NUL]) 10 (KSt Rgb.rgb0 tt [] []) = Oops OutOfBounds.
Proof. reflexivity. Qed.

(** ** 007: what a probe leaves behind *)

Section GpioProps.
Context {W : Type} `{GrantsOk W}.

(** Remove gives everything back; a failed probe keeps the line when it got
    that far. *)
Lemma gpio_probe_remove (d : Z) (w : W) :
  wp (r ← Gpio.gpio_led_probe; if r =? 0 then Gpio.gpio_led_remove else mret r)
     (fun r σ => held σ = [] /\
        (ledger σ = [] \/ r <> 0 /\ ledger σ = [Kernel.Gpio "led"]))
     (KSt d w [] []).
Proof.
  unfold Gpio.gpio_led_probe, Gpio.gpio_led_remove, IS_ERR, PTR_ERR. unfold_kernel.
  wp_auto; try (eapply wp_kobject_put; [reflexivity|]; wp_auto); unfold ENOMEM in *; try lia;
    simpl; auto.
Qed.
End GpioProps.

(** No memory for the kobject: the probe fails and owns the line for good. *)
Example gpio_probe_leak :
  Gpio.gpio_led_probe (KSt 0 (Sim ∅ [] [0; -1] [] []) [] []) =
    Done (- ENOMEM, KSt 0 (Sim ∅ [] [] [] []) [] [Kernel.Gpio "led"]).
Proof. reflexivity. Qed.

(** ** 019: probe and remove *)

Section PinProps.
Context {W : Type} `{GrantsOk W}.

(** The attribute gpio_state outlives the driver when it could be created. *)
Lemma pin_probe_remove (d : bool) (w : W) :
  wp (r ← Pin.sensor_probe; if r =? 0 then Pin.sensor_remove else mret r)
     (fun r σ => held σ = [] /\
        (ledger σ = [] \/ r = 0 /\ ledger σ = [DevFile 0 "gpio_state"]))
     (KSt d w [] []).
Proof.
  unfold Pin.sensor_probe, Pin.sensor_remove, IS_ERR, PTR_ERR. unfold_kernel.
  wp_step; wp_step. apply wp_call. intros rc w1 Hg. wp_red.
  destruct (Z.eqb_spec rc 0) as [->|]; simpl negb; cbv iota.
  2:{ wp_step. rewrite (proj2 (Z.eqb_neq _ _)) by done. wp_step. auto. }
  wp_auto; unfold wp, device_remove_file_if; simpl; auto.
Qed.
End PinProps.
