(* ===== verification/SensorApp.v ===== *)
(** * 016 to 019: the programs that use the sensors (sensor_app.c)

    The programs of 016, 017 and 018 are the same text with other paths; they
    are written against [SensorAttrs], the two attributes of a sensor driver,
    which the drivers of [Sensor] implement. The program of 019 sets and
    reads the line of [Leds.Pin]. *)

From S2P Require Import Prelude Kernel Wp Sim Sensor Leds User.

(** ** strtoul and strtol of the C library, in base 0 *)

Definition digit_val (c : byte) : option Z :=
  let v := byte_val c in
  if (48 <=? v) && (v <=? 57) then Some (v - 48)
  else if (97 <=? v) && (v <=? 102) then Some (v - 87)
  else if (65 <=? v) && (v <=? 70) then Some (v - 55)
  else None.

Fixpoint parse_base (base acc : Z) (s : list byte) : Z :=
  match s with
  | c :: s =>
      match digit_val c with
      | Some d => if d <? base then parse_base base (base * acc + d) s else acc
      | None => acc
      end
  | [] => acc
  end.

Definition is_space (c : byte) : bool :=
  let v := byte_val c in (v =? 32) || ((9 <=? v) && (v <=? 13)).

Fixpoint skip_space (s : list byte) : list byte :=
  match s with c :: s' => if is_space c then skip_space s' else s | [] => [] end.

(** A hexadecimal prefix counts only when a digit follows it. *)
Definition magnitude (s : list byte) : Z :=
  match s with
  | Byte.x30 :: (Byte.x78 | Byte.x58) :: c :: s' =>
      match digit_val c with Some _ => parse_base 16 0 (c :: s') | None => 0 end
  | Byte.x30 :: s' => parse_base 8 0 s'
  | _ => parse_base 10 0 s
  end.

(** The sign and the magnitude. *)
Definition signed_text (s : list byte) : bool * Z :=
  match skip_space s with
  | Byte.x2d :: s' => (true, magnitude s')
  | Byte.x2b :: s' => (false, magnitude s')
  | s' => (false, magnitude s')
  end.

Definition strtoul (s : list byte) : Z :=
  let '(neg, v) := signed_text s in
  if 2 ^ 64 <=? v then 2 ^ 64 - 1 else u64 (if neg then - v else v).

Definition strtol (s : list byte) : Z :=
  let '(neg, v) := signed_text s in
  Z.max (- 2 ^ 63) (Z.min (if neg then - v else v) (2 ^ 63 - 1)).

(** *** Decimal text *)

Lemma digit_val_digit c : is_digit c -> digit_val c = Some (byte_val c - 48).
Proof.
  intros [H1 H2]. unfold digit_val.
  by rewrite (proj2 (Z.leb_le 48 _)), (proj2 (Z.leb_le _ 57)) by lia.
Qed.

Lemma parse_digits_10 acc ds rest :
  Forall is_digit ds ->
  parse_base 10 acc (ds ++ LF :: rest) = foldl (fun n c => 10 * n + (byte_val c - 48)) acc ds.
Proof.
  intros Hds. revert acc. induction Hds as [|c ds Hc _ IH]; intros acc; simpl; [done|].
  rewrite digit_val_digit by done. destruct Hc. rewrite (proj2 (Z.ltb_lt _ 10)) by lia. apply IH.
Qed.

(** The first digit of a positive number is not 0. *)
Lemma digits_head n z :
  0 < z < 10 ^ Z.of_nat n -> exists c rest, digits n z = c :: rest /\ 49 <= byte_val c <= 57.
Proof.
  revert z. induction n as [|n IH]; intros z Hz; [simpl in Hz; lia|]. cbn [digits].
  destruct (Z.ltb_spec z 10).
  - rewrite Z.mod_small by lia. eexists _, []. split; [done|].
    rewrite byte_val_of, uwrap_small by lia. lia.
  - destruct (IH (z / 10)) as (c & rest & -> & Hc).
    { rewrite Nat2Z.inj_succ, Z.pow_succ_r in Hz by lia. dlia. }
    by exists c, (rest ++ [byte_of_Z (48 + z mod 10)]).
Qed.

Lemma magnitude_head c s : 49 <= byte_val c <= 57 -> magnitude (c :: s) = parse_base 10 0 (c :: s).
Proof.
  intros Hc. destruct c; try reflexivity;
    vm_compute in Hc; destruct Hc as [Hlo Hhi]; exfalso; by apply Hlo || by apply Hhi.
Qed.

Lemma signed_head c s : 49 <= byte_val c <= 57 -> signed_text (c :: s) = (false, magnitude (c :: s)).
Proof.
  intros Hc. unfold signed_text, skip_space, is_space.
  rewrite (proj2 (Z.eqb_neq (byte_val c) 32)), (proj2 (Z.leb_gt (byte_val c) 13)) by lia.
  rewrite andb_false_r. simpl orb. cbv iota.
  destruct c; try reflexivity;
    vm_compute in Hc; destruct Hc as [Hlo Hhi]; exfalso; by apply Hlo || by apply Hhi.
Qed.

(** The digits of a positive number, followed by a newline. *)
Lemma magnitude_digits n z rest :
  0 < z < 10 ^ Z.of_nat n ->
  magnitude (digits n z ++ LF :: rest) = z /\
  signed_text (digits n z ++ LF :: rest) = (false, z).
Proof.
  intros Hz. pose proof (digits_all n z ltac:(lia)) as Hall.
  assert (Hp : parse_base 10 0 (digits n z ++ LF :: rest) = z).
  { rewrite parse_digits_10 by done. apply of_digits_digits. lia. }
  destruct (digits_head n z Hz) as (c & ds & E & Hc). rewrite E in *. simpl app in *.
  rewrite signed_head, magnitude_head by done. by rewrite Hp.
Qed.

Lemma dec_fuel z : 0 < z -> 0 < z < 10 ^ Z.of_nat (S (Z.to_nat (Z.log2 (Z.abs z)))).
Proof.
  intros Hz. split; [done|]. rewrite Z.abs_eq by lia. pose proof (Z.log2_spec z Hz).
  pose proof (Z.log2_nonneg z). rewrite Nat2Z.inj_succ, Z2Nat.id by done.
  apply Z.lt_le_trans with (2 ^ Z.succ (Z.log2 z)); [lia|]. apply Z.pow_le_mono_l. lia.
Qed.

Lemma text_of_dec z rest : signed_text (dec z ++ LF :: rest) = (z <? 0, Z.abs z).
Proof.
  unfold dec. destruct (Z.ltb_spec z 0) as [Hz|Hz].
  - pose proof (dec_fuel (- z) ltac:(lia)) as Hf. rewrite Z.abs_opp in Hf.
    change (signed_text ((Byte.x2d :: ?s) ++ LF :: rest)) with (true, magnitude (s ++ LF :: rest)).
    destruct (magnitude_digits _ _ rest Hf) as [Hm _]. rewrite Hm. f_equal. lia.
  - destruct (decide (z = 0)) as [->|]; [done|].
    rewrite (proj2 (magnitude_digits _ _ rest (dec_fuel z ltac:(lia)))). f_equal. lia.
Qed.

(** The line an attribute shows is a string. *)
Lemma cstr_line t : cstr ((dec t ++ [LF]) ++ [NUL]) = Some (dec t ++ [LF]).
Proof.
  rewrite cstr_text; [simpl; by rewrite app_nil_r|].
  apply Forall_app. split; [apply dec_text | by constructor].
Qed.

(** What %u and %d print, strtoul and strtol read. *)
Lemma strtoul_dec z rest : 0 <= z < 2 ^ 64 -> strtoul (dec z ++ LF :: rest) = z.
Proof.
  intros Hz. unfold strtoul. rewrite text_of_dec, Z.abs_eq by lia.
  rewrite (proj2 (Z.ltb_ge z 0)), (proj2 (Z.leb_gt _ _)) by lia. by apply u64_small.
Qed.

Lemma strtol_dec z rest : - 2 ^ 63 <= z < 2 ^ 63 -> strtol (dec z ++ LF :: rest) = z.
Proof.
  intros Hz. unfold strtol. rewrite text_of_dec. destruct (Z.ltb_spec z 0); lia.
Qed.

(** ** The interface: a sensor with a temperature and a control attribute *)

Class SensorAttrs (W S : Type) := {
  a_temp_show : M W S (Z * list byte);
  a_control_store : list byte -> Z -> M W S Z;
}.

(** Of a driver whose registers are mapped ([ready]): temp shows in decimal
    what its register reads, control stores a number. *)
Class SensorAttrsOk (W S : Type) `{SensorAttrs W S} (ready : S -> Prop) (reads : S -> W -> Z * W)
    (control : S -> option Z) : Prop := {
  show_ok s (w : W) h l : ready s ->
    wp a_temp_show
       (fun r σ => drv σ = s /\ held σ = h /\ ledger σ = l /\
          exists t, reads s w = (t, world σ) /\ 0 <= t < 2 ^ 32 /\
                    r = (zlen (dec t ++ [LF]), dec t ++ [LF]))
       (KSt s w h l);
  store_control_ok v n s (w : W) h l : ready s -> 0 <= v < 2 ^ 32 ->
    wp (a_control_store (dec v) n)
       (fun r σ => r = n /\ held σ = h /\ ledger σ = l /\ ready (drv σ) /\ control (drv σ) = Some v /\
          (forall w, reads (drv σ) w = reads s w))
       (KSt s w h l);
}.

(** *** The drivers of 016, 017 and 018 implement it *)

Definition io_ready (m : iomem) : Prop := 8 <= io_size m.
Definition io_reads {W} `{Platform W} (m : iomem) (w : W) : Z * W := k_ioread32 (io_addr m + 0) w.

Section Instances.
Context {W : Type} `{!Platform W} `{!PlatformOk W} `{!ParseUint} `{!ParseUintOk}.

Definition plat_io (s : Plat.drvdata) : iomem :=
  default (IoMem 0 0) (Plat.base_addr <$> s).
Definition of_io (s : Of.drvdata) : iomem := default (IoMem 0 0) (Of.base_addr <$> s).

#[export] Instance plat_attrs : SensorAttrs W Plat.drvdata :=
  { a_temp_show := Plat.temp_show; a_control_store := Plat.control_store }.

(** The same driver state, the text of 017. *)
Definition dt_attrs : SensorAttrs W Plat.drvdata :=
  {| a_temp_show := Dt.temp_show; a_control_store := Dt.control_store |}.

#[export] Instance of_attrs : SensorAttrs W Of.drvdata :=
  { a_temp_show := Of.temp_show; a_control_store := Of.control_store }.

Ltac sensor_show :=
  intros [pdata|] w h l [Hs Hr]; [|done]; unfold io_ready, plat_io, of_io in Hr; simpl in Hr;
  do 5 wp_step; unfold ioread32; rewrite in_bounds_true by lia; apply wp_call;
  let t := fresh "t" in let E := fresh in
  intros t w' E; wp_step; split_and!; try done; exists t;
  split; [exact E|]; split; [by apply ioread_ok in E | done].
Ltac sensor_store :=
  intros v n [pdata|] w h l [Hs Hr] Hv; [|done]; unfold io_ready, plat_io, of_io in Hr; simpl in Hr;
  do 4 wp_step; rewrite parse_dec by done; wp_step; change (0 =? 0) with true; cbv iota;
  do 2 wp_step; unfold iowrite32; simpl; rewrite in_bounds_true by lia; apply wp_call;
  intros [] w' _; wp_step; by split_and!.

#[export] Instance plat_attrs_ok :
  SensorAttrsOk W Plat.drvdata (fun s => s <> None /\ io_ready (plat_io s))
    (fun s => io_reads (plat_io s)) (fmap Plat.control_value).
Proof. split; simpl; [unfold Plat.temp_show; sensor_show | unfold Plat.control_store; sensor_store]. Qed.

#[export] Instance of_attrs_ok :
  SensorAttrsOk W Of.drvdata (fun s => s <> None /\ io_ready (of_io s))
    (fun s => io_reads (of_io s)) (fmap Of.control_value).
Proof. split; simpl; [unfold Of.temp_show; sensor_show | unfold Of.control_store; sensor_store]. Qed.

Definition dt_attrs_ok :
  @SensorAttrsOk W Plat.drvdata dt_attrs (fun s => s <> None /\ io_ready (plat_io s))
    (fun s => io_reads (plat_io s)) (fmap Plat.control_value) := plat_attrs_ok.
End Instances.

(** ** sensor_app.c of 016, 017 and 018 *)

Inductive line :=
  | Started | Temperature (t : Z) | FailedRead | Writing (v : Z) | FailedWrite | Completed
  | Perror (call : string).

Section App.
Context {W S : Type} `{SensorAttrs W S} `{Grants W}.
(** SYSFS_TEMP_PATH and SYSFS_CONTROL_PATH. *)
Context (temp_path control_path : string).
Local Abbreviation P := (M W (proc S line)).

(** At most [n] bytes of what the attribute shows. *)
Definition sysfs_read (n : Z) : P (list byte) :=
  '(len, text) ← drive a_temp_show;
  mret (if len <? 0 then [] else sub 0 (Z.min n len) text).

(** *temp, or -1 and a message; buf has 32 bytes, so the terminator fits. *)
Definition read_temperature : P (option Z) :=
  fd ← open_file temp_path;
  if fd <? 0 then print (Perror "open temp");; mret None
  else
    buf ← sysfs_read 31;
    close_file temp_path;;
    if zlen buf <=? 0 then print (Perror "read temp");; mret None
    else
      s ← value OutOfBounds (cstr (buf ++ [NUL]));
      mret (Some (u32 (strtoul s))).

(** snprintf of %u writes at most ten digits into the 32 bytes. *)
Definition write_control (control : Z) : P Z :=
  fd ← open_file control_path;
  if fd <? 0 then print (Perror "open control");; mret (-1)
  else
    let buf := dec control in
    let len := zlen buf in
    ret ← drive (a_control_store buf len);
    if negb (ret =? len) then print (Perror "write control");; close_file control_path;; mret (-1)
    else close_file control_path;; mret 0.

Definition control_value : Z := 57005.  (* 0xDEAD *)

Definition main_ : P Z :=
  print Started;;
  t ← read_temperature;
  match t with
  | Some temp_value => print (Temperature temp_value)
  | None => print FailedRead
  end;;
  print (Writing control_value);;
  r ← write_control control_value;
  (if r <? 0 then print FailedWrite else mret tt);;
  t ← read_temperature;
  match t with
  | Some temp_value => print (Temperature temp_value)
  | None => mret tt
  end;;
  print Completed;;
  mret 0.
End App.

(** The paths of the three programs. *)
Definition main_016 {W} `{Platform W} `{ParseUint} `{Grants W} : M W (proc Plat.drvdata line) Z :=
  main_ "/sys/devices/platform/sensor_driver.0/temp" "/sys/devices/platform/sensor_driver.0/control".
Definition main_017 {W} `{Platform W} `{ParseUint} `{Grants W} : M W (proc Plat.drvdata line) Z :=
  main_ (H := dt_attrs) "/sys/devices/platform/sensor_driver/temp" "/sys/devices/platform/sensor_driver/control".
Definition main_018 {W} `{Platform W} `{ParseUint} `{Grants W} : M W (proc Of.drvdata line) Z :=
  main_ "/sys/devices/platform/sensor_driver/temp" "/sys/devices/platform/sensor_driver/control".

(** ** Properties of the program, against the interface *)

Section AppProps.
Context {W S : Type} {ready : S -> Prop} {reads : S -> W -> Z * W} {control : S -> option Z}.
Context `{SensorAttrsOk W S ready reads control} `{!Grants W} `{!GrantsOk W}.
Context (temp_path control_path : string).

Lemma read_temperature_spec s o (w : W) :
  ready s ->
  wp (read_temperature temp_path)
     (fun r σ => held σ = [] /\ ledger σ = [] /\ dev (drv σ) = s /\
        (r = None /\ out (drv σ) = o ++ [Perror "open temp"] \/
         exists t w', r = Some t /\ out (drv σ) = o /\ 0 <= t < 2 ^ 32 /\
                      reads s w' = (t, world σ)))
     (KSt (Proc s o) w [] []).
Proof.
  intros Hr. unfold read_temperature, open_file, sysfs_read. up_step. apply wp_acquire.
  - intros w1 _. change (0 <? 0) with false. cbv iota. wp_red. do 3 up_step.
    eapply wp_mono; [by apply show_ok|].
    intros [len text] [s1 w2 h1 l1] (Hs & Hh & Hl & t & Ht & Hrange & [= -> ->]). simpl in *. subst.
    assert (Hd : zlen (dec t ++ [LF]) <= 11).
    { unfold zlen. rewrite length_app. simpl. pose proof (length_dec 10 t ltac:(lia) ltac:(simpl; lia)). lia. }
    pose proof (zlen_nonneg (dec t ++ [LF])). rewrite (proj2 (Z.ltb_ge _ 0)) by done.
    rewrite Z.min_r, sub_all_n by lia. unfold close_file. do 3 up_step.
    rewrite (proj2 (Z.leb_gt _ 0)) by (unfold zlen; rewrite length_app; simpl; lia).
    rewrite cstr_line. up_step. up_step. up_step. split_and!; try done. right.
    exists t, w1. split_and!; try done; [|lia..]. rewrite strtoul_dec by lia. f_equal. apply uwrap_small. lia.
  - intros rc w1 Hne Hg. pose proof (grant_ok _ _ _ _ Hg). rewrite (proj2 (Z.ltb_lt rc 0)) by lia.
    repeat up_step. split_and!; try done. by left.
Qed.

Lemma write_control_spec v s o (w : W) :
  ready s -> 0 <= v < 2 ^ 32 ->
  wp (write_control control_path v)
     (fun r σ => held σ = [] /\ ledger σ = [] /\ ready (dev (drv σ)) /\
        (r = -1 /\ out (drv σ) = o ++ [Perror "open control"] /\ dev (drv σ) = s \/
         r = 0 /\ out (drv σ) = o /\ control (dev (drv σ)) = Some v /\
         (forall w, reads (dev (drv σ)) w = reads s w)))
     (KSt (Proc s o) w [] []).
Proof.
  intros Hr Hv. unfold write_control, open_file, close_file. up_step. apply wp_acquire.
  - intros w1 _. change (0 <? 0) with false. cbv iota. wp_red. up_step; up_step.
    eapply wp_mono; [by apply store_control_ok|].
    intros ret [s1 w2 h1 l1] (-> & Hh & Hl & Hrd & Hc & Hsame). simpl in *. subst.
    rewrite Z.eqb_refl. simpl negb. cbv iota. repeat up_step. split_and!; try done. by right.
  - intros rc w1 Hne Hg. pose proof (grant_ok _ _ _ _ Hg). rewrite (proj2 (Z.ltb_lt rc 0)) by lia.
    repeat up_step. split_and!; try done. by left.
Qed.

(** What one attempt to read the temperature prints. *)
Definition shown (s : S) (failed : list line) (ts : list line) : Prop :=
  ts = failed \/ exists t w1 w2, ts = [Temperature t] /\ reads s w1 = (t, w2).

Lemma read_and_print s o failed (m : M W (proc S line) unit) (w : W) :
  ready s ->
  (forall w' o', wp m (fun _ σ => σ = KSt (Proc s (o' ++ failed)) w' [] []) (KSt (Proc s o') w' [] [])) ->
  wp (t ← read_temperature temp_path;
      match t with Some temp_value => print (Temperature temp_value) | None => m end)
     (fun _ σ => exists ts, shown s (Perror "open temp" :: failed) ts /\
        held σ = [] /\ ledger σ = [] /\ drv σ = Proc s (o ++ ts))
     (KSt (Proc s o) w [] []).
Proof.
  intros Hr Hm. up_step. eapply wp_mono; [by apply read_temperature_spec|].
  intros r1 [[d1 o1] w1 h1 l1] (Hh & Hl & Hd & Hcase). simpl in *. subst.
  destruct Hcase as [(-> & ->)|(t & w' & -> & -> & _ & Ht)].
  - eapply wp_mono; [apply Hm|]. intros _ σ ->. eexists. split; [by left|].
    simpl. by rewrite <- app_assoc.
  - up_step. eexists. split; [right; by eauto|]. done.
Qed.

Lemma write_and_print s o (w : W) :
  ready s ->
  wp (r ← write_control control_path control_value; if r <? 0 then print FailedWrite else mret tt)
     (fun _ σ => exists wr,
        (wr = [Perror "open control"; FailedWrite] \/ wr = [] /\ control (dev (drv σ)) = Some 57005) /\
        held σ = [] /\ ledger σ = [] /\ ready (dev (drv σ)) /\ out (drv σ) = o ++ wr /\
        (forall w, reads (dev (drv σ)) w = reads s w))
     (KSt (Proc s o) w [] []).
Proof.
  intros Hr. up_step. eapply wp_mono; [by apply write_control_spec|].
  intros r [[d2 o2] w2 h2 l2] (Hh & Hl & Hrd & Hcase). simpl in *. subst.
  destruct Hcase as [(-> & -> & ->)|(-> & -> & Hc & Hsame)]; simpl; up_step; eexists.
  - split; [by left|]. split_and!; try done. simpl. by rewrite <- app_assoc.
  - split; [right; split; [done | exact Hc]|]. split_and!; try done. simpl. by rewrite app_nil_r.
Qed.

(** C30. The program on any driver that implements the interface and is ready:
    it closes what it opens and ends with status 0. When no open failed, it
    has printed two temperatures, each the value of the register when it was
    read, and in between the control value 0xDEAD has been stored; when an
    open failed, the messages say so and the rest is done all the same. *)
Theorem sensor_app_session (s : S) (w : W) (Hr : ready s) :
  wp (main_ temp_path control_path)
     (fun r σ => r = 0 /\ held σ = [] /\ ledger σ = [] /\
        exists ts1 wr ts2, out (drv σ) = [Started] ++ ts1 ++ [Writing 57005] ++ wr ++ ts2 ++ [Completed] /\
          shown s [Perror "open temp"; FailedRead] ts1 /\
          (wr = [Perror "open control"; FailedWrite] \/
           wr = [] /\ control (dev (drv σ)) = Some 57005) /\
          shown s [Perror "open temp"] ts2)
     (KSt (Proc s []) w [] []).
Proof.
  unfold main_. up_step; up_step. apply wp_assoc, wp_bind.
  eapply wp_mono; [apply (read_and_print s _ [FailedRead]); [done | by intros; up_step]|].
  intros _ [x w1 h1 l1] (ts1 & Hts1 & Hh & Hl & Hx). simpl in *. subst. up_step; up_step.
  apply wp_assoc, wp_bind. eapply wp_mono; [by apply write_and_print|].
  intros _ [[d2 o2] w2 h2 l2] (wr & Hwr & Hh & Hl & Hrd & Ho & Hsame). simpl in *. subst.
  assert (Hs2 : forall ts, shown d2 [Perror "open temp"] ts -> shown s [Perror "open temp"] ts).
  { intros ts [?|(t & wa & wb & ? & Ht)]; [by left|]. right. exists t, wa, wb. by rewrite <- Hsame. }
  apply wp_assoc, wp_bind. eapply wp_mono.
  { apply (read_and_print d2 _ [] (mret tt)); [done|]. intros. apply wp_ret. by rewrite app_nil_r. }
  intros _ [x w3 h3 l3] (ts2 & Hts2 & Hh & Hl & Hx). simpl in *. subst. repeat up_step.
  split_and!; try done. exists ts1, wr, ts2. split_and!; try done; [|by apply Hs2].
  simpl. by rewrite <- !app_assoc.
Qed.
End AppProps.

(** ** 019_pltdrv_dt_gpios/sensor_app.c *)
Module GpioApp.

Definition PATH : string := "gpio_state".

Section App.
Context {W : Type} `{ParseUint} `{GpioLine W} `{Grants W}.
Local Abbreviation P := (M W (proc bool line)).

(** *state, or -1. *)
Definition read_gpio_state : P (option Z) :=
  fd ← open_file PATH;
  if fd <? 0 then print (Perror "open gpio_state");; mret None
  else
    '(len, text) ← drive Pin.gpio_state_show;
    close_file PATH;;
    let buf := if len <? 0 then [] else sub 0 (Z.min 31 len) text in
    if zlen buf <=? 0 then print (Perror "read gpio_state");; mret None
    else
      s ← value OutOfBounds (cstr (buf ++ [NUL]));
      mret (Some (s32 (strtol s))).

Definition write_gpio_state (state : Z) : P Z :=
  fd ← open_file PATH;
  if fd <? 0 then print (Perror "open gpio_state");; mret (-1)
  else
    let buf := dec state in
    let len := zlen buf in
    ret ← drive (Pin.gpio_state_store buf len);
    if negb (ret =? len) then print (Perror "write gpio_state");; close_file PATH;; mret (-1)
    else close_file PATH;; mret 0.

(** The result of the last call is not looked at. *)
Definition main_ : P Z :=
  r ← read_gpio_state;
  match r with
  | None => mret 1
  | Some _ =>
      r ← write_gpio_state 1;
      if r <? 0 then mret 1
      else write_gpio_state 0;; mret 0
  end.
End App.

Section Props.
Context {W : Type} `{!ParseUint} `{!ParseUintOk} `{!GpioLine W} `{!Grants W} `{!GrantsOk W}.

(** The attribute shows the value as a line that fits the 31 bytes read. *)
Definition short_line (v : Z) : Prop := zlen (dec v ++ [LF]) <= 31 /\ cstr ((dec v ++ [LF]) ++ [NUL]) <> None.

Lemma write_gpio_spec v o (w : W) :
  0 <= v < 2 ^ 32 ->
  wp (write_gpio_state v)
     (fun r σ => held σ = [] /\ ledger σ = [] /\ dev (drv σ) = true /\
        exists rc w', k_grant (Fd PATH) w = (rc, w') /\
          (rc < 0 /\ r = -1 /\ world σ = w' /\ out (drv σ) = o ++ [Perror "open gpio_state"] \/
           rc = 0 /\ r = 0 /\ out (drv σ) = o /\
           world σ = k_gpiod_set_value (if v =? 0 then 0 else 1) w'))
     (KSt (Proc true o) w [] []).
Proof.
  intros Hv. unfold write_gpio_state, open_file, close_file. up_step. apply wp_acquire.
  - intros w1 Hg. change (0 <? 0) with false. cbv iota. wp_red. up_step; up_step.
    unfold Pin.gpio_state_store. up_step; up_step. rewrite parse_dec by done.
    up_step. change (0 =? 0) with true. cbv iota. apply wp_call. intros [] w2 [= <-]. wp_red.
    up_step. rewrite Z.eqb_refl. simpl negb. cbv iota. repeat up_step. split_and!; try done.
    exists 0, w1. split; [done|]. by right.
  - intros rc w1 Hne Hg. pose proof (grant_ok _ _ _ _ Hg). rewrite (proj2 (Z.ltb_lt rc 0)) by lia.
    repeat up_step. split_and!; try done. exists rc, w1. split; [done|]. left. split_and!; try done. lia.
Qed.

Lemma read_gpio_safe o (w : W) :
  (forall w, short_line (k_gpiod_get_value w)) ->
  wp read_gpio_state
     (fun r σ => held σ = [] /\ ledger σ = [] /\ dev (drv σ) = true)
     (KSt (Proc true o) w [] []).
Proof.
  intros Hline. unfold read_gpio_state, open_file, close_file. up_step. apply wp_acquire.
  - intros w1 Hg. change (0 <? 0) with false. cbv iota. wp_red. up_step; up_step.
    unfold Pin.gpio_state_show. up_step; up_step. up_step. apply wp_call. intros st w2 [= <- <-]. wp_red.
    up_step. destruct (Hline w1) as [Hl Hc]. set (text := dec (k_gpiod_get_value w1) ++ [LF]) in *.
    pose proof (zlen_nonneg text). rewrite (proj2 (Z.ltb_ge _ 0)) by done.
    rewrite Z.min_r, sub_all_n by lia. repeat up_step; try done.
    destruct (cstr _) as [s|]; [|done]. repeat up_step. by split_and!.
  - intros rc w1 Hne Hg. pose proof (grant_ok _ _ _ _ Hg). rewrite (proj2 (Z.ltb_lt rc 0)) by lia.
    repeat up_step. by split_and!.
Qed.

(** The program of 019 on a probed device closes the attribute on every
    path, and when it ends with status 0 it has set the line to 1 and then to
    0, or left it at 1 because the last open failed, which it does not
    report. *)
Theorem gpio_app_pulse (w : W) (Hline : forall w : W, short_line (k_gpiod_get_value w)) :
  wp main_
     (fun r σ => held σ = [] /\ ledger σ = [] /\ dev (drv σ) = true /\
        (r = 0 -> exists wa rc wb, k_grant (Fd PATH) (k_gpiod_set_value 1 wa) = (rc, wb) /\
           (rc = 0 /\ world σ = k_gpiod_set_value 0 wb \/ rc < 0 /\ world σ = wb)))
     (KSt (Proc true []) w [] []).
Proof.
  unfold main_. up_step. eapply wp_mono; [by apply read_gpio_safe|].
  intros r0 [[d o] w0 h l] (Hh & Hl & Hd). simpl in *. subst.
  destruct r0 as [st|]; [|up_step; by split_and!]. up_step.
  eapply wp_mono; [apply write_gpio_spec; lia|].
  intros r1 [[d o1] w1 h l] (Hh & Hl & Hd & rc & w' & _ & Hcase). simpl in *. subst.
  destruct Hcase as [(_ & -> & _)|(_ & -> & _ & ->)]; simpl; [up_step; by split_and!|]. up_step.
  eapply wp_mono; [apply write_gpio_spec; lia|].
  intros r2 [[d o2] w2 h l] (Hh & Hl & Hd & rc2 & w3 & Hg & Hcase). simpl in *. subst. up_step.
  split_and!; try done. intros _. exists w', rc2, w3. split; [done|].
  destruct Hcase as [(? & _ & -> & _)|(? & _ & _ & ->)]; [by right | by left].
Qed.
End Props.
End GpioApp.

(** ** Witnesses *)

(** A probed device of 016 with its registers at address 0. *)
Definition probed : Plat.drvdata := Some (Plat.SensorDev sensor_resources (IoMem 0 4096) 0).

Lemma sensor_app_session_witness :
  wp (main_ "temp" "control") (fun r σ => r = 0 /\ ledger σ = [])
     (KSt (Proc probed []) (sim_at 0 [Byte.x19; NUL; NUL; NUL]) [] []).
Proof.
  eapply wp_mono.
  - apply (sensor_app_session (S := Plat.drvdata)
      (ready := fun s => s <> None /\ io_ready (plat_io s)) (control := fmap Plat.control_value)
      (reads := fun s => io_reads (plat_io s)) "temp" "control" probed).
    split; [discriminate | vm_compute; discriminate].
  - intros r σ (Hr & _ & Hl & _). by split.
Defined.

(** The register holds 25 and is shown twice. *)
Example sensor_app_runs :
  match main_016 (KSt (Proc probed []) (sim_at 0 [Byte.x19; NUL; NUL; NUL]) [] []) with
  | Done (r, σ) => r = 0 /\ out (drv σ) = [Started; Temperature 25; Writing 57005; Temperature 25; Completed]
                   /\ fmap Plat.control_value (dev (drv σ)) = Some 57005
  | Oops _ => False
  end.
Proof. vm_compute. by split_and!. Qed.

#[export] Instance sim_gpio : GpioLine sim := {
  k_gpiod_set_value v w := set_mem (<[0 := byte_of_Z v]> (sim_mem w)) w;
  k_gpiod_get_value w := byte_val (umem w 0);
  k_gpiod_get_direction _ := 0;
}.

Lemma byte_line (b : byte) : GpioApp.short_line (byte_val b).
Proof. destruct b; split; vm_compute; discriminate. Qed.

Lemma gpio_app_pulse_witness :
  wp GpioApp.main_ (fun r σ => held σ = [] /\ ledger σ = [] /\ dev (drv σ) = true)
     (KSt (Proc true []) (sim_at 0 [NUL]) [] []).
Proof.
  eapply wp_mono.
  - apply (GpioApp.gpio_app_pulse (sim_at 0 [NUL])). intros w. apply byte_line.
  - intros r σ (Hh & Hl & Hd & _). by split_and!.
Defined.
