(* ===== verification/Kthread.v ===== *)
(** * Kernel threads: the part of kthread.h that the thread modules use

    A module with two threads is a program of actions (its init function, the
    wait for rmmod and its exit function) that runs next to the threads it
    creates. kthread_create makes a thread that sleeps until it is woken;
    kthread_stop asks it to stop, wakes it and waits until it has returned. A
    thread asked to stop before it ran never calls its function. *)

From S2P Require Import Prelude Kernel Sched.

Inductive place (L : Type) := Fresh | In (l : L) | Exited.
Arguments Fresh {L}.
Arguments In {L}.
Arguments Exited {L}.

Record thread (L : Type) := Thread { woken : bool; should_stop : bool; at_ : place L }.
Arguments Thread {L}.
Arguments woken {L}.
Arguments should_stop {L}.
Arguments at_ {L}.

(** A [struct task_struct *]: NULL, an error pointer or a thread. *)
Inductive task (L : Type) := NullTask | ErrTask (e : Z) | Task (th : thread L).
Arguments NullTask {L}.
Arguments ErrTask {L}.
Arguments Task {L}.

Inductive slot := One | Two.
Inductive actor := Ctl | Thr (i : slot) | Rmmod.

#[export] Instance slot_eq_dec : EqDecision slot.
Proof. solve_decision. Defined.
#[export] Instance actor_eq_dec : EqDecision actor.
Proof. solve_decision. Defined.

Definition actors : list actor := [Ctl; Thr One; Thr Two; Rmmod].

Section Kthread.
Context {L G : Type}.

(** The variables of the module: its data and its two task pointers. *)
Record mod_st := Mod { shared : G; task1 : task L; task2 : task L }.

Definition the_task (i : slot) (m : mod_st) : task L :=
  match i with One => task1 m | Two => task2 m end.
Definition set_task (i : slot) (t : task L) (m : mod_st) : mod_st :=
  match i with
  | One => Mod (shared m) t (task2 m)
  | Two => Mod (shared m) (task1 m) t
  end.
Definition set_shared (g : G) (m : mod_st) : mod_st := Mod g (task1 m) (task2 m).

(** [e] is 0, or the error number of a creation that fails. *)
Definition kthread_create (e : Z) : task L :=
  if e =? 0 then Task (Thread false false Fresh) else ErrTask e.

Definition IS_ERR_task (t : task L) : bool := match t with ErrTask _ => true | _ => false end.

Definition wake_up_process (t : task L) : outcome (task L) :=
  match t with
  | Task th => Done (Task (Thread true (should_stop th) (at_ th)))
  | NullTask => Oops NullDeref
  | ErrTask _ => Oops BadPointer
  end.

(** kthread_run creates and, when that worked, wakes. *)
Definition kthread_run (e : Z) : task L :=
  if e =? 0 then Task (Thread true false Fresh) else ErrTask e.

(** What the loading and unloading process does: an ordinary statement, the
    statement [if (thread) kthread_stop(thread)], or waiting for rmmod. *)
Inductive action := Do (f : mod_st -> outcome mod_st) | Stop (i : slot) | Await.

Record conf := Conf { md : mod_st; pc : nat; rmmod : bool }.

Definition next (m : mod_st) (s : conf) : conf := Conf m (S (pc s)) (rmmod s).

(** A thread function in small steps: from a place in it, under what
    kthread_should_stop returns, to the next place or its [return]. [None] is
    a step that has to wait. *)
Context (body : slot -> bool -> L -> G -> option (option L * G)) (l0 : L).
Context (prog : list action).

Definition thread_step (i : slot) (th : thread L) (g : G) : option (thread L * G) :=
  if woken th then
    match at_ th with
    | Fresh => Some (Thread true (should_stop th) (if should_stop th then Exited else In l0), g)
    | In l =>
        '(o, g') ← body i (should_stop th) l g;
        Some (Thread true (should_stop th) (match o with Some l' => In l' | None => Exited end), g')
    | Exited => None
    end
  else None.

Definition step (t : actor) (s : conf) : option (outcome conf) :=
  match t with
  | Ctl =>
      match prog !! pc s with
      | None => None
      | Some (Do f) =>
          Some (match f (md s) with Done m => Done (next m s) | Oops u => Oops u end)
      | Some Await => if rmmod s then Some (Done (next (md s) s)) else None
      | Some (Stop i) =>
          match the_task i (md s) with
          | NullTask => Some (Done (next (md s) s))
          | ErrTask _ => Some (Oops BadPointer)
          | Task th =>
              if should_stop th && woken th then
                match at_ th with Exited => Some (Done (next (md s) s)) | _ => None end
              else Some (Done (Conf (set_task i (Task (Thread true true (at_ th))) (md s))
                                    (pc s) (rmmod s)))
          end
      end
  | Thr i =>
      match the_task i (md s) with
      | Task th =>
          '(th', g') ← thread_step i th (shared (md s));
          Some (Done (Conf (set_shared g' (set_task i (Task th') (md s))) (pc s) (rmmod s)))
      | _ => None
      end
  | Rmmod =>
      match prog !! pc s with
      | Some Await => if rmmod s then None else Some (Done (Conf (md s) (pc s) true))
      | _ => None
      end
  end.

(** The module starts unloaded, its task pointers NULL. *)
Definition start (g : G) : conf := Conf (Mod g NullTask NullTask) 0 false.

Definition alive (i : slot) (m : mod_st) : bool :=
  match the_task i m with
  | Task th => match at_ th with Exited => false | _ => true end
  | _ => false
  end.

(** ** Unloading returns *)
Section Liveness.
(** Once asked to stop, a thread function comes closer to its [return] with
    each step and never has to wait. *)
Context (dist : L -> nat) (bound : nat).
Context (dist_bound : forall l, (dist l < bound)%nat).
Context (body_stops : forall i l g, exists o g', body i true l g = Some (o, g') /\
  match o with Some l' => (dist l' < dist l)%nat | None => True end).

Definition thread_dist (th : thread L) : nat :=
  match at_ th with Fresh => 1 | In l => S (dist l) | Exited => 0 end.

Definition finished (c : outcome conf) : Prop :=
  match c with Done s => (length prog <= pc s)%nat | Oops _ => True end.

#[export] Instance finished_dec c : Decision (finished c).
Proof. destruct c; simpl; apply _. Defined.

Definition action_left (s : conf) : nat :=
  match prog !! pc s with
  | Some (Stop i) =>
      match the_task i (md s) with
      | Task th => if should_stop th && woken th then thread_dist th else 1 + bound
      | _ => 0
      end
  | Some Await => if rmmod s then 0 else 1
  | _ => 0
  end.

Definition measure (s : conf) : nat := (length prog - pc s) * (3 + bound) + action_left s.

Definition helper (s : conf) : actor :=
  match prog !! pc s with
  | Some (Stop i) =>
      match the_task i (md s) with
      | Task th =>
          if should_stop th && woken th then
            match at_ th with Exited => Ctl | _ => Thr i end
          else Ctl
      | _ => Ctl
      end
  | Some Await => if rmmod s then Ctl else Rmmod
  | _ => Ctl
  end.

Lemma thread_dist_bound th : (thread_dist th <= bound)%nat.
Proof.
  unfold thread_dist. destruct (at_ th) as [|l|]; [|pose proof (dist_bound l); lia|lia].
  pose proof (dist_bound l0). lia.
Qed.

Lemma action_left_bound s : (action_left s <= 1 + bound)%nat.
Proof.
  unfold action_left. destruct (prog !! pc s) as [[f|i|]|]; try lia.
  - destruct (the_task i (md s)) as [| |th]; try lia. pose proof (thread_dist_bound th).
    case_match; lia.
  - destruct (rmmod s); lia.
Qed.

Lemma next_measure m s : (pc s < length prog)%nat -> (measure (next m s) < measure s)%nat.
Proof.
  intros Hpc. unfold measure. pose proof (action_left_bound (next m s)) as Hb. simpl in *.
  replace (length prog - pc s)%nat with (S (length prog - S (pc s))) by lia. simpl. lia.
Qed.

Lemma thread_step_spec i th g :
  should_stop th = true -> woken th = true -> at_ th <> Exited ->
  exists th' g', thread_step i th g = Some (th', g') /\
    should_stop th' = true /\ woken th' = true /\ (thread_dist th' < thread_dist th)%nat.
Proof.
  intros Hs Hw Ha. unfold thread_step, thread_dist. rewrite Hw, Hs.
  destruct (at_ th) as [|l|]; [eauto 10 | | done].
  destruct (body_stops i l g) as (o & g' & -> & Ho). simpl. eexists _, _. split; [done|].
  split_and!; [done | done |]. simpl. destruct o; lia.
Qed.

Lemma thread_step_flags i th g th' g' :
  thread_step i th g = Some (th', g') ->
  should_stop th' = should_stop th /\ woken th' = woken th /\ at_ th <> Exited.
Proof.
  unfold thread_step. destruct (woken th) eqn:Hw; [|done].
  destruct (at_ th) as [|l|]; [by intros [= <- <-] | | done].
  destruct (body i (should_stop th) l g) as [[o g2]|]; [|done]. simpl.
  by intros [= <- <-].
Qed.

(** The [Progress] hypothesis, one actor at a time. *)
Lemma ctl_progress s : (pc s < length prog)%nat ->
  finished (move step (Done s) Ctl) \/
  exists s', move step (Done s) Ctl = Done s' /\
    ((measure s' < measure s)%nat \/ Ctl <> helper s /\ s' = s).
Proof.
  intros Hpc. simpl. pose proof (next_measure (md s) s Hpc) as Hn.
  unfold helper. destruct (lookup_lt_is_Some_2 prog (pc s) Hpc) as [a Ha]. rewrite Ha.
  destruct a as [f|i|]; simpl.
  - destruct (f (md s)) as [m|]; [|by left]. right. eexists. split; [done|]. left.
    by apply next_measure.
  - destruct (the_task i (md s)) as [|e|th] eqn:Ht; simpl; [eauto | by left |].
    destruct (should_stop th && woken th) eqn:Hf; simpl.
    + destruct (at_ th); simpl; eauto 6.
    + right. eexists. split; [done|]. left. unfold measure, action_left. simpl.
      rewrite Ha, Ht, Hf. replace (the_task i (set_task i _ (md s))) with
        (Task (Thread true true (at_ th))) by (by destruct i).
      simpl. pose proof (thread_dist_bound (Thread true true (at_ th))). lia.
  - destruct (rmmod s); simpl; eauto 6.
Qed.

Lemma rmmod_progress s :
  exists s', move step (Done s) Rmmod = Done s' /\
    ((measure s' < measure s)%nat \/ Rmmod <> helper s /\ s' = s).
Proof.
  unfold helper. simpl. destruct (prog !! pc s) as [[f|i|]|] eqn:Ha; simpl; eauto.
  - eexists. split; [done|]. right. split; [|done]. repeat case_match; done.
  - destruct (rmmod s) eqn:Hr; simpl; [eauto|].
    eexists. split; [done|]. left. unfold measure, action_left. simpl. rewrite Ha, Hr. lia.
Qed.

Lemma thr_progress i s :
  exists s', move step (Done s) (Thr i) = Done s' /\
    ((measure s' < measure s)%nat \/
     Thr i <> helper s /\ measure s' = measure s /\ helper s' = helper s).
Proof.
  assert (Hsame : forall j m, j <> i -> the_task j (set_shared m (set_task i
            (the_task i (md s)) (md s))) = the_task j (md s)) by (by intros [] ? ?; destruct i).
  simpl. destruct (the_task i (md s)) as [|e|th] eqn:Ht; simpl.
  1,2: eexists; split; [done|]; right; split; [|done]; unfold helper;
    destruct (prog !! pc s) as [[|j|]|]; try done; [|by destruct (rmmod s)];
    destruct (decide (j = i)) as [->|]; [by rewrite Ht|];
    repeat case_match; congruence.
  destruct (thread_step i th (shared (md s))) as [[th' g']|] eqn:Hts; simpl.
  - destruct (thread_step_flags _ _ _ _ _ Hts) as (Hs & Hw & Ha).
    set (s' := Conf _ _ _).
    assert (Htask : the_task i (md s') = Task th') by (by destruct i).
    assert (Hother : forall j, j <> i -> the_task j (md s') = the_task j (md s))
      by (by intros [] ?; destruct i).
    exists s'. split; [done|]. unfold measure, helper, action_left.
    change (pc s') with (pc s). change (rmmod s') with (rmmod s).
    destruct (prog !! pc s) as [[f|j|]|]; try (right; split_and!; done).
    2:{ right. destruct (rmmod s); done. }
    destruct (decide (j = i)) as [->|Hj].
    2:{ rewrite (Hother j Hj). right. repeat case_match; split_and!; congruence. }
    rewrite Ht, Htask, Hs, Hw. destruct (should_stop th && woken th) eqn:Hf.
    2:{ right. split_and!; done. }
    apply andb_prop in Hf as [Hf1 Hf2].
    destruct (thread_step_spec i th (shared (md s)) Hf1 Hf2 Ha) as (th2 & g2 & E & _ & _ & Hlt).
    rewrite E in Hts. injection Hts as -> ->. left. lia.
  - eexists. split; [done|]. right. split; [|done]. unfold helper.
    destruct (prog !! pc s) as [[|j|]|]; try done; [|by destruct (rmmod s)].
    destruct (decide (j = i)) as [->|]; [|repeat case_match; congruence].
    rewrite Ht. destruct (should_stop th && woken th) eqn:Hf; [|done].
    assert (at_ th = Exited \/ at_ th <> Exited) as [Ha|Ha]
      by (destruct (at_ th); [by right | by right | by left]).
    { by rewrite Ha. }
    apply andb_prop in Hf as [Hf1 Hf2].
    destruct (thread_step_spec i th (shared (md s)) Hf1 Hf2 Ha) as (? & ? & E & _). congruence.
Qed.

Lemma step_progress : progresses step finished (fun _ => True) (fun _ => True) measure helper.
Proof.
  intros t s _ _ Hg. split; [done|]. assert (Hpc : (pc s < length prog)%nat) by (simpl in Hg; lia).
  destruct t as [|i|].
  - destruct (ctl_progress s Hpc) as [|(s' & E & [Hlt|[Hne ->]])]; [by left | right; by exists s'; auto |].
    right. exists s. split_and!; [done | done | right; by split_and!].
  - right. destruct (thr_progress i s) as (s' & E & [Hlt|(Hne & Hm & Hh)]); exists s'.
    + by split_and!; [| | left].
    + split_and!; [done | done | right; split_and!; [done | lia | done]].
  - right. destruct (rmmod_progress s) as (s' & E & [Hlt|[Hne ->]]); [by exists s'; auto|].
    exists s. split_and!; [done | done | right; by split_and!].
Qed.

(** Under every fair schedule the module is loaded, unloaded on request, and
    both its exit function and its threads return, or it reaches undefined
    behaviour; nothing waits forever. *)
Lemma unload_returns sched g :
  fair sched -> exists n, finished (runs step sched n (Done (start g))).
Proof.
  intros Hf. eapply (fair_eventually step finished (fun _ => True) (fun _ => True)); eauto using step_progress.
Qed.
End Liveness.

(** ** No thread is left behind *)

(** What comes after a [Stop] leaves the stopped task alone. *)
Definition stops_last : Prop := forall k k' i f m m',
  prog !! k = Some (Stop i) -> prog !! k' = Some (Do f) -> (k < k')%nat ->
  f m = Done m' -> the_task i m' = the_task i m.

Definition stopped (s : conf) : Prop := forall k i,
  prog !! k = Some (Stop i) -> (k < pc s)%nat -> alive i (md s) = false.

Lemma step_stopped t s s' :
  stops_last -> stopped s -> step t s = Some (Done s') -> stopped s'.
Proof.
  intros Hlast Hs Hstep k i Hk Hlt. destruct t as [|j|]; simpl in Hstep.
  - destruct (prog !! pc s) as [[f|j|]|] eqn:Ha; [| | |done].
    + destruct (f (md s)) as [m|] eqn:Hf; [|done]. injection Hstep as <-. simpl in *.
      unfold alive. destruct (decide (k = pc s)) as [->|]; [congruence|].
      erewrite Hlast; [apply (Hs k i Hk); lia | done | done | lia | done].
    + destruct (the_task j (md s)) as [|e|th] eqn:Ht.
      * injection Hstep as <-. simpl in *. destruct (decide (k = pc s)) as [->|].
        { rewrite Hk in Ha. injection Ha as ->. unfold alive. by rewrite Ht. }
        apply (Hs k i Hk). lia.
      * done.
      * destruct (should_stop th && woken th).
        { destruct (at_ th) eqn:Hat; [done | done |]. injection Hstep as <-. simpl in *.
          destruct (decide (k = pc s)) as [->|]; [|apply (Hs k i Hk); lia].
          rewrite Hk in Ha. injection Ha as ->. unfold alive. by rewrite Ht, Hat. }
        injection Hstep as <-. simpl in *. specialize (Hs k i Hk Hlt). unfold alive in *.
        destruct (decide (i = j)) as [->|]; [|by destruct i, j].
        rewrite Ht in Hs. by destruct j.
    + destruct (rmmod s); [|done]. injection Hstep as <-. simpl in *.
      destruct (decide (k = pc s)) as [->|]; [congruence|]. apply (Hs k i Hk). lia.
  - destruct (the_task j (md s)) as [|e|th] eqn:Ht; [done | done |].
    destruct (thread_step j th (shared (md s))) as [[th' g']|] eqn:Hts; [|done].
    injection Hstep as <-. simpl in *. specialize (Hs k i Hk Hlt). unfold alive in *.
    destruct (decide (i = j)) as [->|]; [|by destruct i, j].
    destruct (thread_step_flags _ _ _ _ _ Hts) as (_ & _ & Ha). rewrite Ht in Hs.
    by destruct (at_ th).
  - destruct (prog !! pc s) as [[]|]; try done. destruct (rmmod s); [done|].
    injection Hstep as <-. eauto.
Qed.

(** An invariant that follows the program: [J k m] holds when action [k] is
    next. A statement runs when the threads stopped before it are gone, and a
    thread runs only before it is stopped. *)
Lemma exec_mod_inv (J : nat -> mod_st -> Prop) g :
  stops_last ->
  (forall k f m m', prog !! k = Some (Do f) -> J k m -> f m = Done m' ->
     (forall k' i, prog !! k' = Some (Stop i) -> (k' < k)%nat -> alive i m = false) ->
     J (S k) m') ->
  (forall k m, (forall f, prog !! k <> Some (Do f)) ->
     (forall i, prog !! k = Some (Stop i) -> IS_ERR_task (the_task i m) = false) ->
     J k m -> J (S k) m) ->
  (forall k i th m, J k m -> the_task i m = Task th ->
     J k (set_task i (Task (Thread true true (at_ th))) m)) ->
  (forall k i th th' g' m, J k m -> the_task i m = Task th ->
     (forall k', prog !! k' = Some (Stop i) -> (k <= k')%nat) ->
     thread_step i th (shared m) = Some (th', g') ->
     J k (set_shared g' (set_task i (Task th') m))) ->
  J 0%nat (Mod g NullTask NullTask) ->
  forall ts, holds (fun s => stopped s /\ J (pc s) (md s)) (exec step ts (Done (start g))).
Proof.
  intros Hlast Hdo Hnext Hstop Hthr H0 ts. apply exec_inv.
  2:{ split; [|done]. intros k' i' _ Hlt. simpl in Hlt. lia. }
  clear ts. intros t s s' [Hst HJ] Hstep. split; [by eapply step_stopped|].
  destruct t as [|i|]; simpl in Hstep.
  - destruct (prog !! pc s) as [[f|j|]|] eqn:Ha; [| | |done].
    + destruct (f (md s)) as [m|] eqn:Hf; [|done]. injection Hstep as <-. simpl. eauto.
    + assert (Hnd : forall f, prog !! pc s <> Some (Do f)) by (by rewrite Ha).
      assert (Hpass : IS_ERR_task (the_task j (md s)) = false -> J (S (pc s)) (md s)).
      { intros He. apply Hnext; [done | | done]. intros i. rewrite Ha. by intros [= <-]. }
      destruct (the_task j (md s)) as [|e|th] eqn:Ht; [injection Hstep as <-; simpl; eauto | done |].
      destruct (should_stop th && woken th).
      * destruct (at_ th); [done | done |]. injection Hstep as <-. simpl. eauto.
      * injection Hstep as <-. simpl. eauto.
    + destruct (rmmod s); [|done]. injection Hstep as <-. simpl.
      apply Hnext; [by rewrite Ha | by rewrite Ha | done].
  - destruct (the_task i (md s)) as [|e|th] eqn:Ht; [done | done |].
    destruct (thread_step i th (shared (md s))) as [[th' g']|] eqn:Hts; [|done].
    injection Hstep as <-. simpl. eapply Hthr; eauto.
    intros k' Hk'. destruct (decide (pc s <= k')%nat); [done|].
    pose proof (Hst k' i Hk' ltac:(lia)) as Hd. unfold alive in Hd. rewrite Ht in Hd.
    destruct (thread_step_flags _ _ _ _ _ Hts) as (_ & _ & Ha). by destruct (at_ th).
  - destruct (prog !! pc s) as [[]|]; try done. destruct (rmmod s); [done|].
    injection Hstep as <-. done.
Qed.

Lemma pc_bound ts g s : exec step ts (Done (start g)) = Done s -> (pc s <= length prog)%nat.
Proof.
  intros Hr. assert (HI : holds (fun s => (pc s <= length prog)%nat) (exec step ts (Done (start g)))).
  2:{ by rewrite Hr in HI. }
  apply exec_inv; [|simpl; lia]. clear. intros t s s' Hle Hstep. destruct t as [|i|]; simpl in Hstep.
  - destruct (prog !! pc s) as [a|] eqn:Ha; [|done]. apply lookup_lt_Some in Ha.
    destruct a as [f|j|]; repeat case_match; simplify_eq; simpl; lia.
  - destruct (the_task i (md s)); try done. destruct (thread_step _ _ _) as [[]|]; by simplify_eq/=.
  - repeat case_match; by simplify_eq/=.
Qed.

(** Undefined behaviour comes from a statement or from stopping an error
    pointer. *)
Lemma step_oops t s u :
  step t s = Some (Oops u) ->
  (exists f, prog !! pc s = Some (Do f) /\ f (md s) = Oops u) \/
  u = BadPointer /\ exists i, prog !! pc s = Some (Stop i) /\ IS_ERR_task (the_task i (md s)) = true.
Proof.
  intros Hstep. destruct t as [|i|]; simpl in Hstep.
  - destruct (prog !! pc s) as [[f|j|]|] eqn:Ha; [| | |done].
    + left. exists f. split; [done|]. destruct (f (md s)); [done|]. by injection Hstep as <-.
    + right. destruct (the_task j (md s)) as [|e|th] eqn:Ht; [done | |].
      { injection Hstep as <-. split; [done|]. exists j. by rewrite Ht. }
      destruct (should_stop th && woken th); [|done]. by destruct (at_ th).
    + by destruct (rmmod s).
  - destruct (the_task i (md s)) as [|e|th]; [done | done |].
    by destruct (thread_step i th (shared (md s))) as [[]|].
  - destruct (prog !! pc s) as [[]|]; try done. by destruct (rmmod s).
Qed.

Lemma exec_oops (P : ub -> Prop) g ts u :
  (forall k f m u, prog !! k = Some (Do f) -> f m = Oops u -> P u) -> P BadPointer ->
  exec step ts (Done (start g)) = Oops u -> P u.
Proof.
  intros Hdo Hbad. induction ts as [|t ts IH] using rev_ind; [done|].
  rewrite exec_app. simpl. destruct (exec step ts (Done (start g))) as [s|u']; [|exact IH].
  simpl. destruct (step t s) as [[s'|u']|] eqn:E; simpl; [done | | done]. intros [= ->].
  destruct (step_oops _ _ _ E) as [(f & Hk & Hf)|[-> _]]; eauto.
Qed.

Lemma exec_no_oops (J : nat -> mod_st -> Prop) g :
  (forall ts, holds (fun s => stopped s /\ J (pc s) (md s)) (exec step ts (Done (start g)))) ->
  (forall k f m u, prog !! k = Some (Do f) -> J k m -> f m <> Oops u) ->
  (forall k i m, prog !! k = Some (Stop i) -> J k m -> IS_ERR_task (the_task i m) = false) ->
  forall ts, exists s, exec step ts (Done (start g)) = Done s /\ stopped s /\ J (pc s) (md s).
Proof.
  intros Hinv Hdo Hst ts. induction ts as [|t ts IH] using rev_ind.
  - exists (start g). split; [done|]. apply (Hinv []).
  - destruct IH as (s & Hs & _ & HJ). pose proof (Hinv (ts ++ [t])) as Hnew.
    rewrite exec_app, Hs in *. simpl in *.
    destruct (step t s) as [[s'|u]|] eqn:E; simpl in *; eauto.
    destruct (step_oops _ _ _ E) as [(f & Hk & Hf)|[_ (i & Hk & Hf)]]; exfalso.
    + by eapply Hdo.
    + by rewrite (Hst _ _ _ Hk HJ) in Hf.
Qed.

(** A module whose exit function has returned has no thread that still runs
    its code. *)
Lemma no_thread_left ts g s k i :
  stops_last -> exec step ts (Done (start g)) = Done s ->
  (length prog <= pc s)%nat -> prog !! k = Some (Stop i) -> alive i (md s) = false.
Proof.
  intros Hlast Hr Hpc Hk.
  assert (Hs : holds stopped (exec step ts (Done (start g)))).
  { apply exec_inv; [intros; by eapply step_stopped|]. intros k' i' _ Hlt. simpl in Hlt. lia. }
  rewrite Hr in Hs. apply (Hs k i Hk). apply lookup_lt_Some in Hk. lia.
Qed.
End Kthread.

Arguments mod_st : clear implicits.
Arguments conf : clear implicits.
Arguments action : clear implicits.
