(* ===== verification/Threads.v ===== *)
(** * Kernel threads: 001_driver_misc/kThread.c, 023_katomic, 026_kthread

    Three modules that start two threads when they are loaded and stop them
    when they are unloaded. [Counter] is atomic.c, whose threads count up and
    down on one atomic_t; [Pair] is thread.c, the only one that checks what
    creating a thread returned; [Locked] is kThread.c, whose threads share a
    counter under a mutex. The messages in the kernel log that show a counter
    are kept in the state. *)

From S2P Require Import Prelude Kernel Sched Kthread.

(** ** 023_katomic/atomic.c *)
Module Counter.

Inductive line := IncLine (v : Z) | DecLine (v : Z) | FinalLine (v : Z).

Record data := Data { counter : Z; dmesg : list line }.

(** At the loop test, at the atomic operation, at the message that shows its
    result, and asleep. *)
Inductive loc := Test | Op | Report (val : Z) | Sleep.

(** The two thread functions; msleep only takes time. *)
Definition inc_thread (stop : bool) (l : loc) (g : data) : option (option loc * data) :=
  match l with
  | Test => Some (if stop then None else Some Op, g)
  | Op => let val := s32 (counter g + 1) in Some (Some (Report val), Data val (dmesg g))
  | Report val => Some (Some Sleep, Data (counter g) (dmesg g ++ [IncLine val]))
  | Sleep => Some (Some Test, g)
  end.

Definition dec_thread (stop : bool) (l : loc) (g : data) : option (option loc * data) :=
  match l with
  | Test => Some (if stop then None else Some Op, g)
  | Op => let val := s32 (counter g - 1) in Some (Some (Report val), Data val (dmesg g))
  | Report val => Some (Some Sleep, Data (counter g) (dmesg g ++ [DecLine val]))
  | Sleep => Some (Some Test, g)
  end.

Definition body (i : slot) := match i with One => inc_thread | Two => dec_thread end.

Abbreviation mod_st := (mod_st loc data).

(** What kthread_run returns is not checked. *)
Definition atomic_init (e1 e2 : Z) : list (action loc data) :=
  [Do (fun m => Done (set_shared (Data 0 (dmesg (shared m))) m));
   Do (fun m => Done (set_task One (kthread_run e1) m));
   Do (fun m => Done (set_task Two (kthread_run e2) m))].

Definition atomic_exit : list (action loc data) :=
  [Stop One; Stop Two;
   Do (fun m => let g := shared m in
         Done (set_shared (Data (counter g) (dmesg g ++ [FinalLine (counter g)])) m))].

Definition prog (e1 e2 : Z) := atomic_init e1 e2 ++ [Await] ++ atomic_exit.

Definition run (e1 e2 : Z) (ts : list actor) := exec (step body Test (prog e1 e2)) ts (Done (start (Data 0 []))).

(** ** Nothing is lost *)

Definition balance (ls : list line) : Z :=
  foldl (fun n l => match l with IncLine _ => n + 1 | DecLine _ => n - 1 | FinalLine _ => n end) 0 ls.

(** The operation of a thread whose message is still to come. *)
Definition pending (t : task loc) : Z :=
  match t with Task th => match at_ th with In (Report _) => 1 | _ => 0 end | _ => 0 end.

Definition inv (k : nat) (m : mod_st) : Prop :=
  ((k <= 1)%nat -> task1 m = NullTask) /\ ((k <= 2)%nat -> task2 m = NullTask) /\
  (k = 0%nat -> dmesg (shared m) = []) /\
  counter (shared m) = s32 (balance (dmesg (shared m)) + pending (task1 m) - pending (task2 m)) /\
  ((k <= 6)%nat -> forall v, FinalLine v ∉ dmesg (shared m)) /\
  (k = 7%nat -> exists ls, dmesg (shared m) = ls ++ [FinalLine (counter (shared m))] /\
     forall v, FinalLine v ∉ ls).

Lemma balance_app ls l :
  balance (ls ++ [l]) = balance ls +
    match l with IncLine _ => 1 | DecLine _ => -1 | FinalLine _ => 0 end.
Proof. unfold balance. rewrite foldl_app. simpl. destruct l; lia. Qed.

(** The seven actions of the module, for case analysis. *)
Lemma counter_prog_lookup e1 e2 k a :
  prog e1 e2 !! k = Some a ->
  (k <= 6)%nat /\ (forall i, a = Stop i -> k = match i with One => 4 | Two => 5 end)%nat /\
  (forall f, a = Do f -> k = 0 \/ k = 1 \/ k = 2 \/ k = 6)%nat.
Proof.
  intros Hk. do 7 (destruct k as [|k]; [injection Hk as <-; split_and!; [lia | |];
    try (intros [] [=]; lia); try (intros ? [=]; lia); intros; lia|]). done.
Qed.

Lemma counter_prog_stops_last e1 e2 : stops_last (prog e1 e2).
Proof.
  intros k k' i f m m' Hk Hk' Hlt Hf.
  pose proof (counter_prog_lookup _ _ _ _ Hk) as (_ & Hs & _). specialize (Hs i eq_refl).
  pose proof (counter_prog_lookup _ _ _ _ Hk') as (_ & _ & Hd). specialize (Hd f eq_refl).
  assert (k' = 6)%nat as -> by (destruct i; lia). injection Hk' as <-. injection Hf as <-.
  by destruct i.
Qed.

Lemma pending_run e : pending (kthread_run e) = 0.
Proof. unfold kthread_run. by destruct (e =? 0). Qed.

Lemma dead_pending i (m : mod_st) : alive i m = false -> pending (the_task i m) = 0.
Proof. unfold alive, pending. destruct (the_task i m) as [| |th]; try done. by destruct (at_ th). Qed.

Ltac thread_case Hat :=
  unfold inv; simpl; split_and!; try lia; try done;
  rewrite ?Hat, ?swrap_add_l, ?balance_app in *;
  try (unfold Z.sub; rewrite ?swrap_add_l);
  try (f_equal; repeat case_match; simplify_eq/=; lia);
  try (intros _ v' [?|?%list_elem_of_singleton]%elem_of_app; [|done];
    match goal with H : forall v, FinalLine v ∉ _ |- _ => by eapply H end).

(** One step of a thread keeps the account. *)
Lemma counter_inv_thread k i th th' g' m :
  inv k m -> the_task i m = Task th -> (k <= 5)%nat ->
  thread_step body Test i th (shared m) = Some (th', g') ->
  inv k (set_shared g' (set_task i (Task th') m)).
Proof.
  intros (H1 & H2 & H3 & H4 & H5 & H6) Ht Hk Hts.
  assert (Hk1 : (k <= 1)%nat -> i = Two) by (intros Hle; destruct i; [|done];
    simpl in Ht; rewrite (H1 Hle) in Ht; done).
  assert (Hk2 : (2 < k)%nat \/ i = One) by (destruct i; [by right|]; left;
    destruct (decide (2 < k)%nat); [done|]; simpl in Ht; rewrite H2 in Ht by lia; done).
  assert (Hk0 : k <> 0%nat) by (intros ->; destruct Hk2; [lia|]; specialize (Hk1 ltac:(lia)); congruence).
  destruct m as [[c log] t1 t2]. unfold thread_step in Hts.
  destruct (woken th); [|done]. specialize (H5 ltac:(lia)).
  destruct i; simpl in *; subst.
  - assert (1 < k)%nat by (destruct (decide (k <= 1)%nat) as [Hle|]; [discriminate (Hk1 Hle) | lia]).
    destruct (at_ th) as [|[| |v|]|] eqn:Hat; simpl in *; [| | | | |done]; injection Hts as <- <-;
      thread_case Hat.
  - assert (2 < k)%nat by (destruct Hk2; [lia | done]).
    destruct (at_ th) as [|[| |v|]|] eqn:Hat; simpl in *; [| | | | |done]; injection Hts as <- <-;
      thread_case Hat.
Qed.

Lemma counter_inv_statement e1 e2 k f m m' :
  prog e1 e2 !! k = Some (Do f) -> inv k m -> f m = Done m' -> inv (S k) m'.
Proof.
  intros Hk (H1 & H2 & H3 & H4 & H5 & H6) Hf.
  pose proof (counter_prog_lookup _ _ _ _ Hk) as (_ & _ & Hk').
  destruct m as [[c log] t1 t2]. simpl in *.
  destruct (Hk' f eq_refl) as [->|[->|[->| ->]]]; injection Hk as <-; injection Hf as <-;
    unfold inv; simpl; rewrite ?pending_run, ?balance_app.
  - rewrite H1, H2, H3 by lia. split_and!; try done; intros; by apply not_elem_of_nil.
  - rewrite H1, H2 in H4 by lia. rewrite H2 by lia. split_and!; try lia; try done. intros _. apply H5. lia.
  - rewrite H2 in H4 by lia. split_and!; try lia; try done. intros _. apply H5. lia.
  - split_and!; try lia; [rewrite H4; f_equal; lia|]. intros _. exists log. split; [done|]. apply H5. lia.
Qed.

Lemma counter_run_inv e1 e2 ts : holds (fun s => stopped (prog e1 e2) s /\ inv (pc s) (md s)) (run e1 e2 ts).
Proof.
  apply exec_mod_inv; [apply counter_prog_stops_last | | | | |].
  - intros k f m m' Hk HJ Hf _. by eapply counter_inv_statement.
  - intros k m Hk _ (H1 & H2 & H3 & H4 & H5 & H6).
    assert (k <> 0 /\ k <> 1 /\ k <> 2 /\ k <> 6)%nat as (? & ? & ? & ?)
      by (split_and!; intros ->; by eapply Hk).
    split_and!; try done; try lia. intros. apply H5. lia.
  - intros k i th m (H1 & H2 & H3 & H4 & H5 & H6) Ht.
    destruct i; simpl in *; rewrite Ht in *; split_and!; try done; intros Hle;
      [by specialize (H1 Hle) | by specialize (H2 Hle)].
  - intros k i th th' g' m HJ Ht Hst Hts. eapply counter_inv_thread; eauto.
    destruct i; [pose proof (Hst 4%nat eq_refl) | pose proof (Hst 5%nat eq_refl)]; lia.
  - split_and!; try done. intros _ v. apply not_elem_of_nil.
Qed.

(** C15. However the two threads and the unloading are interleaved, the value
    reported last is the number of increments reported minus the number of
    decrements reported, as an [int]: no operation is lost and none is counted
    without its message. *)
Theorem atomic_final_value (e1 e2 : Z) (ts : list actor) s
    (Hrun : run e1 e2 ts = Done s) (Hend : pc s = length (prog e1 e2)) :
  exists ls, dmesg (shared (md s)) = ls ++ [FinalLine (s32 (balance ls))] /\
    forall v, FinalLine v ∉ ls.
Proof.
  pose proof (counter_run_inv e1 e2 ts) as HI. rewrite Hrun in HI.
  destruct HI as [Hst (_ & _ & _ & H4 & _ & H6)]. destruct (H6 Hend) as (ls & Hls & Hno).
  exists ls. split; [|done]. rewrite Hls. do 3 f_equal. rewrite H4, Hls, balance_app.
  assert (P1 : pending (task1 (md s)) = 0).
  { apply (dead_pending One), (Hst 4%nat One eq_refl). rewrite Hend. simpl. lia. }
  assert (P2 : pending (task2 (md s)) = 0).
  { apply (dead_pending Two), (Hst 5%nat Two eq_refl). rewrite Hend. simpl. lia. }
  f_equal. lia.
Qed.

Lemma atomic_final_value_witness :
  exists s, run 0 0 (round_robin actors Ctl <$> seq 0 60) = Done s /\ pc s = 7%nat /\
  exists ls, dmesg (shared (md s)) = ls ++ [FinalLine (s32 (balance ls))] /\
    forall v, FinalLine v ∉ ls.
Proof.
  eexists. split; [vm_compute; reflexivity|]. split; [reflexivity|].
  apply (atomic_final_value 0 0 (round_robin actors Ctl <$> seq 0 60)); vm_compute; reflexivity.
Defined.

(** ** Unloading *)

(** A creation that failed leaves an error pointer, and stopping it is not
    survived. *)
Definition created (e1 e2 : Z) (k : nat) (m : mod_st) : Prop :=
  ((2 <= k)%nat -> IS_ERR_task (task1 m) = negb (e1 =? 0)) /\
  ((3 <= k)%nat -> IS_ERR_task (task2 m) = negb (e2 =? 0)) /\
  ((k <= 2)%nat -> task2 m = NullTask) /\
  ((5 <= k)%nat -> e1 = 0) /\ ((6 <= k)%nat -> e2 = 0).

Lemma run_created e1 e2 ts :
  holds (fun s => stopped (prog e1 e2) s /\ created e1 e2 (pc s) (md s)) (run e1 e2 ts).
Proof.
  assert (Hrun : forall e, IS_ERR_task (L:=loc) (kthread_run e) = negb (e =? 0))
    by (intros e; unfold kthread_run; by destruct (e =? 0)).
  apply exec_mod_inv; [apply counter_prog_stops_last | | | | |].
  - intros k f m m' Hk (H1 & H2 & H3 & H4 & H5) Hf _.
    pose proof (counter_prog_lookup _ _ _ _ Hk) as (_ & _ & Hk').
    destruct (Hk' f eq_refl) as [->|[->|[->| ->]]]; injection Hk as <-; injection Hf as <-;
      unfold created; simpl; split_and!; intros; try lia; rewrite ?Hrun; auto with lia.
  - intros k m Hk Hst (H1 & H2 & H3 & H4 & H5).
    assert (k <> 0 /\ k <> 1 /\ k <> 2 /\ k <> 6)%nat as (? & ? & ? & ?)
      by (split_and!; intros ->; by eapply Hk).
    split_and!; intros; auto with lia.
    + destruct (decide (k = 4)%nat) as [->|]; [|auto with lia].
      specialize (Hst One eq_refl). simpl in Hst. rewrite H1 in Hst by lia.
      destruct (Z.eqb_spec e1 0); done.
    + destruct (decide (k = 5)%nat) as [->|]; [|auto with lia].
      specialize (Hst Two eq_refl). simpl in Hst. rewrite H2 in Hst by lia.
      destruct (Z.eqb_spec e2 0); done.
  - intros k i th m (H1 & H2 & H3 & H4 & H5) Ht. destruct i; simpl in *; rewrite Ht in *;
      split_and!; auto; intros Hle; by specialize (H3 Hle).
  - intros k i th th' g' m (H1 & H2 & H3 & H4 & H5) Ht _ _. destruct i; simpl in *; rewrite Ht in *;
      split_and!; auto; intros Hle; by specialize (H3 Hle).
  - split_and!; intros; try lia; done.
Qed.

(** Steps to the [return] of a thread that was asked to stop. *)
Definition dist (l : loc) : nat :=
  match l with Test => 0 | Sleep => 1 | Report _ => 2 | Op => 3 end.

Lemma body_stops i l g : exists o g', body i true l g = Some (o, g') /\
  match o with Some l' => (dist l' < dist l)%nat | None => True end.
Proof. destruct i, l; simpl; eexists _, _; (split; [done|]); simpl; lia. Qed.

(** C16. Under every fair schedule with an rmmod, if both threads could be
    created the module is unloaded in the end and neither thread still runs;
    if one could not be created the unloading stops an error pointer. *)
Theorem atomic_unload (e1 e2 : Z) (sched : nat -> actor) (Hfair : fair sched) :
  exists n,
    if (e1 =? 0) && (e2 =? 0) then
      exists s, runs (step body Test (prog e1 e2)) sched n (Done (start (Data 0 []))) = Done s /\
        pc s = length (prog e1 e2) /\ alive One (md s) = false /\ alive Two (md s) = false
    else runs (step body Test (prog e1 e2)) sched n (Done (start (Data 0 []))) = Oops BadPointer.
Proof.
  destruct (unload_returns body Test (prog e1 e2) dist 4) with sched (Data 0 []) as [n Hn];
    [intros []; simpl; lia | apply body_stops | done |].
  exists n. rewrite runs_exec in *. pose proof (run_created e1 e2 (sched <$> seq 0 n)) as HI.
  unfold run in HI. destruct (exec _ _ _) as [s|u] eqn:E; simpl in Hn, HI.
  - destruct HI as [Hst (_ & _ & _ & H4 & H5)]. rewrite H4, H5 by lia. simpl.
    exists s. split_and!; [done | | apply (Hst 4%nat); [done | lia] | apply (Hst 5%nat); [done | lia]].
    pose proof (pc_bound _ _ _ _ _ _ E). simpl in *. lia.
  - assert (u = BadPointer) as ->.
    { eapply (exec_oops _ _ _ (fun u => u = BadPointer)); [| done | exact E].
      intros k f m u' Hk Hf. pose proof (counter_prog_lookup _ _ _ _ Hk) as (_ & _ & Hk').
      destruct (Hk' f eq_refl) as [->|[->|[->| ->]]]; injection Hk as <-; done. }
    destruct (Z.eqb_spec e1 0) as [->|]; [|done]. destruct (Z.eqb_spec e2 0) as [->|]; [|done].
    exfalso. destruct (exec_no_oops _ _ _ _ _ (run_created 0 0)) with (sched <$> seq 0 n)
      as (s & Hs & _); [| | unfold run in Hs; congruence].
    + intros k f m u Hk _ Hf. pose proof (counter_prog_lookup _ _ _ _ Hk) as (_ & _ & Hk').
      destruct (Hk' f eq_refl) as [->|[->|[->| ->]]]; injection Hk as <-; done.
    + intros k i m Hk (H1 & H2 & _). pose proof (counter_prog_lookup _ _ _ _ Hk) as (_ & Hs & _).
      specialize (Hs i eq_refl). destruct i; subst k; [apply H1 | apply H2]; lia.
Qed.

Lemma atomic_unload_witness : exists n s,
  runs (step body Test (prog 0 0)) (round_robin actors Ctl) n (Done (start (Data 0 []))) = Done s /\
    pc s = 7%nat /\ alive One (md s) = false /\ alive Two (md s) = false.
Proof.
  destruct (atomic_unload 0 0 (round_robin actors Ctl)) as [n Hn]; [|by exists n].
  apply round_robin_all. intros [|[]|]; unfold actors; set_solver.
Defined.
End Counter.

(** ** 026_kthread/thread.c *)
Module Pair.

Inductive line := Started (i : slot) | Running (i : slot) | Stopping (i : slot) | Stopped (i : slot).

(** At the first message, the loop test, the message of the loop, asleep, and
    at the last message. *)
Inductive loc := Begin | Test | Report | Sleep | Last.

(** thread_fn1 and thread_fn2; the data is the kernel log. *)
Definition thread_fn (i : slot) (stop : bool) (l : loc) (g : list line) :
    option (option loc * list line) :=
  match l with
  | Begin => Some (Some Test, g ++ [Started i])
  | Test => Some (Some (if stop then Last else Report), g)
  | Report => Some (Some Sleep, g ++ [Running i])
  | Sleep => Some (Some Test, g)
  | Last => Some (None, g ++ [Stopping i])
  end.

Abbreviation mod_st := (mod_st loc (list line)).

Definition thread_init (e1 e2 : Z) : list (action loc (list line)) :=
  [Do (fun m => Done (set_task One (kthread_create e1) m));
   Do (fun m =>
         if IS_ERR_task (task1 m) then Done (set_task One NullTask m)
         else match wake_up_process (task1 m) with
              | Done t => Done (set_task One t m)
              | Oops u => Oops u
              end);
   Do (fun m => Done (set_task Two (kthread_run e2) m));
   Do (fun m => Done (if IS_ERR_task (task2 m) then set_task Two NullTask m else m))].

(** The message inside [if (thread) { ... }]. *)
Definition report_stopped (i : slot) (m : mod_st) : mod_st :=
  match the_task i m with
  | NullTask => m
  | _ => set_shared (shared m ++ [Stopped i]) m
  end.

Definition thread_exit : list (action loc (list line)) :=
  [Stop One; Do (fun m => Done (report_stopped One m));
   Stop Two; Do (fun m => Done (report_stopped Two m))].

Definition prog (e1 e2 : Z) := thread_init e1 e2 ++ [Await] ++ thread_exit.

Definition dist (l : loc) : nat :=
  match l with Last => 0 | Test => 1 | Sleep => 2 | Begin => 2 | Report => 3 end.

Lemma thread_fn_stops i l g : exists o g', thread_fn i true l g = Some (o, g') /\
  match o with Some l' => (dist l' < dist l)%nat | None => True end.
Proof. destruct l; simpl; eexists _, _; (split; [done|]); simpl; lia. Qed.

Lemma pair_prog_lookup e1 e2 k a :
  prog e1 e2 !! k = Some a ->
  (forall i, a = Stop i -> k = match i with One => 5 | Two => 7 end)%nat /\
  (forall f, a = Do f -> k = 0 \/ k = 1 \/ k = 2 \/ k = 3 \/ k = 6 \/ k = 8)%nat.
Proof.
  intros Hk. do 9 (destruct k as [|k]; [injection Hk as <-; split_and!;
    try (intros [] [=]; lia); try (intros ? [=]; lia); intros; lia|]). done.
Qed.

Lemma report_stopped_task i j m : the_task j (report_stopped i m) = the_task j m.
Proof. unfold report_stopped. destruct (the_task i m); by destruct j. Qed.

Lemma pair_prog_stops_last e1 e2 : stops_last (prog e1 e2).
Proof.
  intros k k' i f m m' Hk Hk' Hlt Hf.
  destruct (pair_prog_lookup _ _ _ _ Hk) as [Hs _]. specialize (Hs i eq_refl).
  destruct (pair_prog_lookup _ _ _ _ Hk') as [_ Hd]. specialize (Hd f eq_refl).
  assert (k' = 6 \/ k' = 8)%nat as [-> | ->] by (destruct i; lia);
    injection Hk' as <-; injection Hf as <-; apply report_stopped_task.
Qed.

(** A created thread is woken or thrown away before it is used. *)
Definition checked (k : nat) (m : mod_st) : Prop :=
  (k = 1%nat -> task1 m <> NullTask) /\
  ((2 <= k)%nat -> IS_ERR_task (task1 m) = false) /\
  ((4 <= k)%nat -> IS_ERR_task (task2 m) = false).

Lemma run_checked e1 e2 g ts :
  holds (fun s => stopped (prog e1 e2) s /\ checked (pc s) (md s))
    (exec (step thread_fn Begin (prog e1 e2)) ts (Done (start g))).
Proof.
  apply exec_mod_inv; [apply pair_prog_stops_last | | | | |].
  - intros k f m m' Hk (H1 & H2 & H3) Hf _.
    destruct (pair_prog_lookup _ _ _ _ Hk) as [_ Hk'].
    destruct (Hk' f eq_refl) as [->|[->|[->|[->|[->| ->]]]]]; injection Hk as <-; simpl in *;
      try injection Hf as <-; unfold checked; simpl.
    + split_and!; try lia. intros _. unfold kthread_create. by destruct (e1 =? 0).
    + split_and!; try lia. intros _. destruct (task1 m) as [|e|th]; by simplify_eq/=.
    + split_and!; try lia. intros _. auto with lia.
    + split_and!; try lia; intros _; destruct (IS_ERR_task (task2 m)) eqn:E; simpl; auto with lia.
    + change (task1 (report_stopped One m)) with (the_task One (report_stopped One m)).
      change (task2 (report_stopped One m)) with (the_task Two (report_stopped One m)).
      rewrite !report_stopped_task. split_and!; auto with lia.
    + change (task1 (report_stopped Two m)) with (the_task One (report_stopped Two m)).
      change (task2 (report_stopped Two m)) with (the_task Two (report_stopped Two m)).
      rewrite !report_stopped_task. split_and!; auto with lia.
  - intros k m Hk _ (H1 & H2 & H3).
    assert (k <> 0 /\ k <> 1 /\ k <> 3)%nat as (? & ? & ?)
      by (split_and!; intros ->; by eapply Hk).
    split_and!; intros; auto with lia.
  - intros k i th m (H1 & H2 & H3) Ht. destruct i; simpl in *; rewrite Ht in *; by split_and!.
  - intros k i th th' g' m (H1 & H2 & H3) Ht _ _. destruct i; simpl in *; rewrite Ht in *; by split_and!.
  - split_and!; intros; lia.
Qed.

(** Whichever of the two threads could be created, every fair schedule
    with an rmmod unloads the module without undefined behaviour, and no thread
    is left. *)
Theorem thread_unload (e1 e2 : Z) (sched : nat -> actor) (Hfair : fair sched) :
  exists n s,
    runs (step thread_fn Begin (prog e1 e2)) sched n (Done (start [])) = Done s /\
    pc s = length (prog e1 e2) /\ alive One (md s) = false /\ alive Two (md s) = false.
Proof.
  destruct (unload_returns thread_fn Begin (prog e1 e2) dist 4) with sched (@nil line) as [n Hn];
    [intros []; simpl; lia | apply thread_fn_stops | done |].
  destruct (exec_no_oops _ _ _ _ _ (run_checked e1 e2 [])) with (sched <$> seq 0 n)
    as (s & Hs & Hst & _).
  - intros k f m u Hk (H1 & H2 & H3) Hf. destruct (pair_prog_lookup _ _ _ _ Hk) as [_ Hk'].
    destruct (Hk' f eq_refl) as [->|[->|[->|[->|[->| ->]]]]]; injection Hk as <-; try done.
    specialize (H1 eq_refl). simpl in Hf. by destruct (task1 m).
  - intros k i m Hk (H1 & H2 & H3). destruct (pair_prog_lookup _ _ _ _ Hk) as [Hs _].
    specialize (Hs i eq_refl). destruct i; subst k; [apply H2 | apply H3]; lia.
  - exists n, s. rewrite runs_exec in *. rewrite Hs in *. simpl in Hn.
    pose proof (pc_bound _ _ _ _ _ _ Hs). simpl in *.
    split_and!; [done | lia | apply (Hst 5%nat); [done | lia] | apply (Hst 7%nat); [done | lia]].
Qed.

(** The first thread cannot be created. *)
Lemma thread_unload_witness : exists n s,
  runs (step thread_fn Begin (prog (- ENOMEM) 0)) (round_robin actors Ctl) n (Done (start [])) = Done s /\
    pc s = 9%nat /\ alive One (md s) = false /\ alive Two (md s) = false.
Proof.
  apply (thread_unload (- ENOMEM) 0 (round_robin actors Ctl)).
  apply round_robin_all. intros [|[]|]; unfold actors; set_solver.
Defined.
End Pair.

(** ** 001_driver_misc/kThread.c *)
Module Locked.

(** The mutex is its owner; a message shows the thread and the counter. *)
Record data := Data { counter : Z; owner : option slot; dmesg : list (slot * Z) }.

(** [counter++] is a load and a store; the message reads the counter again,
    after the mutex has been released. *)
Inductive loc := Test | Lock | Load | Store (v : Z) | Unlock | Report | Sleep.

Definition worker (i : slot) (stop : bool) (l : loc) (g : data) : option (option loc * data) :=
  match l with
  | Test => Some (if stop then None else Some Lock, g)
  | Lock =>
      match owner g with
      | None => Some (Some Load, Data (counter g) (Some i) (dmesg g))
      | Some _ => None
      end
  | Load => Some (Some (Store (counter g)), g)
  | Store v => Some (Some Unlock, Data (s32 (v + 1)) (owner g) (dmesg g))
  | Unlock => Some (Some Report, Data (counter g) None (dmesg g))
  | Report => Some (Some Sleep, Data (counter g) (owner g) (dmesg g ++ [(i, counter g)]))
  | Sleep => Some (Some Test, g)
  end.

Abbreviation mod_st := (mod_st loc data).

(** The first thread is woken without a look at what kthread_create returned. *)
Definition kThread_init (e1 e2 : Z) : list (action loc data) :=
  [Do (fun m => Done (set_task One (kthread_create e1) m));
   Do (fun m => match wake_up_process (task1 m) with
                | Done t => Done (set_task One t m)
                | Oops u => Oops u
                end);
   Do (fun m => Done (set_task Two (kthread_run e2) m))].

Definition kThread_exit : list (action loc data) := [Stop One; Stop Two].

Definition prog (e1 e2 : Z) := kThread_init e1 e2 ++ [Await] ++ kThread_exit.

Definition run (e1 e2 : Z) (ts : list actor) :=
  exec (step worker Test (prog e1 e2)) ts (Done (start (Data 0 None []))).

(** ** Mutual exclusion *)

Definition place_of (t : task loc) : option loc :=
  match t with Task th => match at_ th with In l => Some l | _ => None end | _ => None end.

(** A thread at this place holds the mutex. *)
Definition critical (p : option loc) : bool :=
  match p with Some (Load | Store _ | Unlock) => true | _ => false end.

(** It has counted and not reported yet. *)
Definition pending (p : option loc) : Z :=
  match p with Some (Unlock | Report) => 1 | _ => 0 end.

(** The data against the places of the two threads. *)
Definition agree (g : data) (p1 p2 : option loc) : Prop :=
  critical p1 && critical p2 = false /\
  owner g = (if critical p1 then Some One else if critical p2 then Some Two else None) /\
  (forall v, p1 = Some (Store v) -> counter g = v) /\
  (forall v, p2 = Some (Store v) -> counter g = v) /\
  counter g = s32 (zlen (dmesg g) + pending p1 + pending p2).

Definition inv (k : nat) (m : mod_st) : Prop :=
  ((k <= 0)%nat -> task1 m = NullTask) /\ ((k <= 2)%nat -> task2 m = NullTask) /\
  agree (shared m) (place_of (task1 m)) (place_of (task2 m)).

Lemma locked_prog_lookup e1 e2 k a :
  prog e1 e2 !! k = Some a ->
  (forall i, a = Stop i -> k = match i with One => 4 | Two => 5 end)%nat /\
  (forall f, a = Do f -> k = 0 \/ k = 1 \/ k = 2)%nat.
Proof.
  intros Hk. do 6 (destruct k as [|k]; [injection Hk as <-; split_and!;
    try (intros [] [=]; lia); try (intros ? [=]; lia); intros; lia|]). done.
Qed.

Lemma locked_prog_stops_last e1 e2 : stops_last (prog e1 e2).
Proof.
  intros k k' i f m m' Hk Hk' Hlt Hf.
  destruct (locked_prog_lookup _ _ _ _ Hk) as [Hs _]. specialize (Hs i eq_refl).
  destruct (locked_prog_lookup _ _ _ _ Hk') as [_ Hd]. specialize (Hd f eq_refl). destruct i; lia.
Qed.

(** A task pointer whose place does not change leaves the invariant alone. *)
Lemma inv_same_place k i t m :
  inv k m -> place_of t = place_of (the_task i m) ->
  ((k <= match i with One => 0 | Two => 2 end)%nat -> t = NullTask) ->
  inv k (set_task i t m).
Proof. intros (H1 & H2 & H3) Hp Hk. unfold inv. destruct i; simpl in *; rewrite Hp; auto. Qed.

Ltac agree_case l p :=
  intros (X & O & V1 & V2 & E) Hw; unfold agree; simpl in *; subst;
  destruct l as [| | |v| | |]; simpl in *;
  match goal with stop : bool |- _ => destruct stop end;
  destruct (critical p) eqn:Hp; simplify_eq/=; rewrite ?Hp; split_and!; try done;
  try (by intros ? [=]); try (by intros ? ->);
  repeat match goal with
  | H : forall v', Some (Store ?v) = Some (Store v') -> _ |- _ => specialize (H v eq_refl); subst
  end;
  rewrite ?swrap_add_l, ?zlen_app; change (zlen [_]) with 1; try (f_equal; lia).

(** One step of a thread from [l], next to a thread at [p]. *)
Lemma agree_one stop l g p o g' :
  agree g (Some l) p -> worker One stop l g = Some (o, g') -> agree g' o p.
Proof. destruct g as [c w log]. agree_case l p. Qed.

Lemma agree_two stop l g p o g' :
  agree g p (Some l) -> worker Two stop l g = Some (o, g') -> agree g' p o.
Proof. destruct g as [c w log]. agree_case l p. Qed.

(** A thread that enters its function. *)
Lemma agree_enter g p :
  (agree g None p -> agree g (Some Test) p) /\ (agree g p None -> agree g p (Some Test)).
Proof. split; intros (X & O & V1 & V2 & E); split_and!; try done; by intros ? [=]. Qed.

Lemma locked_inv_thread k i th th' g' m :
  inv k m -> the_task i m = Task th ->
  thread_step worker Test i th (shared m) = Some (th', g') ->
  inv k (set_shared g' (set_task i (Task th') m)).
Proof.
  intros (H1 & H2 & H3) Ht Hts. unfold thread_step in Hts. destruct (woken th); [|done].
  assert (Hagree : agree g' (place_of (if i is One then Task th' else task1 m))
                            (place_of (if i is One then task2 m else Task th'))).
  { destruct i; simpl in *; rewrite Ht in *; simpl in *; destruct (at_ th) as [|l|] eqn:Hat; try done.
    - injection Hts as <- <-. destruct (should_stop th); [done | by apply agree_enter].
    - destruct (worker One (should_stop th) l (shared m)) as [[o g2]|] eqn:Hw; [|done].
      injection Hts as <- <-. pose proof (agree_one _ _ _ _ _ _ H3 Hw). by destruct o.
    - injection Hts as <- <-. destruct (should_stop th); [done | by apply agree_enter].
    - destruct (worker Two (should_stop th) l (shared m)) as [[o g2]|] eqn:Hw; [|done].
      injection Hts as <- <-. pose proof (agree_two _ _ _ _ _ _ H3 Hw). by destruct o. }
  destruct i; simpl in *; rewrite Ht in *; split_and!; auto; intros Hle; simpl;
    [by specialize (H1 Hle) | by specialize (H2 Hle)].
Qed.

Lemma locked_run_inv e1 e2 ts :
  holds (fun s => stopped (prog e1 e2) s /\ inv (pc s) (md s)) (run e1 e2 ts).
Proof.
  apply exec_mod_inv; [apply locked_prog_stops_last | | | | |].
  - intros k f m m' Hk HJ Hf _. destruct (locked_prog_lookup _ _ _ _ Hk) as [_ Hk'].
    assert (HS : forall t i, place_of t = place_of (the_task i m) ->
      ((S k <= match i with One => 0 | Two => 2 end)%nat -> t = NullTask) ->
      inv (S k) (set_task i t m)).
    { intros t i Hp Hn. apply inv_same_place; [|done | done].
      destruct HJ as (H1 & H2 & H3). split_and!; auto with lia. }
    destruct HJ as (H1 & H2 & H3).
    destruct (Hk' f eq_refl) as [->|[->| ->]]; injection Hk as <-; simpl in *; simplify_eq/=.
    + apply (HS _ One); [|simpl; lia]. simpl. rewrite H1 by lia. unfold kthread_create.
      by destruct (e1 =? 0).
    + destruct (task1 m) as [|e|th] eqn:Ht; simplify_eq/=. apply (HS _ One); [|simpl; lia].
      simpl. by rewrite Ht.
    + apply (HS _ Two); [|simpl; lia]. simpl. rewrite H2 by lia. unfold kthread_run.
      by destruct (e2 =? 0).
  - intros k m Hk _ (H1 & H2 & H3). assert (k <> 0 /\ k <> 1 /\ k <> 2)%nat as (? & ? & ?)
      by (split_and!; intros ->; by eapply Hk).
    split_and!; auto with lia.
  - intros k i th m HJ Ht. apply inv_same_place; [done | by rewrite Ht |].
    destruct HJ as (H1 & H2 & _). destruct i; simpl in *; rewrite Ht in *; intros Hle;
      [by specialize (H1 Hle) | by specialize (H2 Hle)].
  - intros k i th th' g' m HJ Ht _ Hts. by eapply locked_inv_thread.
  - by split_and!.
Qed.

(** C14. In every interleaving at most one thread is inside the critical
    section, and the counter is the number of messages plus the increments
    whose message is still to come; after the unloading it is the number of
    messages and the mutex is free. *)
Theorem worker_counts (e1 e2 : Z) (ts : list actor) s (Hrun : run e1 e2 ts = Done s) :
  let g := shared (md s) in
  let p1 := place_of (task1 (md s)) in let p2 := place_of (task2 (md s)) in
  critical p1 && critical p2 = false /\
  counter g = s32 (zlen (dmesg g) + pending p1 + pending p2) /\
  (pc s = length (prog e1 e2) -> counter g = s32 (zlen (dmesg g)) /\ owner g = None).
Proof.
  pose proof (locked_run_inv e1 e2 ts) as HI. rewrite Hrun in HI.
  destruct HI as (Hst & _ & _ & X & O & _ & _ & E). split_and!; [done | done |].
  intros Hend. assert (D : forall i, place_of (the_task i (md s)) = None).
  { intros i. assert (Ha : alive i (md s) = false).
    { destruct i; [apply (Hst 4%nat) | apply (Hst 5%nat)]; try done; rewrite Hend; simpl; lia. }
    unfold alive in Ha. destruct (the_task i (md s)) as [| |th]; try done. simpl. by destruct (at_ th). }
  pose proof (D One) as D1. pose proof (D Two) as D2. simpl in D1, D2. rewrite D1, D2 in *.
  split; [|done]. rewrite E. f_equal. simpl. lia.
Qed.

Lemma worker_counts_witness :
  exists s, run 0 0 (round_robin actors Ctl <$> seq 0 80) = Done s /\
    counter (shared (md s)) = s32 (zlen (dmesg (shared (md s)))) /\ owner (shared (md s)) = None.
Proof.
  eexists. split; [vm_compute; reflexivity|].
  eapply (worker_counts 0 0 (round_robin actors Ctl <$> seq 0 80)); vm_compute; reflexivity.
Defined.

(** Without memory for the first thread, loading wakes an error pointer. *)
Example worker_unchecked : run (- ENOMEM) 0 [Ctl; Ctl] = Oops BadPointer.
Proof. reflexivity. Qed.

(** The message is printed after the mutex was released: both threads may
    report the same value. *)
Example worker_same_report : exists ts s, run 0 0 ts = Done s /\
  dmesg (shared (md s)) = [(One, 2); (Two, 2)].
Proof.
  exists ([Ctl; Ctl; Ctl] ++ replicate 6 (Thr One) ++ replicate 6 (Thr Two) ++ [Thr One; Thr Two]).
  eexists. split; vm_compute; reflexivity.
Qed.
End Locked.
