(* ===== verification/Timers.v ===== *)
(** * Periodic timers: 028_ktimer and 029_hrt_ktimer

    Both modules re-arm a timer from its own callback. Module [Wheel] is
    kernel_timer.c: the next expiry is counted from when the callback runs,
    and unloading uses del_timer, which does not wait for a running callback.
    Module [Hr] is hrt_timer.c: the expiry moves on a fixed grid, and
    unloading waits. Time advances between any two steps; a callback runs in
    steps of its own, next to the unloading on another processor. *)

From S2P Require Import Prelude Kernel Sched.

(** ** 028_ktimer/kernel_timer.c *)
Module Wheel.

Section Wheel.
Context (HZ : Z) (HZ_pos : 0 < HZ).

(** Inside the callback: at the count, at mod_timer. *)
Inductive place := Count | Rearm.

(** [my_timer] is its expiry while it is pending. *)
Record timer := Timer {
  jiffies : Z;
  timer_count : Z;
  my_timer : option Z;
  running : option place;
  loaded : bool;
}.

(** A tick of the clock, the timer interrupt, one step of the callback, and
    the exit function. *)
Inductive actor := Tick | Expire | Callback | Cleanup.

Definition kernel_timer_init (now : Z) : timer :=
  Timer now 0 (Some (now + 2 * HZ)) None true.

(** One statement of timer_callback. *)
Definition timer_callback (p : place) (s : timer) : timer :=
  match p with
  | Count => Timer (jiffies s) (u32 (timer_count s + 1)) (my_timer s) (Some Rearm) (loaded s)
  | Rearm => Timer (jiffies s) (timer_count s) (Some (jiffies s + 2 * HZ)) None (loaded s)
  end.

(** kernel_timer_cleanup: del_timer takes a pending timer out and returns. *)
Definition kernel_timer_cleanup (s : timer) : timer :=
  Timer (jiffies s) (timer_count s) None (running s) false.

(** The code of the callback is gone with the module. *)
Definition step (t : actor) (s : timer) : option (outcome timer) :=
  match t with
  | Tick => Some (Done (Timer (jiffies s + 1) (timer_count s) (my_timer s) (running s) (loaded s)))
  | Expire =>
      e ← my_timer s;
      if e <=? jiffies s then
        match running s with
        | Some _ => None
        | None => Some (Done (Timer (jiffies s) (timer_count s) None (Some Count) (loaded s)))
        end
      else None
  | Callback =>
      p ← running s;
      Some (if loaded s then Done (timer_callback p s) else Oops BadPointer)
  | Cleanup => if loaded s then Some (Done (kernel_timer_cleanup s)) else None
  end.

(** ** Unloading *)

(** Nothing of the module is left in the kernel. *)
Definition quiet (n : Z) (s : timer) : Prop :=
  my_timer s = None /\ running s = None /\ loaded s = false /\ timer_count s = n.

(** C37. Unloading is safe exactly between two callbacks: then nothing of the
    module ever runs again, but a callback that has begun continues in code
    that is gone. *)
Theorem timer_cleanup_race (s : timer) (Hs : loaded s = true) :
  match running s with
  | None => forall ts, exists s', exec step (Cleanup :: ts) (Done s) = Done s' /\ quiet (timer_count s) s'
  | Some _ => exec step [Cleanup; Callback] (Done s) = Oops BadPointer
  end.
Proof.
  destruct s as [j n e r l]. simpl in *. subst l. destruct r as [p|]; [done|]. intros ts. simpl.
  apply (exec_safe step (quiet n)); [|done].
  intros t [j' n' e' r' l'] c' (He & Hr & Hl & Hn) Hstep. simpl in *. subst.
  destruct t; simpl in Hstep; simplify_eq/=. by eexists.
Qed.

(** ** How often the callback runs *)

(** [n] callbacks have counted since the module was loaded at [t0]. *)
Definition paced (t0 : Z) (n : nat) (s : timer) : Prop :=
  timer_count s = u32 (Z.of_nat n) /\
  match running s with
  | None => exists e, my_timer s = Some e /\ t0 + 2 * HZ * (Z.of_nat n + 1) <= e /\ e <= jiffies s + 2 * HZ
  | Some Count => my_timer s = None /\ t0 + 2 * HZ * (Z.of_nat n + 1) <= jiffies s
  | Some Rearm => my_timer s = None /\ t0 + 2 * HZ * Z.of_nat n <= jiffies s
  end.

Lemma u32_succ n : u32 (u32 n + 1) = u32 (n + 1).
Proof. unfold uwrap. by rewrite Zplus_mod_idemp_l. Qed.

Lemma step_paced t0 n t s s' :
  loaded s = true -> paced t0 n s -> t <> Cleanup -> step t s = Some (Done s') ->
  loaded s' = true /\
  paced t0 (match t, running s with Callback, Some Count => S n | _, _ => n end) s'.
Proof.
  intros Hl [Hc Hp] Ht Hstep. destruct s as [j c e r l]. simpl in *. subst l.
  destruct t; simpl in Hstep; [| | |done].
  - injection Hstep as <-. split; [done|]. split; [done|]. simpl.
    destruct r as [[]|]; [destruct Hp as [-> Hp]; split; [done | lia].. |].
    destruct Hp as (e' & -> & ? & ?).
    exists e'. split_and!; [done | lia | lia].
  - destruct e as [e|]; [|done]. simpl in Hstep. destruct (Z.leb_spec e j); [|done].
    destruct r; [done|]. injection Hstep as <-. split; [done|]. split; [done|]. simpl.
    destruct Hp as (e' & [= ->] & ? & ?). split; [done | lia].
  - destruct r as [[]|]; [| |done]; simpl in *; injection Hstep as <-; (split; [done|]).
    + destruct Hp as [-> Hp]. split; simpl; [rewrite Hc, u32_succ; f_equal; lia|]. split; [done | lia].
    + destruct Hp as [-> Hp]. split; [done|]. simpl. eexists. split_and!; [done | lia | lia].
Qed.

(** The callback never runs early: while the module is loaded, the number
    of callbacks so far is at most the time since loading divided by two
    seconds, whatever the interrupts and callbacks are delayed by. *)
Theorem timer_never_early (t0 : Z) (ts : list actor) s
    (Hts : Forall (fun t => t <> Cleanup) ts)
    (Hrun : exec step ts (Done (kernel_timer_init t0)) = Done s) :
  exists n, timer_count s = u32 n /\ 0 <= n /\ n * (2 * HZ) <= jiffies s - t0.
Proof.
  enough (HI : exists n : nat, loaded s = true /\ paced t0 n s).
  { destruct HI as (n & _ & Hc & Hp). exists (Z.of_nat n). split_and!; [done | lia |].
    destruct (running s) as [[]|]; [destruct Hp as [_ Hp]; lia.. |]. destruct Hp as (e & _ & ? & ?). lia. }
  revert s Hrun. induction ts as [|t ts IH] using rev_ind; intros s Hrun.
  - injection Hrun as <-. exists 0%nat. split; [done|]. split; [done|]. simpl. eexists.
    split_and!; [done | lia | lia].
  - apply Forall_app in Hts as [Hts Ht]. rewrite Forall_singleton in Ht.
    rewrite exec_app in Hrun. simpl in Hrun.
    destruct (exec step ts _) as [s1|]; [|done]. destruct (IH Hts s1 eq_refl) as (n & Hl & Hp).
    simpl in Hrun. destruct (step t s1) as [c|] eqn:E; [|injection Hrun as <-; eauto].
    simpl in Hrun. subst c.
    destruct (step_paced t0 n t s1 s Hl Hp Ht E) as [Hl' Hp']. eauto.
Qed.

(** ** The callback runs again and again *)

Definition armed (s : timer) : Prop :=
  loaded s = true /\
  match running s with
  | None => exists e, my_timer s = Some e /\ e <= jiffies s + 2 * HZ
  | Some _ => my_timer s = None
  end.

Lemma armed_idle j c e : e <= j + 2 * HZ -> armed (Timer j c (Some e) None true).
Proof. intros He. split; [done|]. by exists e. Qed.
Lemma armed_busy j c p : armed (Timer j c None (Some p) true).
Proof. done. Qed.
Hint Resolve armed_idle armed_busy : core.

Definition shows (n : Z) (c : outcome timer) : Prop :=
  match c with Done s => timer_count s = n | Oops _ => False end.

#[export] Instance shows_dec n c : Decision (shows n c).
Proof. destruct c; simpl; apply _. Defined.

(** How far the next count is away, and who brings it closer. *)
Definition distance (s : timer) : nat :=
  match running s with
  | Some Count => 1
  | Some Rearm => 3 + Z.to_nat (2 * HZ)
  | None => 2 + Z.to_nat (default 0 (my_timer s) - jiffies s)
  end.

Definition next_actor (s : timer) : actor :=
  match running s with
  | Some _ => Callback
  | None => if default 0 (my_timer s) <=? jiffies s then Expire else Tick
  end.

Lemma wheel_progress n :
  progresses step (shows (u32 (n + 1))) (fun t => t <> Cleanup)
    (fun s => armed s /\ timer_count s = u32 n) distance next_actor.
Proof.
  intros t [j c e r l] Ht [[Hl Ha] Hc] Hg. simpl in *. subst l.
  unfold next_actor, distance, good_turn. simpl.
  split; [destruct r; [done|]; by destruct (default 0 e <=? j)|].
  destruct t; [| | |done].
  - right. eexists. split; [done|]. simpl.
    destruct r as [p|]; [rewrite Ha; by auto 10|].
    destruct Ha as (e' & -> & Hle). simpl. split; [auto with lia|].
    destruct (Z.leb_spec e' j); [right | left; lia].
    rewrite (proj2 (Z.leb_le _ _)) by lia. split_and!; [done | lia | done].
  - destruct r as [p|]; simpl.
    { rewrite Ha. right. eexists. split_and!; try done. right. by split_and!. }
    destruct Ha as (e' & -> & Hle). simpl. right. destruct (Z.leb_spec e' j); simpl.
    + eexists. split_and!; try done. left. simpl. lia.
    + eexists. split_and!; [done | auto | done |]. right. simpl.
      rewrite (proj2 (Z.leb_gt _ _)) by done. by split_and!.
  - destruct r as [[]|]; simpl.
    + left. by rewrite Hc, u32_succ.
    + right. eexists. split_and!; [done | auto with lia | done |]. left. simpl. lia.
    + destruct Ha as (e' & -> & Hle). simpl. right. eexists. split_and!; [done | auto | done |].
      right. split_and!; [by destruct (e' <=? j) | done | done].
Qed.

Lemma runs_armed sched t0 n :
  (forall k, sched k <> Cleanup) ->
  exists s, runs step sched n (Done (kernel_timer_init t0)) = Done s /\ armed s /\
    exists c, timer_count s = u32 c.
Proof.
  intros Hs. induction n as [|n (s & Hr & [Hl Ha] & c & Hc)].
  - eexists. split; [done|]. split; [split; [done|]; simpl; eauto with lia|]. by exists 0.
  - simpl. rewrite Hr. specialize (Hs n). destruct s as [j c' e r l]. simpl in *. subst.
    destruct (sched n); [| | |done]; simpl.
    + eexists. split; [done|]. split; [|by exists c].
      destruct r; [by rewrite Ha|]. destruct Ha as (e' & -> & ?). auto with lia.
    + destruct r; [rewrite Ha; simpl; by eauto 10|]. destruct Ha as (e' & -> & ?). simpl.
      destruct (e' <=? j); simpl; eauto 10.
    + destruct r as [[]|]; simpl; eexists; (split; [done|]).
      * rewrite Ha. split; [auto|]. exists (c + 1). apply u32_succ.
      * split; [auto with lia | by exists c].
      * split; [by split | by exists c].
Qed.

(** C19. While the module stays loaded and time, interrupt and callback all go
    on, the counter goes through all its values again and again: the callback
    re-arms its timer each time. *)
Theorem timer_keeps_firing (t0 : Z) (sched : nat -> actor)
    (Hfair : fair_among (fun t => t <> Cleanup) sched) (k : Z) (n : nat) :
  exists m s, (n <= m)%nat /\ runs step sched m (Done (kernel_timer_init t0)) = Done s /\
    timer_count s = u32 k.
Proof.
  destruct (runs_armed sched t0 n (proj1 Hfair)) as (s & Hr & Ha & c & Hc).
  assert (Hup : forall d : nat, exists m s, (n <= m)%nat /\
    runs step sched m (Done (kernel_timer_init t0)) = Done s /\ timer_count s = u32 (c + Z.of_nat d)).
  { induction d as [|d (m & s' & Hm & Hr' & Hc')]; [exists n, s; by rewrite Z.add_0_r|].
    destruct (runs_armed sched t0 m (proj1 Hfair)) as (s2 & Hr2 & Ha2 & _).
    assert (s2 = s') as -> by (rewrite Hr' in Hr2; by injection Hr2).
    destruct (fair_eventually_from step (shows (u32 (c + Z.of_nat d + 1))) (fun t => t <> Cleanup)
      _ _ _ sched _ m s' Hfair (wheel_progress (c + Z.of_nat d)) Hr2) as (m' & Hm' & Hg); [done|].
    destruct (runs step sched m' _) as [s3|] eqn:Hr3; [|done]. exists m', s3.
    split_and!; [lia | done |]. simpl in Hg. rewrite Hg. f_equal. lia. }
  destruct (Hup (Z.to_nat ((k - c) mod 2 ^ 32))) as (m & s' & Hm & Hr' & Hc').
  exists m, s'. split_and!; [done | done |]. rewrite Hc'. unfold uwrap.
  pose proof (Z.mod_pos_bound (k - c) (2 ^ 32) ltac:(lia)). rewrite Z2Nat.id by lia.
  rewrite Zplus_mod_idemp_r. f_equal. lia.
Qed.
End Wheel.

Lemma timer_cleanup_race_witness :
  exec (step 100) [Cleanup; Callback] (Done (Timer 250 0 None (Some Count) true)) = Oops BadPointer.
Proof. apply (timer_cleanup_race 100 (Timer 250 0 None (Some Count) true)). reflexivity. Defined.

Lemma timer_never_early_witness :
  exists s, exec (step 1) [Tick; Tick; Expire; Callback; Callback; Tick] (Done (kernel_timer_init 1 0)) = Done s /\
  exists n, timer_count s = u32 n /\ 0 <= n /\ n * (2 * 1) <= jiffies s - 0.
Proof.
  eexists. split; [vm_compute; reflexivity|].
  apply (timer_never_early 1 eq_refl 0 [Tick; Tick; Expire; Callback; Callback; Tick]);
    [repeat constructor; discriminate | vm_compute; reflexivity].
Defined.

Lemma timer_keeps_firing_witness :
  exists m s, (5 <= m)%nat /\
    runs (step 100) (round_robin [Tick; Expire; Callback] Tick) m (Done (kernel_timer_init 100 0)) = Done s /\
    timer_count s = u32 7.
Proof.
  apply (timer_keeps_firing 100 0).
  destruct (round_robin_fair [Tick; Expire; Callback] Tick) as [H1 H2]; [set_solver|]. split.
  - intros n E. specialize (H1 n). rewrite E in H1. set_solver.
  - intros t n Ht. apply H2. destruct t; set_solver.
Defined.
End Wheel.

(** ** 029_hrt_ktimer/hrt_timer.c *)
Module Hr.

(** ktime_set(1, 0) and ktime_set(0, 500000000), in nanoseconds. *)
Definition START : Z := 1000000000.
Definition INTERVAL : Z := 500000000.

(** Inside the callback: at hrtimer_forward_now, at its [return]. *)
Inductive place := Forward | Return.

Record timer := Timer {
  now : Z;
  expires : Z;
  queued : bool;
  running : option place;
  exited : option Z;    (** the result of hrtimer_cancel once unloaded *)
}.

Inductive actor := Tick | Expire | Callback | Exit.

Definition hrt_timer_init (t0 : Z) : timer := Timer t0 (t0 + START) true None None.

(** hrtimer_forward_now: the first point of the grid after [now]. *)
Definition forward (e n : Z) : Z :=
  if n <? e then e else e + (n - e) / INTERVAL * INTERVAL + INTERVAL.

Definition hrt_timer_callback (p : place) (s : timer) : timer :=
  match p with
  | Forward => Timer (now s) (forward (expires s) (now s)) (queued s) (Some Return) (exited s)
  | Return => Timer (now s) (expires s) true None (exited s)  (* HRTIMER_RESTART *)
  end.

(** hrtimer_cancel waits for a running callback; its result tells whether the
    timer was active. *)
Definition hrt_timer_exit (s : timer) : option timer :=
  match running s with
  | Some _ => None
  | None => Some (Timer (now s) (expires s) false None (Some (if queued s then 1 else 0)))
  end.

Definition step (t : actor) (s : timer) : option (outcome timer) :=
  match t with
  | Tick => Some (Done (Timer (now s + 1) (expires s) (queued s) (running s) (exited s)))
  | Expire =>
      match running s with
      | None =>
          if queued s && (expires s <=? now s)
          then Some (Done (Timer (now s) (expires s) false (Some Forward) (exited s))) else None
      | Some _ => None
      end
  | Callback =>
      p ← running s;
      Some (if exited s then Oops BadPointer else Done (hrt_timer_callback p s))
  | Exit => if exited s then None else Done <$> hrt_timer_exit s
  end.

Lemma forward_spec e n :
  e <= n -> n < forward e n <= n + INTERVAL /\ exists k, 0 <= k /\ forward e n = e + k * INTERVAL.
Proof.
  intros Hle. unfold forward. destruct (Z.ltb_spec n e); [lia|].
  pose proof (Z.div_mod (n - e) INTERVAL ltac:(done)).
  pose proof (Z.mod_pos_bound (n - e) INTERVAL ltac:(done)).
  pose proof (Z.div_pos (n - e) INTERVAL ltac:(lia) ltac:(done)). split; [lia|].
  exists ((n - e) / INTERVAL + 1). lia.
Qed.

Definition on_grid (t0 : Z) (s : timer) : Prop :=
  (exists k, 0 <= k /\ expires s = t0 + START + k * INTERVAL) /\
  match exited s with
  | Some ret => ret = 1 /\ queued s = false /\ running s = None
  | None =>
      match running s with
      | None => queued s = true
      | Some Forward => queued s = false /\ expires s <= now s
      | Some Return => queued s = false
      end
  end.

(** In every interleaving of clock, interrupt, callback and unloading
    there is no undefined behaviour; the expiry stays on the grid of half
    seconds counted from one second after loading, so delays do not add up; and
    once hrtimer_cancel has returned nothing of the module runs, with the result
    always 1. *)
Theorem hrt_on_grid (t0 : Z) (ts : list actor) :
  exists s, exec step ts (Done (hrt_timer_init t0)) = Done s /\ on_grid t0 s.
Proof.
  apply exec_safe.
  2:{ split; [|done]. exists 0. split; [lia|]. simpl. lia. }
  clear ts. intros t [n e q r x] c [(k & Hk & He) Hx] Hstep. unfold on_grid. simpl in *.
  destruct t; simpl in Hstep.
  - injection Hstep as <-. eexists. split; [done|]. simpl. split; [by exists k|].
    destruct x; [done|]. destruct r as [[]|]; [|done..]. destruct Hx. split; [done | lia].
  - destruct r; [done|]. destruct q; [|done]. simpl in Hstep. destruct (Z.leb_spec e n); [|done].
    injection Hstep as <-. eexists. split; [done|]. simpl. split; [by exists k|].
    destruct x; [naive_solver | done].
  - destruct r as [p|]; [|done]. simpl in Hstep. destruct x as [ret|]; [naive_solver|].
    injection Hstep as <-. eexists. split; [done|]. destruct p; simpl.
    + destruct Hx as [-> Hle]. destruct (forward_spec e n Hle) as [_ (k' & Hk' & ->)].
      split; [|done]. exists (k + k'). split; lia.
    + split; [by exists k | done].
  - destruct x; [done|]. destruct r; [done|]. simpl in Hstep. injection Hstep as <-. subst q.
    eexists. split; [done|]. simpl. split; [by exists k | done].
Qed.
End Hr.
