(* ===== verification/Deferred.v ===== *)
(** * Work done elsewhere: 030_kcompletion, 031_softirqs, 032_tasklet

    Module [Completion] is kcomp.c, whose init function waits for a thread.
    Module [Tasklet] is softirq1.c and task.c, which schedule one tasklet when
    they are loaded and kill it when they are unloaded. *)

From S2P Require Import Prelude Kernel Sched.

(** ** 030_kcompletion/kcomp.c *)
Module Completion.

(** The loading process, then rmmod; and the worker. *)
Inductive phase := Init | Start | Wait | Loaded | Unloaded.
#[export] Instance phase_eq_dec : EqDecision phase.
Proof. solve_decision. Defined.
Inductive worker := Absent | AtComplete | AtReturn | Gone.

(** [done] is the counter inside [my_completion]. *)
Record state := State { done_ : Z; thread : worker; main : phase }.

Inductive actor := Main | Worker.

Definition start : state := State 0 Absent Init.

(** [e] is 0, or the error of kthread_run, which is not looked at.
    completion_exit does not wait for the worker. *)
Definition completion_step (e : Z) (s : state) : option (outcome state) :=
  match main s with
  | Init => Some (Done (State 0 (thread s) Start))
  | Start => Some (Done (State (done_ s) (if e =? 0 then AtComplete else Absent) Wait))
  | Wait => if 0 <? done_ s then Some (Done (State (done_ s - 1) (thread s) Loaded)) else None
  | Loaded => Some (Done (State (done_ s) (thread s) Unloaded))
  | Unloaded => None
  end.

(** worker_fn; its code is gone once the module is unloaded. *)
Definition worker_fn (s : state) : option (outcome state) :=
  match thread s, main s with
  | (AtComplete | AtReturn), Unloaded => Some (Oops BadPointer)
  | AtComplete, _ => Some (Done (State (done_ s + 1) AtReturn (main s)))
  | AtReturn, _ => Some (Done (State (done_ s) Gone (main s)))
  | _, _ => None
  end.

Definition step (e : Z) (t : actor) (s : state) : option (outcome state) :=
  match t with Main => completion_step e s | Worker => worker_fn s end.

Definition loaded (c : outcome state) : Prop :=
  match c with Done s => main s = Loaded | Oops _ => False end.
#[export] Instance loaded_dec c : Decision (loaded c).
Proof. destruct c; simpl; apply _. Defined.

(** Before the module is loaded: nothing completed before the worker did. *)
Definition waiting (e : Z) (s : state) : Prop :=
  match main s with
  | Init => thread s = Absent
  | Start => done_ s = 0 /\ thread s = Absent
  | Wait =>
      if e =? 0 then
        (done_ s = 0 /\ thread s = AtComplete) \/
        (done_ s = 1 /\ (thread s = AtReturn \/ thread s = Gone))
      else done_ s = 0 /\ thread s = Absent
  | Loaded | Unloaded => e = 0 /\ done_ s = 0 /\ (thread s = AtReturn \/ thread s = Gone)
  end.

Lemma step_waiting e t s s' : waiting e s -> step e t s = Some (Done s') -> waiting e s'.
Proof.
  destruct s as [d w m]. unfold waiting, step, completion_step, worker_fn. simpl.
  destruct t, m; simpl; intros Hw Hstep.
  - by simplify_eq/=.
  - destruct Hw as [-> ->]. simplify_eq/=. destruct (e =? 0); auto.
  - destruct (Z.ltb_spec 0 d); [|done]. simplify_eq/=. destruct (Z.eqb_spec e 0); [|lia].
    destruct Hw as [?|[-> ?]]; [lia | done].
  - by simplify_eq/=.
  - done.
  - by subst.
  - by destruct Hw as [_ ->].
  - destruct (e =? 0); [|by destruct Hw as [_ ->]].
    destruct Hw as [[-> ->]|[-> [->| ->]]]; simplify_eq/=; auto.
  - destruct Hw as (-> & -> & [->| ->]); by simplify_eq/=; auto.
  - by destruct w.
Qed.

Definition left_over (s : state) : nat :=
  match main s with
  | Init => 6 | Start => 5
  | Wait => match thread s with AtComplete => 3 | AtReturn => 2 | _ => 1 end
  | _ => 0
  end.

Definition helper (s : state) : actor :=
  match main s, thread s with Wait, AtComplete => Worker | _, _ => Main end.

Lemma completion_progress :
  progresses (step 0) loaded (fun _ => True)
    (fun s => waiting 0 s /\ main s <> Unloaded) left_over helper.
Proof.
  intros t s _ [Hw Hm] Hg. split; [done|].
  assert (HI : forall s', step 0 t s = Some (Done s') -> waiting 0 s') by (intros; by eapply step_waiting).
  destruct s as [d w m]. unfold waiting in Hw. simpl in *.
  destruct m; simpl in *; try done; destruct t; simpl in *; subst.
  - by eapply good_down; [done | auto | unfold left_over; simpl; lia].
  - by apply good_blocked.
  - by eapply good_down; [done | auto | unfold left_over; simpl; lia].
  - destruct Hw as [-> ->]. by apply good_blocked.
  - destruct Hw as [[-> ->]|[-> Hw]]; [apply good_blocked; [done | split; [by left | done] | done] |].
    by eapply good_goal.
  - destruct Hw as [[-> ->]|[-> [->| ->]]].
    + by eapply good_down; [done | auto | unfold left_over; simpl; lia].
    + by eapply good_down; [done | auto | unfold left_over; simpl; lia].
    + apply good_blocked; [done | split; [right; auto | done] | done].
Qed.

(** C34. When the worker can be created, loading returns under every fair
    schedule, and not before the worker has signalled; when it cannot, loading
    waits for the completion forever. *)
Theorem completion_init_returns (e : Z) :
  (forall sched, e = 0 -> fair sched ->
     exists n s, runs (step e) sched n (Done start) = Done s /\ main s = Loaded) /\
  (forall ts s, exec (step e) ts (Done start) = Done s -> main s = Loaded ->
     e = 0 /\ (thread s = AtReturn \/ thread s = Gone)).
Proof.
  split.
  - intros sched -> Hf.
    destruct (fair_eventually (step 0) loaded (fun _ => True) _ _ _ sched start Hf completion_progress)
      as [n Hn]; [done|].
    destruct (runs (step 0) sched n (Done start)) as [s|] eqn:E; [|done]. by exists n, s.
  - intros ts s Hr Hm.
    assert (HI : holds (waiting e) (exec (step e) ts (Done start)))
      by (apply exec_inv; [by apply step_waiting | done]).
    rewrite Hr in HI. simpl in HI. unfold waiting in HI. rewrite Hm in HI. tauto.
Qed.

(** Both parts at once: loading under the schedule that takes turns, and what
    holds then. *)
Lemma completion_init_returns_witness : exists n s,
  runs (step 0) (round_robin [Main; Worker] Main) n (Done start) = Done s /\ main s = Loaded /\
  (thread s = AtReturn \/ thread s = Gone).
Proof.
  destruct (completion_init_returns 0) as [Hlive Hsafe].
  destruct (Hlive (round_robin [Main; Worker] Main) eq_refl) as (n & s & Hr & Hm).
  { apply round_robin_all. intros []; repeat constructor. }
  exists n, s. split_and!; [done | done |]. rewrite runs_exec in Hr. by apply (Hsafe _ s Hr).
Defined.

(** The worker signals and then still has to return: unloading in between
    takes its code away. *)
Example completion_exit_race :
  exec (step 0) [Main; Main; Worker; Main; Main; Worker] (Done start) = Oops BadPointer.
Proof. reflexivity. Qed.
End Completion.

(** ** 031_softirqs/softirq1.c and 032_tasklet/task.c *)
Module Tasklet.

Inductive phase := Fresh | Loaded | Unloaded.
#[export] Instance phase_eq_dec : EqDecision phase.
Proof. solve_decision. Defined.

(** The tasklet: whether it has its function, the scheduled and the running
    bit; and how often the function has printed its message. *)
Record state := State { func : bool; sched : bool; running : bool; executed : Z; main : phase }.

Inductive actor := Main | Softirq.

Definition tasklet_schedule (s : state) : state := State (func s) true (running s) (executed s) (main s).
Definition tasklet_init (s : state) : state := State true false (running s) (executed s) (main s).
(** tasklet_kill waits until the tasklet is neither scheduled nor running. *)
Definition tasklet_kill (s : state) : option state := if sched s || running s then None else Some s.

(** softirq1.c *)
Definition softirq_init (s : state) : state := tasklet_schedule (tasklet_init s).
Definition softirq_exit (s : state) : option state := tasklet_kill s.
(** demo_tasklet_fn; my_tasklet_func of task.c prints three lines instead. *)
Definition demo_tasklet_fn (s : state) : state := State (func s) (sched s) (running s) (executed s + 1) (main s).

(** task.c: DECLARE_TASKLET has set the function. *)
Definition my_tasklet_init (s : state) : state := tasklet_schedule s.
Definition my_tasklet_exit (s : state) : option state := tasklet_kill s.
Definition my_tasklet_func (s : state) : state := State (func s) (sched s) (running s) (executed s + 1) (main s).

Section Machine.
Context (init : state -> state) (exit : state -> option state) (fn : state -> state).

Definition set_main (p : phase) (s : state) : state := State (func s) (sched s) (running s) (executed s) p.

Definition step (t : actor) (s : state) : option (outcome state) :=
  match t with
  | Main =>
      match main s with
      | Fresh => Some (Done (set_main Loaded (init s)))
      | Loaded => Done ∘ set_main Unloaded <$> exit s
      | Unloaded => None
      end
  | Softirq =>
      if running s then
        if main s is Unloaded then Some (Oops BadPointer)
        else let s' := fn s in
             Some (Done (State (func s') (sched s') false (executed s') (main s')))
      else if sched s then
        if func s then Some (Done (State (func s) false true (executed s) (main s)))
        else Some (Oops NullDeref)
      else None
  end.
End Machine.

(** The two modules as machines, from their static variables. *)
Definition step_softirq := step softirq_init softirq_exit demo_tasklet_fn.
Definition step_task := step my_tasklet_init my_tasklet_exit my_tasklet_func.
Definition start_softirq : state := State false false false 0 Fresh.
Definition start_task : state := State true false false 0 Fresh.

Definition unloaded (c : outcome state) : Prop :=
  match c with Done s => main s = Unloaded | Oops _ => False end.
#[export] Instance unloaded_dec c : Decision (unloaded c).
Proof. destruct c; simpl; apply _. Defined.

(** Once loaded: scheduled, running or done, in this order. *)
Definition once (s : state) : Prop :=
  match main s with
  | Fresh => sched s = false /\ running s = false /\ executed s = 0
  | _ =>
      func s = true /\
      ((sched s = true /\ running s = false /\ executed s = 0 /\ main s = Loaded) \/
       (sched s = false /\ running s = true /\ executed s = 0 /\ main s = Loaded) \/
       (sched s = false /\ running s = false /\ executed s = 1))
  end.

Lemma step_once t s c :
  once s -> step_softirq t s = Some c -> exists s', c = Done s' /\ once s'.
Proof.
  destruct s as [f sc r x m]. unfold once, step_softirq, step. simpl.
  intros Ho Hs. destruct t, m; simpl in *.
  - injection Hs as <-. destruct Ho as (-> & -> & ->). eexists. split; [done|]. simpl. auto 10.
  - unfold softirq_exit, tasklet_kill in Hs. simpl in Hs.
    destruct Ho as (-> & [(-> & -> & _)|[(-> & -> & _)|(-> & -> & ->)]]); simpl in Hs; try done.
    injection Hs as <-. eexists. split; [done|]. simpl. auto 10.
  - done.
  - by destruct Ho as (-> & -> & _).
  - destruct Ho as (-> & [(-> & -> & -> & _)|[(-> & -> & -> & _)|(-> & -> & ->)]]); [| |done];
      injection Hs as <-; eexists; (split; [done|]); simpl; auto 10.
  - destruct Ho as (-> & [(_ & _ & _ & ?)|[(_ & _ & _ & ?)|(-> & -> & ->)]]); done.
Qed.

Definition left_over (s : state) : nat :=
  match main s with
  | Fresh => 4
  | Loaded => if sched s then 3 else if running s then 2 else 1
  | Unloaded => 0
  end.

Definition helper (s : state) : actor :=
  match main s with Loaded => if sched s || running s then Softirq else Main | _ => Main end.

Lemma tasklet_progress : progresses step_softirq unloaded (fun _ => True) once left_over helper.
Proof.
  intros t s _ Ho Hg. split; [done|].
  assert (HI : forall s', step_softirq t s = Some (Done s') -> once s').
  { intros s' E. destruct (step_once t s _ Ho E) as (s2 & [= ->] & H2). done. }
  destruct s as [f sc r x m]. unfold once in Ho. simpl in *. destruct m; [| |done].
  - destruct Ho as (-> & -> & ->). destruct t.
    + by eapply good_down; [done | auto | unfold left_over; simpl; lia].
    + by apply good_blocked.
  - destruct Ho as (-> & [(-> & -> & -> & _)|[(-> & -> & -> & _)|(-> & -> & ->)]]); destruct t.
    1,3: by apply good_blocked; unfold once; simpl; auto 10.
    1,2: by eapply good_down; [done | auto | unfold left_over; simpl; lia].
    + by eapply good_goal.
    + by apply good_blocked; unfold once; simpl; auto 10.
Qed.

(** C38. Loading and unloading the module runs its tasklet exactly once: in no
    interleaving more often or after the unloading, and under every fair
    schedule the unloading returns with the function executed. *)
Theorem tasklet_runs_once :
  (forall ts, exists s, exec step_softirq ts (Done start_softirq) = Done s /\ 0 <= executed s <= 1 /\
     (main s = Unloaded -> executed s = 1 /\ sched s = false /\ running s = false)) /\
  (forall sched, fair sched -> exists n s,
     runs step_softirq sched n (Done start_softirq) = Done s /\ main s = Unloaded /\ executed s = 1).
Proof.
  assert (Hsafe : forall ts, exists s, exec step_softirq ts (Done start_softirq) = Done s /\ once s).
  { intros ts. apply exec_safe; [|done]. intros t s c. apply step_once. }
  assert (Hend : forall s, once s -> 0 <= executed s <= 1 /\
    (main s = Unloaded -> executed s = 1 /\ sched s = false /\ running s = false)).
  { intros [f sc r x m] Ho. unfold once in Ho. simpl in *. destruct m; [split; [lia | done] | |].
    - split; [|done]. destruct Ho as (_ & [(_ & _ & ? & _)|[(_ & _ & ? & _)|(_ & _ & ?)]]); lia.
    - destruct Ho as (_ & [(_ & _ & _ & ?)|[(_ & _ & _ & ?)|(-> & -> & ->)]]); [done.. |].
      split; [lia | done]. }
  split.
  - intros ts. destruct (Hsafe ts) as (s & Hr & Ho). exists s. split; [done | by apply Hend].
  - intros sched Hf.
    destruct (fair_eventually step_softirq unloaded (fun _ => True) _ _ _ sched start_softirq Hf
      tasklet_progress) as [n Hn]; [done|].
    destruct (Hsafe (sched <$> seq 0 n)) as (s & Hr & Ho). exists n, s. rewrite runs_exec in *.
    rewrite Hr in *. simpl in Hn. split_and!; [done | done | by apply Hend].
Qed.

Lemma tasklet_runs_once_witness : exists n s,
  runs step_softirq (round_robin [Main; Softirq] Main) n (Done start_softirq) = Done s /\
    main s = Unloaded /\ executed s = 1.
Proof.
  apply (proj2 tasklet_runs_once). apply round_robin_all. intros []; repeat constructor.
Defined.

(** task.c, whose tasklet is declared with its function, behaves as
    softirq1.c, which sets it when it is loaded, from the loading on. *)
Theorem tasklet_modules_equivalent (ts : list actor) :
  exec step_task (Main :: ts) (Done start_task) = exec step_softirq (Main :: ts) (Done start_softirq).
Proof.
  simpl. change (set_main Loaded (my_tasklet_init start_task))
    with (set_main Loaded (softirq_init start_softirq)).
  assert (Hl : forall ts s, main s <> Fresh -> exec step_task ts (Done s) = exec step_softirq ts (Done s)).
  { clear. induction ts as [|t ts IH]; intros s Hs; [done|]. simpl.
    assert (E : step_task t s = step_softirq t s) by (destruct s as [f sc r x []]; [by destruct Hs | by destruct t ..]).
    rewrite E. destruct (step_softirq t s) as [[s'|u]|] eqn:Hst; simpl; [|clear; by induction ts | by apply IH].
    apply IH. by destruct s as [f [] [] x []], t, f; simplify_eq/=. }
  by apply Hl.
Qed.
End Tasklet.
