(* ===== verification/Signals.v ===== *)
(** * Interrupts on shared lines: 022_keyboard_interrupt and 027_sig_send

    Module [Keyboard] is keyb_driver_isr.c, which gives its interrupt back
    with another dev_id than it requested it with. Module [Signal] is
    sigdrv.c, whose interrupt handler signals the process that registered
    itself, with the open files and processes whose life time decides when the
    registration ends; module [SigApp] is the program sigusr.c, interrupted by
    the driver's handler and by its own. *)

From S2P Require Import Prelude Kernel Wp Sim Sched.

(** ** 022_keyboard_interrupt/keyb_driver_isr.c *)
Module Keyboard.

(** The two pointers used as dev_id. *)
Inductive dev_id := KbWork | KeyboardIrqHandler.
#[export] Instance dev_id_eq_dec : EqDecision dev_id.
Proof. solve_decision. Defined.

Definition IRQ_NONE : Z := 0.

(** [actions] are the module's handlers on the line, by their dev_id;
    [messages] counts the lines that kb_work_fn printed. *)
Record state := State {
  actions : list dev_id;
  work_pending : bool;
  messages : Z;
  loaded : bool;
}.

Definition blank : state := State [] false 0 false.

Definition schedule_work (s : state) : state := State (actions s) true (messages s) (loaded s).

Definition kb_work_fn (s : state) : state :=
  State (actions s) (work_pending s) (messages s + 1) (loaded s).

Definition keyboard_irq_handler (s : state) : Z * state := (IRQ_NONE, schedule_work s).

(** request_irq returns [e], an error number or 0. *)
Definition request_irq (e : Z) (d : dev_id) (s : state) : Z * state :=
  if e =? 0 then (0, State (d :: actions s) (work_pending s) (messages s) (loaded s)) else (e, s).

(** free_irq of a dev_id that is not on the line only warns. *)
Definition free_irq (d : dev_id) (s : state) : state :=
  State (default (actions s) (remove_one d (actions s))) (work_pending s) (messages s) (loaded s).

(** INIT_WORK clears the work item. *)
Definition keyboard_driver_init (e : Z) (s : state) : Z * state :=
  let s := State (actions s) false (messages s) (loaded s) in
  let '(rc, s) := request_irq e KbWork s in
  if negb (rc =? 0) then (-1, s) else (0, s).

Definition keyboard_driver_exit (s : state) : state := free_irq KeyboardIrqHandler s.

(** insmod (with what request_irq will answer), rmmod, an interrupt on the
    line, and the kernel's worker. *)
Inductive event := Insmod (e : Z) | Interrupt | RunWork | Rmmod.

(** A handler or a work function of an unloaded module is no code any more.
    A failed init function unloads the module. *)
Definition step (ev : event) (s : state) : option (outcome state) :=
  match ev with
  | Insmod e =>
      if loaded s then None
      else let '(rc, s') := keyboard_driver_init e s in
           Some (Done (State (actions s') (work_pending s') (messages s') (rc =? 0)))
  | Rmmod =>
      if loaded s then
        let s' := keyboard_driver_exit s in
        Some (Done (State (actions s') (work_pending s') (messages s') false))
      else None
  | Interrupt =>
      match actions s with
      | [] => None
      | _ => Some (if loaded s then Done (foldr (fun _ s => (keyboard_irq_handler s).2) s (actions s))
                   else Oops BadPointer)
      end
  | RunWork =>
      if work_pending s then
        Some (if loaded s
              then Done (kb_work_fn (State (actions s) false (messages s) (loaded s)))
              else Oops BadPointer)
      else None
  end.

Definition is_rmmod (ev : event) : bool := match ev with Rmmod => true | _ => false end.

Lemma loaded_inv ts s :
  loaded s = true -> actions s = [KbWork] -> Forall (fun ev => is_rmmod ev = false) ts ->
  exists s', exec step ts (Done s) = Done s' /\ loaded s' = true /\ actions s' = [KbWork] /\
    messages s <= messages s'.
Proof.
  revert s. induction ts as [|ev ts IH]; intros s Hl Ha Hts; [by exists s|].
  apply Forall_cons in Hts as [Hev Hts]. simpl.
  assert (Hstep : exists s1, move step (Done s) ev = Done s1 /\ loaded s1 = true /\
    actions s1 = [KbWork] /\ messages s <= messages s1).
  { destruct ev; simpl; rewrite ?Hl, ?Ha; simpl; try done.
    - by exists s.
    - eexists. by split_and!.
    - destruct (work_pending s); simpl; eexists; (split_and!; [reflexivity | | |]); simpl; try done; lia. }
  destruct Hstep as (s1 & E & Hl1 & Ha1 & Hm1). simpl in E. rewrite E.
  destruct (IH s1 Hl1 Ha1 Hts) as (s2 & ? & ? & ? & ?). exists s2. split_and!; try done. lia.
Qed.

(** While it is loaded, the module answers every interrupt; but whatever
    happened before, unloading it leaves its handler on the line, because it
    frees another dev_id than it requested, and the next interrupt runs code
    that is gone. *)
Theorem keyboard_unload (ts : list event) (Hts : Forall (fun ev => is_rmmod ev = false) ts) :
  (exists s, exec step (Insmod 0 :: ts) (Done blank) = Done s /\ actions s = [KbWork]) /\
  exec step (Insmod 0 :: ts ++ [Rmmod; Interrupt]) (Done blank) = Oops BadPointer.
Proof.
  destruct (loaded_inv ts (State [KbWork] false 0 true)) as (s & Hr & Hl & Ha & _); [done.. |].
  assert (E : exec step (Insmod 0 :: ts) (Done blank) = Done s) by exact Hr.
  split; [by exists s|]. change (Insmod 0 :: ts ++ ?l) with ((Insmod 0 :: ts) ++ l).
  rewrite exec_app, E. simpl. rewrite Hl. simpl. unfold keyboard_driver_exit, free_irq. simpl.
  by rewrite Ha.
Qed.

(** Two key presses, served by one execution of the work item. *)
Lemma keyboard_unload_witness :
  exec step [Insmod 0; Interrupt; Interrupt; RunWork; Rmmod; Interrupt] (Done blank) = Oops BadPointer.
Proof.
  apply (keyboard_unload [Interrupt; Interrupt; RunWork]). repeat constructor.
Defined.

(** Work that an interrupt left pending is not flushed either. *)
Example keyboard_pending_work :
  exec step [Insmod 0; Interrupt; Rmmod; RunWork] (Done blank) = Oops BadPointer.
Proof. reflexivity. Qed.

(** A refused request refuses the loading, and nothing is left. *)
Example keyboard_refused :
  exec step [Insmod (- EINVAL)] (Done blank) = Done blank.
Proof. reflexivity. Qed.
End Keyboard.

(** ** 027_sig_send/sigdrv.c *)
Module Signal.

Definition SIGETX : Z := 44.
(** _IOW('a', 'a', int32_t * ) *)
Definition REG_CURRENT_TASK : Z := _IOW 97 97 8.
Definition IRQ_HANDLED : Z := 1.

(** The static variable [task]. *)
Definition drv : Type := option Z.

Definition etx_ioctl (current cmd : Z) (task : drv) : Z * drv :=
  (0, if cmd =? REG_CURRENT_TASK then Some current else task).

Definition etx_release (current : Z) (task : drv) : Z * drv :=
  (0, if bool_decide (task = Some current) then None else task).

(** The result, and the process and number of the signal sent. *)
Definition irq_handler (task : drv) : Z * option (Z * Z) :=
  (IRQ_HANDLED, (fun t => (t, SIGETX)) <$> task).

(** The processes, who holds each open file of the device, and the signals
    delivered so far. *)
Record sys := Sys {
  task : drv;
  alive : gset Z;
  files : gmap Z (gset Z);
  delivered : list (Z * Z);
}.

(** Opening, using and closing a file [f] of the device by [p]; a fork of [p]
    to [c], which shares the open files; the end of [p]; an interrupt. *)
Inductive event :=
  | Open (p f : Z) | Ioctl (p f cmd : Z) | Close (p f : Z) | Fork (p c : Z) | Exit (p : Z) | Irq.

(** The last holder that lets go calls release. *)
Definition close_file (p f : Z) (s : sys) : sys :=
  match files s !! f with
  | Some hs =>
      if bool_decide (p ∈ hs) then
        if bool_decide (hs ∖ {[p]} = ∅)
        then Sys (etx_release p (task s)).2 (alive s) (delete f (files s)) (delivered s)
        else Sys (task s) (alive s) (<[f := hs ∖ {[p]}]> (files s)) (delivered s)
      else s
  | None => s
  end.

Definition close_all (p : Z) (s : sys) : sys :=
  foldr (close_file p) s (elements (dom (files s))).

(** A signal to a process that is gone uses a freed task. *)
Definition step (ev : event) (s : sys) : option (outcome sys) :=
  match ev with
  | Open p f =>
      if bool_decide (p ∈ alive s /\ files s !! f = None)
      then Some (Done (Sys (task s) (alive s) (<[f := {[p]}]> (files s)) (delivered s))) else None
  | Ioctl p f cmd =>
      if bool_decide (p ∈ alive s /\ p ∈ default ∅ (files s !! f))
      then Some (Done (Sys (etx_ioctl p cmd (task s)).2 (alive s) (files s) (delivered s))) else None
  | Close p f => if bool_decide (p ∈ alive s) then Some (Done (close_file p f s)) else None
  | Fork p c =>
      if bool_decide (p ∈ alive s /\ c ∉ alive s)
      then Some (Done (Sys (task s) ({[c]} ∪ alive s)
                 ((fun hs => if bool_decide (p ∈ hs) then {[c]} ∪ hs else hs) <$> files s) (delivered s)))
      else None
  | Exit p =>
      if bool_decide (p ∈ alive s) then
        let s' := close_all p s in
        Some (Done (Sys (task s') (alive s' ∖ {[p]}) (files s') (delivered s')))
      else None
  | Irq =>
      match (irq_handler (task s)).2 with
      | None => Some (Done s)
      | Some (q, sig) =>
          Some (if bool_decide (q ∈ alive s)
                then Done (Sys (task s) (alive s) (files s) (delivered s ++ [(q, sig)]))
                else Oops BadPointer)
      end
  end.

Definition start (ps : gset Z) : sys := Sys None ps ∅ [].

(** ** The registration ends with its process, unless files are shared *)

(** Every open file has one holder, and a registered process holds one. *)
Definition unshared (s : sys) : Prop :=
  (forall f hs, files s !! f = Some hs -> exists p, p ∈ alive s /\ hs = {[p]}) /\
  (forall q, task s = Some q -> exists f, files s !! f = Some {[q]}).

Lemma singleton_inj (p q : Z) : ({[p]} : gset Z) = {[q]} -> p = q.
Proof. intros E. assert (Hp : p ∈ ({[q]} : gset Z)) by (rewrite <- E; set_solver). set_solver. Qed.

Lemma close_file_alive p f s : alive (close_file p f s) = alive s.
Proof. unfold close_file. repeat case_match; done. Qed.

Lemma close_file_unshared p f s : unshared s -> unshared (close_file p f s).
Proof.
  intros [Hf Ht]. unfold close_file. destruct (files s !! f) as [hs|] eqn:E; [|by split].
  destruct (Hf f hs E) as (p' & Hp' & ->). case_bool_decide as Hp; [|by split].
  apply elem_of_singleton in Hp as <-. rewrite bool_decide_true by set_solver. split; simpl.
  - intros g hs Hg. apply lookup_delete_Some in Hg as [_ Hg]. eauto.
  - intros q Hq. case_bool_decide as Hp; [done|]. destruct (Ht q Hq) as [g Hg]. exists g.
    rewrite lookup_delete_ne; [done|]. intros ->. assert (Eqp : ({[p]} : gset Z) = {[q]}) by congruence.
    apply singleton_inj in Eqp. congruence.
Qed.

Lemma close_file_lookup p f s g hs :
  unshared s -> files (close_file p f s) !! g = Some hs ->
  files s !! g = Some hs /\ (g = f -> p ∉ hs).
Proof.
  intros [Hf _]. unfold close_file. destruct (files s !! f) as [hs0|] eqn:E.
  2:{ intros Hg. split; [done|]. intros ->. congruence. }
  destruct (Hf f hs0 E) as (p' & _ & ->). case_bool_decide as Hp.
  2:{ intros Hg. split; [done|]. intros ->. congruence. }
  rewrite bool_decide_true by set_solver. simpl. intros [Hne Hg]%lookup_delete_Some. done.
Qed.

Lemma close_all_unshared p s :
  unshared s -> unshared (close_all p s) /\ alive (close_all p s) = alive s /\
    forall f hs, files (close_all p s) !! f = Some hs -> p ∉ hs.
Proof.
  intros Hs. unfold close_all.
  assert (Hl : forall l, unshared (foldr (close_file p) s l) /\
    alive (foldr (close_file p) s l) = alive s /\
    (forall f hs, files (foldr (close_file p) s l) !! f = Some hs ->
       files s !! f = Some hs /\ (f ∈ l -> p ∉ hs))).
  { induction l as [|g l (IH1 & IH2 & IH3)]; simpl.
    - split_and!; [done | done |]. intros f hs Hf. split; [done|]. by intros ?%not_elem_of_nil.
    - split_and!; [by apply close_file_unshared | by rewrite close_file_alive |].
      intros f hs Hf. destruct (close_file_lookup _ _ _ _ _ IH1 Hf) as [Hf' Hg].
      destruct (IH3 f hs Hf') as [Hf0 Hin]. split; [done|]. intros [->|?]%elem_of_cons; auto. }
  destruct (Hl (elements (dom (files s)))) as (H1 & H2 & H3). split_and!; [done | done |].
  intros f hs Hf. destruct (H3 f hs Hf) as [Hf0 Hin]. apply Hin, elem_of_elements.
  by eapply elem_of_dom_2.
Qed.

Definition is_fork (ev : event) : bool := match ev with Fork _ _ => true | _ => false end.

Lemma step_unshared ev s c :
  is_fork ev = false -> unshared s -> step ev s = Some c -> exists s', c = Done s' /\ unshared s'.
Proof.
  intros Hev Hs Hstep. pose proof Hs as [Hf Ht].
  destruct ev as [p f|p f cmd|p f|p c'|p|]; simpl in Hstep; [| | |done| |].
  - case_bool_decide as Hp; [|done]. destruct Hp as [Hp Hnone]. injection Hstep as <-.
    eexists. split; [done|]. split; simpl.
    + intros g hs [[<- <-]|[_ Hg]]%lookup_insert_Some; eauto.
    + intros q Hq. destruct (Ht q Hq) as [g Hg]. exists g. rewrite lookup_insert_ne; [done|congruence].
  - case_bool_decide as Hp; [|done]. destruct Hp as [Hp Hh]. injection Hstep as <-.
    eexists. split; [done|]. split; simpl; [done|]. intros q Hq.
    destruct (cmd =? REG_CURRENT_TASK); [|auto]. injection Hq as <-.
    destruct (files s !! f) as [hs|] eqn:E; [|set_solver]. simpl in Hh.
    destruct (Hf f hs E) as (p' & _ & ->). exists f. rewrite E. do 2 f_equal. set_solver.
  - case_bool_decide; [|done]. injection Hstep as <-. eauto using close_file_unshared.
  - case_bool_decide as Hp; [|done]. injection Hstep as <-.
    destruct (close_all_unshared p s Hs) as ([Hf' Ht'] & Ha & Hgone).
    eexists. split; [done|]. split; simpl; [|done]. intros f hs Hfh.
    destruct (Hf' f hs Hfh) as (p' & Hp' & ->). exists p'. split; [|done].
    specialize (Hgone f _ Hfh). set_solver.
  - destruct (task s) as [q|] eqn:Hq; simpl in Hstep; [|injection Hstep as <-; eauto].
    destruct (Ht q eq_refl) as [f Hfq]. destruct (Hf f _ Hfq) as (p & Hp & E).
    rewrite bool_decide_true in Hstep by set_solver. injection Hstep as <-.
    eexists. split; [done|]. split; simpl; [done|]. intros q' [= <-]. by exists f.
Qed.

(** C28. As long as no process forks, the registered process is alive at every
    interrupt, whatever is opened, closed, registered and however processes
    end; with a child that shares the file, release is not called when the
    registered process ends and the next interrupt signals a freed task. *)
Theorem signal_target_alive (ps : gset Z) :
  (forall ts, Forall (fun ev => is_fork ev = false) ts ->
     exists s, exec step ts (Done (start ps)) = Done s /\ forall q, task s = Some q -> q ∈ alive s) /\
  (forall p c f, p ∈ ps -> c ∉ ps ->
     exec step [Open p f; Ioctl p f REG_CURRENT_TASK; Fork p c; Exit p; Irq] (Done (start ps)) =
       Oops BadPointer).
Proof.
  split.
  - intros ts Hts.
    assert (HI : exists s, exec step ts (Done (start ps)) = Done s /\ unshared s).
    { assert (H0 : unshared (start ps)) by (split; [by intros ? ? ? | done]).
      revert H0. generalize (start ps). induction ts as [|ev ts IH]; intros s H0; [by exists s|].
      apply Forall_cons in Hts as [Hev Hts]. simpl.
      destruct (step ev s) as [c|] eqn:E; [|by apply IH].
      destruct (step_unshared ev s c Hev H0 E) as (s' & -> & Hs'). by apply IH. }
    destruct HI as (s & Hr & [Hf Ht]). exists s. split; [done|]. intros q Hq.
    destruct (Ht q Hq) as [f Hfq]. destruct (Hf f _ Hfq) as (p & Hp & E). set_solver.
  - intros p c f Hp Hc. simpl. rewrite bool_decide_true by done. simpl.
    rewrite lookup_insert_eq. simpl. rewrite bool_decide_true by set_solver. simpl.
    rewrite bool_decide_true by done. simpl. rewrite bool_decide_true by set_solver. simpl.
    unfold close_all. simpl.
    rewrite fmap_insert, fmap_empty, bool_decide_true by set_solver.
    rewrite dom_insert_L, dom_empty_L, (right_id_L ∅ (∪)), elements_singleton. simpl.
    unfold close_file. simpl. rewrite lookup_insert_eq, bool_decide_true by set_solver.
    rewrite bool_decide_false; simpl.
    + rewrite bool_decide_false by set_solver. done.
    + intros E. assert (Hin : c ∈ (∅ : gset Z)) by (rewrite <- E; set_solver). set_solver.
Qed.

(** sigusr.c: open the device, register, and wait for signals. *)
Definition sigusr (p f : Z) : list event := [Open p f; Ioctl p f REG_CURRENT_TASK].

(** The program of process 1 receives the interrupts until it ends; process 2
    uses the device without registering. *)
Lemma signal_target_alive_witness :
  exists s, exec step (sigusr 1 7 ++ [Irq; Open 2 8; Ioctl 2 8 0; Irq; Close 2 8; Exit 1; Irq])
    (Done (start {[1; 2]})) = Done s /\
  (forall q, task s = Some q -> q ∈ alive s) /\ delivered s = [(1, SIGETX); (1, SIGETX)].
Proof.
  destruct (signal_target_alive {[1; 2]}) as [Hsafe _].
  destruct (Hsafe (sigusr 1 7 ++ [Irq; Open 2 8; Ioctl 2 8 0; Irq; Close 2 8; Exit 1; Irq]))
    as (s & Hr & Ht); [repeat constructor|].
  exists s. split_and!; [done | done |]. vm_compute in Hr. injection Hr as <-. reflexivity.
Defined.

(** ** Loading and unloading *)

Section Module_.
Context {W : Type} `{Grants W}.

(** No result of a registration is looked at. *)
Definition etx_driver_init : M W drv Z :=
  alloc_chrdev_region;;
  cdev_add 0;;
  dev_class ← class_create;
  device_create_in dev_class 0;;
  acquire (IrqLine 11 "irq_handler");;
  mret 0.

(** free_irq of a handler that is not on the line only warns. *)
Definition free_irq (irq : Z) (dev_id : string) : M W drv unit := fun σ =>
  Done (tt, set_ledger (default (ledger σ) (remove_one (IrqLine irq dev_id) (ledger σ))) σ).

Definition etx_driver_exit : M W drv unit :=
  free_irq 11 "irq_handler";;
  device_destroy 0;; class_destroy;; cdev_del 0;; unregister_chrdev_region.
End Module_.

(** Unloading gives everything back, also when the interrupt was refused; when
    the class was refused, loading uses its error pointer. *)
Example etx_load_unload :
  (etx_driver_init;; etx_driver_exit) (KSt None (Sim ∅ [] [] [] []) [] []) =
    Done (tt, KSt None (Sim ∅ [] [] [] []) [] []) /\
  (etx_driver_init;; etx_driver_exit) (KSt None (Sim ∅ [] [0; 0; 0; 0; -16] [] []) [] []) =
    Done (tt, KSt None (Sim ∅ [] [] [] []) [] []) /\
  etx_driver_init (KSt None (Sim ∅ [] [0; 0; -12] [] []) [] []) = Oops BadPointer.
Proof. split_and!; reflexivity. Qed.
End Signal.

(** ** 027_sig_send/sigusr.c *)
Module SigApp.
Import Signal.

(** At the call named; a process whose signal had no handler is ended. *)
Inductive phase := Install | OpenDev | Register | Announce | Pausing | Returned (rc : Z) | Killed.

Inductive line := Perror | Registered | Received (value : Z).

(** [sending] is the interrupt handler of the driver between its test of
    [task] and the use; [pending] the signals the program has not handled,
    [queued] all that were ever queued for it. *)
Record sys := Sys {
  at_ : phase;
  handler : bool;
  task : drv;
  sending : bool;
  pending : list Z;
  queued : list Z;
  out : list line;
}.

Definition start : sys := Sys Install false None false [] [] [].

Definition pid : Z := 1.
(** info.si_int *)
Definition si_int : Z := 1.

(** main; [fd] is what open returns. It never comes back from its pauses. *)
Definition main_step (fd : Z) (s : sys) : option sys :=
  match at_ s with
  | Install => Some (Sys OpenDev true (task s) (sending s) (pending s) (queued s) (out s))
  | OpenDev =>
      if fd <? 0
      then Some (Sys (Returned (-1)) (handler s) (task s) (sending s) (pending s) (queued s) (out s ++ [Perror]))
      else Some (Sys Register (handler s) (task s) (sending s) (pending s) (queued s) (out s))
  | Register =>
      Some (Sys Announce (handler s) (etx_ioctl pid REG_CURRENT_TASK (task s)).2 (sending s)
                (pending s) (queued s) (out s))
  | Announce =>
      Some (Sys Pausing (handler s) (task s) (sending s) (pending s) (queued s) (out s ++ [Registered]))
  | Pausing | Returned _ | Killed => None
  end.

(** sig_event_handler *)
Definition sig_event_handler (signo value : Z) (o : list line) : list line :=
  if signo =? SIGETX then o ++ [Received value] else o.

(** The oldest pending signal reaches the program. *)
Definition deliver (s : sys) : option sys :=
  match pending s with
  | [] => None
  | v :: vs =>
      Some (if handler s
            then Sys (at_ s) (handler s) (task s) (sending s) vs (queued s)
                     (sig_event_handler SIGETX v (out s))
            else Sys Killed (handler s) (task s) (sending s) vs (queued s) (out s))
  end.

(** The two halves of the driver's handler: if (task != NULL), and
    send_sig_info, which reads [task] again and may be refused. *)
Definition irq_test (s : sys) : option sys :=
  if sending s then None
  else Some (Sys (at_ s) (handler s) (task s) (bool_decide (task s <> None)) (pending s) (queued s) (out s)).

Definition irq_send (rc : Z) (s : sys) : option (outcome sys) :=
  if sending s then
    Some match task s with
         | None => Oops NullDeref
         | Some _ =>
             let new := if rc <? 0 then [] else [si_int] in
             Done (Sys (at_ s) (handler s) (task s) false (pending s ++ new) (queued s ++ new) (out s))
         end
  else None.

Inductive actor := Main (fd : Z) | Deliver | IrqTest | IrqSend (rc : Z).

Definition step (t : actor) (s : sys) : option (outcome sys) :=
  match t with
  | Main fd => Done <$> main_step fd s
  | Deliver => Done <$> deliver s
  | IrqTest => Done <$> irq_test s
  | IrqSend rc => irq_send rc s
  end.

Definition received (o : list line) : list Z :=
  omap (fun l => match l with Received v => Some v | _ => None end) o.

Lemma received_app o l : received (o ++ [l]) = received o ++ received [l].
Proof. apply omap_app. Qed.

(** Registered only once the handler is installed, and for good. *)
Record inv (s : sys) : Prop := {
  i_order : received (out s) ++ pending s = queued s;
  i_task : task s <> None -> handler s = true;
  i_sending : sending s = true -> task s <> None;
  i_pending : pending s <> [] -> task s <> None;
  i_install : at_ s <> Install -> handler s = true;
  i_alive : at_ s <> Killed;
  i_values : Forall (fun v => v = si_int) (queued s);
}.

Lemma main_inv fd s s' : inv s -> main_step fd s = Some s' -> inv s'.
Proof.
  intros [Ho Ht Hs Hp Hi Ha Hv] E. destruct s as [ph h tk sd pd qd o]. unfold main_step in E.
  simpl in *. destruct ph; try done; [| destruct (fd <? 0) | |]; injection E as <-.
  all: split; simpl; rewrite ?received_app, ?app_nil_r; auto; try done.
  all: intros _; by apply Hi.
Qed.

Lemma inv_signals t s c : inv s -> step t s = Some c -> exists s', c = Done s' /\ inv s'.
Proof.
  intros Hinv E. pose proof Hinv as [Ho Ht Hs Hp Hi Ha Hv].
  destruct t as [fd| | |rc]; simpl in E.
  - destruct (main_step fd s) as [s'|] eqn:Em; [|done]. injection E as <-.
    eauto using main_inv.
  - destruct s as [ph h tk sd pd qd o]. unfold deliver in E. simpl in *.
    destruct pd as [|v vs]; [done|]. specialize (Hp ltac:(done)). rewrite (Ht Hp) in E. injection E as <-.
    eexists. split; [done|]. split; simpl; auto; try done.
    unfold sig_event_handler. simpl. by rewrite received_app, <- app_assoc.
  - destruct s as [ph h tk sd pd qd o]. unfold irq_test in E. simpl in *. destruct sd; [done|].
    injection E as <-. eexists. split; [done|]. split; simpl; auto; try done.
    by intros ?%bool_decide_eq_true.
  - destruct s as [ph h tk sd pd qd o]. unfold irq_send in E. simpl in *. destruct sd; [|done].
    specialize (Hs eq_refl). destruct tk as [q|]; [|done]. injection E as <-.
    eexists. split; [done|]. split; simpl; auto; try done.
    + by rewrite app_assoc, Ho.
    + apply Forall_app. split; [done|]. destruct (rc <? 0); by repeat constructor.
Qed.

Lemma main_start_inv : inv start.
Proof. split; simpl; try done. Qed.

(** In every order of the program's steps, interrupts and deliveries, the
    program is never ended by the signal, the driver's handler never finds the
    task gone between its test and its use, and the values printed are those
    of the signals queued, oldest first, all of them 1, without the ones still
    pending: queued signals do not merge. *)
Theorem signals_in_order (ts : list actor) :
  exists s, exec step ts (Done start) = Done s /\ at_ s <> Killed /\
    received (out s) ++ pending s = queued s /\ Forall (fun v => v = si_int) (queued s).
Proof.
  destruct (exec_safe step inv ts start) as (s & Hr & [Ho _ _ _ _ Ha Hv]).
  - intros. by eapply inv_signals.
  - apply main_start_inv.
  - by exists s.
Qed.

(** A delivery prints one value; nothing else changes how many are printed. *)
Lemma step_grows t s s' :
  inv s -> step t s = Some (Done s') ->
  (length (queued s) <= length (queued s'))%nat /\
  length (received (out s')) =
    (match t with Deliver => 1 | _ => 0 end + length (received (out s)))%nat.
Proof.
  intros [Ho Ht Hs Hp Hi Ha Hv] E. destruct s as [ph h tk sd pd qd o]. simpl in *.
  destruct t as [fd| | |rc]; simpl in E.
  - unfold main_step in E. simpl in E.
    destruct ph; try done; [| destruct (fd <? 0) | |]; injection E as <-; simpl;
      by rewrite ?received_app, ?app_nil_r.
  - unfold deliver in E. simpl in E. destruct pd as [|v vs]; [done|].
    rewrite Ht in E by by apply Hp. injection E as <-. simpl. unfold sig_event_handler. simpl.
    rewrite received_app, length_app. simpl. split; lia.
  - unfold irq_test in E. simpl in E. destruct sd; [done|]. by injection E as <-.
  - unfold irq_send in E. simpl in E. destruct sd; [|done]. destruct tk; [|done].
    injection E as <-. simpl. rewrite length_app. split; lia.
Qed.

Lemma signals_progress k :
  progresses step
    (fun r => match r with Done s' => (k <= length (received (out s')))%nat | Oops _ => False end)
    (fun t => t ∈ [Main 3; Deliver; IrqTest; IrqSend 0])
    (fun s => inv s /\ (k <= length (queued s))%nat)
    (fun s => k - length (received (out s)))%nat (fun _ => Deliver).
Proof.
  intros t s _ [Hi Hk] Hg. simpl in Hg. split; [set_solver|].
  destruct (step t s) as [c|] eqn:E.
  - destruct (inv_signals t s c Hi E) as (s' & -> & Hi').
    destruct (step_grows t s s' Hi E) as [Hq Hr]. right. exists s'. simpl. rewrite E.
    split_and!; [done | done | lia |]. destruct t; [right | left | right | right]; rewrite Hr;
      try (split_and!; done). lia.
  - eapply good_blocked; [done | done |]. intros ->. unfold step, deliver in E.
    destruct (pending s) as [|v vs] eqn:Hp; [|done]. destruct Hi as [Ho _ _ _ _ _ _].
    rewrite Hp, app_nil_r in Ho. rewrite Ho in Hg. lia.
Qed.

(** Every signal queued is printed, under every schedule in which the program
    gets to run its handler again and again. *)
Theorem signals_printed (sched : nat -> actor) (n : nat) (s : sys)
    (Hfair : fair_among (fun t => t ∈ [Main 3; Deliver; IrqTest; IrqSend 0]) sched)
    (Hr : runs step sched n (Done start) = Done s) :
  exists m s', (n <= m)%nat /\ runs step sched m (Done start) = Done s' /\
    (length (queued s) <= length (received (out s')))%nat.
Proof.
  set (k := length (queued s)).
  set (goal := fun r : outcome sys =>
         match r with Done s' => (k <= length (received (out s')))%nat | Oops _ => False end).
  assert (Hdec : forall r, Decision (goal r)) by (intros [s'|u]; simpl; apply _).
  destruct (fair_eventually_from step goal (fun t => t ∈ [Main 3; Deliver; IrqTest; IrqSend 0])
              (fun s => inv s /\ (k <= length (queued s))%nat)
              (fun s => k - length (received (out s)))%nat (fun _ => Deliver)
              sched (Done start) n s Hfair) as (m & Hm & Hg); [|done| |].
  - apply signals_progress.
  - split; [|lia]. pose proof (runs_exec step sched n (Done start)) as E. rewrite Hr in E.
    destruct (exec_safe step inv (sched <$> seq 0 n) start) as (s1 & Hs1 & Hi);
      [intros; by eapply inv_signals | apply main_start_inv | congruence].
  - destruct (runs step sched m (Done start)) as [s'|u] eqn:E; [|done]. by exists m, s'.
Qed.

(** The driver's handler reads [task] twice without a lock: a release on
    another processor in between makes it signal NULL. *)
Example release_race (s : sys) :
  task s = Some pid -> sending s = false ->
  (s' ← irq_test s;
   irq_send 0 (Sys (at_ s') (handler s') (etx_release pid (task s')).2 (sending s') (pending s')
                   (queued s') (out s'))) = Some (Oops NullDeref).
Proof.
  intros Ht Hs. unfold irq_test. rewrite Hs. simpl. rewrite Ht. reflexivity.
Qed.
End SigApp.
