(* ===== verification/Misc.v ===== *)
(** * 001_driver_misc/misc.c: a misc device with one string

    A 256-byte array that always holds a terminated string: read delivers the
    string from the file position on, write replaces it. access_ok is an
    interface. *)

From S2P Require Import Prelude Kernel Wp Sim Wait.

(** access_ok(addr, size): whether the range is in user space. *)
Class AccessOk := { k_access_ok : Z -> Z -> bool }.

Definition sizeof_buffer : Z := 256.

(** The state is [kernel_buffer]. *)
Definition kernel_buffer0 : list byte :=
  bytes_of "Hello India" ++ [LF] ++ replicate 244 NUL.

Section Handlers.
Context {W : Type} `{AccessOk} `{UserAccess W} `{SimpleRead W}.

Definition misc_read (buf count ppos : Z) : M W (list byte) (Z * Z) :=
  if negb (k_access_ok buf count) then mret (- EFAULT, ppos)
  else
    kernel_buffer ← get;
    str ← value OutOfBounds (cstr kernel_buffer);  (* strlen *)
    simple_read_from_buffer buf count ppos str.

(** The file position is not moved. A copy that stops half-way has replaced a
    part of the string. *)
Definition misc_write (buf count ppos : Z) : M W (list byte) (Z * Z) :=
  if sizeof_buffer - 1 <? count then mret (- EINVAL, ppos)
  else if negb (k_access_ok buf count) then mret (- EFAULT, ppos)
  else
    '(r, bs) ← copy_from_user buf count;
    kernel_buffer ← get;
    (if in_bounds 0 count (zlen kernel_buffer) then modify (upd 0 bs) else oops OutOfBounds);;
    if negb (r =? 0) then mret (- EFAULT, ppos)
    else
      kernel_buffer ← get;
      b ← value OutOfBounds (zset kernel_buffer count NUL);
      modify (fun _ => b);;
      mret (count, ppos).
End Handlers.

(** misc_register is the one registration. *)
Definition misc_init {W} `{Grants W} : M W (list byte) Z :=
  ret ← acquire MiscDev;
  if negb (ret =? 0) then mret ret else mret 0.

Definition misc_exit {W} : M W (list byte) unit := release MiscDev.

(** ** Properties *)

(** The last byte of the array is always a terminator. *)
Record misc_ok (b : list byte) : Prop := {
  ok_size : zlen b = sizeof_buffer;
  ok_end : zget b 255 = Some NUL;
}.

Lemma kernel_buffer0_ok : misc_ok kernel_buffer0.
Proof. by split. Qed.

Lemma zget_upd_behind (bs l : list byte) i :
  zlen bs <= i -> zlen bs <= zlen l -> zget (upd 0 bs l) i = zget l i.
Proof.
  intros Hi Hl. unfold zget. destruct (Z.leb_spec 0 i); [|done].
  rewrite lookup_upd by lia. by rewrite decide_False by lia.
Qed.

Section Props.
Context {W : Type} `{AccessOk} `{UserAccessOk W} `{!SimpleRead W} `{!SimpleReadOk W}.
Implicit Types (b : list byte) (w : W) (h : list lock) (l : list resource).

Lemma misc_write_spec b buf count ppos w h l :
  misc_ok b -> vfs_ok ppos count ->
  wp (misc_write buf count ppos)
     (fun x σ => held σ = h /\ ledger σ = l /\ misc_ok (drv σ) /\ umem (world σ) ≡ₘ umem w /\
        x.2 = ppos /\
        (x.1 = - EINVAL /\ 255 < count /\ drv σ = b \/
         x.1 = - EFAULT /\ count <= 255 \/
         x.1 = count /\ count <= 255 /\
         cstr (drv σ) = Some (until_nul (uread (umem w) buf count))))
     (KSt b w h l).
Proof.
  intros Hb [_ Hc]. pose proof Hb as [Hsz He]. unfold misc_write, sizeof_buffer in *.
  wp_step; [wp_auto; split_and!; try done; left; split_and!; [done | lia | done]|].
  wp_step; [|wp_auto; split_and!; try done; right; left; split; [done | lia]].
  wp_step; wp_step. pose proof (cfu_zlen _ _ _ _ _ _ (proj1 Hc) Hcfu) as Hlen.
  pose proof (cfu_mem _ _ _ _ _ _ (proj1 Hc) Hcfu) as Hmem.
  do 2 wp_step. rewrite Hsz, in_bounds_true by lia. do 2 wp_step.
  assert (Hsz' : zlen (upd 0 bs b) = 256) by (rewrite zlen_upd; lia).
  assert (He' : zget (upd 0 bs b) 255 = Some NUL) by (rewrite zget_upd_behind by lia; done).
  destruct (Z.eqb_spec r 0) as [->|]; simpl negb; cbv iota.
  2:{ wp_auto. split_and!; try done; [ right; left; split; [done | lia]]. }
  do 2 wp_step. rewrite zset_in by lia. wp_auto.
  split_and!; try done.
  - split; [by rewrite zlen_insert|]. rewrite zget_insert by lia. by case_match.
  - right. right. split_and!; [done | lia|]. rewrite cstr_terminated by lia.
    apply cfu_full in Hcfu as [-> _]; [done | lia].
Qed.

Lemma misc_read_spec b buf count ppos w h l :
  misc_ok b -> vfs_ok ppos count ->
  wp (misc_read buf count ppos)
     (fun x σ => held σ = h /\ ledger σ = l /\ drv σ = b /\
        exists s, cstr b = Some s /\
        (x.1 < 0 /\ x.2 = ppos \/
         0 <= x.1 <= count /\ x.2 = ppos + x.1 /\
         (x.1 = 0 <-> zlen s <= ppos \/ count = 0) /\ (0 < x.1 -> ppos + x.1 <= zlen s) /\
         umem (world σ) ≡ₘ uwrite (umem w) buf (sub ppos x.1 s)))
     (KSt b w h l).
Proof.
  intros Hb [Hp Hc]. destruct Hb as [_ He]. destruct (cstr_bounded _ _ He) as (s & Hs & Hl).
  unfold misc_read. wp_step; [|wp_auto; split_and!; auto; exists s; split; [done|]; left; done].
  do 2 wp_step. rewrite Hs. do 2 wp_step. unfold simple_read_from_buffer.
  apply wp_call. wp_red. intros [rc pos'] w' Hr. apply simple_read_ok in Hr; [|lia|lia].
  split_and!; auto. exists s. split; [done|]. simpl.
  destruct Hr as [(? & -> & _)|(? & ? & -> & ? & ? & ?)]; [left; auto|]. right. by split_and!.
Qed.

(** A write that succeeds replaces the string by the bytes written, up to
    the first terminator among them, wherever its file position is; a read from
    the start then delivers its beginning, and nothing exactly when it is empty.
    More than 255 bytes are refused without a change, and in every case the
    array stays terminated. *)
Theorem misc_write_read (src dst count size ppos : Z) (b : list byte) (w : W)
    (Hb : misc_ok b) (Hv : vfs_ok ppos count) (Hs : 0 < size <= MAX_RW_COUNT) :
  let t := until_nul (uread (umem w) src count) in
  wp (r1 ← misc_write src count ppos; r2 ← misc_read dst size 0; mret (r1.1, r2.1))
     (fun r σ => held σ = [] /\ misc_ok (drv σ) /\
        (255 < count -> r.1 = - EINVAL /\ drv σ = b) /\
        (r.1 = count -> 0 <= r.2 -> r.2 <= zlen t /\ (r.2 = 0 <-> t = []) /\
           uread (umem (world σ)) dst r.2 = sub 0 r.2 t))
     (KSt b w [] []).
Proof.
  intros t. apply wp_bind. eapply wp_mono; [by apply misc_write_spec|].
  intros [r1 p1] [b1 w1 h1 l1] (Hh1 & Hl1 & Hb1 & Hm1 & _ & Hr1). simpl in *. subst h1 l1.
  apply wp_bind. eapply wp_mono.
  { apply misc_read_spec; [done|]. split; [lia | unfold MAX_RW_COUNT in *; lia]. }
  intros [r2 p2] [b2 w2 h2 l2] (Hh2 & Hl2 & Hd2 & s & Hs' & Hr2). simpl in *. subst h2 l2 b2. apply wp_ret. simpl.
  split_and!; [done | done | |].
  { intros Hlt. destruct Hr1 as [(-> & _ & ->)|[[_ ?]|(_ & ? & _)]]; [done | lia | lia]. }
  intros -> Hr2pos. destruct Hv as [_ Hc].
  destruct Hr1 as [(? & _)|[[? _]|(_ & _ & Ht)]]; [unfold EINVAL in *; lia | unfold EFAULT in *; lia |].
  rewrite Ht in Hs'. injection Hs' as <-. fold t in Hr2.
  destruct Hr2 as [[? _]|(Hr & _ & Hz0 & Hle & Hm2)]; [lia|].
  pose proof (zlen_nonneg t). split_and!.
  - destruct (decide (r2 = 0)) as [->|]; [done | lia].
  - rewrite Hz0. split; [intros [Hz|]; [|lia] | intros ->; left; done].
    destruct t; [done|]. unfold zlen in Hz. simpl in Hz. lia.
  - rewrite Hm2. apply uread_uwrite_n. destruct (decide (r2 = 0)) as [->|]; [done|].
    apply zlen_sub; lia.
Qed.
End Props.

(** Writing "hi" and the newline over the greeting. *)
#[export] Instance sim_access : AccessOk := { k_access_ok _ _ := true }.

Lemma misc_write_read_witness :
  wp (r1 ← misc_write 100 3 0; r2 ← misc_read 200 64 0; mret (r1.1, r2.1))
     (fun r σ => r.1 = 3 -> 0 <= r.2 -> r.2 <= 3)
     (KSt kernel_buffer0 (sim_at 100 (bytes_of "hi" ++ [LF])) [] []).
Proof.
  eapply wp_mono.
  - apply (misc_write_read 100 200 3 64 0 kernel_buffer0); [apply kernel_buffer0_ok | |].
    + unfold vfs_ok, MAX_RW_COUNT. lia.
    + unfold MAX_RW_COUNT. lia.
  - intros r σ (_ & _ & _ & Hr) E1 E2. destruct (Hr E1 E2) as [Hle _]. vm_compute in Hle |- *. done.
Defined.

(** A copy that faults after two bytes leaves them in front of what the
    copy's zero fill and the old string make of the rest. *)
Example misc_partial_write :
  (r ← misc_write 100 5 0; b ← get; mret (r.1, cstr b))
    (KSt kernel_buffer0 (sim_at 100 (bytes_of "xy")) [] []) =
  Done ((- EFAULT, Some (bytes_of "xy")),
        KSt (bytes_of "xy" ++ replicate 3 NUL ++ drop 5 kernel_buffer0)
            (sim_at 100 (bytes_of "xy")) [] []).
Proof. vm_compute. reflexivity. Qed.
