(* ===== verification/PlainCalls.v ===== *)
(** * 011_chrdev_skeleton, 001_driver_misc/misc.c: calls that overlap

    Two more drivers whose reads and writes take no lock, run byte by byte
    like those of WaitCalls.v. In [SkeletonCalls] (011) the size in use is
    loaded twice by a read; when a write makes the file shorter in between,
    the subtraction wraps, and a long read leaves the buffer. In [MiscCalls]
    (misc.c) nothing leaves the buffer. *)

From S2P Require Import Prelude Kernel Wp Sim Sched Calls WaitCalls.
From S2P Require Skeleton Misc.

(** ** 011_chrdev_skeleton/driver.c *)
Module SkeletonCalls.
Import Skeleton.

(** A read of [len] bytes at [pos] and the bytes copy_to_user can store
    before it faults; a write at [pos] of the bytes [bs] that copy_from_user
    would leave, complete or not. *)
Inductive request := Read (len pos room : Z) | Write (bs : list byte) (pos : Z) (fault : bool).

(** A read at the comparison with the size, at the subtraction, copying [n]
    bytes; a write copying, at the size. *)
Inductive loc :=
  | Begin | Subtract | CopyOut (n : Z) (out : list byte)
  | Fill (k : Z) | SetSize
  | Return (r pos : Z) (out : list byte) | Wild.

Record call := Call { what : request; at_ : loc }.

(** The bytes of a write that fit, and where it ends. *)
Definition fits (bs : list byte) (pos : Z) : Z :=
  let available := u64 (BUF_SIZE - pos) in if available <? zlen bs then available else zlen bs.

Definition next (c : call) (s : chrdev) : option (call * chrdev) :=
  let go l s := Some (Call (what c) l, s) in
  match what c, at_ c with
  | Read _ pos _, Begin => go (if buffer_size s <=? u64 pos then Return 0 pos [] else Subtract) s
  | Read len pos _, Subtract =>
      let available := u64 (buffer_size s - pos) in
      go (CopyOut (if available <? len then available else len) []) s
  | Read _ pos room, CopyOut n out =>
      if zlen out <? Z.min n room then
        match zget (buffer s) (pos + zlen out) with
        | Some b => go (CopyOut n (out ++ [b])) s
        | None => go Wild s
        end
      else go (if room <? n then Return (- EFAULT) pos out else Return n (pos + n) out) s
  | Write _ pos _, Begin => go (if BUF_SIZE <=? pos then Return (- ENOSPC) pos [] else Fill 0) s
  | Write bs pos fault, Fill k =>
      if k <? fits bs pos then
        match zget bs k ≫= fun b => zset (buffer s) (pos + k) b with
        | Some d => go (Fill (k + 1)) (ChrDev d (buffer_size s))
        | None => go Wild s
        end
      else go (if fault then Return (- EFAULT) pos [] else SetSize) s
  | Write bs pos _, SetSize =>
      let n := fits bs pos in
      go (Return n (pos + n) []) (ChrDev (buffer s) (u64 (pos + n)))
  | _, _ => None
  end.

Definition start (s : chrdev) (rs : list request) : conc := Conc s ((fun r => Call r Begin) <$> rs).

(** *** Every interleaving *)
Section Inv.
Context (s0 : chrdev) (rs : list request).

Definition write_end (r : request) : option Z :=
  match r with
  | Write bs pos _ => if BUF_SIZE <=? pos then None else Some (pos + fits bs pos)
  | Read _ _ _ => None
  end.

(** No size the file can have is below [pos]. *)
Definition steady (pos : Z) : Prop :=
  pos <= buffer_size s0 /\ Forall (fun r => forall e, write_end r = Some e -> pos <= e) rs.

(** A read that ends in the buffer, or that no write can get below. *)
Definition request_ok (r : request) : Prop :=
  match r with
  | Read len pos _ => vfs_ok pos len /\ (pos + len <= BUF_SIZE \/ steady pos)
  | Write bs pos _ => vfs_ok pos (zlen bs)
  end.

Definition reads_only : Prop := Forall (fun r => match r with Read _ _ _ => True | _ => False end) rs.

Definition copied (pos : Z) (out : list byte) : Prop :=
  reads_only -> out = sub pos (zlen out) (buffer s0).
Definition all_of (len pos n : Z) : Prop :=
  reads_only -> n = Z.min len (Z.max 0 (buffer_size s0 - pos)).

Definition loc_ok (c : call) : Prop :=
  match what c, at_ c with
  | _, Begin => True
  | Read _ pos _, Subtract => reads_only -> pos < buffer_size s0
  | Read len pos _, CopyOut n out =>
      0 <= n <= len /\ pos + n <= BUF_SIZE /\ zlen out <= n /\ copied pos out /\ all_of len pos n
  | Read len pos _, Return r p out =>
      copied pos out /\ (r < 0 /\ p = pos \/ r = zlen out /\ r <= len /\ p = pos + r /\ all_of len pos r)
  | Write bs pos _, Fill k => pos < BUF_SIZE /\ 0 <= k <= fits bs pos
  | Write bs pos _, SetSize => pos < BUF_SIZE
  | Write bs pos _, Return r p out => out = [] /\ (r < 0 /\ p = pos \/ r = fits bs pos /\ p = pos + r)
  | _, _ => False
  end.

Definition in_order (s : chrdev) : Prop :=
  chrdev_ok s /\ (forall pos, steady pos -> pos <= buffer_size s) /\ (reads_only -> s = s0).

Record inv (c : conc) : Prop := {
  i_what : what <$> calls c = rs;
  i_state : in_order (shared c);
  i_loc : Forall loc_ok (calls c);
}.

Lemma fits_ok bs pos : vfs_ok pos (zlen bs) -> pos < BUF_SIZE -> fits bs pos = Z.min (zlen bs) (BUF_SIZE - pos).
Proof.
  intros [Hp Hl] Hb. unfold fits, BUF_SIZE in *. rewrite u64_small by lia.
  destruct (Z.ltb_spec (1024 - pos) (zlen bs)); lia.
Qed.

(** A turn of a read. *)
Lemma read_turn_ok len pos room l s c' s' :
  request_ok (Read len pos room) -> in_order s -> loc_ok (Call (Read len pos room) l) ->
  next (Call (Read len pos room) l) s = Some (c', s') ->
  exists l', c' = Call (Read len pos room) l' /\ loc_ok c' /\ in_order s'.
Proof.
  intros [[Hp Hlen] Hr] Hs Hl Hn. pose proof Hs as ([Hb Hz] & Hst & Hq).
  unfold next, loc_ok in *. simpl in *. assert (Hnil : copied pos []) by (by intros _).
  destruct l as [| |n out|k| |r p out|]; try done.
  - injection Hn as <- <-. eexists. split; [done|]. split; [|done]. simpl. rewrite u64_small by lia.
    destruct (Z.leb_spec (buffer_size s) pos).
    + split; [done|]. right. split_and!; [done | lia | lia |]. intros Hro. rewrite <- (Hq Hro). lia.
    + intros Hro. by rewrite <- (Hq Hro).
  - injection Hn as <- <-. eexists. split; [done|]. split; [|done]. simpl.
    pose proof (uwrap_range 64 (buffer_size s - pos) ltac:(lia)) as Hu. fold (u64 (buffer_size s - pos)) in Hu.
    assert (Hwrap : pos <= buffer_size s -> u64 (buffer_size s - pos) = buffer_size s - pos).
    { intros Hle. apply u64_small. unfold BUF_SIZE in *. lia. }
    set (a := u64 (buffer_size s - pos)) in *. change (zlen (@nil byte)) with 0.
    assert (Ha : pos + len <= BUF_SIZE \/ a = buffer_size s - pos).
    { destruct Hr as [?|Hsteady]; [by left | right; auto]. }
    split_and!; try done; try (destruct (Z.ltb_spec a len); lia).
    intros Hro. specialize (Hl Hro). rewrite <- (Hq Hro) in Hl |- *. rewrite Hwrap by lia.
    destruct (Z.ltb_spec (buffer_size s - pos) len); lia.
  - destruct Hl as (Hn0 & He & Ho & Hc & Ha). pose proof (zlen_nonneg out). destruct (Z.ltb_spec (zlen out) (n `min` room)).
    + destruct (zget_in (buffer s) (pos + zlen out)) as [x Hx]; [lia|]. rewrite Hx in Hn. injection Hn as <- <-.
      eexists. split; [done|]. split; [|done]. simpl. rewrite zlen_app. change (zlen [x]) with 1.
      split_and!; try done; try lia. intros Hro. rewrite zlen_app. change (zlen [x]) with 1.
      rewrite (sub_next _ _ _ x), <- (Hc Hro); [done | lia | lia |]. by rewrite <- (Hq Hro).
    + injection Hn as <- <-. eexists. split; [done|]. split; [|done].
      destruct (Z.ltb_spec room n); simpl; (split; [done|]); [by left | right].
      split_and!; [lia | lia | done | done].
Qed.

(** A turn of a write. *)
Lemma write_turn_ok bs pos fault l s c' s' :
  Write bs pos fault ∈ rs -> vfs_ok pos (zlen bs) -> in_order s -> loc_ok (Call (Write bs pos fault) l) ->
  next (Call (Write bs pos fault) l) s = Some (c', s') ->
  exists l', c' = Call (Write bs pos fault) l' /\ loc_ok c' /\ in_order s'.
Proof.
  intros Hin Hv Hs Hl Hn. pose proof Hv as [Hp Hlen]. pose proof Hs as ([Hb Hz] & Hst & _).
  assert (Hno : ~ reads_only) by (intros Hro; by apply (proj1 (Forall_forall _ _) Hro _ Hin)).
  unfold next, loc_ok in *. simpl in *. pose proof (zlen_nonneg bs).
  destruct l as [| |n out|k| |r p out|]; try done.
  - injection Hn as <- <-. eexists. split; [done|]. split; [|done]. simpl.
    destruct (Z.leb_spec BUF_SIZE pos); [by split; [|left]|]. rewrite fits_ok by done. lia.
  - destruct Hl as [Hpos Hk]. rewrite fits_ok in * by done. destruct (Z.ltb_spec k (zlen bs `min` (BUF_SIZE - pos))).
    + destruct (zget_in bs k) as [x Hx]; [lia|]. rewrite Hx in Hn. simpl in Hn. rewrite zset_in in Hn by lia.
      injection Hn as <- <-. eexists. split; [done|]. split; [simpl; rewrite fits_ok by done; lia|].
      split; [|done]. split; simpl; [by rewrite zlen_insert | done].
    + injection Hn as <- <-. eexists. split; [done|]. split; [|done]. simpl. destruct fault; [by split; [|left] | done].
  - injection Hn as <- <-. eexists. split; [done|]. split; [simpl; by split; [|right]|].
    pose proof (fits_ok bs pos Hv Hl) as Hf. unfold BUF_SIZE in *.
    assert (He : u64 (pos + fits bs pos) = pos + fits bs pos) by (apply u64_small; lia).
    split; [split; simpl; unfold BUF_SIZE; [done | lia]|]. split; [|done]. intros q [_ Hq]. simpl. rewrite He.
    apply (proj1 (Forall_forall _ _) Hq _ Hin). simpl. by rewrite (proj2 (Z.leb_gt _ _)) by (unfold BUF_SIZE; lia).
Qed.

Lemma plain_run ts c :
  Forall request_ok rs -> inv c -> exists c', exec (call_step next) ts (Done c) = Done c' /\ inv c'.
Proof.
  intros Hrs. apply calls_inv. intros s ls i [r l] l' s' [Hw Ht Hl] Hi Hn. simpl in *.
  assert (Hr : rs !! i = Some r) by (by rewrite <- Hw, list_lookup_fmap, Hi).
  pose proof (Forall_lookup_1 _ _ _ _ Hrs Hr) as Hok. pose proof (Forall_lookup_1 _ _ _ _ Hl Hi) as Hlo.
  assert (exists l2, l' = Call r l2 /\ loc_ok l' /\ in_order s') as (l2 & -> & Hlo' & Ht').
  { destruct r as [len pos room|bs pos fault]; [by eapply read_turn_ok|].
    eapply write_turn_ok; try done. by eapply list_elem_of_lookup_2. }
  split; simpl; [by eapply kept_insert | done | by apply Forall_insert].
Qed.

Lemma plain_start : chrdev_ok s0 -> inv (start s0 rs).
Proof.
  intros Hs. split; simpl.
  - rewrite <- list_fmap_compose. apply list_fmap_id.
  - split; [done|]. split; [|done]. by intros pos [Hp _].
  - apply Forall_forall. intros c (r & -> & _)%list_elem_of_fmap. by destruct r.
Qed.
End Inv.

(** *** The way out of the buffer *)

Definition reaches (c c' : conc) : Prop := exists ts, exec (call_step next) ts (Done c) = Done c'.

Lemma reaches_refl c : reaches c c.
Proof. by exists []. Qed.

Lemma reaches_step i s ls l l' s' c' :
  ls !! i = Some l -> next l s = Some (l', s') -> reaches (Conc s' (<[i := l']> ls)) c' -> reaches (Conc s ls) c'.
Proof.
  intros Hi Hn [ts Hts]. exists (i :: ts). unfold exec, call_step in *. simpl in *. by rewrite Hi, Hn.
Qed.

Lemma reaches_trans c1 c2 c3 : reaches c1 c2 -> reaches c2 c3 -> reaches c1 c3.
Proof. intros [t1 H1] [t2 H2]. exists (t1 ++ t2). by rewrite exec_app, H1. Qed.

(** A write runs to its end next to a call [r]. *)
Lemma write_through r bs pos k s :
  zlen (buffer s) = BUF_SIZE -> vfs_ok pos (zlen bs) -> pos < BUF_SIZE -> 0 <= k <= fits bs pos ->
  exists d l, zlen d = BUF_SIZE /\
    reaches (Conc s [r; Call (Write bs pos false) (Fill k)]) (Conc (ChrDev d (pos + fits bs pos)) [r; l]).
Proof.
  intros Hb Hv Hpos Hk. pose proof Hv as [Hp Hl]. pose proof (fits_ok bs pos Hv Hpos) as Hf.
  remember (Z.to_nat (fits bs pos - k)) as n eqn:Hn. revert s k Hb Hk Hn.
  induction n as [|n IH]; intros s k Hb Hk Hn.
  - exists (buffer s), (Call (Write bs pos false) (Return (fits bs pos) (pos + fits bs pos) [])). split; [done|].
    eapply (reaches_step 1); [done | unfold next; simpl; by rewrite (proj2 (Z.ltb_ge _ _)) by lia|].
    eapply (reaches_step 1); [done | unfold next; simpl; reflexivity|]. simpl.
    rewrite u64_small by (unfold BUF_SIZE in *; lia). apply reaches_refl.
  - destruct (zget_in bs k) as [x Hx]; [lia|].
    destruct (IH (ChrDev (<[Z.to_nat (pos + k) := x]> (buffer s)) (buffer_size s)) (k + 1)) as (d & l & Hd & Hr);
      [simpl; by rewrite zlen_insert | lia | lia |].
    exists d, l. split; [done|]. eapply (reaches_step 1); [done| |exact Hr].
    unfold next. simpl. rewrite (proj2 (Z.ltb_lt _ _)), Hx by lia. simpl. by rewrite zset_in by lia.
Qed.

(** A read whose bytes go past the end copies up to the end, and then on. *)
Lemma copy_out_of_bounds len pos room n out s l :
  zlen (buffer s) = BUF_SIZE -> 0 <= pos -> n <= room -> BUF_SIZE < pos + n -> pos + zlen out <= BUF_SIZE ->
  reaches (Conc s [Call (Read len pos room) (CopyOut n out); l]) (Conc s [Call (Read len pos room) Wild; l]).
Proof.
  intros Hb Hp Hn Hl Ho. pose proof (zlen_nonneg out) as Hz. remember (Z.to_nat (BUF_SIZE - pos - zlen out)) as k eqn:Hk.
  revert out Ho Hz Hk. induction k as [|k IH]; intros out Ho Hz Hk.
  - eapply (reaches_step 0); [done| |apply reaches_refl]. unfold next. simpl.
    rewrite (proj2 (Z.ltb_lt _ _)) by lia. destruct (zget (buffer s) (pos + zlen out)) eqn:E; [|done].
    apply zget_Some in E. lia.
  - destruct (zget_in (buffer s) (pos + zlen out)) as [x Hx]; [lia|].
    eapply (reaches_step 0); [done | unfold next; simpl; rewrite (proj2 (Z.ltb_lt _ _)), Hx by lia; reflexivity|].
    simpl. apply IH; rewrite ?zlen_app; change (zlen [x]) with 1; lia.
Qed.

(** A write that ends before [pos], between the two loads of the size. *)
Lemma read_leaves_buffer s len pos room bs wpos :
  chrdev_ok s -> vfs_ok pos len -> vfs_ok wpos (zlen bs) -> wpos + zlen bs < pos -> pos < buffer_size s ->
  BUF_SIZE < pos + len -> len <= room ->
  exists s' l, reaches (start s [Read len pos room; Write bs wpos false])
    (Conc s' [Call (Read len pos room) Wild; l]).
Proof.
  intros [Hb Hz] [Hp Hl] Hv Hw Hsize Hlong Hroom. pose proof Hv as [Hwp Hwl]. unfold start. simpl.
  assert (Hpos : wpos < BUF_SIZE) by lia. pose proof (fits_ok bs wpos Hv Hpos) as Hf. pose proof (zlen_nonneg bs).
  destruct (write_through (Call (Read len pos room) Subtract) bs wpos 0 s Hb Hv Hpos ltac:(lia)) as (d & l & Hd & Hr).
  exists (ChrDev d (wpos + fits bs wpos)), l.
  eapply (reaches_step 0); [done | unfold next; simpl; by rewrite u64_small, (proj2 (Z.leb_gt _ _)) by lia|].
  eapply (reaches_step 1); [done | unfold next; simpl; by rewrite (proj2 (Z.leb_gt _ _)) by lia|].
  eapply reaches_trans; [exact Hr|].
  eapply (reaches_step 0); [done | unfold next; simpl; reflexivity|]. simpl.
  assert (Hu : u64 (wpos + fits bs wpos - pos) = 2 ^ 64 + (wpos + fits bs wpos - pos)).
  { unfold u64, uwrap. rewrite <- (Z_mod_plus_full _ 1), Z.mod_small; unfold BUF_SIZE in *; lia. }
  rewrite Hu, (proj2 (Z.ltb_ge _ _)) by (unfold MAX_RW_COUNT, BUF_SIZE in *; lia).
  apply copy_out_of_bounds; try done; change (zlen (@nil byte)) with 0; lia.
Qed.

(** C13. Reads and writes of the skeleton overlap in any order, byte by byte.
    As long as each read ends within the buffer, or starts where no write that
    is under way ends before it, no access leaves the buffer, the size stays
    within it, a read reports as many bytes as it handed out, at most what was
    asked for, and while nobody writes they are the contents from its position
    on. But a long read at a position in use meets a write that ends before
    that position: some interleaving takes the read out of the buffer, because
    the size is loaded a second time after the comparison. *)
Theorem skeleton_overlap (s : chrdev) (Hs : chrdev_ok s) :
  (forall rs ts, Forall (request_ok s rs) rs ->
     exists c, exec (call_step next) ts (Done (start s rs)) = Done c /\ chrdev_ok (shared c) /\
       forall i l, calls c !! i = Some l -> at_ l <> Wild /\
         forall r p out, at_ l = Return r p out -> 0 <= r ->
           match what l with
           | Read len pos _ => r = zlen out /\ r <= len /\ p = pos + r /\
               (reads_only rs -> out = sub pos r (buffer s) /\ r = Z.min len (Z.max 0 (buffer_size s - pos)))
           | Write bs pos _ => r = fits bs pos /\ p = pos + r
           end) /\
  (forall len pos room bs wpos, vfs_ok pos len -> vfs_ok wpos (zlen bs) -> wpos + zlen bs < pos ->
     pos < buffer_size s -> BUF_SIZE < pos + len -> len <= room ->
     exists ts s' l, exec (call_step next) ts (Done (start s [Read len pos room; Write bs wpos false])) =
       Done (Conc s' [Call (Read len pos room) Wild; l])).
Proof.
  split.
  - intros rs ts Hrs. destruct (plain_run s rs ts _ Hrs (plain_start s rs Hs)) as (c & Hc & [Hw (Hok & _) Hl]).
    exists c. do 2 (split; [done|]). intros i [r l] Hi. pose proof (Forall_lookup_1 _ _ _ _ Hl Hi) as Hlo.
    unfold loc_ok in Hlo. simpl in *. split; [intros ->; by destruct r|]. intros n p out -> Hn.
    destruct r as [len pos room|bs pos fault].
    + destruct Hlo as [Hc' [[? _]|(-> & ? & -> & Ha)]]; [lia|]. split_and!; try done.
      intros Hro. split; [by apply Hc' | by apply Ha].
    + by destruct Hlo as [_ [[? _]|[-> ->]]]; [lia|].
  - intros len pos room bs wpos Hv Hwv Hw Hsz Hlong Hroom.
    destruct (read_leaves_buffer s len pos room bs wpos) as (s' & l & ts & E); try done. by exists ts, s', l.
Qed.

Definition skeleton_text : chrdev := ChrDev (upd 0 (bytes_of "abcd") (replicate (Z.to_nat BUF_SIZE) NUL)) 4.

(** Four bytes are in use; a long read at position 3, a write of one byte at
    the start. *)
Lemma skeleton_overlap_witness :
  exists ts s' l, exec (call_step next) ts (Done (start skeleton_text [Read 4096 3 4096; Write [Byte.x61] 0 false])) =
    Done (Conc s' [Call (Read 4096 3 4096) Wild; l]).
Proof.
  apply (proj2 (skeleton_overlap skeleton_text ltac:(split; [reflexivity | vm_compute; split; discriminate]))).
  1, 2: unfold vfs_ok, MAX_RW_COUNT, zlen; simpl; lia.
  all: unfold zlen, BUF_SIZE; simpl; lia.
Defined.
End SkeletonCalls.

(** ** 001_driver_misc/misc.c *)
Module MiscCalls.

(** [allowed] is the answer of access_ok. A read: [give n] is what
    simple_read_from_buffer returns when it is offered [n] bytes. A write
    stores [bs], as many bytes as the caller passed, the ones copy_from_user
    could not read zeroed; [fault] says there were such bytes. *)
Inductive request :=
  | Read (len pos : Z) (allowed : bool) (give : Z -> Z)
  | Write (bs : list byte) (allowed fault : bool).

(** A read in strlen, copying [r] bytes; a write copying, at the terminator. *)
Inductive loc :=
  | Begin | Scan (n : Z) | CopyOut (r : Z) (out : list byte)
  | Fill (k : Z) | Terminate
  | Return (r : Z) (out : list byte) | Wild.

Record call := Call { what : request; at_ : loc }.

Definition next (c : call) (s : list byte) : option (call * list byte) :=
  let go l s := Some (Call (what c) l, s) in
  match what c, at_ c with
  | Read _ _ allowed _, Begin => go (if allowed then Scan 0 else Return (- EFAULT) []) s
  | Read _ _ _ give, Scan n =>
      match zget s n with
      | Some b => go (if bool_decide (b = NUL) then CopyOut (give n) [] else Scan (n + 1)) s
      | None => go Wild s
      end
  | Read _ pos _ _, CopyOut r out =>
      if zlen out <? r then
        match zget s (pos + zlen out) with
        | Some b => go (CopyOut r (out ++ [b])) s
        | None => go Wild s
        end
      else go (Return r out) s
  | Write bs allowed _, Begin =>
      go (if 256 - 1 <? zlen bs then Return (- EINVAL) []
          else if allowed then Fill 0 else Return (- EFAULT) []) s
  | Write bs _ fault, Fill k =>
      match zget bs k with
      | Some b => match zset s k b with Some d => go (Fill (k + 1)) d | None => go Wild s end
      | None => go (if fault then Return (- EFAULT) [] else Terminate) s
      end
  | Write bs _ _, Terminate =>
      match zset s (zlen bs) NUL with Some d => go (Return (zlen bs) []) d | None => go Wild s end
  | _, _ => None
  end.

Definition start (s : list byte) (rs : list request) : conc := Conc s ((fun r => Call r Begin) <$> rs).

Definition request_ok (r : request) : Prop :=
  match r with
  | Read len pos _ give =>
      0 <= pos /\ 0 <= len /\
      forall n, 0 <= n <= 255 -> give n < 0 \/ 0 <= give n <= len /\ (give n = 0 \/ pos + give n <= n)
  | Write _ _ _ => True
  end.

(** *** Every interleaving *)
Section Inv.
Context (s0 : list byte) (rs : list request).

Definition reads_only : Prop := Forall (fun r => match r with Read _ _ _ _ => True | _ => False end) rs.
Definition copied (pos : Z) (out : list byte) : Prop := reads_only -> out = sub pos (zlen out) s0.

Definition loc_ok (c : call) : Prop :=
  match what c, at_ c with
  | _, Begin => True
  | Read _ _ _ _, Scan n => 0 <= n <= 255
  | Read len pos _ _, CopyOut r out =>
      copied pos out /\ (out = [] /\ r <= 0 \/ zlen out <= r <= len /\ pos + r <= 255)
  | Read len pos _ _, Return r out => copied pos out /\ (r < 0 \/ r = zlen out /\ r <= len)
  | Write bs _ _, Fill k => zlen bs <= 255 /\ 0 <= k <= zlen bs
  | Write bs _ _, Terminate => zlen bs <= 255
  | Write bs _ _, Return r out => out = [] /\ (r < 0 \/ r = zlen bs)
  | _, _ => False
  end.

Definition in_order (s : list byte) : Prop := Misc.misc_ok s /\ (reads_only -> s = s0).

Record inv (c : conc) : Prop := {
  i_what : what <$> calls c = rs;
  i_state : in_order (shared c);
  i_loc : Forall loc_ok (calls c);
}.

(** Storing a byte below the last one, or a terminator. *)
Lemma misc_store s k x :
  Misc.misc_ok s -> 0 <= k <= 255 -> (k = 255 -> x = NUL) ->
  exists d, zset s k x = Some d /\ Misc.misc_ok d.
Proof.
  intros [Hl He] Hk Hx. unfold Misc.sizeof_buffer in Hl. exists (<[Z.to_nat k := x]> s). rewrite zset_in by lia. split; [done|]. split.
  - by rewrite zlen_insert.
  - rewrite zget_insert by lia. case_decide as E; [by rewrite Hx|done].
Qed.

Lemma misc_read_turn len pos allowed give l s c' s' :
  request_ok (Read len pos allowed give) -> in_order s -> loc_ok (Call (Read len pos allowed give) l) ->
  next (Call (Read len pos allowed give) l) s = Some (c', s') ->
  exists l', c' = Call (Read len pos allowed give) l' /\ loc_ok c' /\ in_order s'.
Proof.
  intros (Hp & Hlen & Hg) Hs Hl Hn. pose proof Hs as ([Hz He] & Hq). unfold next, loc_ok, Misc.sizeof_buffer in *. simpl in *.
  assert (Hnil : copied pos []) by (by intros _).
  destruct l as [|n|r out|k| |r out|]; try done.
  - injection Hn as <- <-. eexists. split; [done|]. split; [|done]. simpl. destruct allowed; [lia | by split; [|left]].
  - destruct (zget_in s n) as [x Hx]; [lia|]. rewrite Hx in Hn. injection Hn as <- <-. eexists. split; [done|].
    split; [|done]. simpl. case_bool_decide as E.
    + split; [done|]. change (zlen (@nil byte)) with 0.
      destruct (Hg n Hl) as [?|[? [?|?]]]; [left; split; [done|lia] | left; split; [done|lia] | right; lia].
    + assert (n <> 255) by (intros ->; congruence). lia.
  - destruct Hl as [Hc Hr]. pose proof (zlen_nonneg out). destruct (Z.ltb_spec (zlen out) r).
    + destruct Hr as [[-> ?]|[? ?]]; [change (zlen (@nil byte)) with 0 in *; lia|].
      destruct (zget_in s (pos + zlen out)) as [x Hx]; [lia|]. rewrite Hx in Hn. injection Hn as <- <-.
      eexists. split; [done|]. split; [|done]. simpl. rewrite zlen_app. change (zlen [x]) with 1.
      split; [|right; lia]. intros Hro. rewrite zlen_app. change (zlen [x]) with 1.
      rewrite (sub_next _ _ _ x), <- (Hc Hro); [done | lia | lia |]. by rewrite <- (Hq Hro).
    + injection Hn as <- <-. eexists. split; [done|]. split; [|done]. simpl. split; [done|].
      destruct Hr as [[-> ?]|[? ?]]; [change (zlen (@nil byte)) with 0|]; lia.
Qed.

Lemma misc_write_turn bs allowed fault l s c' s' :
  Write bs allowed fault ∈ rs -> in_order s -> loc_ok (Call (Write bs allowed fault) l) ->
  next (Call (Write bs allowed fault) l) s = Some (c', s') ->
  exists l', c' = Call (Write bs allowed fault) l' /\ loc_ok c' /\ in_order s'.
Proof.
  intros Hin Hs Hl Hn. pose proof Hs as (Hok & _). unfold next, loc_ok in *. simpl in *. pose proof (zlen_nonneg bs).
  assert (Hno : ~ reads_only) by (intros Hro; by apply (proj1 (Forall_forall _ _) Hro _ Hin)).
  destruct l as [|n|r out|k| |r out|]; try done.
  - injection Hn as <- <-. eexists. split; [done|]. split; [|done]. simpl.
    change (256 - 1) with 255. destruct (Z.ltb_spec 255 (zlen bs)); [by split; [|left]|]. destruct allowed; [lia | by split; [|left]].
  - destruct Hl as [Hb Hk]. destruct (zget bs k) as [x|] eqn:Hx.
    + pose proof (zget_Some _ _ _ Hx). destruct (misc_store s k x Hok) as (d & Hd & Hok'); [lia | lia |].
      rewrite Hd in Hn. injection Hn as <- <-. eexists. split; [done|]. split; [simpl; lia | by split].
    + injection Hn as <- <-. eexists. split; [done|]. split; [|done]. simpl. destruct fault; [by split; [|left] | done].
  - destruct (misc_store s (zlen bs) NUL Hok) as (d & Hd & Hok'); [lia | done |].
    rewrite Hd in Hn. injection Hn as <- <-. eexists. split; [done|]. split; [by split; [|right] | by split].
Qed.

Lemma misc_run ts c :
  Forall request_ok rs -> inv c -> exists c', exec (call_step next) ts (Done c) = Done c' /\ inv c'.
Proof.
  intros Hrs. apply calls_inv. intros s ls i [r l] l' s' [Hw Ht Hl] Hi Hn. simpl in *.
  assert (Hr : rs !! i = Some r) by (by rewrite <- Hw, list_lookup_fmap, Hi).
  pose proof (Forall_lookup_1 _ _ _ _ Hrs Hr) as Hok. pose proof (Forall_lookup_1 _ _ _ _ Hl Hi) as Hlo.
  assert (exists l2, l' = Call r l2 /\ loc_ok l' /\ in_order s') as (l2 & -> & Hlo' & Ht').
  { destruct r; [by eapply misc_read_turn|]. eapply misc_write_turn; try done. by eapply list_elem_of_lookup_2. }
  split; simpl; [by eapply kept_insert | done | by apply Forall_insert].
Qed.

Lemma misc_start : Misc.misc_ok s0 -> inv (start s0 rs).
Proof.
  intros Hs. split; simpl; [rewrite <- list_fmap_compose; apply list_fmap_id | by split |].
  apply Forall_forall. intros c (r & -> & _)%list_elem_of_fmap. by destruct r.
Qed.
End Inv.

(** Reads and writes of the misc device overlap in any order, byte by byte,
    without an access outside the buffer, which keeps its last terminator; a
    read reports as many bytes as it handed out, at most what was asked for,
    and while nobody writes they are the bytes of the buffer. *)
Theorem misc_overlap (s : list byte) (rs : list request) (ts : list nat)
    (Hs : Misc.misc_ok s) (Hrs : Forall request_ok rs) :
  exists c, exec (call_step next) ts (Done (start s rs)) = Done c /\ Misc.misc_ok (shared c) /\
    forall i l, calls c !! i = Some l -> at_ l <> Wild /\
      forall r out, at_ l = Return r out -> 0 <= r ->
        match what l with
        | Read len pos _ _ => r = zlen out /\ r <= len /\ (reads_only rs -> out = sub pos r s)
        | Write bs _ _ => r = zlen bs
        end.
Proof.
  destruct (misc_run s rs ts _ Hrs (misc_start s rs Hs)) as (c & Hc & [Hw (Hok & _) Hl]).
  exists c. do 2 (split; [done|]). intros i [r l] Hi. pose proof (Forall_lookup_1 _ _ _ _ Hl Hi) as Hlo.
  unfold loc_ok in Hlo. simpl in *. split; [intros ->; by destruct r|]. intros n out -> Hn.
  destruct r as [len pos allowed give|bs allowed fault].
  - destruct Hlo as [Hc' [?|[-> ?]]]; [lia|]. by split_and!.
  - by destruct Hlo as [_ [?| ->]]; [lia|].
Qed.
End MiscCalls.
