(* ===== verification/Platform.v ===== *)
(** * The platform bus: 015_platform_driver_demo

    A driver and a device of one name, registered by two modules in any order.
    The core of the bus is an interface: it answers a registration and says
    whether it calls the probe or the remove function of the driver. The two
    modules, plt_drv.c and plt_dvc.c, are run through any history of loads and
    unloads. *)

From S2P Require Import Prelude Kernel Wp.

(** ** The core: registration, and the callback it makes *)

Class PlatformCore (W : Type) := {
  k_driver_register : string -> W -> Z * bool * W;
  k_driver_unregister : string -> W -> bool * W;
  k_device_register : string -> W -> Z * bool * W;
  k_device_unregister : string -> W -> bool * W;
  k_probe_done : string -> Z -> W -> W;       (** what the probe returned *)
}.

(** The names registered, and the devices bound to their driver. *)
Class PlatformView (W : Type) := {
  drivers : W -> gset string;
  devices : W -> gset string;
  bound : W -> gset string;
}.

(** A registration that fails changes nothing. One that succeeds probes a
    device and a driver of one name that are not bound yet; an unregistration
    removes what is bound. A device is bound when its probe returns 0. *)
Class PlatformCoreOk (W : Type) `{PlatformCore W} `{PlatformView W} : Prop := {
  driver_register_ok name w rc p w' :
    k_driver_register name w = (rc, p, w') ->
    rc <= 0 /\ devices w' = devices w /\ bound w' = bound w /\
    drivers w' = (if rc =? 0 then {[ name ]} ∪ drivers w else drivers w) /\
    p = (rc =? 0) && bool_decide (name ∈ devices w) && negb (bool_decide (name ∈ bound w));
  driver_unregister_ok name w p w' :
    k_driver_unregister name w = (p, w') ->
    devices w' = devices w /\ drivers w' = drivers w ∖ {[ name ]} /\
    bound w' = bound w ∖ {[ name ]} /\ p = bool_decide (name ∈ bound w);
  device_register_ok name w rc p w' :
    k_device_register name w = (rc, p, w') ->
    rc <= 0 /\ drivers w' = drivers w /\ bound w' = bound w /\
    devices w' = (if rc =? 0 then {[ name ]} ∪ devices w else devices w) /\
    p = (rc =? 0) && bool_decide (name ∈ drivers w) && negb (bool_decide (name ∈ bound w));
  device_unregister_ok name w p w' :
    k_device_unregister name w = (p, w') ->
    drivers w' = drivers w /\ devices w' = devices w ∖ {[ name ]} /\
    bound w' = bound w ∖ {[ name ]} /\ p = bool_decide (name ∈ bound w);
  probe_done_ok name r w :
    drivers (k_probe_done name r w) = drivers w /\ devices (k_probe_done name r w) = devices w /\
    bound (k_probe_done name r w) = (if r =? 0 then {[ name ]} ∪ bound w else bound w);
}.

Lemma mem_added (x : string) (X : gset string) : bool_decide (x ∈ {[ x ]} ∪ X) = true.
Proof. apply bool_decide_eq_true. set_solver. Qed.
Lemma mem_removed (x : string) (X : gset string) : bool_decide (x ∈ X ∖ {[ x ]}) = false.
Proof. apply bool_decide_eq_false. set_solver. Qed.

Section Registration.
Context {W D : Type} `{PlatformCore W}.

(** [probe] and [remove] are those of the driver registered under [name]. *)
Definition when_probed (name : string) (probe : M W D Z) (p : bool) : M W D unit :=
  if p then r ← probe; call (fun w => (tt, k_probe_done name r w)) else mret tt.

Definition platform_driver_register (name : string) (probe : M W D Z) : M W D Z :=
  '(rc, p) ← call (k_driver_register name);
  when_probed name probe p;; mret rc.

Definition platform_device_register (name : string) (probe : M W D Z) : M W D Z :=
  '(rc, p) ← call (k_device_register name);
  when_probed name probe p;; mret rc.

Definition platform_driver_unregister (name : string) (remove : M W D Z) : M W D unit :=
  p ← call (k_driver_unregister name);
  if (p : bool) then remove;; mret tt else mret tt.

Definition platform_device_unregister (name : string) (remove : M W D Z) : M W D unit :=
  p ← call (k_device_unregister name);
  if (p : bool) then remove;; mret tt else mret tt.
End Registration.

(** ** 015_platform_driver_demo/plt_drv.c and plt_dvc.c *)
Module Demo.

Definition name : string := "myplatformdev".

Inductive line :=
  | DriverLoaded | DriverUnloaded | Registering | Unregistering | Probed | Removed.

(** The messages, and which of the two modules is loaded. *)
Record sys := Sys { dmesg : list line; drv_loaded : bool; dvc_loaded : bool }.

Section Modules.
Context {W : Type} `{PlatformCore W}.
Local Abbreviation P := (M W sys).

Definition printk (l : line) : P unit :=
  modify (fun s => Sys (dmesg s ++ [l]) (drv_loaded s) (dvc_loaded s)).

Definition my_probe : P Z := printk Probed;; mret 0.
Definition my_remove : P Z := printk Removed;; mret 0.

Definition pdrv_init : P Z := printk DriverLoaded;; platform_driver_register name my_probe.
Definition pdrv_exit : P unit := platform_driver_unregister name my_remove;; printk DriverUnloaded.

Definition pdev_init : P Z := printk Registering;; platform_device_register name my_probe.
Definition pdev_exit : P unit := printk Unregistering;; platform_device_unregister name my_remove.

(** ** Histories of loads and unloads *)

(** A module whose init function fails is not loaded, one that is not loaded
    cannot be unloaded, and none is loaded twice. *)
Inductive event := LoadDriver | UnloadDriver | LoadDevice | UnloadDevice.

Definition run_event (e : event) : P unit :=
  s ← get;
  match e with
  | LoadDriver =>
      if drv_loaded s then mret tt
      else rc ← pdrv_init; modify (fun s => Sys (dmesg s) (rc =? 0) (dvc_loaded s))
  | UnloadDriver =>
      if drv_loaded s then pdrv_exit;; modify (fun s => Sys (dmesg s) false (dvc_loaded s))
      else mret tt
  | LoadDevice =>
      if dvc_loaded s then mret tt
      else rc ← pdev_init; modify (fun s => Sys (dmesg s) (drv_loaded s) (rc =? 0))
  | UnloadDevice =>
      if dvc_loaded s then pdev_exit;; modify (fun s => Sys (dmesg s) (drv_loaded s) false)
      else mret tt
  end.

Fixpoint run_events (es : list event) : P unit :=
  match es with [] => mret tt | e :: es => run_event e;; run_events es end.
End Modules.

(** Probes and removes alternate: whether the device is bound after the
    messages, [None] when one came out of turn. *)
Definition follow (b : option bool) (l : line) : option bool :=
  match l, b with
  | Probed, Some false => Some true
  | Removed, Some true => Some false
  | (Probed | Removed), _ => None
  | _, _ => b
  end.
Definition binding (ls : list line) : option bool := foldl follow (Some false) ls.

Lemma binding_app ls l : binding (ls ++ [l]) = follow (binding ls) l.
Proof. unfold binding. by rewrite foldl_app. Qed.

Section Props.
Context {W : Type} `{PlatformCoreOk W}.

(** Registered exactly when loaded, bound exactly when both are, and so say
    the messages. *)
Record inv (σ : kst W sys) : Prop := {
  i_drv : bool_decide (name ∈ drivers (world σ)) = drv_loaded (drv σ);
  i_dvc : bool_decide (name ∈ devices (world σ)) = dvc_loaded (drv σ);
  i_bound : bool_decide (name ∈ bound (world σ)) = drv_loaded (drv σ) && dvc_loaded (drv σ);
  i_log : binding (dmesg (drv σ)) = Some (drv_loaded (drv σ) && dvc_loaded (drv σ));
  i_held : held σ = [];
  i_ledger : ledger σ = [];
}.

(** What a callback of the core does to the log and the binding. *)
Lemma probed_inv p log a b (w : W) Q :
  binding log = Some false ->
  (forall log' w', binding log' = Some p -> drivers w' = drivers w -> devices w' = devices w ->
     bound w' = (if p then {[ name ]} ∪ bound w else bound w) -> Q tt (KSt (Sys log' a b) w' [] [])) ->
  wp (when_probed name my_probe p) Q (KSt (Sys log a b) w [] []).
Proof.
  intros Hlog HQ. unfold when_probed. destruct p; [|wp_auto; by apply HQ].
  unfold my_probe, printk. do 4 wp_step. apply wp_call. intros [] w' [= <-].
  destruct (probe_done_ok name 0 w) as (Hd & Hv & Hb). apply HQ; try done.
  simpl. by rewrite binding_app, Hlog.
Qed.

Lemma removed_inv (p : bool) log a b (w : W) Q :
  binding log = Some p ->
  (forall log', binding log' = Some false -> Q tt (KSt (Sys log' a b) w [] [])) ->
  wp (if p then my_remove;; mret tt else mret tt) Q (KSt (Sys log a b) w [] []).
Proof.
  intros Hlog HQ. destruct p; [|wp_auto; by apply HQ].
  unfold my_remove, printk. wp_auto. apply HQ. simpl. by rewrite binding_app, Hlog.
Qed.

Lemma load_driver_inv (σ : kst W sys) :
  inv σ -> drv_loaded (drv σ) = false ->
  wp (rc ← pdrv_init; modify (fun s => Sys (dmesg s) (rc =? 0) (dvc_loaded s))) (fun _ => inv) σ.
Proof.
  destruct σ as [[log a b] w h l]. intros [E1 E2 E3 E4 Eh El]. simpl in *. intros ->. subst h l.
  unfold pdrv_init, platform_driver_register, printk. do 4 wp_step. apply wp_call. intros [rc p] w' E.
  apply driver_register_ok in E as (_ & Hd & Hb & Hdr & ->). wp_red. simpl in *.
  rewrite E2, E3, andb_true_r. apply wp_bind, probed_inv; [by rewrite binding_app, E4|].
  intros log' w2 Hl Hdr2 Hd2 Hb2. wp_auto. simpl.
  destruct (rc =? 0); split; simpl; rewrite ?Hdr2, ?Hd2, ?Hb2, ?Hdr, ?Hd, ?Hb; auto using mem_added.
  all: destruct b; simpl; by rewrite ?mem_added.
Qed.

Lemma load_device_inv (σ : kst W sys) :
  inv σ -> dvc_loaded (drv σ) = false ->
  wp (rc ← pdev_init; modify (fun s => Sys (dmesg s) (drv_loaded s) (rc =? 0))) (fun _ => inv) σ.
Proof.
  destruct σ as [[log a b] w h l]. intros [E1 E2 E3 E4 Eh El]. simpl in *. intros ->. subst h l.
  rewrite andb_false_r in *.
  unfold pdev_init, platform_device_register, printk. do 4 wp_step. apply wp_call. intros [rc p] w' E.
  apply device_register_ok in E as (_ & Hd & Hb & Hdr & ->). wp_red. simpl in *.
  rewrite E1, E3, andb_true_r. apply wp_bind, probed_inv; [by rewrite binding_app, E4|].
  intros log' w2 Hl Hdr2 Hd2 Hb2. wp_auto. simpl.
  destruct (rc =? 0), a; split; simpl; rewrite ?Hdr2, ?Hd2, ?Hb2, ?Hdr, ?Hd, ?Hb; simpl; rewrite ?mem_added; auto.
Qed.

Lemma unload_driver_inv (σ : kst W sys) :
  inv σ -> drv_loaded (drv σ) = true ->
  wp (pdrv_exit;; modify (fun s => Sys (dmesg s) false (dvc_loaded s))) (fun _ => inv) σ.
Proof.
  destruct σ as [[log a b] w h l]. intros [E1 E2 E3 E4 Eh El]. simpl in *. intros ->. subst h l.
  unfold pdrv_exit, platform_driver_unregister, printk. do 3 apply wp_bind. apply wp_call.
  intros p w' E. apply driver_unregister_ok in E as (Hd & Hdr & Hb & ->). wp_red. simpl in *.
  rewrite E3. apply removed_inv; [done|]. intros log' Hl. wp_auto.
  split; simpl; rewrite ?Hdr, ?Hd, ?Hb; auto using mem_removed. by rewrite binding_app, Hl.
Qed.

Lemma unload_device_inv (σ : kst W sys) :
  inv σ -> dvc_loaded (drv σ) = true ->
  wp (pdev_exit;; modify (fun s => Sys (dmesg s) (drv_loaded s) false)) (fun _ => inv) σ.
Proof.
  destruct σ as [[log a b] w h l]. intros [E1 E2 E3 E4 Eh El]. simpl in *. intros ->. subst h l.
  rewrite andb_true_r in *.
  unfold pdev_exit, platform_device_unregister, printk. do 4 wp_step. apply wp_call.
  intros p w' E. apply device_unregister_ok in E as (Hdr & Hd & Hb & ->). wp_red. simpl in *.
  rewrite E3. apply removed_inv; [by rewrite binding_app, E4|]. intros log' Hl. wp_auto.
  split; simpl; rewrite ?Hdr, ?Hd, ?Hb, ?andb_false_r; auto using mem_removed.
Qed.

Lemma run_event_inv e σ : inv σ -> wp (run_event e) (fun _ => inv) σ.
Proof.
  intros Hinv. unfold run_event. apply wp_bind, wp_get.
  destruct e; [destruct (drv_loaded (drv σ)) eqn:E | destruct (drv_loaded (drv σ)) eqn:E
              | destruct (dvc_loaded (drv σ)) eqn:E | destruct (dvc_loaded (drv σ)) eqn:E].
  all: first [by apply wp_ret | by apply load_driver_inv | by apply unload_driver_inv
             | by apply load_device_inv | by apply unload_device_inv].
Qed.

(** C33. After any history of loading and unloading the two modules, in any
    order and with registrations failing, the device is bound exactly when
    both are loaded; the driver's probe and remove have been called strictly
    in turn, starting with a probe, and the last call was a probe exactly
    when the device is bound. *)
Theorem probe_remove_alternate (es : list event) (w : W)
    (Hd : name ∉ drivers w) (Hv : name ∉ devices w) (Hb : name ∉ bound w) :
  wp (run_events es)
     (fun _ σ => let both := drv_loaded (drv σ) && dvc_loaded (drv σ) in
        bool_decide (name ∈ bound (world σ)) = both /\
        binding (dmesg (drv σ)) = Some both /\ held σ = [] /\ ledger σ = [])
     (KSt (Sys [] false false) w [] []).
Proof.
  assert (Hrun : forall σ, inv σ -> wp (run_events es) (fun _ => inv) σ).
  { induction es as [|e es' IH]; intros σ Hσ; simpl; [by apply wp_ret|].
    apply wp_bind. eapply wp_mono; [by apply run_event_inv|]. intros [] σ' Hσ'. by apply IH. }
  eapply wp_mono; [apply Hrun; split; simpl; try done; by apply bool_decide_eq_false|].
  intros [] σ [E1 E2 E3 E4 E5 E6]. by split_and!.
Qed.
End Props.

(** ** A concrete core *)

Record bus := Bus { b_drivers : gset string; b_devices : gset string; b_bound : gset string }.

Definition both_there (name : string) (X : gset string) (w : bus) : bool :=
  bool_decide (name ∈ X) && negb (bool_decide (name ∈ b_bound w)).

#[export] Instance bus_core : PlatformCore bus := {
  k_driver_register n w :=
    (0, both_there n (b_devices w) w, Bus ({[ n ]} ∪ b_drivers w) (b_devices w) (b_bound w));
  k_driver_unregister n w :=
    (bool_decide (n ∈ b_bound w), Bus (b_drivers w ∖ {[ n ]}) (b_devices w) (b_bound w ∖ {[ n ]}));
  k_device_register n w :=
    (0, both_there n (b_drivers w) w, Bus (b_drivers w) ({[ n ]} ∪ b_devices w) (b_bound w));
  k_device_unregister n w :=
    (bool_decide (n ∈ b_bound w), Bus (b_drivers w) (b_devices w ∖ {[ n ]}) (b_bound w ∖ {[ n ]}));
  k_probe_done n r w :=
    Bus (b_drivers w) (b_devices w) (if r =? 0 then {[ n ]} ∪ b_bound w else b_bound w);
}.

#[export] Instance bus_view : PlatformView bus :=
  { drivers := b_drivers; devices := b_devices; bound := b_bound }.

#[export] Instance bus_core_ok : PlatformCoreOk bus.
Proof.
  split; simpl.
  - intros n w rc p w' E. by injection E as <- <- <-.
  - intros n w p w' E. by injection E as <- <-.
  - intros n w rc p w' E. by injection E as <- <- <-.
  - intros n w p w' E. by injection E as <- <-.
  - done.
Qed.

(** The driver first, then the device; the driver is reloaded. *)
Definition reload : list event := [LoadDriver; LoadDevice; UnloadDriver; LoadDriver; UnloadDevice].

Lemma probe_remove_alternate_witness :
  wp (run_events reload)
     (fun _ σ => binding (dmesg (drv σ)) = Some (drv_loaded (drv σ) && dvc_loaded (drv σ)))
     (KSt (Sys [] false false) (Bus ∅ ∅ ∅) [] []).
Proof.
  eapply wp_mono; [apply (probe_remove_alternate reload (Bus ∅ ∅ ∅)); apply not_elem_of_empty|].
  intros _ σ (_ & Hl & _). exact Hl.
Defined.

Example reload_log :
  exists σ, run_events reload (KSt (Sys [] false false) (Bus ∅ ∅ ∅) [] []) = Done (tt, σ) /\
    dmesg (drv σ) = [DriverLoaded; Registering; Probed; Removed; DriverUnloaded; DriverLoaded;
                     Probed; Unregistering; Removed].
Proof. eexists. vm_compute. split; reflexivity. Qed.
End Demo.

(** ** 016_platform_sensor_data/sensor_pltdvc.c

    The result of the registration is dropped. *)
Section SensorDevice.
Context {W D : Type} `{PlatformCore W} (probe remove : M W D Z).

Definition sensor_dvc_init : M W D Z := platform_device_register "sensor_driver" probe;; mret 0.
Definition sensor_dvc_exit : M W D unit := platform_device_unregister "sensor_driver" remove.
End SensorDevice.

(** A registration that is refused still leaves the module loaded. *)
Lemma sensor_dvc_init_ignores {W D} `{PlatformCoreOk W} (probe : M W D Z) (d : D) (w w' : W) rc :
  k_device_register "sensor_driver" w = (rc, false, w') ->
  sensor_dvc_init probe (KSt d w [] []) = Done (0, KSt d w' [] []).
Proof.
  intros E. unfold sensor_dvc_init, platform_device_register, call, mbind, M_bind. simpl.
  by rewrite E.
Qed.
