(* ===== verification/Power.v ===== *)
(** * 020_power_management: the driver and its user program

    power_mgmt_kernel.c keeps one flag for its [state] attribute. The system
    sleep callbacks set it; a write to the attribute asks the runtime power
    management for the device instead, whose callbacks do nothing. The counters
    of the power management core are an interface; power_mgmt_user.c runs on
    top of the attribute. *)

From S2P Require Import Prelude Kernel Wp Sim Platform.

(** pm_runtime_get_sync, pm_runtime_put_sync: whether the core calls the
    resume or suspend callback of the driver; enable and disable. *)
Class RuntimePM (W : Type) := {
  k_pm_get_sync : W -> bool * W;
  k_pm_put_sync : W -> bool * W;
  k_pm_enable : W -> W;
  k_pm_disable : W -> W;
}.

(** The state is [device_state]. *)
Definition device_state0 : Z := 1.

Section Driver.
Context {W : Type} `{RuntimePM W} `{Grants W}.

Definition power_suspend : M W Z Z := modify (fun _ => 0);; mret 0.
Definition power_resume : M W Z Z := modify (fun _ => 1);; mret 0.
Definition power_runtime_suspend : M W Z Z := mret 0.
Definition power_runtime_resume : M W Z Z := mret 0.
Definition power_freeze : M W Z Z := mret 0.
Definition power_thaw : M W Z Z := mret 0.

Definition pm_runtime_put_sync : M W Z Z :=
  cb ← call k_pm_put_sync; if (cb : bool) then power_runtime_suspend else mret 0.
Definition pm_runtime_get_sync : M W Z Z :=
  cb ← call k_pm_get_sync; if (cb : bool) then power_runtime_resume else mret 0.

Definition state_text (device_state : Z) : list byte :=
  bytes_of "Device State: " ++
  bytes_of (if device_state =? 0 then "Suspended" else "Active") ++ [LF].

(** The result and the text left in the page. *)
Definition state_show : M W Z (Z * list byte) :=
  device_state ← get;
  let out := state_text device_state in mret (zlen out, out).

Definition state_store (buf : list byte) (count : Z) : M W Z Z :=
  c ← value OutOfBounds (zget buf 0);
  (if bool_decide (c = Byte.x30) then pm_runtime_put_sync
   else if bool_decide (c = Byte.x31) then pm_runtime_get_sync
   else mret 0);;
  mret count.

Definition power_probe : M W Z Z :=
  ret ← sysfs_create_group;
  if negb (ret =? 0) then mret ret
  else call (fun w => (tt, k_pm_enable w));; mret 0.

Definition power_remove : M W Z Z :=
  call (fun w => (tt, k_pm_disable w));; sysfs_remove_group;; mret 0.

Definition driver_name : string := "power_mgmt_demo".
Definition power_init `{PlatformCore W} : M W Z Z := platform_driver_register driver_name power_probe.
Definition power_exit `{PlatformCore W} : M W Z unit :=
  platform_driver_unregister driver_name power_remove.

(** ** power_mgmt_user.c *)

(** fopen of the attribute may fail; fclose of a file written to delivers what
    was printed. The file is on the ledger while it is open. *)
Definition fopen : M W Z Z := acquire OpenFile.
Definition fclose : M W Z unit := release OpenFile.

(** fp = fopen(path, "w"); fprintf(fp, ...); fclose(fp): nothing looks at
    [fp], and printing to NULL is undefined. *)
Definition put_state (text : list byte) : M W Z unit :=
  fp ← fopen;
  if negb (fp =? 0) then oops NullDeref
  else state_store (text ++ [NUL]) (zlen text);; fclose.

(** [n] rounds of "0" and "1". *)
Fixpoint toggle (n : nat) : M W Z unit :=
  match n with
  | O => mret tt
  | S n => put_state [Byte.x30];; put_state [Byte.x31];; toggle n
  end.

(** The exit status and what the program has printed. fgets into 64 bytes
    takes the one line of the attribute, which is shorter. *)
Definition main_ : M W Z (Z * list byte) :=
  fp ← fopen;
  if negb (fp =? 0) then mret (1, [])
  else
    '(_, line) ← state_show;
    fclose;;
    put_state [Byte.x30];;
    put_state [Byte.x31];;
    toggle 3;;
    mret (0, line).
End Driver.

(** ** Properties *)

(** What the kernel and the users do with the device. *)
Inductive event := Suspend | Resume | Freeze | Thaw | RuntimeSuspend | RuntimeResume
  | Store (buf : list byte) (count : Z).

Section Props.
Context {W : Type} `{RuntimePM W} `{GrantsOk W}.
Implicit Types (s : Z) (w : W) (h : list lock) (l : list resource).

Definition run_event (e : event) : M W Z Z :=
  match e with
  | Suspend => power_suspend
  | Resume => power_resume
  | Freeze => power_freeze
  | Thaw => power_thaw
  | RuntimeSuspend => power_runtime_suspend
  | RuntimeResume => power_runtime_resume
  | Store buf count => state_store buf count
  end.

Fixpoint run_events (es : list event) : M W Z unit :=
  match es with [] => mret tt | e :: es => run_event e;; run_events es end.

(** The sleep state of the system after a history. *)
Definition slept (s : Z) (es : list event) : Z :=
  foldl (fun s e => match e with Suspend => 0 | Resume => 1 | _ => s end) s es.

(** A buffer of the attribute holds at least its terminator. *)
Definition stored_text (e : event) : Prop :=
  match e with Store buf _ => 0 < zlen buf | _ => True end.

Lemma state_store_spec buf count s w h l :
  0 < zlen buf ->
  wp (state_store buf count) (fun r σ => r = count /\ drv σ = s /\ held σ = h /\ ledger σ = l)
     (KSt s w h l).
Proof.
  intros Hb. unfold state_store, pm_runtime_put_sync, pm_runtime_get_sync, power_runtime_suspend,
    power_runtime_resume.
  destruct (zget_in buf 0 ltac:(lia)) as [c Hc]. rewrite Hc. wp_step; wp_step. wp_step.
  repeat case_bool_decide; wp_auto; try done;
    (apply wp_call; intros [] w' _; wp_auto; done).
Qed.

Lemma run_event_spec e s w h l :
  stored_text e ->
  wp (run_event e) (fun _ σ => drv σ = slept s [e] /\ held σ = h /\ ledger σ = l) (KSt s w h l).
Proof.
  intros He. destruct e; simpl; try (unfold power_suspend, power_resume; wp_auto; done).
  eapply wp_mono; [by apply state_store_spec|]. simpl. by intros ? ? (_ & ? & ? & ?).
Qed.

(** After any history of sleep transitions, runtime transitions and writes
    to the attribute, the attribute shows the system's last sleep transition:
    no write and no runtime transition is ever visible in it. *)
Theorem state_shows_sleep (es : list event) (s : Z) (w : W) (Hes : Forall stored_text es) :
  wp (run_events es;; state_show)
     (fun r σ => r = (zlen (state_text (slept s es)), state_text (slept s es)) /\ ledger σ = [])
     (KSt s w [] []).
Proof.
  assert (Hrun : forall w, wp (run_events es) (fun _ σ => drv σ = slept s es /\ held σ = [] /\ ledger σ = [])
                             (KSt s w [] [])).
  { revert s Hes. induction es as [|e es IH]; intros s Hes w'; simpl; [by apply wp_ret|].
    apply Forall_cons in Hes as [He Hes]. apply wp_bind.
    eapply wp_mono; [by apply run_event_spec|]. intros _ [s1 w1 h1 l1] (Hs1 & Hh1 & Hl1).
    simpl in *. subst. apply IH, Hes. }
  apply wp_bind. eapply wp_mono; [apply Hrun|]. intros _ [s1 w1 h1 l1] (Hs1 & Hh1 & Hl1).
  simpl in *. subst. unfold state_show. wp_auto. done.
Qed.

(** A part of the user program that leaves the state of the device alone. *)
Definition keeps {A} s (m : M W Z A) : Prop :=
  forall w, wp m (fun _ σ => drv σ = s /\ held σ = [] /\ ledger σ = []) (KSt s w [] []).

Lemma keeps_bind {A B} s (m : M W Z A) (f : A -> M W Z B) Q :
  keeps s m -> (forall a w, wp (f a) Q (KSt s w [] [])) -> forall w, wp (m ≫= f) Q (KSt s w [] []).
Proof.
  intros Hm Hf w. apply wp_bind. eapply wp_mono; [apply Hm|].
  intros a [s1 w1 h1 l1] (Hs1 & Hh1 & Hl1). simpl in *. subst. apply Hf.
Qed.

Section User.
Context (fopen_ok : forall w : W, (k_grant OpenFile w).1 = 0).

Lemma wp_fopen Q s w h l :
  (forall w', Q 0 (KSt s w' h (OpenFile :: l))) -> wp fopen Q (KSt s w h l).
Proof.
  intros HQ. apply wp_acquire; [by intros w' _|]. intros rc w' Hrc Hg.
  pose proof (fopen_ok w) as E. rewrite Hg in E. by simpl in E.
Qed.

Lemma put_state_keeps s text : keeps s (put_state text).
Proof.
  intros w. unfold put_state, fclose. apply wp_bind, wp_fopen. intros w1. simpl negb. cbv iota.
  apply wp_bind. eapply wp_mono; [apply state_store_spec|].
  { rewrite zlen_app. pose proof (zlen_nonneg text). change (zlen [NUL]) with 1. lia. }
  intros r [s1 w2 h1 l1] (_ & Hs1 & Hh1 & Hl1). simpl in *. subst. wp_auto. done.
Qed.

Lemma toggle_keeps s n : keeps s (toggle n).
Proof.
  induction n as [|n IH]; intros w; simpl; [by apply wp_ret|].
  do 2 (apply keeps_bind; [apply put_state_keeps|]; clear w; intros _ w). apply IH.
Qed.

(** The user program, when it can open the attribute each time, prints
    the state and leaves it as it was, whatever it writes. *)
Theorem power_user_session (s : Z) (w : W) :
  wp main_ (fun r σ => r = (0, state_text s) /\ drv σ = s /\ ledger σ = []) (KSt s w [] []).
Proof.
  unfold main_, state_show, fclose. apply wp_bind, wp_fopen. intros w1. simpl negb. cbv iota.
  do 5 wp_step. wp_step. revert w1.
  apply keeps_bind; [apply put_state_keeps|]. intros _.
  apply keeps_bind; [apply put_state_keeps|]. intros _.
  apply keeps_bind; [apply toggle_keeps|]. intros _ w1. wp_auto. done.
Qed.
End User.

(** A probe that fails has created nothing, and remove takes the group away. *)
Lemma power_probe_remove s w :
  wp (r ← power_probe; if r =? 0 then power_remove else mret r)
     (fun r σ => held σ = [] /\ ledger σ = [] /\ drv σ = s) (KSt s w [] []).
Proof.
  unfold power_probe, power_remove. unfold_kernel. wp_auto; try done.
Qed.

(** What the bus has bound does not change when attributes are created or
    runtime power management is switched. *)
Class PowerFrame `{PlatformView W} : Prop := {
  frame_grant r w rc w' : k_grant r w = (rc, w') -> bound w' = bound w;
  frame_enable w : bound (k_pm_enable w) = bound w;
  frame_disable w : bound (k_pm_disable w) = bound w;
}.

(** The attribute exists exactly while the bus has bound a device. *)
Definition attr_if_bound `{PlatformView W} (σ : kst W Z) : Prop :=
  held σ = [] /\ ledger σ = (if bool_decide (driver_name ∈ bound (world σ)) then [SysGroup] else []).

Lemma power_exit_spec `{PlatformCoreOk W} `{!PowerFrame} σ :
  attr_if_bound σ ->
  wp power_exit
     (fun _ σ' => attr_if_bound σ' /\ ledger σ' = [] /\ drv σ' = drv σ) σ.
Proof.
  destruct σ as [s w h l]. intros [Hh Hl]. simpl in *. subst h l.
  unfold power_exit, platform_driver_unregister. apply wp_bind, wp_call. intros p w' E.
  apply driver_unregister_ok in E as (_ & _ & Hb & ->). wp_red. simpl in *.
  assert (Hno : forall w, bound w = bound w' -> bool_decide (driver_name ∈ bound w) = false).
  { intros w2 ->. apply bool_decide_eq_false. rewrite Hb. set_solver. }
  destruct (bool_decide (driver_name ∈ bound w)).
  - unfold power_remove, sysfs_remove_group. do 2 apply wp_bind. apply wp_call.
    intros [] w2 [= <-]. wp_auto. unfold attr_if_bound. simpl. rewrite Hno by apply frame_disable. done.
  - apply wp_ret. unfold attr_if_bound. simpl. by rewrite Hno.
Qed.

(** Loading the driver fails without a trace, or leaves it registered with
    the attribute exactly when a device is bound to it, a probe that fails
    included; unloading then takes the attribute away. *)
Lemma power_load_unload `{PlatformCoreOk W} `{!PowerFrame} s w :
  driver_name ∉ bound w ->
  wp power_init
     (fun rc σ => attr_if_bound σ /\ drv σ = s /\ (rc <> 0 -> ledger σ = []) /\
        wp power_exit (fun _ σ' => held σ' = [] /\ ledger σ' = []) σ)
     (KSt s w [] []).
Proof.
  intros Hno. assert (Hb : bool_decide (driver_name ∈ bound w) = false) by (by apply bool_decide_eq_false).
  apply (wp_mono _ (fun rc σ => attr_if_bound σ /\ drv σ = s /\ (rc <> 0 -> ledger σ = []))).
  2:{ intros rc σ (Ha & Hs & Hr). split_and!; try done. eapply wp_mono; [by apply power_exit_spec|].
      intros _ σ' ([? _] & ? & _). done. }
  unfold power_init, platform_driver_register. apply wp_bind, wp_call. intros [rc p] w' E.
  apply driver_register_ok in E as (_ & _ & Hb' & _ & ->). wp_red. simpl in *. rewrite Hb, andb_true_r.
  destruct (Z.eqb_spec rc 0) as [->|Hrc]; simpl.
  2:{ wp_auto. unfold attr_if_bound. simpl. by rewrite Hb', Hb. }
  destruct (bool_decide (driver_name ∈ devices w)); simpl.
  2:{ wp_auto. unfold attr_if_bound. simpl. by rewrite Hb', Hb. }
  unfold when_probed, power_probe. unfold_kernel. do 3 wp_step. apply wp_acquire.
  - intros w1 Hg. wp_red. change (negb (0 =? 0)) with false. cbv iota.
    apply wp_bind, wp_call. intros [] w2 E. injection E as <-. wp_step. apply wp_call.
    intros [] w3 E. injection E as <-. wp_step.
    destruct (probe_done_ok driver_name 0 (k_pm_enable w1)) as (_ & _ & Hb3). simpl in Hb3.
    unfold attr_if_bound. simpl. by rewrite Hb3, mem_added.
  - intros r w1 Hne Hg. apply frame_grant in Hg as Hg'. wp_red.
    rewrite (proj2 (Z.eqb_neq r 0)) by done. simpl negb. cbv iota. wp_step. apply wp_call.
    intros [] w3 E. injection E as <-. wp_step.
    destruct (probe_done_ok driver_name r w1) as (_ & _ & Hb3).
    rewrite (proj2 (Z.eqb_neq r 0)) in Hb3 by done.
    unfold attr_if_bound. simpl. by rewrite Hb3, Hg', Hb', Hb.
Qed.
End Props.

(** A power management core that counts the users of the device. *)
#[export] Instance sim_pm : RuntimePM sim := {
  k_pm_get_sync w := (true, w);
  k_pm_put_sync w := (true, w);
  k_pm_enable w := w;
  k_pm_disable w := w;
}.

(** "0" is written while the system runs: the attribute goes on saying Active;
    after a suspend "1" does not bring it back. *)
Lemma state_shows_sleep_witness :
  wp (run_events [Store [Byte.x30; NUL] 1; Suspend; Store [Byte.x31; NUL] 1];; state_show)
     (fun r _ => r.2 = bytes_of "Device State: Suspended" ++ [LF])
     (KSt device_state0 (sim_at 0 []) [] []).
Proof.
  eapply wp_mono.
  - apply (state_shows_sleep [Store [Byte.x30; NUL] 1; Suspend; Store [Byte.x31; NUL] 1] device_state0).
    repeat constructor.
  - intros r σ [-> _]. reflexivity.
Defined.

(** A world in which everything is granted. *)
#[local] Instance unit_pm : RuntimePM unit := {
  k_pm_get_sync w := (true, w);
  k_pm_put_sync w := (true, w);
  k_pm_enable w := w;
  k_pm_disable w := w;
}.
#[local] Instance unit_grants : Grants unit := { k_grant _ w := (0, w) }.
#[local] Instance unit_grants_ok : GrantsOk unit.
Proof. split. intros r w rc w' [= <- <-]. done. Qed.

Lemma power_user_session_witness :
  wp main_ (fun r σ => r.2 = bytes_of "Device State: Active" ++ [LF] /\ drv σ = 1)
     (KSt device_state0 tt [] []).
Proof.
  eapply wp_mono.
  - apply power_user_session. intros []. reflexivity.
  - intros r σ (-> & -> & _). split; reflexivity.
Defined.

(** The results of the later fopen calls are not looked at. *)
Example power_user_fopen_fails :
  main_ (KSt device_state0 (Sim ∅ [] [0; -24] [] []) [] []) = Oops NullDeref.
Proof. reflexivity. Qed.
