(* ===== verification/Alloc.v ===== *)
(** * 008_dynamic_memalloc: kmalloc.c and vmalloc.c

    Two modules that allocate and free while they are loaded. The state is
    the bytes that kmalloc.c prints of its zeroed buffer; addresses are not
    modelled. *)

From S2P Require Import Prelude Kernel Wp Sim.

(** sizeof(struct device_config): 4 + 2 + 1 + 32 bytes, aligned to 4. *)
Definition sizeof_device_config : Z := 40.

Section Alloc.
Context {W : Type} `{Grants W}.
Local Abbreviation D := (list byte).

(** A block by its size and purpose; 0 when it is granted. kmalloc(0) gives a
    pointer that may be freed, or NULL. *)
Definition kmalloc (block : string) : M W D Z := acquire (Heap block).
Definition kfree (block : string) : M W D unit := release (Heap block).
Definition vmalloc (block : string) : M W D Z := acquire (Heap block).
Definition vfree (block : string) : M W D unit := release (Heap block).

(** kzalloc: NULL or the zeroed block. *)
Definition kzalloc (block : string) (size : Z) : M W D (option (list byte)) :=
  rc ← acquire (Heap block);
  mret (if rc =? 0 then Some (replicate (Z.to_nat size) NUL) else None).

Definition kmalloc_init : M W D Z :=
  buffer ← kmalloc "buffer 1024";
  if negb (buffer =? 0) then mret (- ENOMEM)
  else
    kfree "buffer 1024";;
    config ← kmalloc "config";
    if negb (config =? 0) then mret (- ENOMEM)
    else
      kfree "config";;
      buffer ← kzalloc "buffer 256" 256;
      match buffer with
      | None => mret (- ENOMEM)
      | Some buffer =>
          b0 ← value OutOfBounds (zget buffer 0);
          b1 ← value OutOfBounds (zget buffer 1);
          b2 ← value OutOfBounds (zget buffer 2);
          b3 ← value OutOfBounds (zget buffer 3);
          modify (fun out => out ++ [b0; b1; b2; b3]);;
          kfree "buffer 256";;
          buffer ← kmalloc "buffer 512";
          (if buffer =? 0 then kfree "buffer 512" else mret tt);;
          buffer ← kmalloc "buffer 0";
          (if buffer =? 0 then kfree "buffer 0" else mret tt);;
          mret 0
      end.

Definition kmalloc_exit : M W D unit := mret tt.

(** vmalloc_init; the module_init line names test_vmalloc_init instead. *)
Definition vmalloc_init : M W D Z :=
  large_buffer ← vmalloc "1 MB";
  if negb (large_buffer =? 0) then mret (- ENOMEM)
  else
    vfree "1 MB";;
    large_buffer ← vmalloc "10 MB";
    if negb (large_buffer =? 0) then mret (- ENOMEM)
    else vfree "10 MB";; mret 0.

Definition test_vmalloc_exit : M W D unit := mret tt.
End Alloc.

Lemma zget_zeros n i : 0 <= i < n -> zget (replicate (Z.to_nat n) NUL) i = Some NUL.
Proof.
  intros Hi. unfold zget. rewrite (proj2 (Z.leb_le _ _)) by lia. apply lookup_replicate_2. lia.
Qed.

Section Props.
Context {W : Type} `{GrantsOk W}.

(** Whichever of the five allocations fail, nothing stays allocated; a
    load that succeeds has printed four zeros, one that fails reports ENOMEM and
    has printed none. *)
Theorem kmalloc_init_balanced (out : list byte) (w : W) :
  wp kmalloc_init
     (fun r σ => ledger σ = [] /\ held σ = [] /\
        (r = 0 /\ drv σ = out ++ replicate 4 NUL \/ r = - ENOMEM /\ drv σ = out))
     (KSt out w [] []).
Proof.
  unfold kmalloc_init, kmalloc, kzalloc, kfree.
  wp_auto; try (by auto).
  - rewrite Z.eqb_refl. repeat (rewrite ?zget_zeros by lia; wp_step); try done; auto.
  - rewrite (proj2 (Z.eqb_neq _ _)) by done. wp_auto. auto.
Qed.

Lemma vmalloc_init_balanced (out : list byte) (w : W) :
  wp vmalloc_init (fun r σ => ledger σ = [] /\ (r = 0 \/ r = - ENOMEM)) (KSt out w [] []).
Proof. unfold vmalloc_init, vmalloc, vfree. wp_auto; auto. Qed.
End Props.
