(* ===== verification/Vfs.v ===== *)
(** * The file_operations tables, and what the system may expect of them

    Each character device hands the VFS a table of entry points. [conforms]
    is the contract of read(2) and write(2) that a driver is trusted to keep:
    the result is at most the count that was asked for, the file position
    stays valid and stays put on an error, a read stores nothing outside the
    caller's buffer, a write stores nothing in user space. Five drivers keep
    it; a program's calls on them are confined to its buffers
    ([sessions_confined]). The other six ignore the count
    ([counts_ignored]), so no invariant of theirs makes them keep it
    ([unconfined_tables]). What the owner entry is for is in Lifetimes.v. *)

From S2P Require Import Prelude Kernel Wp Sim Wait.
From S2P Require Queue Keypad Storage StorageProps MultiChar Skeleton Poll Readers Temperature Light Irq Misc.

(** ** struct file_operations *)

(** default_llseek of the kernel, or a function of the driver. *)
Inductive seek (W D : Type) :=
  | DefaultLlseek
  | Llseek (f : Z -> Z -> Z -> M W D (Z * Z)).
Arguments DefaultLlseek {W D}.
Arguments Llseek {W D}.

(** An entry that the table does not name is NULL; [f_owner] says whether
    .owner is THIS_MODULE. *)
Record file_operations (W D : Type) := Fops {
  f_owner : bool;
  f_open : option (M W D Z);
  f_release : option (M W D Z);
  f_read : option (Z -> Z -> Z -> M W D (Z * Z));
  f_write : option (Z -> Z -> Z -> M W D (Z * Z));
  f_ioctl : option (Z -> Z -> M W D Z);
  f_poll : option (M W D Z);
  f_llseek : option (seek W D);
}.
Arguments Fops {W D}.
Arguments f_owner {W D}.
Arguments f_read {W D}.
Arguments f_write {W D}.

(** A read or write function that leaves the file position alone. *)
Definition keep_pos {W D} (f : Z -> Z -> Z -> M W D Z) (buf count pos : Z) : M W D (Z * Z) :=
  r ← f buf count pos; mret (r, pos).

Section Tables.
Context {W : Type} `{UserAccess W} `{Signals W} `{FileIO W} `{SimpleRead W} `{Misc.AccessOk}
        `{!Waiting W Poll.slots} `{!Waiting W Readers.board}.

Definition storage_fops : file_operations W Storage.disk :=
  Fops true (Some Storage.storage_open) (Some Storage.storage_release)
       (Some Storage.storage_read) (Some Storage.storage_write) (Some Storage.storage_ioctl)
       None (Some DefaultLlseek).

(** [filp] is the private_data that open has stored in the file. *)
Definition mydev_fops (minor : Z) (filp : option Z) : file_operations W MultiChar.mydevs :=
  Fops true (Some (r ← MultiChar.mydev_open minor; mret r.1)) (Some (r ← MultiChar.mydev_release; mret r.1))
       (Some (MultiChar.mydev_read filp)) (Some (MultiChar.mydev_write filp)) None
       None (Some (Llseek (MultiChar.mydev_llseek filp))).

Definition skeleton_fops : file_operations W Skeleton.chrdev :=
  Fops true (Some Skeleton.my_open) (Some Skeleton.my_release)
       (Some Skeleton.my_read) (Some Skeleton.my_write) None None (Some DefaultLlseek).

(** [nonblock] and [minor] are read from the open file. *)
Definition poll_fops (nonblock : bool) (minor : Z) : file_operations W Poll.slots :=
  Fops true None None (Some (Poll.my_read nonblock minor)) (Some (Poll.my_write minor)) None
       (Some (Poll.my_poll minor)) (Some DefaultLlseek).

Definition misc_fops : file_operations W (list byte) :=
  Fops true None None (Some Misc.misc_read) (Some Misc.misc_write) None None None.

Definition readers_fops (HZ : Z) : file_operations W Readers.board :=
  Fops true None None (Some (keep_pos (Readers.my_read HZ))) (Some (keep_pos Readers.my_write)) None None None.

Definition keypad_fops (junk : byte) : file_operations W Queue.queue :=
  Fops true (Some Keypad.device_open) (Some Keypad.device_release)
       (Some (keep_pos (Keypad.device_read junk))) (Some (keep_pos Keypad.device_write))
       (Some Keypad.device_ioctl) None None.

Definition log_fops : file_operations W Temperature.Log.temp_log :=
  Fops true (Some Temperature.Log.device_open) (Some Temperature.Log.device_release)
       (Some (keep_pos Temperature.Log.device_read)) (Some (keep_pos Temperature.Log.device_write))
       (Some Temperature.Log.device_ioctl) None None.

Definition temp_fops : file_operations W Temperature.Atomic.temp_sensor :=
  Fops true None None None (Some (keep_pos Temperature.Atomic.temp_write))
       (Some Temperature.Atomic.temp_ioctl) None None.

Definition light_fops : file_operations W Light.light :=
  Fops true (Some Light.light_open) (Some Light.light_release)
       (Some (keep_pos Light.light_read)) (Some (keep_pos Light.light_write))
       (Some Light.light_ioctl) None None.

Definition irq_fops : file_operations W Irq.irq_stats :=
  Fops false None None (Some (keep_pos Irq.irq_read)) (Some (keep_pos Irq.irq_write)) None None None.
End Tables.

(** ** The contract *)

Definition result_ok (count pos : Z) (r : Z * Z) : Prop :=
  r.1 <= count /\ 0 <= r.2 < 2 ^ 63 /\ (r.1 < 0 -> r.2 = pos).

(** Outside the [n] bytes at [a]. *)
Definition outside (a n x : Z) : Prop := x < a \/ a + n <= x.

(** [I] is what the driver keeps of its variables. *)
Class Conforms {W D} `{UserMem W} (f : file_operations W D) (I : D -> Prop) : Prop := {
  reads rd buf count pos (d : D) (w : W) l :
    f_read f = Some rd -> I d -> vfs_ok pos count ->
    wp (rd buf count pos)
       (fun r σ => I (drv σ) /\ held σ = [] /\ ledger σ = l /\ result_ok count pos r /\
                   forall x, outside buf count x -> umem (world σ) x = umem w x)
       (KSt d w [] l);
  writes wr buf count pos (d : D) (w : W) l :
    f_write f = Some wr -> I d -> vfs_ok pos count ->
    wp (wr buf count pos)
       (fun r σ => I (drv σ) /\ held σ = [] /\ ledger σ = l /\ result_ok count pos r /\
                   umem (world σ) ≡ₘ umem w)
       (KSt d w [] l);
}.

Section Instances.
Context {W : Type} `{UserAccessOk W} `{!Signals W} `{!SignalsOk W} `{!FileIO W}
        `{!SimpleRead W} `{!SimpleReadOk W} `{!Misc.AccessOk}.

(** Memory after a lock request and after a copy. *)
Lemma lock_mem k (w : W) rc w' x : k_lock_interruptible k w = (rc, w') -> umem w' x = umem w x.
Proof. intros E. by apply (lock_ok _ _ _ _ E). Qed.

Lemma cfu_same src n (w : W) r bs w' x :
  k_copy_from_user src n w = (r, bs, w') -> 0 <= n -> umem w' x = umem w x.
Proof. intros E Hn. by apply (cfu_mem _ _ _ _ _ _ Hn E). Qed.

Ltac mem_same :=
  repeat match goal with
  | E : k_copy_to_user _ _ _ = (_, ?w) |- context [umem ?w ?x] =>
      rewrite (ctu_outside _ _ _ _ _ x E) by (rewrite ?zlen_sub by lia; unfold outside in *; lia)
  | E : k_copy_from_user _ _ _ = (_, _, ?w) |- context [umem ?w ?x] => rewrite (cfu_same _ _ _ _ _ _ x E) by lia
  | E : k_simple_read _ _ _ _ _ = (_, _, ?w) |- context [umem ?w ?x] =>
      rewrite (simple_read_outside _ _ _ _ _ _ _ _ x E) by (unfold outside in *; lia)
  | E : k_lock_interruptible _ _ = (_, ?w) |- context [umem ?w ?x] => rewrite (lock_mem _ _ _ _ x E)
  end; try done.

(** The parts of the contract at the end of a handler. *)
Ltac conform :=
  split_and!;
  lazymatch goal with
  | |- result_ok _ _ _ =>
      unfold result_ok, EFAULT, ERESTARTSYS, ENOSPC, EPERM, EINVAL, EAGAIN in *; simpl in *; lia
  | |- _ ≡ₘ _ => let x := fresh "x" in intros x; mem_same
  | |- forall _, outside _ _ _ -> _ => let x := fresh "x" in let Hx := fresh "Hx" in intros x Hx; mem_same
  | |- _ => try done
  end.

Lemma storage_write_mem buf len off d (w : W) l :
  Storage.storage_ok d -> vfs_ok off len ->
  wp (Storage.storage_write buf len off) (fun _ σ => umem (world σ) ≡ₘ umem w) (KSt d w [] l).
Proof.
  intros Hd Hv. pose proof Hv as [Ho Hl]. unfold Storage.storage_write.
  destruct (Z.leb_spec Storage.STORAGE_TOTAL_SIZE off) as [He|He]; [by apply wp_ret|].
  rewrite Storage.clamp_code by done. pose proof (Storage.ok_buffer d Hd) as Hb.
  assert (Hn : 0 <= Storage.clamp len off <= Storage.STORAGE_TOTAL_SIZE - off) by (unfold Storage.clamp; lia).
  destruct (Storage.sector_range off (Storage.clamp len off)) as [-> ->]; [lia..|].
  set (n := Storage.clamp len off) in *. clearbody n.
  wp_auto; [|intros x; mem_same]. eapply wp_mono.
  { apply Storage.check_sectors_spec; [done | |]; rewrite ?Storage.num_sectors;
      unfold Storage.STORAGE_SECTOR_SIZE, Storage.STORAGE_TOTAL_SIZE in *; dlia. }
  intros r σ [(-> & -> & _)|(-> & -> & _)]; wp_auto; intros x; mem_same.
Qed.

#[export] Instance storage_conforms : Conforms (W := W) storage_fops Storage.storage_ok.
Proof.
  split; intros ? buf count pos d w l [= <-] Hd Hv; pose proof Hv as [Hp Hc].
  - unfold Storage.storage_read. pose proof (Storage.ok_buffer d Hd) as Hb.
    destruct (Z.leb_spec Storage.STORAGE_TOTAL_SIZE pos) as [He|He]; [apply wp_ret; conform|].
    rewrite Storage.clamp_code by done. cbv zeta.
    unfold Storage.clamp, MAX_RW_COUNT, Storage.STORAGE_TOTAL_SIZE in *.
    wp_auto; conform.
  - eapply wp_mono; [apply wp_conj; [by apply Storage.storage_write_spec; auto with kern | by apply storage_write_mem]|].
    intros r σ ((Hr & Hh & Hl) & Hm). split_and!; try done.
    + by eapply Storage.write_result_guarded.
    + unfold Storage.write_result, Storage.clamp, Storage.STORAGE_TOTAL_SIZE, MAX_RW_COUNT, result_ok in *.
      unfold ENOSPC, ERESTARTSYS, EPERM, EFAULT in *.
      destruct Hr as [(? & -> & _)|(? & [[-> _]|[(-> & _)|(_ & [[-> _]|[-> _]])]])]; simpl; lia.
Qed.

(** Minor [i] opened: open has stored it in private_data. *)
#[export] Instance mydev_conforms i (Hi : 0 <= i < MultiChar.MYDEV_COUNT) :
  Conforms (W := W) (mydev_fops i (Some i)) MultiChar.mydevs_ok.
Proof.
  split; intros ? buf count pos d w l [= <-] Hd Hv; pose proof Hv as [Hp Hc].
  - destruct (MultiChar.mydevs_ok_get d i Hd Hi) as (x & Hx & [Hb Hl]). unfold MultiChar.mydev_read.
    unfold MultiChar.BUF_SIZE, MAX_RW_COUNT in *.
    wp_auto; [|conform]. apply MultiChar.wp_get_dev with x; [done|]. rewrite (u64_small pos) by lia.
    wp_step; [wp_auto; conform|]. rewrite u64_small by lia.
    replace (if MultiChar.len x - pos <? count then MultiChar.len x - pos else count)
      with (Z.min count (MultiChar.len x - pos)) by (destruct (Z.ltb_spec (MultiChar.len x - pos) count); lia).
    wp_auto; conform.
  - destruct (MultiChar.mydevs_ok_get d i Hd Hi) as (x & Hx & Hok).
    eapply wp_mono; [by apply (MultiChar.mydev_write_spec i _ _ _ x); auto with kern|].
    intros r [d1 w1 h1 l1] (x' & Hr & (-> & -> & ->) & Hm). simpl in *.
    destruct (MultiChar.write_result_ok _ _ _ _ _ _ _ Hok Hv Hr) as [Hok' Hpos]. split_and!; try done.
    + by apply MultiChar.with_dev_ok.
    + unfold MultiChar.write_result, MultiChar.room, result_ok, EFAULT, ERESTARTSYS, ENOSPC in *.
      destruct Hr as [[-> _]|[(_ & -> & _)|(? & [[-> _]|[-> _]])]]; simpl in *; lia.
Qed.

#[export] Instance skeleton_conforms : Conforms (W := W) skeleton_fops Skeleton.chrdev_ok.
Proof.
  split; intros ? buf count pos d w l [= <-] Hd [Hp Hc]; pose proof Hd as [Hb Hs];
    unfold Skeleton.BUF_SIZE, MAX_RW_COUNT in *.
  - unfold Skeleton.my_read. wp_step; wp_step. rewrite (u64_small pos) by lia.
    wp_step; [wp_auto; conform|]. rewrite u64_small by lia.
    replace (if Skeleton.buffer_size d - pos <? count then Skeleton.buffer_size d - pos else count)
      with (Z.min count (Skeleton.buffer_size d - pos))
      by (destruct (Z.ltb_spec (Skeleton.buffer_size d - pos) count); lia).
    wp_auto; conform.
  - unfold Skeleton.my_write, Skeleton.BUF_SIZE. wp_step; [wp_auto; conform|]. rewrite u64_small by lia.
    replace (if 1024 - pos <? count then 1024 - pos else count) with (Z.min count (1024 - pos))
      by (destruct (Z.ltb_spec (1024 - pos) count); lia).
    wp_step; wp_step. rewrite in_bounds_true by lia. wp_auto.
    all: assert (Hz : zlen bs = Z.min count (1024 - pos)) by (eapply cfu_zlen; [|done]; lia).
    all: conform; split; simpl; [rewrite zlen_upd|]; unfold Skeleton.BUF_SIZE; rewrite ?u64_small; lia.
Qed.

#[export] Instance misc_conforms : Conforms (W := W) misc_fops Misc.misc_ok.
Proof.
  split; intros ? buf count pos d w l [= <-] Hd Hv; pose proof Hv as [Hp Hc].
  - destruct (cstr_bounded _ _ (Misc.ok_end d Hd)) as (s & Hs & Hlen).
    assert (Hmem : wp (Misc.misc_read buf count pos)
              (fun _ σ => forall x, outside buf count x -> umem (world σ) x = umem w x) (KSt d w [] l)).
    { unfold Misc.misc_read. wp_step; [|wp_auto; by intros x Hx]. do 2 wp_step. rewrite Hs. do 2 wp_step.
      apply wp_call. wp_red. intros [rc pos'] w' Hrd x Hx. mem_same. }
    eapply wp_mono; [by apply wp_conj; [apply Misc.misc_read_spec | exact Hmem]|].
    intros [r p] σ ((Hh & Hl & -> & s' & Hs' & Hr) & Hm). simpl in *.
    assert (s' = s) as -> by congruence. split_and!; try done.
    unfold result_ok, MAX_RW_COUNT in *. simpl. destruct Hr as [[? ->]|(? & -> & _ & ? & _)]; [lia|].
    destruct (decide (r = 0)); lia.
  - eapply wp_mono; [by apply Misc.misc_write_spec|]. intros [r p] σ (Hh & Hl & Hok & Hm & Hx & Hr).
    simpl in *. subst p. split_and!; try done. unfold result_ok, MAX_RW_COUNT, EINVAL, EFAULT in *. simpl.
    destruct Hr as [(-> & _)|[[-> _]|(-> & _)]]; lia.
Qed.

(** Other readers and writers of the slots run while a reader waits. *)
Context {others : relation Poll.slots} `{!Waiting W Poll.slots} `{!WaitingOk W Poll.slots others}.
Context (others_ok : forall a b, others a b -> Poll.slots_ok a -> Poll.slots_ok b).

Lemma read_slot_conforms m buf count pos s (w : W) l :
  Poll.slots_ok s -> 0 <= m < Poll.DEVICE_CNT -> vfs_ok pos count ->
  wp (Poll.read_slot m buf count pos)
     (fun r σ => Poll.slots_ok (drv σ) /\ held σ = [] /\ ledger σ = l /\ result_ok count pos r /\
                 forall x, outside buf count x -> umem (world σ) x = umem w x) (KSt s w [] l).
Proof.
  intros Hok Hm [Hp Hc]. destruct (Poll.slot_exists s m Hok Hm) as (f & n & b & Hat).
  pose proof Hat as [Hf Hn Hb Hl Hbd]. pose proof Hok as [Kd Kf Kr Kw Ks Kn].
  assert (Hmem : wp (Poll.read_slot m buf count pos)
            (fun _ σ => forall x, outside buf count x -> umem (world σ) x = umem w x) (KSt s w [] l)).
  { unfold Poll.read_slot. wp_step; wp_step; wp_step. rewrite Hb. wp_step; wp_step. rewrite Hn. wp_step.
    unfold Poll.BUF_SIZE in *. rewrite in_bounds_true by lia. wp_step. apply wp_call.
    intros [ret pos'] w' Hrd. wp_red. wp_step; wp_step; [|wp_auto; intros x Hx; mem_same].
    wp_step. apply Poll.wp_set_event; [lia|]. wp_red. apply Poll.wp_set_size; [simpl; lia|]. wp_auto. intros x Hx; mem_same. }
  eapply wp_mono; [by apply wp_conj; [eapply Poll.read_slot_spec | exact Hmem]|].
  intros [r p] σ ((Hh & Hld & Hok' & Hr & _) & Hx). simpl in *. split_and!; try done.
  unfold result_ok, Poll.BUF_SIZE, MAX_RW_COUNT in *. simpl.
  destruct Hr as [([= -> ->] & _)|[(? & -> & _)|(? & -> & ? & _)]]; lia.
Qed.

#[export] Instance poll_conforms nonblock m (Hm : 0 <= m < Poll.DEVICE_CNT) :
  Conforms (W := W) (poll_fops nonblock m) Poll.slots_ok.
Proof.
  split; intros ? buf count pos s w l [= <-] Hs Hv; pose proof Hv as [Hp Hc];
    destruct (Poll.slot_exists s m Hs Hm) as (f & n & b & Hat).
  - unfold Poll.my_read. wp_step; wp_step; wp_step. rewrite (Poll.at_flag _ _ _ _ _ Hat). wp_step.
    destruct (f =? 0); [destruct nonblock | by apply read_slot_conforms].
    + apply wp_ret. conform.
    + wp_step. apply wp_wait. intros rc s' w' Hr Hmw _.
      eapply wp_mono; [apply read_slot_conforms; [by eapply others_keep | done | done]|].
      intros r σ (? & ? & ? & ? & Hx). split_and!; try done. intros x Ho. rewrite Hx by done. apply Hmw.
  - pose proof Hat as [Hf Hn Hb Hl Hbd]. pose proof (zget_Some _ _ _ Hf). pose proof (zget_Some _ _ _ Hb).
    pose proof (zget_Some _ _ _ Hn).
    assert (Hmem : wp (Poll.my_write m buf count pos) (fun _ σ => umem (world σ) ≡ₘ umem w) (KSt s w [] l)).
    { unfold Poll.my_write, Poll.BUF_SIZE in *.
      replace (if 128 <? count then 128 else count) with (Z.min count 128) by (destruct (Z.ltb_spec 128 count); lia).
      wp_step; wp_step; wp_step. rewrite Hb. wp_auto. rewrite zset_in by done. wp_auto; [|intros x; mem_same].
      apply Poll.wp_set_size; [done|]. wp_auto. apply Poll.wp_set_event; [done|]. wp_auto. intros x; mem_same. }
    eapply wp_mono; [by apply wp_conj; [eapply Poll.slot_write_spec; [| | apply Hc] | exact Hmem]|].
    intros [r p] σ ((Hh & Hld & Hok' & Hr) & Hx). simpl in *. split_and!; try done.
    unfold result_ok, Poll.BUF_SIZE, EFAULT, MAX_RW_COUNT in *. simpl.
    destruct Hr as [[= -> ->]|([= -> ->] & _)]; lia.
Qed.
End Instances.

(** ** A program's calls on an open file *)

(** read(2), write(2), and lseek(2) that ended at the position [p]. *)
Inductive syscall := SRead (buf n : Z) | SWrite (buf n : Z) | SSeek (p : Z).

Definition asked (c : syscall) : Z :=
  match c with SRead _ n | SWrite _ n => n | SSeek p => p end.
Definition in_range (c : syscall) : Prop :=
  match c with SRead _ n | SWrite _ n => 0 <= n < 2 ^ 64 | SSeek p => 0 <= p < 2 ^ 63 end.

Section Sessions.
Context {W D : Type}.

(** A table without the entry answers EINVAL; the count is cut at
    MAX_RW_COUNT. *)
Definition do_call (f : file_operations W D) (pos : Z) (c : syscall) : M W D (Z * Z) :=
  let entry (e : option (Z -> Z -> Z -> M W D (Z * Z))) buf n :=
    match e with Some g => g buf (Z.min n MAX_RW_COUNT) pos | None => mret (- EINVAL, pos) end in
  match c with
  | SRead buf n => entry (f_read f) buf n
  | SWrite buf n => entry (f_write f) buf n
  | SSeek p => mret (p, p)
  end.

(** The results of the calls and the last position. *)
Fixpoint session (f : file_operations W D) (pos : Z) (cs : list syscall) : M W D (list Z * Z) :=
  match cs with
  | [] => mret ([], pos)
  | c :: cs =>
      '(r, pos) ← do_call f pos c;
      '(rs, pos) ← session f pos cs;
      mret (r :: rs, pos)
  end.

Context `{UserMem W}.

(** Not in the buffer of any read. *)
Definition spared (cs : list syscall) (x : Z) : Prop :=
  forall buf n, SRead buf n ∈ cs -> outside buf n x.

(** The calls run without undefined behaviour, keep the driver's variables
    well-formed, answer at most what was asked for, keep the position valid
    and write only into the buffers of the reads. *)
Definition confined (f : file_operations W D) (I : D -> Prop) : Prop :=
  forall cs pos d (w : W) l, I d -> 0 <= pos < 2 ^ 63 -> Forall in_range cs ->
  wp (session f pos cs)
     (fun r σ => I (drv σ) /\ held σ = [] /\ ledger σ = l /\ 0 <= r.2 < 2 ^ 63 /\
        Forall2 (fun c v => v <= asked c) cs r.1 /\
        forall x, spared cs x -> umem (world σ) x = umem w x)
     (KSt d w [] l).

Lemma do_call_confined f I `{!Conforms f I} c pos d (w : W) l :
  I d -> 0 <= pos < 2 ^ 63 -> in_range c ->
  wp (do_call f pos c)
     (fun r σ => I (drv σ) /\ held σ = [] /\ ledger σ = l /\ 0 <= r.2 < 2 ^ 63 /\ r.1 <= asked c /\
        forall x, spared [c] x -> umem (world σ) x = umem w x)
     (KSt d w [] l).
Proof.
  intros Hd Hp Hc. unfold do_call.
  assert (Hv : forall n, 0 <= n < 2 ^ 64 -> vfs_ok pos (Z.min n MAX_RW_COUNT)).
  { intros n Hn. split; [done|]. unfold MAX_RW_COUNT. lia. }
  destruct c as [buf n | buf n | p]; simpl in Hc.
  - destruct (f_read f) as [rd|] eqn:E; [|apply wp_ret; simpl; split_and!; try done; unfold EINVAL; lia].
    eapply wp_mono; [by eapply reads; eauto|].
    intros r σ (? & ? & ? & (Hr & ? & _) & Hm). simpl. split_and!; try done; try lia.
    intros x Hx. apply Hm. specialize (Hx buf n ltac:(by left)). unfold outside in *. lia.
  - destruct (f_write f) as [wr|] eqn:E; [|apply wp_ret; simpl; split_and!; try done; unfold EINVAL; lia].
    eapply wp_mono; [by eapply writes; eauto|].
    intros r σ (? & ? & ? & (Hr & ? & _) & Hm). simpl. split_and!; try done; lia.
  - apply wp_ret. simpl in *. split_and!; try done; lia.
Qed.

Lemma conforms_confined f I `{!Conforms f I} : confined f I.
Proof.
  intros cs. induction cs as [|c cs IH]; intros pos d w l Hd Hp Hcs.
  - apply wp_ret. simpl in *. split_and!; try done; lia.
  - apply Forall_cons in Hcs as [Hc Hcs]. cbn [session]. apply wp_bind.
    eapply wp_mono; [by eapply do_call_confined|].
    intros [r p] [d1 w1 h1 l1] (Hd1 & Hh & Hl & Hp1 & Hr & Hm). simpl in *. subst h1 l1.
    apply wp_bind. eapply wp_mono; [by apply IH|].
    intros [rs p2] σ (Hd2 & Hh2 & Hl2 & Hp2 & Hrs & Hm2). apply wp_ret. simpl in *. split_and!; try done; try lia.
    + by constructor.
    + intros x Hx. rewrite Hm2, Hm; [done | |].
      * intros buf n Hb. apply Hx. apply list_elem_of_singleton in Hb as ->. by left.
      * intros buf n Hb. apply Hx. by right.
Qed.
End Sessions.

(** C25. The read and write entries of five drivers (the storage device, the
    two-device driver, the skeleton, the misc device and the poll driver with
    other readers and writers around) keep the contract of read(2) and
    write(2): whatever sequence of reads, writes and seeks a program makes on
    its open file, there is no undefined behaviour, the driver's variables
    stay well-formed, no result exceeds the count asked for, the file position
    stays valid, and no byte of the program outside the buffers of its reads
    changes. *)
Theorem sessions_confined {W : Type} `{UserAccessOk W} `{!Signals W} `{!SignalsOk W} `{!FileIO W}
    `{!SimpleRead W} `{!SimpleReadOk W} `{!Misc.AccessOk}
    {others : relation Poll.slots} `{!Waiting W Poll.slots} `{!WaitingOk W Poll.slots others}
    (others_ok : forall a b, others a b -> Poll.slots_ok a -> Poll.slots_ok b) :
  confined (W := W) storage_fops Storage.storage_ok /\
  (forall i, 0 <= i < MultiChar.MYDEV_COUNT -> confined (W := W) (mydev_fops i (Some i)) MultiChar.mydevs_ok) /\
  confined (W := W) skeleton_fops Skeleton.chrdev_ok /\
  confined (W := W) misc_fops Misc.misc_ok /\
  (forall nonblock m, 0 <= m < Poll.DEVICE_CNT -> confined (W := W) (poll_fops nonblock m) Poll.slots_ok).
Proof.
  split_and!.
  - apply conforms_confined, _.
  - intros i Hi. by apply conforms_confined, mydev_conforms.
  - apply conforms_confined, _.
  - apply conforms_confined, _.
  - intros nonblock m Hm. eapply conforms_confined. by eapply poll_conforms.
Qed.

(** On the storage device: a write, a seek back and a read. *)
Definition vfs_calls : list syscall := [SWrite 100 4; SSeek 2; SRead 110 2].
Definition vfs_user : sim := sim_at 100 (bytes_of "abcd" ++ replicate 16 NUL).

#[local] Existing Instance Misc.sim_access.

Lemma sessions_confined_witness :
  wp (session (W := sim) storage_fops 0 vfs_calls)
     (fun r σ => Forall2 (fun c v => v <= asked c) vfs_calls r.1 /\ umem (world σ) 109 = NUL)
     (KSt StorageProps.disk0 vfs_user [] []).
Proof.
  assert (Halone : forall a b, Poll.alone a b -> Poll.slots_ok a -> Poll.slots_ok b) by done.
  destruct (sessions_confined (W := sim) (others := Poll.alone) Halone) as [Hs _].
  eapply wp_mono.
  - refine (Hs vfs_calls 0 StorageProps.disk0 vfs_user [] StorageProps.disk0_ok _ _); [lia|].
    repeat constructor; simpl; lia.
  - intros r σ (_ & _ & _ & _ & Hr & Hm). split; [exact Hr|].
    rewrite Hm; [reflexivity|]. intros buf n Hin. unfold vfs_calls in Hin. rewrite !elem_of_cons in Hin.
    destruct Hin as [[=]|[[=]|[[= -> ->]|Hin]]]; [unfold outside; lia | by apply elem_of_nil in Hin].
Defined.

(** ** The tables that break the contract *)

Definition ignores_count {W D} (e : option (Z -> Z -> Z -> M W D (Z * Z))) : Prop :=
  forall g, e = Some g -> forall buf n n' pos, g buf n pos = g buf n' pos.

Section Ignored.
Context {W : Type} `{UserAccess W} `{!Waiting W Readers.board}.

(** What the driver copies does not depend on what was asked for. *)
Lemma counts_ignored HZ junk :
  ignores_count (f_read (readers_fops (W := W) HZ)) /\
  ignores_count (f_read (keypad_fops (W := W) junk)) /\
  ignores_count (f_write (keypad_fops (W := W) junk)) /\
  ignores_count (f_read (log_fops (W := W))) /\
  ignores_count (f_write (temp_fops (W := W))) /\
  ignores_count (f_read (light_fops (W := W))) /\
  ignores_count (f_write (light_fops (W := W))) /\
  ignores_count (f_read (irq_fops (W := W))).
Proof. by split_and!; intros g [= <-]. Qed.
End Ignored.

(** No property of the driver's variables that holds of [d] makes the
    sessions on the file confined. *)
Definition unconfined {D} (f : file_operations sim D) (d : D) : Prop :=
  forall I : D -> Prop, I d -> ~ confined (W := sim) f I.

(** A session whose results or stores exceed what was asked for. *)
Definition exceeds {D} (f : file_operations sim D) (d : D) (w : sim) (cs : list syscall) (x : Z) : bool :=
  match session f 0 cs (KSt d w [] []) with
  | Done ((rs, _), σ) =>
      existsb (fun '(c, v) => asked c <? v) (zip cs rs) ||
      negb (bool_decide (umem (world σ) x = umem w x))
  | Oops _ => false
  end.

(** The calls are in range and none reads into [x]. *)
Definition admissible (cs : list syscall) (x : Z) : bool :=
  forallb (fun c => match c with
                    | SRead buf n => (0 <=? n) && (n <? 2 ^ 64) && ((x <? buf) || (buf + n <=? x))
                    | SWrite _ n => (0 <=? n) && (n <? 2 ^ 64)
                    | SSeek p => (0 <=? p) && (p <? 2 ^ 63)
                    end) cs.

Lemma admissible_ok cs x : admissible cs x = true -> Forall in_range cs /\ spared cs x.
Proof.
  intros E. assert (Hf : Forall (fun c => in_range c /\ spared [c] x) cs).
  { apply Forall_forall. intros c Hc. unfold admissible in E. rewrite forallb_forall in E.
    apply list_elem_of_In in Hc. specialize (E c Hc).
    destruct c as [buf n | buf n | p]; simpl; (split; [lia|]); intros b m Hb;
      apply list_elem_of_singleton in Hb; [|done..]. injection Hb as -> ->. unfold outside. lia. }
  split; [eapply Forall_impl; [exact Hf|]; by intros c [Hc _]|].
  intros b m Hb. rewrite Forall_forall in Hf. apply (Hf _ Hb). by left.
Qed.

Lemma exceeds_unconfined {D} (f : file_operations sim D) d w cs x :
  admissible cs x && exceeds f d w cs x = true -> unconfined f d.
Proof.
  intros [[Hcs Hx]%admissible_ok E]%andb_prop I Hd Hc. specialize (Hc cs 0 d w [] Hd ltac:(lia) Hcs). unfold wp in Hc.
  unfold exceeds in E. destruct (session f 0 cs (KSt d w [] [])) as [[[rs q] σ]|]; [|done].
  destruct Hc as (_ & _ & _ & _ & Hr & Hm). simpl in Hr. apply orb_true_iff in E as [E|E].
  - clear -Hr E. induction Hr as [|c v cs rs Hv Hr IH]; simpl in E; [done|].
    apply orb_true_iff in E as [E|E]; [apply Z.ltb_lt in E; lia | by apply IH].
  - rewrite (Hm x Hx) in E. by rewrite bool_decide_true in E.
Qed.

(** C39. The other six drivers do not keep the contract, whatever one assumes
    of their variables beyond the initial values: a read(2) of no bytes is
    answered with one byte (keypad, temperature log), three (light device),
    the whole text (interrupt demo) or the whole message (multi-reader
    driver), and a write(2) of no bytes to the temperature sensor reports
    four. *)
Theorem unconfined_tables junk :
  unconfined (keypad_fops junk) Queue.keyQueue0 /\
  unconfined log_fops Temperature.Log.temp_log0 /\
  unconfined light_fops Light.light0 /\
  unconfined irq_fops Irq.stats0 /\
  unconfined (readers_fops 250) Readers.board0 /\
  unconfined temp_fops (Temperature.Atomic.TempSensor 25 30 20 0).
Proof.
  split_and!.
  - by apply (exceeds_unconfined _ _ vfs_user [SRead 100 0] 90).
  - by apply (exceeds_unconfined _ _ vfs_user [SRead 100 0] 90).
  - by apply (exceeds_unconfined _ _ vfs_user [SRead 100 0] 90).
  - by apply (exceeds_unconfined _ _ (sim_at 100 (replicate 256 NUL)) [SRead 100 0] 90).
  - by apply (exceeds_unconfined _ _ vfs_user [SWrite 100 1; SRead 110 0] 90).
  - by apply (exceeds_unconfined _ _ vfs_user [SWrite 100 0] 90).
Qed.
