(* ===== verification/Lifetimes.v ===== *)
(** * The life of a module: insmod, open files, rmmod

    Loading a module runs its init function, which registers its devices;
    a file on a device can be opened as long as the device is registered; the
    owner entry of the table makes an open file a reference on the module, and
    rmmod runs the exit function when there is no reference. [life_step] runs
    the init and exit functions of the drivers on what they have registered,
    and calls it undefined behaviour when code of a module that is not loaded
    is entered: by an open that a forgotten registration still allows, or by a
    call or the close of a file that the missing owner has not counted. What a
    call does inside the driver is the subject of the driver's own file: here
    it may leave any variables behind.
    [owner_pins] says which drivers are safe. Code that runs without a file,
    such as the tasklet and the work item that the interrupt demo does not
    cancel when it is unloaded, is not part of this model. *)

From S2P Require Import Prelude Kernel Wp Sim Wait Sched Vfs.
From S2P Require Queue Keypad Storage StorageProps MultiChar Skeleton Poll Readers Temperature Light Irq Misc.

(** What insmod and rmmod know of a module: its initial variables, the two
    functions, and whether its table of entry points names the owner. *)
Record kmodule (W D : Type) := KModule {
  m_vars : D;
  m_init : M W D Z;
  m_exit : M W D unit;
  m_owner : bool;
}.
Arguments KModule {W D}.
Arguments m_vars {W D}.
Arguments m_init {W D}.
Arguments m_exit {W D}.
Arguments m_owner {W D}.

(** The module's variables and registrations, whether its code is loaded, the
    references on it and the open files of its devices. *)
Record life (W D : Type) := Life { sys : kst W D; loaded : bool; refs : nat; files : nat }.
Arguments Life {W D}.
Arguments sys {W D}.
Arguments loaded {W D}.
Arguments refs {W D}.
Arguments files {W D}.

(** [w] is the state of the rest of the system when the event happens; a call
    may leave any variables and any such state behind. *)
Inductive life_event (W D : Type) := Insmod (w : W) | Open | Use (d : D) (w : W) | Close | Rmmod.
Arguments Insmod {W D}.
Arguments Open {W D}.
Arguments Use {W D}.
Arguments Close {W D}.
Arguments Rmmod {W D}.

(** A device that the kernel finds when a program opens its node. *)
Definition registered (l : list resource) : bool :=
  existsb (fun r => match r with Cdev _ | MiscDev => true | _ => false end) l.

Section Life.
Context {W D : Type} (m : kmodule W D).

Definition start (w : W) : life W D := Life (KSt (m_vars m) w [] []) false 0 0.

(** Entering the module's code. *)
Definition enter (s s' : life W D) : option (outcome (life W D)) :=
  Some (if loaded s then Done s' else Oops BadPointer).

(** The kernel unloads a module again whose init function has failed. Files
    that are open from an earlier life of the module keep it from being loaded
    again here: which of the two codes their calls would reach is not
    modelled. A close looks into the table, which is part of the module. *)
Definition life_step (e : life_event W D) (s : life W D) : option (outcome (life W D)) :=
  let ref := if m_owner m then 1%nat else 0%nat in
  match e with
  | Insmod w =>
      if loaded s || (0 <? files s)%nat then None
      else Some (match m_init m (KSt (m_vars m) w (held (sys s)) (ledger (sys s))) with
                 | Done (rc, σ) => Done (Life σ (0 <=? rc) 0 0)
                 | Oops u => Oops u
                 end)
  | Open =>
      if registered (ledger (sys s)) then enter s (Life (sys s) true (refs s + ref) (files s + 1))
      else None
  | Use d w =>
      if (0 <? files s)%nat
      then enter s (Life (KSt d w (held (sys s)) (ledger (sys s))) true (refs s) (files s))
      else None
  | Close =>
      if (0 <? files s)%nat then enter s (Life (sys s) true (refs s - ref) (files s - 1)) else None
  | Rmmod =>
      if loaded s && (refs s =? 0)%nat
      then Some (match m_exit m (sys s) with
                 | Done (_, σ) => Done (Life σ false 0 (files s))
                 | Oops u => Oops u
                 end)
      else None
  end.

(** Whatever happens in whatever order, no code of an unloaded module is
    entered, init and exit function are free of undefined behaviour, and a
    module that is not loaded has nothing registered and no open file. *)
Definition pinned : Prop :=
  forall es w, exists s,
    exec life_step es (Done (start w)) = Done s /\
    (loaded s = false -> ledger (sys s) = [] /\ files s = 0%nat).

(** A module whose exit function gives back the [l] that its init function has
    registered. *)
Class Loads (l : list resource) : Prop := {
  init_loads w :
    wp (m_init m) (fun rc σ => held σ = [] /\ ledger σ = if 0 <=? rc then l else []) (KSt (m_vars m) w [] []);
  exit_unloads d w : wp (m_exit m) (fun _ σ => held σ = [] /\ ledger σ = []) (KSt d w [] l);
}.

(** With the owner named every open file is a reference. *)
Record life_ok (l : list resource) (s : life W D) : Prop := {
  ok_held : held (sys s) = [];
  ok_ledger : ledger (sys s) = if loaded s then l else [];
  ok_refs : refs s = files s;
  ok_files : loaded s = false -> files s = 0%nat;
}.

Lemma life_step_ok l `{!Loads l} e s c :
  m_owner m = true -> life_ok l s -> life_step e s = Some c -> exists s', c = Done s' /\ life_ok l s'.
Proof.
  intros Ho [Hh Hl Hr Hf] E. destruct s as [[d w h l0] up r n]. simpl in *. subst h l0 r.
  destruct e as [w1| |d1 w1| |]; simpl in E; rewrite ?Ho in E; unfold enter in E; simpl in E.
  - destruct up; [done|]. rewrite (Hf eq_refl) in E. injection E as <-.
    pose proof (init_loads (l := l) w1) as Hi. unfold wp in Hi. destruct (m_init m _) as [[rc σ]|u]; [|done].
    destruct Hi as [? Hi]. eexists. split; [done|]. by split.
  - destruct up; [|done]. destruct (registered l); [|done]. injection E as <-. eexists. split; [done|].
    split; simpl; [done | done | lia | done].
  - destruct (Nat.ltb_spec 0 n); [|done]. destruct up; [|by specialize (Hf eq_refl); lia]. injection E as <-.
    eexists. split; [done|]. by split.
  - destruct (Nat.ltb_spec 0 n); [|done]. destruct up; [|by specialize (Hf eq_refl); lia]. injection E as <-.
    eexists. split; [done|]. split; simpl; [done | done | lia | done].
  - destruct up; [|done]. destruct (Nat.eqb_spec n 0) as [->|]; [|done]. injection E as <-.
    pose proof (exit_unloads (l := l) d w) as Hx. unfold wp in Hx. destruct (m_exit m _) as [[[] σ]|u]; [|done].
    destruct Hx. eexists. split; [done|]. by split.
Qed.

Lemma loads_pinned l `{!Loads l} : m_owner m = true -> pinned.
Proof.
  intros Ho es w. destruct (exec_safe life_step (life_ok l) es (start w)) as (s & E & [_ Hl _ Hf]).
  - intros e s c. by apply life_step_ok.
  - by split.
  - exists s. split; [done|]. intros Hu. rewrite Hu in Hl. auto.
Qed.
End Life.

(** ** The modules *)

Section Modules.
Context {W : Type} `{UserAccess W} `{Signals W} `{FileIO W} `{SimpleRead W} `{Misc.AccessOk}
        `{!Waiting W Poll.slots} `{!Waiting W Readers.board} `{Grants W}.

Definition storage_module : kmodule W Storage.disk :=
  KModule StorageProps.disk0 Storage.storage_driver_init Storage.storage_driver_exit (f_owner storage_fops).

(** The array of devices does not exist before the init function; [filp] and
    [minor] do not matter for the owner. *)
Definition mydev_module : kmodule W MultiChar.mydevs :=
  KModule [] MultiChar.mydev_init MultiChar.mydev_exit (f_owner (mydev_fops 0 None)).

Definition skeleton_module : kmodule W Skeleton.chrdev :=
  KModule Skeleton.chrdev0 Skeleton.dev_init Skeleton.dev_exit (f_owner skeleton_fops).

Definition poll_module : kmodule W Poll.slots :=
  KModule Poll.slots0 Poll.dev_init Poll.dev_exit (f_owner (poll_fops false 0)).

Definition misc_module : kmodule W (list byte) :=
  KModule Misc.kernel_buffer0 Misc.misc_init Misc.misc_exit (f_owner misc_fops).

Definition readers_module : kmodule W Readers.board :=
  KModule Readers.board0 Readers.dev_init Readers.dev_exit (f_owner (readers_fops 250)).

Definition keypad_module : kmodule W Queue.queue :=
  KModule Queue.keyQueue0 Keypad.temp_init Keypad.temp_exit (f_owner (keypad_fops NUL)).

Definition log_module : kmodule W Temperature.Log.temp_log :=
  KModule Temperature.Log.temp_log0 Temperature.Log.temp_init Temperature.Log.temp_exit (f_owner log_fops).

Definition temp_module : kmodule W Temperature.Atomic.temp_sensor :=
  KModule (Temperature.Atomic.TempSensor 0 0 0 0) Temperature.Atomic.temp_init Temperature.Atomic.temp_exit
          (f_owner temp_fops).

Definition light_module : kmodule W Light.light :=
  KModule Light.light0 Light.light_driver_init Light.light_driver_exit (f_owner light_fops).

Definition irq_module : kmodule W Irq.irq_stats :=
  KModule Irq.stats0 Irq.irq_init Irq.irq_exit (f_owner irq_fops).
End Modules.

(** A chrdev with its number, class and device. *)
Definition chrdev_ledger : list resource := [Device 0; Class_; Cdev 0; Region].

(** The drivers that look at every result. *)
Section Careful.
Context {W : Type} `{UserAccess W} `{Signals W} `{FileIO W} `{SimpleRead W} `{Misc.AccessOk}
        `{!Waiting W Poll.slots} `{!Waiting W Readers.board} `{GrantsOk W}.

#[export] Instance storage_loads : Loads (storage_module (W := W)) chrdev_ledger.
Proof.
  split; simpl; [intros w | intros d w].
  - unfold Storage.storage_driver_init, Storage.storage_register. unfold_kernel. wp_auto; use_grants; try done.
    all: destruct (Z.leb_spec 0 rc); [lia | done].
  - unfold Storage.storage_driver_exit. unfold_kernel. by wp_auto.
Qed.

#[export] Instance skeleton_loads : Loads (skeleton_module (W := W)) chrdev_ledger.
Proof.
  split; simpl; [intros w | intros d w].
  - unfold Skeleton.dev_init. unfold_kernel. wp_auto; use_grants; try lia; try done.
    all: destruct (Z.leb_spec 0 rc); [lia | done].
  - unfold Skeleton.dev_exit. unfold_kernel. by wp_auto.
Qed.

#[export] Instance irq_loads : Loads (irq_module (W := W)) (SysGroup :: chrdev_ledger).
Proof.
  split; simpl; [intros w | intros d w].
  - unfold Irq.irq_init. unfold_kernel. wp_auto; use_grants; try lia; try done.
    all: destruct (Z.leb_spec 0 rc); [lia | done].
  - unfold Irq.irq_exit. unfold_kernel. by wp_auto.
Qed.

#[export] Instance misc_loads : Loads (misc_module (W := W)) [MiscDev].
Proof.
  split; simpl; [intros w | intros d w].
  - unfold Misc.misc_init. wp_auto; use_grants; try done. destruct (Z.leb_spec 0 rc); [lia | done].
  - unfold Misc.misc_exit. by wp_auto.
Qed.

#[export] Instance mydev_loads :
  Loads (mydev_module (W := W))
        (MultiChar.dev_resources 1 ++ MultiChar.dev_resources 0 ++ MultiChar.base_resources).
Proof.
  split; simpl; [intros w | intros d w; apply MultiChar.mydev_exit_spec].
  eapply wp_mono; [apply MultiChar.mydev_init_spec|]. intros rc σ (Hh & Hn & Hr). specialize (Hn _).
  split; [done|]. destruct (Z.eqb_spec rc 0) as [->|]; [by destruct Hr|].
  destruct (Z.leb_spec 0 rc); [lia | done].
Qed.
End Careful.

(** The drivers that leave some result unread, or stumble over an error: the
    kernel has to grant them what they ask for. *)
Class Generous (W : Type) `{Grants W} : Prop := {
  generous r (w : W) rc w' : k_grant r w = (rc, w') -> rc = 0;
}.

Ltac all_granted :=
  repeat match goal with
  | E : k_grant _ _ = (?rc, _) |- _ => apply generous in E; first [subst rc | lia]
  end.

Section Careless.
Context {W : Type} `{UserAccess W} `{Signals W} `{FileIO W} `{SimpleRead W} `{Misc.AccessOk}
        `{!Waiting W Poll.slots} `{!Waiting W Readers.board} `{Generous W}.

#[export] Instance readers_loads : Loads (readers_module (W := W)) chrdev_ledger.
Proof.
  split; simpl; [intros w | intros d w].
  - unfold Readers.dev_init, device_create_in. unfold_kernel. wp_auto; all_granted; try done.
  - unfold Readers.dev_exit. unfold_kernel. by wp_auto.
Qed.

#[export] Instance keypad_loads : Loads (keypad_module (W := W)) [Device 0; Cdev 0; Region; Class_].
Proof.
  split; simpl; [intros w | intros d w].
  - unfold Keypad.temp_init, device_create_in. unfold_kernel. wp_auto; all_granted; try done.
  - unfold Keypad.temp_exit. unfold_kernel. by wp_auto.
Qed.

#[export] Instance log_loads : Loads (log_module (W := W)) [Device 0; Cdev 0; Region; Class_].
Proof.
  split; simpl; [intros w | intros d w].
  - unfold Temperature.Log.temp_init, Temperature.Log.get_temp_val, device_create_in. unfold_kernel. wp_auto; all_granted; try done.
  - unfold Temperature.Log.temp_exit. unfold_kernel. by wp_auto.
Qed.

#[export] Instance temp_loads : Loads (temp_module (W := W)) chrdev_ledger.
Proof.
  split; simpl; [intros w | intros d w].
  - unfold Temperature.Atomic.temp_init, device_create_in. unfold_kernel. wp_auto; all_granted; try done.
  - unfold Temperature.Atomic.temp_exit. unfold_kernel. by wp_auto.
Qed.

#[export] Instance light_loads : Loads (light_module (W := W)) chrdev_ledger.
Proof.
  split; simpl; [intros w | intros d w].
  - unfold Light.light_driver_init, device_create_in. unfold_kernel. wp_auto; all_granted; try done.
  - unfold Light.light_driver_exit. unfold_kernel. by wp_auto.
Qed.

#[export] Instance poll_loads :
  Loads (poll_module (W := W)) [Device 1; Device 0; Class_; Cdev 0; Region].
Proof.
  split; simpl; [intros w | intros d w].
  - unfold Poll.dev_init, Poll.set_device. change (Z.to_nat Poll.DEVICE_CNT) with 2%nat. cbn [for_]. unfold_kernel.
    wp_auto; all_granted; try done. change (zset (Poll.my_devices Poll.slots0) 0 0) with (Some [0; 0]).
    by wp_auto; all_granted.
  - unfold Poll.dev_exit. change (Z.to_nat Poll.DEVICE_CNT) with 2%nat. cbn [for_]. unfold_kernel. by wp_auto.
Qed.
End Careless.

(** ** The property *)

Ltac loads := match goal with |- pinned ?m => exact (loads_pinned m _ eq_refl) end.

(** The module with an owner in its table. *)
Definition name_owner {W D} (m : kmodule W D) : kmodule W D := KModule (m_vars m) (m_init m) (m_exit m) true.

Lemma name_owner_loads {W D} (m : kmodule W D) l : Loads m l -> Loads (name_owner m) l.
Proof. by intros [Hi Hx]. Qed.

(** A module without it whose device can be opened after a successful load. *)
Lemma no_owner_unpinned {W D} (m : kmodule W D) (w w' : W) (d' : D) l :
  Loads m l -> m_owner m = false -> registered l = true ->
  wp (m_init m) (fun rc _ => 0 <= rc) (KSt (m_vars m) w [] []) -> ~ pinned m.
Proof.
  intros [Hi Hx] Ho Hr E Hp. destruct (Hp [Insmod w; Open; Rmmod; Use d' w'] w) as (s & Es & _). clear Hp.
  specialize (Hi w). unfold wp in Hi, E. unfold exec in Es. simpl in Es.
  destruct (m_init m _) as [[rc [d1 w1 h1 l1]]|u]; [|done]. simpl in *. destruct Hi as [-> ->].
  specialize (Hx d1 w1). unfold wp in Hx. destruct (Z.leb_spec 0 rc); [|lia]. simpl in Es.
  rewrite Hr, Ho in Es. simpl in Es. destruct (m_exit m _) as [[u σ]|u]; done.
Qed.

(** C26. Insmod, opens, calls, closes and rmmod of a driver happen in any
    order and number, init and exit function run on what the driver has
    registered so far, and a device can be opened as long as it is registered.
    Four drivers (storage, two-device, skeleton, misc) are then safe whichever
    registrations the kernel refuses: neither function has undefined behaviour,
    no code of an unloaded module is entered, and when the module is not loaded
    nothing of it is registered and no file is open. Six more are safe when the
    kernel grants what they ask for. The interrupt demo is not even then,
    because its table does not name its owner: with the owner named these
    events would be safe as they are for the first four. *)
Theorem owner_pins {W} `{UserAccess W} `{Signals W} `{FileIO W} `{SimpleRead W} `{Misc.AccessOk}
    `{!Waiting W Poll.slots} `{!Waiting W Readers.board} `{GrantsOk W} :
  pinned (storage_module (W := W)) /\ pinned (mydev_module (W := W)) /\
  pinned (skeleton_module (W := W)) /\ pinned (misc_module (W := W)) /\
  pinned (name_owner (irq_module (W := W))) /\
  (Generous W ->
   pinned (poll_module (W := W)) /\ pinned (readers_module (W := W)) /\
   pinned (keypad_module (W := W)) /\ pinned (log_module (W := W)) /\
   pinned (temp_module (W := W)) /\ pinned (light_module (W := W)) /\
   (W -> ~ pinned (irq_module (W := W)))).
Proof.
  split_and!; try loads; [by apply (loads_pinned _ _ (Loads0 := name_owner_loads _ _ irq_loads))|].
  intros Hg. split_and!; try loads. intros w.
  refine (no_owner_unpinned _ w w Irq.stats0 _ irq_loads eq_refl eq_refl _). simpl.
  unfold Irq.irq_init. unfold_kernel. by wp_auto; all_granted.
Qed.

(** ** At concrete kernels *)

(** One that grants everything. *)
Section Granting.
#[local] Instance granting : Grants sim := { k_grant _ w := (0, w) }.
#[local] Instance granting_ok : GrantsOk sim.
Proof. split. by intros r w rc w' [= <- <-]. Qed.
#[local] Instance granting_generous : Generous sim.
Proof. split. by intros r w rc w' [= <- <-]. Qed.
#[local] Existing Instance Misc.sim_access.

(** An unload is refused while the second of two opens is not closed, and the
    device is gone after it. *)
Definition two_opens : list (life_event sim Light.light) :=
  [Insmod (sim_at 0 []); Open; Open; Close; Rmmod; Use Light.light0 (sim_at 0 []); Close; Rmmod; Open].

Lemma owner_pins_witness :
  exists s, exec (life_step light_module) two_opens (Done (start light_module (sim_at 0 []))) = Done s /\
    (loaded s = false -> ledger (sys s) = [] /\ files s = 0%nat).
Proof.
  destruct (owner_pins (W := sim)) as (_ & _ & _ & _ & _ & Hg).
  destruct (Hg granting_generous) as (_ & _ & _ & _ & _ & Hl & _). apply Hl.
Defined.

Example unload_waits :
  match exec (life_step light_module) (take 6 two_opens) (Done (start light_module (sim_at 0 []))) with
  | Done s => loaded s = true /\ files s = 1%nat
  | Oops _ => False
  end.
Proof. vm_compute. by split. Qed.
End Granting.

(** Where a registration is refused the careless drivers load all the same,
    and their exit functions give back what they do not have: the multi-reader
    driver without its cdev, the keypad and the light without their numbers.
    The poll driver reads in front of its array of devices. *)
Example refused_registrations :
  let unloads {D} (m : kmodule sim D) rcs :=
    exec (life_step m) [Insmod (set_grants rcs (sim_at 0 [])); Rmmod] (Done (start m (sim_at 0 []))) in
  unloads (readers_module (W := sim)) [0; - ENOMEM] = Oops NotOwned /\
  unloads (keypad_module (W := sim)) [0; - ENOMEM] = Oops NotOwned /\
  unloads (light_module (W := sim)) [- ENOMEM] = Oops NotOwned /\
  unloads (poll_module (W := sim)) [0; 0; 0; - ENOMEM] = Oops OutOfBounds.
Proof. by vm_compute. Qed.
