(* ===== verification/Sysfs.v ===== *)
(** * The attribute tables of sysfs, and what the system may expect of them

    Eight drivers publish attributes: a name, a mode, a show and a store
    function. sysfs calls show with a page to fill, and store with the bytes
    of a write and a terminator behind them. [attr_ok] is the contract: show
    answers the length of its text, which fits into the page and ends in a
    newline, store takes at least one byte of what it got, and both keep the
    driver's variables in order. A program may then read and write the
    attributes as it likes ([attributes_answer]); the sensors need a register
    block of at least eight bytes for it. The colour attribute of 006 breaks
    the contract ([color_unsafe]). *)

From S2P Require Import Prelude Kernel Wp Sim Sensor.
From S2P Require MultiChar Leds Irq Power.

Definition PAGE_SIZE : Z := 4096.

(** ** struct attribute with its functions *)

(** An entry that the macro does not set is NULL. A show function returns its
    result and the text it has left in the page. *)
Record attribute (W D : Type) := Attribute {
  a_name : string;
  a_mode : Z;
  a_show : option (M W D (Z * list byte));
  a_store : option (list byte -> Z -> M W D Z);
}.
Arguments Attribute {W D}.
Arguments a_name {W D}.
Arguments a_mode {W D}.
Arguments a_show {W D}.
Arguments a_store {W D}.

(** The macros of the kernel: modes 0444, 0200 and 0644. *)
Section Macros.
Context {W D : Type}.
Definition DEVICE_ATTR_RO (name : string) (sh : M W D (Z * list byte)) : attribute W D :=
  Attribute name 292 (Some sh) None.
Definition DEVICE_ATTR_WO (name : string) (st : list byte -> Z -> M W D Z) : attribute W D :=
  Attribute name 128 None (Some st).
Definition DEVICE_ATTR_RW (name : string) (sh : M W D (Z * list byte)) (st : list byte -> Z -> M W D Z)
  : attribute W D := Attribute name 420 (Some sh) (Some st).
Definition attr (name : string) (mode : Z) (sh : M W D (Z * list byte)) (st : list byte -> Z -> M W D Z)
  : attribute W D := Attribute name mode (Some sh) (Some st).
End Macros.

Section Tables.
Context {W : Type}.

(** 0664; the name of the third attribute is a row of backquotes. *)
Definition rgb_attrs `{Leds.ParseInt} : list (attribute W Leds.Rgb.rgb) :=
  [attr "color" 436 Leds.Rgb.color_show Leds.Rgb.color_store;
   attr "brightness" 436 Leds.Rgb.brightness_show Leds.Rgb.brightness_store;
   attr "``````````````````````" 436 Leds.Rgb.power_show Leds.Rgb.power_store].

Definition gpio_attrs `{Leds.ParseInt} `{Leds.GpioLine W} : list (attribute W Z) :=
  [attr "value" 436 Leds.Gpio.value_show Leds.Gpio.value_store].

(** [drvdata] is the driver data of the device. *)
Definition mydev_attrs `{Signals W} (drvdata : option Z) : list (attribute W MultiChar.mydevs) :=
  [DEVICE_ATTR_RW "data" (MultiChar.data_show drvdata) (MultiChar.data_store drvdata);
   DEVICE_ATTR_RO "stats" (MultiChar.stats_show drvdata);
   DEVICE_ATTR_WO "reset" (MultiChar.reset_store drvdata)].

Definition plat_attrs `{Platform W} `{ParseUint} : list (attribute W Plat.drvdata) :=
  [DEVICE_ATTR_RO "temp" Plat.temp_show; DEVICE_ATTR_WO "control" Plat.control_store].

Definition dt_attrs `{Platform W} `{ParseUint} : list (attribute W Plat.drvdata) :=
  [DEVICE_ATTR_RO "temp" Dt.temp_show; DEVICE_ATTR_WO "control" Dt.control_store].

Definition of_attrs `{Platform W} `{ParseUint} : list (attribute W Of.drvdata) :=
  [DEVICE_ATTR_RO "temp" Of.temp_show; DEVICE_ATTR_WO "control" Of.control_store;
   DEVICE_ATTR_RO "threshold" Of.threshold_show].

Definition pin_attrs `{ParseUint} `{Leds.GpioLine W} : list (attribute W bool) :=
  [DEVICE_ATTR_RW "gpio_state" Leds.Pin.gpio_state_show Leds.Pin.gpio_state_store;
   DEVICE_ATTR_RO "gpio_direction" Leds.Pin.gpio_direction_show].

Definition power_attrs `{Power.RuntimePM W} : list (attribute W Z) :=
  [DEVICE_ATTR_RW "state" Power.state_show Power.state_store].

Definition irq_attrs : list (attribute W Irq.irq_stats) :=
  [DEVICE_ATTR_RO "irq_count" Irq.irq_count_show;
   DEVICE_ATTR_RO "irq_info" Irq.irq_info_show;
   DEVICE_ATTR_WO "trigger_work" (fun _ => Irq.trigger_work_store);
   DEVICE_ATTR_WO "trigger_tasklet" (fun _ => Irq.trigger_tasklet_store);
   DEVICE_ATTR_WO "reset_count" (fun _ => Irq.reset_count_store)].
End Tables.

(** ** A program's accesses *)

(** Reading an attribute from its start, and writing a text to it. *)
Inductive access := Cat (name : string) | Echo (name : string) (text : list byte).

Section Accesses.
Context {W D : Type}.

Definition find_attr (name : string) (attrs : list (attribute W D)) : option (attribute W D) :=
  list_find (fun a => a_name a = name) attrs ≫= fun p => Some p.2.

(** A program writes until everything is taken or an error comes back; sysfs
    passes on at most a page, with a terminator. [None]: the fuel is out. *)
Fixpoint write_all (fuel : nat) (st : list byte -> Z -> M W D Z) (text : list byte) : M W D (option Z) :=
  match text, fuel with
  | [], _ => mret (Some 0)
  | _, O => mret None
  | _, S fuel =>
      let chunk := take (Z.to_nat PAGE_SIZE) text in
      r ← st (chunk ++ [NUL]) (zlen chunk);
      if r <? 0 then mret (Some r)
      else
        rest ← write_all fuel st (drop (Z.to_nat r) text);
        mret ((fun k => if k <? 0 then k else r + k) <$> rest)
  end.

(** The result and the text that was read. *)
Definition do_access (attrs : list (attribute W D)) (c : access) : M W D (option Z * list byte) :=
  match c with
  | Cat name =>
      match find_attr name attrs with
      | None => mret (Some (- ENOENT), [])
      | Some a =>
          match a_show a with
          | Some sh => r ← sh; mret (Some r.1, r.2)
          | None => mret (Some (- EIO), [])
          end
      end
  | Echo name text =>
      match find_attr name attrs with
      | None => mret (Some (- ENOENT), [])
      | Some a =>
          match a_store a with
          | Some st => r ← write_all (length text) st text; mret (r, [])
          | None => mret (Some (- EIO), [])
          end
      end
  end.

Fixpoint accesses (attrs : list (attribute W D)) (cs : list access) : M W D (list (option Z * list byte)) :=
  match cs with
  | [] => mret []
  | c :: cs => r ← do_access attrs c; rs ← accesses attrs cs; mret (r :: rs)
  end.
End Accesses.

(** ** The contract *)

Definition readable (mode : Z) : bool := negb (Z.land mode 292 =? 0).
Definition writable (mode : Z) : bool := negb (Z.land mode 146 =? 0).

(** The mode says what the attribute can do. *)
Definition mode_ok {W D} (a : attribute W D) : bool :=
  Bool.eqb (readable (a_mode a)) (bool_decide (is_Some (a_show a))) &&
  Bool.eqb (writable (a_mode a)) (bool_decide (is_Some (a_store a))).

(** An error, or the length of the text, which fits into the page and ends in a
    newline. *)
Definition shown (r : Z * list byte) : Prop :=
  r.1 < 0 \/ r.1 = zlen r.2 /\ r.1 < PAGE_SIZE /\ last r.2 = Some LF.

Definition taken (count r : Z) : Prop := r < 0 \/ 0 < r <= count.

(** [I] is what the driver keeps of its variables. *)
Definition show_ok {W D} (I : D -> Prop) (sh : M W D (Z * list byte)) : Prop :=
  forall d (w : W) l, I d ->
    wp sh (fun r σ => I (drv σ) /\ held σ = [] /\ ledger σ = l /\ shown r) (KSt d w [] l).
Definition store_ok {W D} (I : D -> Prop) (st : list byte -> Z -> M W D Z) : Prop :=
  forall text d (w : W) l, I d -> 0 < zlen text <= PAGE_SIZE ->
    wp (st (text ++ [NUL]) (zlen text))
       (fun r σ => I (drv σ) /\ held σ = [] /\ ledger σ = l /\ taken (zlen text) r) (KSt d w [] l).

Record attr_ok {W D} (I : D -> Prop) (a : attribute W D) : Prop := {
  ok_mode : mode_ok a = true;
  ok_show sh : a_show a = Some sh -> show_ok I sh;
  ok_store st : a_store a = Some st -> store_ok I st;
}.

Class Conforms {W D} (attrs : list (attribute W D)) (I : D -> Prop) : Prop := {
  each_ok : Forall (attr_ok I) attrs;
  names_apart : NoDup (a_name <$> attrs);
}.

(** The answers a program gets: an error, or for a read the length of the text
    it got, for a write all of the text taken. *)
Definition answered (c : access) (r : option Z * list byte) : Prop :=
  exists v, r.1 = Some v /\
    match c with
    | Cat _ => shown (v, r.2)
    | Echo _ text => r.2 = [] /\ (v < 0 \/ v = zlen text)
    end.

Definition answers {W D} (attrs : list (attribute W D)) (I : D -> Prop) : Prop :=
  forall cs d (w : W) l, I d ->
  wp (accesses attrs cs)
     (fun rs σ => I (drv σ) /\ held σ = [] /\ ledger σ = l /\ Forall2 answered cs rs) (KSt d w [] l).

(** ... with modes that say what the attributes can do and names apart. *)
Definition served {W D} (attrs : list (attribute W D)) (I : D -> Prop) : Prop :=
  Forall (fun a => mode_ok a = true) attrs /\ NoDup (a_name <$> attrs) /\ answers attrs I.

Section Answers.
Context {W D : Type} (I : D -> Prop).
Implicit Types (d : D) (w : W).

Lemma find_attr_in name (attrs : list (attribute W D)) a :
  find_attr name attrs = Some a -> a ∈ attrs /\ a_name a = name.
Proof.
  unfold find_attr. destruct (list_find _ attrs) as [[i x]|] eqn:E; [|done]. intros [= <-].
  apply list_find_Some in E as (Hi & Hn & _). split; [by eapply list_elem_of_lookup_2 | done].
Qed.

Lemma zlen_take_le {A} n (l : list A) : 0 <= n -> zlen (take (Z.to_nat n) l) = Z.min n (zlen l).
Proof. intros Hn. unfold zlen. rewrite length_take. lia. Qed.

Lemma zlen_drop {A} n (l : list A) : 0 <= n <= zlen l -> zlen (drop (Z.to_nat n) l) = zlen l - n.
Proof. intros Hn. unfold zlen in *. rewrite length_drop. lia. Qed.

(** The fuel is enough: every round takes at least one byte. *)
Lemma write_all_ok st fuel text d w l :
  store_ok I st -> I d -> (length text <= fuel)%nat ->
  wp (write_all fuel st text)
     (fun r σ => I (drv σ) /\ held σ = [] /\ ledger σ = l /\
        exists v, r = Some v /\ (v < 0 \/ v = zlen text)) (KSt d w [] l).
Proof.
  intros Hst. revert text d w. induction fuel as [|fuel IH]; intros [|b text] d w Hd Hf; simpl in Hf; try lia.
  1, 2: apply wp_ret; split_and!; try done; eexists; split; [done | by right].
  cbn [write_all]. cbv zeta. set (all := b :: text) in *.
  assert (Hall : 0 < zlen all) by (unfold all, zlen; simpl; lia).
  assert (Hlen : zlen all <= Z.of_nat fuel + 1) by (unfold all, zlen; simpl; lia). clearbody all.
  set (chunk := take (Z.to_nat PAGE_SIZE) all).
  assert (Hc : zlen chunk = Z.min PAGE_SIZE (zlen all)) by (apply zlen_take_le; unfold PAGE_SIZE; lia).
  apply wp_bind. eapply wp_mono; [apply Hst; [done | unfold PAGE_SIZE in *; lia]|].
  intros r [d1 w1 h1 l1] (Hd1 & Hh & Hl & Hr). simpl in *. subst h1 l1.
  destruct (Z.ltb_spec r 0); [apply wp_ret; split_and!; try done; eexists; split; [done | by left]|].
  destruct Hr as [?|Hr]; [lia|]. assert (Hz : zlen (drop (Z.to_nat r) all) = zlen all - r) by (apply zlen_drop; lia).
  apply wp_bind. eapply wp_mono; [apply (IH (drop (Z.to_nat r) all)); [done | unfold zlen in *; lia]|].
  intros o σ (Hd2 & Hh2 & Hl2 & v & -> & Hv). apply wp_ret. split_and!; try done.
  eexists. split; [done|]. destruct (Z.ltb_spec v 0); [by left | right]. lia.
Qed.

Lemma refused c e : 0 < e -> answered c (Some (- e), []).
Proof. intros He. eexists. split; [done|]. destruct c; [left; simpl; lia | split; [done | left; lia]]. Qed.

Lemma do_access_ok attrs `{!Conforms attrs I} c d w l :
  I d -> wp (do_access attrs c)
    (fun r σ => I (drv σ) /\ held σ = [] /\ ledger σ = l /\ answered c r) (KSt d w [] l).
Proof.
  intros Hd. destruct c as [name | name text]; simpl; destruct (find_attr name attrs) as [a|] eqn:E.
  2, 4: apply wp_ret; split_and!; try done; by apply refused.
  all: apply find_attr_in in E as [Hin _]; pose proof (proj1 (Forall_forall _ _) each_ok a Hin) as [_ Hsh Hst].
  - destruct (a_show a) as [sh|]; [|by apply wp_ret; split_and!; try apply refused].
    apply wp_bind. eapply wp_mono; [by apply Hsh|]. intros r σ (? & ? & ? & Hr). apply wp_ret.
    split_and!; try done. by exists r.1.
  - destruct (a_store a) as [st|]; [|by apply wp_ret; split_and!; try apply refused].
    apply wp_bind. eapply wp_mono; [by apply write_all_ok; [apply Hst | done | done]|].
    intros r σ (? & ? & ? & v & -> & Hv). apply wp_ret. split_and!; try done. by exists v.
Qed.

Lemma conforms_answers attrs `{!Conforms attrs I} : answers (W := W) attrs I.
Proof.
  intros cs. induction cs as [|c cs IH]; intros d w l Hd; [by apply wp_ret|]. cbn [accesses].
  apply wp_bind. eapply wp_mono; [by apply do_access_ok|].
  intros r [d1 w1 h1 l1] (Hd1 & Hh & Hl & Hr). simpl in *. subst h1 l1.
  apply wp_bind. eapply wp_mono; [by apply IH|]. intros rs σ (? & ? & ? & Hrs). apply wp_ret.
  split_and!; try done. by constructor.
Qed.

Lemma conforms_served attrs `{!Conforms attrs I} : served (W := W) attrs I.
Proof.
  split_and!; [|apply names_apart|by apply conforms_answers].
  eapply Forall_impl; [apply each_ok|]. by intros a [Hm _ _].
Qed.
End Answers.

(** ** The drivers that keep it *)

(** kstrtoint, sscanf and gpiod_get_value deliver ints; kstrtoint answers a
    negative error; the direction of a line is an int. *)
Class ParseIntOk `{Leds.ParseInt} : Prop := {
  kstrtoint_int s v : Leds.k_kstrtoint s = inl v -> is_int v;
  kstrtoint_error s e : Leds.k_kstrtoint s = inr e -> e < 0;
  sscanf_int s v : Leds.k_sscanf_d s = Some v -> is_int v;
}.
Class GpioLineOk (W : Type) `{Leds.GpioLine W} : Prop := {
  gpio_value_int (w : W) : is_int (Leds.k_gpiod_get_value w);
}.

Lemma dec_int z : is_int z -> zlen (dec z) <= 11.
Proof.
  intros Hz. unfold is_int, INT_MIN, INT_MAX in Hz. destruct (Z.ltb_spec z 0) as [Hn|Hn].
  - unfold dec. rewrite (proj2 (Z.ltb_lt _ _)) by done.
    pose proof (length_digits (S (Z.to_nat (Z.log2 (Z.abs z)))) 10 (- z) ltac:(lia) ltac:(lia)).
    unfold zlen. simpl length in *. lia.
  - pose proof (length_dec 10 z ltac:(lia) ltac:(lia)). unfold zlen. lia.
Qed.

(** A line of at most [n] characters. *)
Lemma shown_line (out : list byte) n :
  zlen out <= n -> n < PAGE_SIZE - 1 -> shown (zlen (out ++ [LF]), out ++ [LF]).
Proof.
  intros Ho Hn. right. simpl. rewrite zlen_app. change (zlen [LF]) with 1.
  split_and!; [done | lia | apply last_snoc].
Qed.

Lemma shown_text (out front : list byte) :
  out = front ++ [LF] -> zlen front < PAGE_SIZE - 1 -> shown (zlen out, out).
Proof. intros -> Hf. by apply (shown_line _ (zlen front)). Qed.

Lemma taken_all (text : list byte) : 0 < zlen text <= PAGE_SIZE -> taken (zlen text) (zlen text).
Proof. intros H. right. lia. Qed.

(** The goals of a table, attribute by attribute. *)
Ltac each_attr :=
  split; [repeat (constructor; [split; [reflexivity | intros ? [= <-] | intros ? [= <-]]|]); [..|constructor]
         | repeat constructor; set_solver].

Section Instances.
Context {W : Type}.

#[export] Instance gpio_conforms `{ParseIntOk} `{Leds.GpioLine W} : Conforms (W := W) gpio_attrs is_int.
Proof.
  each_attr.
  - intros d w l Hd. unfold Leds.Gpio.value_show. wp_auto. split_and!; try done.
    apply (shown_line _ 11); [by apply dec_int | done].
  - intros text d w l Hd Ht. unfold Leds.Gpio.value_store. destruct (Leds.k_sscanf_d _) as [v|] eqn:E; wp_auto.
    all: apply wp_call; intros [] w' _; wp_auto; split_and!; eauto using sscanf_int, taken_all.
Qed.

#[export] Instance mydev_conforms `{SignalsOk W} i (Hi : 0 <= i < MultiChar.MYDEV_COUNT) :
  Conforms (W := W) (mydev_attrs (Some i)) MultiChar.mydevs_ok.
Proof.
  each_attr.
  - intros d w l Hd. destruct (MultiChar.mydevs_ok_get d i Hd Hi) as (x & Hx & [Hb Hl]).
    unfold MultiChar.data_show. wp_auto; [|split_and!; try done; by left].
    apply MultiChar.wp_get_dev with x; [done|]. wp_auto. split_and!; try done.
    apply (shown_line _ 1024); [|done]. etrans; [apply zlen_until_nul|]. unfold MultiChar.BUF_SIZE in *.
    unfold zlen in *. rewrite length_take. lia.
  - intros text d w l Hd Ht. destruct (MultiChar.mydevs_ok_get d i Hd Hi) as (x & Hx & Hok).
    eapply wp_mono; [apply (MultiChar.data_store_spec i (text ++ [NUL]) (zlen text) x); auto with kern|].
    { rewrite zlen_app. change (zlen [NUL]) with 1. lia. }
    intros r [d1 w1 h1 l1] (x' & (-> & -> & ->) & _ & Hr). simpl in *.
    unfold MultiChar.BUF_SIZE, PAGE_SIZE in *. split_and!; try done.
    + apply MultiChar.with_dev_ok; [done|]. destruct Hok as [Hb Hl]. destruct Hr as [[_ ->]|[-> ->]]; [done|].
      split; simpl; unfold MultiChar.BUF_SIZE in *; [|lia].
      assert (Hs : zlen (sub 0 (zlen text `min` 1024) (text ++ [NUL])) = zlen text `min` 1024).
      { apply zlen_sub; rewrite ?zlen_app; pose proof (zlen_nonneg [NUL]); lia. }
      rewrite zlen_upd; rewrite ?Hs; lia.
    + destruct Hr as [[-> _]|[-> _]]; [by left | right; lia].
  - intros d w l Hd. destruct (MultiChar.mydevs_ok_get d i Hd Hi) as (x & Hx & [Hb Hl]).
    unfold MultiChar.stats_show. wp_auto; [|split_and!; try done; by left].
    apply MultiChar.wp_get_dev with x; [done|]. wp_auto. split_and!; try done.
    apply (shown_line (bytes_of "len=" ++ dec (MultiChar.len x)) 14); [|done]. rewrite zlen_app. change (zlen (bytes_of "len=")) with 4.
    unfold MultiChar.BUF_SIZE in *.
    pose proof (length_dec 10 (MultiChar.len x) ltac:(lia) ltac:(lia)). unfold zlen in *. lia.
  - intros text d w l Hd Ht. destruct (MultiChar.mydevs_ok_get d i Hd Hi) as (x & Hx & [Hb Hl]).
    unfold MultiChar.reset_store. wp_auto; [|split_and!; try done; by left].
    apply MultiChar.wp_get_dev with x; [done|]. rewrite Hb, in_bounds_true by done. unfold MultiChar.put_dev. wp_auto.
    split_and!; try done; [|by apply taken_all]. apply MultiChar.with_dev_ok; [done|].
    split; cbn [MultiChar.buf MultiChar.len]; [|unfold MultiChar.BUF_SIZE; lia].
    rewrite zlen_upd; rewrite ?zlen_replicate; unfold MultiChar.BUF_SIZE in *; lia.
Qed.

(** The register block covers both registers. *)
Definition plat_bound (d : Plat.drvdata) : Prop :=
  exists p, d = Some p /\ 8 <= io_size (Plat.base_addr p).
Definition of_bound (d : Of.drvdata) : Prop :=
  exists p, d = Some p /\ 8 <= io_size (Of.base_addr p) /\ 0 <= Of.threshold p < 2 ^ 32.

Lemma dec_u32 z : 0 <= z < 2 ^ 32 -> zlen (dec z) <= 10.
Proof. intros Hz. unfold zlen. pose proof (length_dec 10 z ltac:(lia) ltac:(lia)). lia. Qed.

(** Reading the temperature register and printing it; storing to the control
    register. *)
Lemma show_register `{PlatformOk W} {D} (m : iomem) (Q : Z * list byte -> kst W D -> Prop) d w h l :
  8 <= io_size m -> (forall w' r, shown r -> Q r (KSt d w' h l)) ->
  wp (v ← ioread32 m 0; let out := dec v ++ [LF] in mret (zlen out, out)) Q (KSt d w h l).
Proof.
  intros Hm HQ. unfold ioread32. rewrite in_bounds_true by lia. wp_step. apply wp_call. intros v w' E.
  apply wp_ret, HQ. apply (shown_line _ 10); [|done]. by eapply dec_u32, ioread_ok.
Qed.

Lemma wp_control `{Platform W} {D} v (m : iomem) (Q : unit -> kst W D -> Prop) d w h l :
  8 <= io_size m -> (forall w', Q tt (KSt d w' h l)) -> wp (iowrite32 v m 4) Q (KSt d w h l).
Proof.
  intros Hm HQ. unfold iowrite32. rewrite in_bounds_true by lia. apply wp_call. intros [] w' _. apply HQ.
Qed.

#[export] Instance plat_conforms `{PlatformOk W} `{ParseUint} : Conforms (W := W) plat_attrs plat_bound.
Proof.
  each_attr.
  - intros d w l (p & -> & Hp). unfold Plat.temp_show. do 3 wp_step. apply show_register; [done|].
    intros w' r Hr. split_and!; try done. by exists p.
  - intros text d w l (p & -> & Hp) Ht. unfold Plat.control_store. do 3 wp_step.
    destruct (k_kstrtouint _ _) as [rc v]. do 2 wp_step. destruct (rc =? 0); [|wp_auto; split_and!; try done; [by exists p | by apply taken_all]].
    do 2 wp_step. apply wp_control; [done|]. intros w'. wp_red. wp_auto. split_and!; try done; [by eexists | by apply taken_all].
Qed.

#[export] Instance dt_conforms `{PlatformOk W} `{ParseUint} : Conforms (W := W) dt_attrs plat_bound.
Proof. apply plat_conforms. Qed.

#[export] Instance of_conforms `{PlatformOk W} `{ParseUint} : Conforms (W := W) of_attrs of_bound.
Proof.
  each_attr.
  - intros d w l (p & -> & Hp & Ht). unfold Of.temp_show. do 3 wp_step. apply show_register; [done|].
    intros w' r Hr. split_and!; try done. by exists p.
  - intros text d w l (p & -> & Hp & Hthr) Ht. unfold Of.control_store. do 3 wp_step.
    destruct (k_kstrtouint _ _) as [rc v]. do 2 wp_step. destruct (rc =? 0); [|wp_auto; split_and!; try done; [by exists p | by apply taken_all]].
    do 2 wp_step. apply wp_control; [done|]. intros w'. wp_red. wp_auto. split_and!; try done; [by eexists | by apply taken_all].
  - intros d w l (p & -> & Hp & Ht). unfold Of.threshold_show. wp_auto. split_and!; try done; [by exists p|].
    apply (shown_line _ 10); [by apply dec_u32 | done].
Qed.

#[export] Instance pin_conforms `{ParseUint} `{GpioLineOk W} : Conforms (W := W) pin_attrs (fun _ => True).
Proof.
  each_attr.
  - intros d w l _. unfold Leds.Pin.gpio_state_show. wp_auto. apply wp_call. intros v w' [= <- <-]. wp_auto.
    split_and!; try done. apply (shown_line _ 11); [|done]. destruct d; [by apply dec_int, gpio_value_int | done].
  - intros text d w l _ Ht. unfold Leds.Pin.gpio_state_store. wp_step; wp_step. destruct (k_kstrtouint _ _) as [rc v].
    wp_auto; [apply wp_call; intros [] w' _; wp_auto|]; split_and!; try done; by apply taken_all.
  - intros d w l _. unfold Leds.Pin.gpio_direction_show. wp_auto. apply wp_call. intros v w' [= <- <-]. wp_auto.
    split_and!; try done. apply (shown_line _ 3); [|done]. by destruct (_ =? 0).
Qed.

#[export] Instance power_conforms `{Power.RuntimePM W} : Conforms (W := W) power_attrs (fun _ => True).
Proof.
  each_attr.
  - intros d w l _. unfold Power.state_show. wp_auto. split_and!; try done. unfold Power.state_text.
    by destruct (d =? 0); right.
  - intros text d w l _ Ht. eapply wp_mono; [apply Power.state_store_spec|].
    { rewrite zlen_app. pose proof (zlen_nonneg [NUL]). lia. }
    intros r σ (-> & _ & Hh & Hl). split_and!; try done. by apply taken_all.
Qed.

Definition irq_state_ok (s : Irq.irq_stats) : Prop := Irq.stats_ok s /\ is_int (Irq.irq_number s).

#[export] Instance irq_conforms : Conforms (W := W) irq_attrs irq_state_ok.
Proof.
  each_attr.
  - intros d w l [(Hi & Ht & Hq) Hn]. unfold Irq.irq_count_show. wp_auto. split_and!; try done.
    pose proof (Irq.dec_u64 _ Hi). pose proof (Irq.dec_u64 _ Ht). pose proof (Irq.dec_u64 _ Hq).
    apply (shown_text _ (bytes_of "IRQ Count: " ++ dec (Irq.interrupt_count d) ++ [LF] ++
      bytes_of "Tasklet Count: " ++ dec (Irq.tasklet_count d) ++ [LF] ++
      bytes_of "Work Queue Count: " ++ dec (Irq.work_queue_count d))); [by rewrite <- !app_assoc|].
    rewrite !zlen_app. change (zlen [LF]) with 1. change (zlen (bytes_of "IRQ Count: ")) with 11.
    change (zlen (bytes_of "Tasklet Count: ")) with 15. change (zlen (bytes_of "Work Queue Count: ")) with 18.
    unfold PAGE_SIZE. lia.
  - intros d w l [Hs Hn]. unfold Irq.irq_info_show. wp_auto. split_and!; try done.
    destruct (0 <? Irq.irq_number d); [|by right].
    pose proof (dec_int _ Hn). apply (shown_text _ (bytes_of "Registered IRQ: " ++ dec (Irq.irq_number d) ++ [LF] ++
      bytes_of "IRQ Handler: irq_handler")); [by rewrite <- !app_assoc|].
    rewrite !zlen_app. change (zlen [LF]) with 1. change (zlen (bytes_of "Registered IRQ: ")) with 16.
    change (zlen (bytes_of "IRQ Handler: irq_handler")) with 24. unfold PAGE_SIZE. lia.
  - intros text d w l [Hs Hn] Ht. unfold Irq.trigger_work_store, Irq.schedule_work. wp_auto.
    split_and!; try done. by apply taken_all.
  - intros text d w l [Hs Hn] Ht. unfold Irq.trigger_tasklet_store, Irq.tasklet_schedule. wp_auto.
    split_and!; try done. by apply taken_all.
  - intros text d w l [Hs Hn] Ht. unfold Irq.reset_count_store. wp_auto.
    split_and!; try done. by apply taken_all.
Qed.
End Instances.

(** The control register of a sensor whose register block ends before it. *)
Section ShortBlock.
Context {W : Type} `{Platform W} `{ParseUint}.

Lemma control_out_of_bounds buf n (w : W) h l :
  (k_kstrtouint buf 0).1 = 0 ->
  (forall p, io_size (Plat.base_addr p) < 8 -> Plat.control_store buf n (KSt (Some p) w h l) = Oops OutOfBounds) /\
  (forall p, io_size (Of.base_addr p) < 8 -> Of.control_store buf n (KSt (Some p) w h l) = Oops OutOfBounds).
Proof.
  intros Hk. destruct (k_kstrtouint buf 0) as [rc v] eqn:E. simpl in Hk. subst rc.
  assert (Hob : forall m, io_size m < 8 -> in_bounds 4 4 (io_size m) = false)
    by (intros m Hm; unfold in_bounds; lia).
  split; intros p Hp; [unfold Plat.control_store | unfold Of.control_store]; unfold mbind, M_bind; simpl;
    rewrite E; simpl; unfold iowrite32; by rewrite Hob.
Qed.

(** The first store of a write that fits into a page is the whole text. *)
Lemma write_all_oops {D} fuel (st : list byte -> Z -> M W D Z) text σ u :
  0 < zlen text <= PAGE_SIZE -> (0 < fuel)%nat ->
  st (text ++ [NUL]) (zlen text) σ = Oops u -> write_all fuel st text σ = Oops u.
Proof.
  intros Ht Hf E. destruct text as [|b text]; [unfold zlen in Ht; simpl in Ht; lia|].
  destruct fuel as [|fuel]; [lia|]. cbn [write_all]. cbv zeta. rewrite take_ge by (unfold zlen in Ht; lia).
  unfold mbind, M_bind. by rewrite E.
Qed.

Lemma store_oops_unanswered {D} (attrs : list (attribute W D)) name a st text (I : D -> Prop) d (w : W) u :
  find_attr name attrs = Some a -> a_store a = Some st -> 0 < zlen text <= PAGE_SIZE ->
  st (text ++ [NUL]) (zlen text) (KSt d w [] []) = Oops u -> I d -> ~ answers attrs I.
Proof.
  intros Hf Hst Ht E HI Ha. specialize (Ha [Echo name text] d w [] HI). unfold wp in Ha. cbn [accesses do_access] in Ha.
  rewrite Hf, Hst in Ha. cbv [mbind M_bind] in Ha.
  rewrite (write_all_oops (length text) st text _ u) in Ha; [done | done | unfold zlen in Ht; lia | done].
Qed.

(** The sensors are not served with such a block once a text parses. *)
Lemma short_block_unanswered (w : W) text :
  0 < zlen text <= PAGE_SIZE -> (k_kstrtouint (text ++ [NUL]) 0).1 = 0 ->
  (forall (I : Plat.drvdata -> Prop) p, I (Some p) -> io_size (Plat.base_addr p) < 8 -> ~ answers (W := W) plat_attrs I) /\
  (forall (I : Of.drvdata -> Prop) p, I (Some p) -> io_size (Of.base_addr p) < 8 -> ~ answers (W := W) of_attrs I).
Proof.
  intros Ht Hk. destruct (control_out_of_bounds _ (zlen text) w [] [] Hk) as [Hp Ho].
  split; intros I p HI Hs; eapply (store_oops_unanswered _ "control"); try done; eauto.
Qed.
End ShortBlock.

(** C24. The attributes of eight drivers keep the contract of sysfs: their
    modes say what they can do, their names differ, and whatever sequence of
    reads and writes a program makes, with texts of any length, there is no
    undefined behaviour, the driver's variables stay in order, a read answers
    an error or the length of a text that fits into the page and ends in a
    newline, and a write ends, with an error or with all of its text taken.
    For the sensors of 016, 017 and 018 the register block has to cover both
    registers, eight bytes, which their probes do not check: with a shorter
    one, and a kstrtouint that accepts some text, no invariant serves them. *)
Theorem attributes_answer {W : Type} `{ParseIntOk} `{GpioLineOk W} `{SignalsOk W}
    `{PlatformOk W} `{ParseUint} `{Power.RuntimePM W} :
  served (W := W) gpio_attrs is_int /\
  (forall i, 0 <= i < MultiChar.MYDEV_COUNT -> served (W := W) (mydev_attrs (Some i)) MultiChar.mydevs_ok) /\
  served (W := W) plat_attrs plat_bound /\
  served (W := W) dt_attrs plat_bound /\
  served (W := W) of_attrs of_bound /\
  (forall text, 0 < zlen text <= PAGE_SIZE -> (k_kstrtouint (text ++ [NUL]) 0).1 = 0 -> W ->
     (forall (I : Plat.drvdata -> Prop) p, I (Some p) -> io_size (Plat.base_addr p) < 8 ->
        ~ served (W := W) plat_attrs I /\ ~ served (W := W) dt_attrs I) /\
     (forall (I : Of.drvdata -> Prop) p, I (Some p) -> io_size (Of.base_addr p) < 8 ->
        ~ served (W := W) of_attrs I)) /\
  served (W := W) pin_attrs (fun _ => True) /\
  served (W := W) power_attrs (fun _ => True) /\
  served (W := W) irq_attrs irq_state_ok.
Proof.
  assert (Hs : forall {D} (attrs : list (attribute W D)) I, Conforms attrs I -> served attrs I)
    by (intros; by apply conforms_served).
  split_and!; try (apply Hs, _); [intros; by apply Hs, mydev_conforms|].
  intros text Ht Hk w. destruct (short_block_unanswered w text Ht Hk) as [Hp Ho].
  split; intros I p HI Hl; [split; intros (_ & _ & Ha); exact (Hp I p HI Hl Ha) | intros (_ & _ & Ha); exact (Ho I p HI Hl Ha)].
Qed.

(** ** The colour of 006 *)

Section Rgb.
Context {W : Type} `{ParseIntOk}.

Definition rgb_in_order (s : Leds.Rgb.rgb) : Prop :=
  Leds.rgb_ok s /\ is_int (Leds.Rgb.brightness s) /\ is_int (Leds.Rgb.power s).

Lemma int_store_ok (f : Z -> Leds.Rgb.rgb -> Leds.Rgb.rgb) :
  (forall v s, is_int v -> rgb_in_order s -> rgb_in_order (f v s)) ->
  store_ok (W := W) rgb_in_order (fun buf count =>
    match Leds.k_kstrtoint buf with
    | inl v => modify (f v);; mret count
    | inr ret => if ret <? 0 then mret ret else mret count
    end).
Proof.
  intros Hf text d w l Hd Ht. cbv beta. destruct (Leds.k_kstrtoint _) as [v|e] eqn:E.
  - wp_auto. split_and!; try done; [apply Hf; [by eapply kstrtoint_int | done] | by apply taken_all].
  - pose proof (kstrtoint_error _ _ E). rewrite (proj2 (Z.ltb_lt _ _)) by done. wp_auto. split_and!; try done. by left.
Qed.

Lemma cstr_len (bs str : list byte) : cstr bs = Some str -> zlen str <= zlen bs.
Proof.
  revert str. induction bs as [|b bs IH]; intros str; simpl; [done|]. case_decide.
  - intros [= <-]. unfold zlen. simpl. lia.
  - destruct (cstr bs) as [s'|]; [|done]. intros [= <-]. specialize (IH s' eq_refl). unfold zlen in *. simpl. lia.
Qed.

(** The two numbers of 006, and the reading of its colour. *)
Lemma rgb_others_ok :
  Forall (attr_ok rgb_in_order) (drop 1 (rgb_attrs (W := W))) /\
  show_ok (W := W) rgb_in_order Leds.Rgb.color_show.
Proof.
  split; [repeat (constructor; [split; [reflexivity | intros ? [= <-] | intros ? [= <-]]|]); [..|constructor]|].
  - intros d w l Hd. pose proof Hd as (_ & Hb & _). unfold Leds.Rgb.brightness_show. wp_auto.
    split_and!; try done. apply (shown_line _ 11); [by apply dec_int | done].
  - apply (int_store_ok (fun v s => Leds.Rgb.MkRgb (Leds.Rgb.color s) v (Leds.Rgb.power s))).
    intros v s Hv ([? ?] & ? & ?). split_and!; [by split | done..].
  - intros d w l Hd. pose proof Hd as (_ & _ & Hp). unfold Leds.Rgb.power_show. wp_auto.
    split_and!; try done. apply (shown_line _ 11); [by apply dec_int | done].
  - apply (int_store_ok (fun v s => Leds.Rgb.MkRgb (Leds.Rgb.color s) (Leds.Rgb.brightness s) v)).
    intros v s Hv ([? ?] & ? & ?). split_and!; [by split | done..].
  - intros d w l Hd. pose proof Hd as ([Hl [str Hs]] & _). unfold Leds.Rgb.color_show. do 3 wp_step. rewrite Hs.
    wp_auto. split_and!; try done. pose proof (cstr_len _ _ Hs).
    apply (shown_line _ 10); [|done]. unfold Leds.Rgb.sizeof_color in Hl. lia.
Qed.
End Rgb.

(** The colour attribute of 006 breaks the contract: whatever one assumes
    of the driver's variables beyond their initial values, there is a text,
    ten letters without a newline, whose write runs past the array. The two
    other attributes of the driver keep it. *)
Theorem color_unsafe {W : Type} `{ParseIntOk} (w : W) :
  (forall I : Leds.Rgb.rgb -> Prop, I Leds.Rgb.rgb0 -> ~ answers (W := W) rgb_attrs I) /\
  Forall (attr_ok rgb_in_order) (drop 1 (rgb_attrs (W := W))).
Proof.
  split; [|apply rgb_others_ok]. intros I HI Ha.
  exact (Ha [Echo "color" (bytes_of "aquamarine")] Leds.Rgb.rgb0 w [] HI).
Qed.

(** ** Accesses at concrete inputs *)

(** A text longer than the device: the write is answered with its length, the
    rest that did not fit has replaced the beginning. *)
Example long_store_keeps_tail :
  match accesses (mydev_attrs (Some 0))
          [Echo "data" (replicate 1024 Byte.x61 ++ bytes_of "tail"); Cat "data"]
          (KSt (MultiChar.mydevs0) (sim_at 0 []) [] []) with
  | Done (rs, _) => rs = [(Some 1028, []); (Some 5, bytes_of "tail" ++ [LF])]
  | Oops _ => False
  end.
Proof. vm_compute. reflexivity. Qed.

#[local] Instance no_parse : Leds.ParseInt := { k_kstrtoint _ := inr (- EINVAL); k_sscanf_d _ := None }.
#[local] Instance no_parse_ok : ParseIntOk.
Proof. split; intros; simpl in *; simplify_eq; unfold EINVAL; lia. Qed.

Lemma color_unsafe_witness : ~ answers (W := unit) rgb_attrs rgb_in_order.
Proof.
  apply (color_unsafe tt). split; [|done]. split; [reflexivity | by eexists].
Defined.

#[local] Instance sim_line : Leds.GpioLine sim := {
  k_gpiod_set_value v w := set_mem (<[0 := byte_of_Z v]> (sim_mem w)) w;
  k_gpiod_get_value w := byte_val (umem w 0);
  k_gpiod_get_direction _ := 0;
}.
#[local] Instance sim_line_ok : GpioLineOk sim.
Proof. split. intros w. pose proof (byte_val_range (umem w 0)). unfold is_int, INT_MIN, INT_MAX. simpl. lia. Qed.

Lemma mydevs0_ok : MultiChar.mydevs_ok MultiChar.mydevs0.
Proof. split; [done|]. repeat constructor; unfold MultiChar.BUF_SIZE; simpl; lia. Qed.

#[local] Existing Instance Power.sim_pm.

Definition data_session : list access := [Echo "data" (bytes_of "hi"); Cat "data"; Cat "reset"].

Lemma attributes_answer_witness :
  wp (accesses (W := sim) (mydev_attrs (Some 0)) data_session)
     (fun rs σ => MultiChar.mydevs_ok (drv σ) /\ Forall2 answered data_session rs)
     (KSt MultiChar.mydevs0 (sim_at 0 []) [] []).
Proof.
  destruct (attributes_answer (W := sim)) as (_ & Hm & _). eapply wp_mono.
  - apply (Hm 0 ltac:(unfold MultiChar.MYDEV_COUNT; lia)), mydevs0_ok.
  - intros rs σ (Hok & _ & _ & Hr). split; assumption.
Defined.
