(* ===== verification/Bindings.v ===== *)
(** * The platform_driver tables, and the life of a device on the bus

    A platform driver hands the bus a table: its name, the device tree nodes
    it matches, probe, remove and power management callbacks. The bus binds
    and unbinds the device; in between, programs use the attributes that probe
    has created (Sysfs.v) and the system goes to sleep and wakes up.
    [Bindable] is what the bus expects of a table. Four drivers keep it, so
    no order of these events leads astray ([lifecycle_safe]); 019 leaves an
    attribute behind that answers without a device, and 007 keeps its line
    when a probe fails ([leaky_bindings]). *)

From S2P Require Import Prelude Kernel Wp Sim Sensor Sysfs.
From S2P Require Leds Power Platform.

(** ** struct dev_pm_ops and struct platform_driver *)

Record dev_pm_ops (W D : Type) := PmOps {
  pm_suspend : M W D Z;
  pm_resume : M W D Z;
  pm_freeze : M W D Z;
  pm_thaw : M W D Z;
  pm_runtime_suspend : M W D Z;
  pm_runtime_resume : M W D Z;
}.
Arguments PmOps {W D}.
Arguments pm_suspend {W D}.
Arguments pm_resume {W D}.
Arguments pm_freeze {W D}.
Arguments pm_thaw {W D}.
Arguments pm_runtime_suspend {W D}.
Arguments pm_runtime_resume {W D}.

(** [pd_owner]: .owner is THIS_MODULE; [of_match_table] holds the compatible
    strings. *)
Record platform_driver (W D : Type) := PlatformDriver {
  pd_name : string;
  pd_owner : bool;
  of_match_table : list string;
  pd_pm : option (dev_pm_ops W D);
  pd_probe : M W D Z;
  pd_remove : M W D Z;
}.
Arguments PlatformDriver {W D}.
Arguments pd_name {W D}.
Arguments of_match_table {W D}.
Arguments pd_pm {W D}.
Arguments pd_probe {W D}.
Arguments pd_remove {W D}.

Definition PLATFORM_DRIVER_NAME : string := "sensor_driver".

Section Tables.
Context {W : Type} `{Platform W} `{Grants W}.

(** 015, 016, 017 and 018 *)
Definition my_platform_driver : platform_driver W Platform.Demo.sys :=
  PlatformDriver Platform.Demo.name true [] None Platform.Demo.my_probe Platform.Demo.my_remove.
Definition plat_driver : platform_driver W Plat.drvdata :=
  PlatformDriver PLATFORM_DRIVER_NAME true [] None Plat.sensor_probe Plat.sensor_remove.
Definition dt_driver : platform_driver W Plat.drvdata :=
  PlatformDriver PLATFORM_DRIVER_NAME true ["temp-sensor,anis"%string] None Dt.sensor_probe Dt.sensor_remove.
Definition of_driver : platform_driver W Of.drvdata :=
  PlatformDriver PLATFORM_DRIVER_NAME true ["temp-sensor,anis"%string] None Of.sensor_probe Of.sensor_remove.

(** 019: the table without the line of [sensor_remove] that stands in it. *)
Definition pin_driver : platform_driver W bool :=
  PlatformDriver PLATFORM_DRIVER_NAME true ["temp-sensor,anis"%string] None
    Leds.Pin.sensor_probe Leds.Pin.sensor_remove.

(** 007 *)
Definition gpio_led_driver : platform_driver W Z :=
  PlatformDriver "gpio_led_driver" false ["anis,gpio-led"%string] None
    Leds.Gpio.gpio_led_probe Leds.Gpio.gpio_led_remove.

(** 020 *)
Definition power_pm_ops : dev_pm_ops W Z :=
  PmOps Power.power_suspend Power.power_resume Power.power_freeze Power.power_thaw
        Power.power_runtime_suspend Power.power_runtime_resume.
Definition power_driver `{Power.RuntimePM W} : platform_driver W Z :=
  PlatformDriver Power.driver_name false [] (Some power_pm_ops) Power.power_probe Power.power_remove.
End Tables.

(** ** One device on the bus *)

(** The callbacks of [dev_pm_ops]. *)
Inductive pm_event := Suspend | Resume | Freeze | Thaw | RuntimeSuspend | RuntimeResume.

Definition pm_callback {W D} (p : dev_pm_ops W D) (e : pm_event) : M W D Z :=
  match e with
  | Suspend => pm_suspend p
  | Resume => pm_resume p
  | Freeze => pm_freeze p
  | Thaw => pm_thaw p
  | RuntimeSuspend => pm_runtime_suspend p
  | RuntimeResume => pm_runtime_resume p
  end.

Inductive bus_event := Bind | Unbind | Pm (e : pm_event) | Access (c : access).

(** The driver's variables, and whether the device is bound. *)
Record slot (D : Type) := Slot { vars : D; is_bound : bool }.
Arguments Slot {D}.
Arguments vars {D}.
Arguments is_bound {D}.

(** A driver as the bus and sysfs see it: the table, the attributes, which of
    them exist with which resources, and what the driver core does to the
    driver's variables when no driver is bound any more (it clears the driver
    data). *)
Record bus_driver (W D : Type) := BusDriver {
  table : platform_driver W D;
  attrs : list (attribute W D);
  visible : string -> list resource -> bool;
  unbound : D -> D;
}.
Arguments BusDriver {W D}.
Arguments table {W D}.
Arguments attrs {W D}.
Arguments visible {W D}.
Arguments unbound {W D}.

Definition accessed (c : access) : string := match c with Cat name | Echo name _ => name end.

Section Bus.
Context {W D : Type} (b : bus_driver W D).

Definition on_vars {A} : M W D A -> M W (slot D) A := zoom vars (fun d s => Slot d (is_bound s)).

(** The resources the driver owns. *)
Definition owned : M W (slot D) (list resource) := fun σ => Done (ledger σ, σ).

(** What a program sees of an event: nothing, or the answer to its access. *)
Definition run_event (e : bus_event) : M W (slot D) (option (option Z * list byte)) :=
  s ← get;
  match e with
  | Bind =>
      if is_bound s then mret None
      else
        r ← on_vars (pd_probe (table b));
        modify (fun s => if r =? 0 then Slot (vars s) true else Slot (unbound b (vars s)) false);;
        mret None
  | Unbind =>
      if is_bound s then
        on_vars (pd_remove (table b));;
        modify (fun s => Slot (unbound b (vars s)) false);;
        mret None
      else mret None
  | Pm e =>
      match pd_pm (table b), is_bound s with
      | Some p, true => on_vars (pm_callback p e);; mret None
      | _, _ => mret None
      end
  | Access c =>
      l ← owned;
      if visible b (accessed c) l then r ← on_vars (do_access (attrs b) c); mret (Some r)
      else mret (Some (Some (- ENOENT), []))
  end.

Fixpoint run_events (es : list bus_event) : M W (slot D) (list (option (option Z * list byte))) :=
  match es with
  | [] => mret []
  | e :: es => r ← run_event e; rs ← run_events es; mret (r :: rs)
  end.

(** ** What the bus expects: [I] and [files] hold while the device is bound,
    [idle] while it is not *)

Class Bindable (I idle : D -> Prop) (files : list resource -> Prop) : Prop := {
  bind_attrs : Sysfs.Conforms (attrs b) I;
  bind_probe d (w : W) : idle d ->
    wp (pd_probe (table b))
       (fun r σ => held σ = [] /\
          (if r =? 0 then I (drv σ) /\ files (ledger σ) else idle (unbound b (drv σ)) /\ ledger σ = []))
       (KSt d w [] []);
  bind_remove d (w : W) l : I d -> files l ->
    wp (pd_remove (table b))
       (fun _ σ => held σ = [] /\ idle (unbound b (drv σ)) /\ ledger σ = []) (KSt d w [] l);
  bind_pm p e d (w : W) l : pd_pm (table b) = Some p -> I d ->
    wp (pm_callback p e) (fun r σ => r = 0 /\ I (drv σ) /\ held σ = [] /\ ledger σ = l) (KSt d w [] l);
  bind_hidden name : visible b name [] = false;
}.

Definition in_life (I idle : D -> Prop) (files : list resource -> Prop) (s : slot D) (l : list resource) : Prop :=
  if is_bound s then I (vars s) /\ files l else idle (vars s) /\ l = [].

(** An access is answered, and refused while the device is not bound. *)
Definition event_answered (e : bus_event) (r : option (option Z * list byte)) : Prop :=
  match e, r with
  | Access c, Some r => answered c r
  | Access _, None => False
  | _, r => r = None
  end.

Definition lives (I idle : D -> Prop) (files : list resource -> Prop) : Prop :=
  forall es s (w : W) l, in_life I idle files s l ->
  wp (run_events es)
     (fun rs σ => held σ = [] /\ in_life I idle files (drv σ) (ledger σ) /\ Forall2 event_answered es rs)
     (KSt s w [] l).
End Bus.

Arguments Bindable {W D}.
Arguments lives {W D}.

Section Life.
Context {W D : Type} (b : bus_driver W D) (I idle : D -> Prop) (files : list resource -> Prop).
Context `{Hb : !Bindable b I idle files}.
Local Abbreviation life := (in_life I idle files).

Lemma wp_on_vars {A} (m : M W D A) Q d up w l :
  wp m (fun r σ => held σ = [] /\ Q r (KSt (Slot (drv σ) up) (world σ) [] (ledger σ))) (KSt d w [] l) ->
  wp (on_vars m) Q (KSt (Slot d up) w [] l).
Proof.
  intros Hm. apply wp_zoom. eapply wp_mono; [exact Hm|]. intros r [d1 w1 h1 l1] [Hh HQ]. simpl in *. by subst h1.
Qed.

Lemma wp_owned Q (σ : kst W (slot D)) : Q (ledger σ) σ -> wp owned Q σ.
Proof. done. Qed.

Lemma run_event_life e s (w : W) l :
  life s l ->
  wp (run_event b e) (fun r σ => held σ = [] /\ life (drv σ) (ledger σ) /\ event_answered e r) (KSt s w [] l).
Proof.
  destruct s as [d up]. intros Hs. unfold run_event. do 2 wp_step. cbn [drv is_bound vars].
  destruct e as [| |e|c].
  - destruct up; [by apply wp_ret|]. destruct Hs as [Hi ->]. wp_step. apply wp_on_vars.
    eapply wp_mono; [by apply bind_probe|]. intros r [d1 w1 h1 l1] [Hh Hr]. simpl in *. split; [done|].
    wp_auto. split_and!; [done | | done]. simpl. by destruct (r =? 0).
  - destruct up; [|by apply wp_ret]. destruct Hs as [Hi Hf]. wp_step. apply wp_on_vars.
    eapply wp_mono; [by eapply bind_remove|]. intros r [d1 w1 h1 l1] (Hh & Hr & Hl). simpl in *. split; [done|].
    wp_auto. by split_and!.
  - destruct (pd_pm (table b)) as [p|] eqn:Ep; [|by apply wp_ret]. destruct up; [|by apply wp_ret].
    destruct Hs as [Hi Hf]. wp_step. apply wp_on_vars. eapply wp_mono; [by eapply bind_pm|].
    intros r [d1 w1 h1 l1] (-> & Hd & Hh & Hl). simpl in *. subst. split; [done|]. by wp_auto.
  - wp_step. apply wp_owned. simpl ledger. destruct (visible b (accessed c) l) eqn:Ev.
    2:{ apply wp_ret. split; [done|]. split; [exact Hs | by apply refused]. }
    destruct up; [|destruct Hs as [_ ->]; by rewrite (@bind_hidden W D b I idle files Hb) in Ev]. destruct Hs as [Hi Hf].
    wp_step. apply wp_on_vars. eapply wp_mono; [by apply (do_access_ok I (attrs b) (Conforms0 := @bind_attrs W D b I idle files Hb))|].
    intros r [d1 w1 h1 l1] (Hd & Hh & Hl & Hr). simpl in *. subst. split; [done|]. by wp_auto.
Qed.

Lemma bindable_lives : lives b I idle files.
Proof.
  intros es. induction es as [|e es IH]; intros s w l Hs; [by apply wp_ret|]. cbn [run_events].
  apply wp_bind. eapply wp_mono; [by apply run_event_life|].
  intros r [s1 w1 h1 l1] (Hh & Hs1 & Hr). simpl in *. subst h1.
  apply wp_bind. eapply wp_mono; [by apply IH|]. intros rs σ (? & ? & Hrs). apply wp_ret.
  split_and!; try done. by constructor.
Qed.
End Life.

(** ** The drivers that keep it *)

(** An attribute file of its own, and one of a group. *)
Definition has_file (name : string) (l : list resource) : bool := bool_decide (DevFile 0 name ∈ l).
Definition has_group (name : string) (l : list resource) : bool := bool_decide (SysGroup ∈ l).

Section Drivers.
Context {W : Type} `{PlatformOk W} `{!ParseUint} `{GrantsOk W}.

Definition plat_bus : bus_driver W Plat.drvdata := BusDriver plat_driver plat_attrs has_file (fun _ => None).
Definition dt_bus : bus_driver W Plat.drvdata := BusDriver dt_driver dt_attrs has_file (fun _ => None).
Definition of_bus : bus_driver W Of.drvdata := BusDriver of_driver of_attrs has_file (fun _ => None).
Definition pin_bus `{Leds.GpioLine W} : bus_driver W bool := BusDriver pin_driver pin_attrs has_file (fun _ => false).
Definition gpio_led_bus `{Leds.ParseInt} `{Leds.GpioLine W} : bus_driver W Z :=
  BusDriver gpio_led_driver gpio_attrs has_group id.
Definition power_bus `{Power.RuntimePM W} : bus_driver W Z := BusDriver power_driver power_attrs has_group id.

Definition two_files : list resource -> Prop := created "control" (created "temp" (eq [])).
Definition three_files : list resource -> Prop := created "threshold" two_files.

Lemma plat_bindable `(b : bus_driver W Plat.drvdata) :
  b = plat_bus \/ b = dt_bus ->
  (forall (w : W) r, k_get_resource w = Some r -> 8 <= resource_size r) ->
  Bindable b plat_bound (eq None) two_files.
Proof.
  intros Hb Hres.
  assert (Hp : forall d (w : W), None = d -> wp Plat.sensor_probe (fun r σ => held σ = [] /\
    (if r =? 0 then plat_bound (drv σ) /\ two_files (ledger σ) else None = (None : Plat.drvdata) /\ ledger σ = []))
    (KSt d w [] [])).
  { intros d w <-. eapply wp_mono; [apply plat_probe_spec|]. intros r σ (Hh & Hr). split; [done|].
    destruct Hr as [(Hneg & _ & Hl)|(-> & res & base & w' & Er & -> & Hl)].
    - by rewrite (proj2 (Z.eqb_neq _ _)) by lia.
    - split; [|done]. eexists. split; [done|]. by eapply Hres. }
  assert (Hr : forall d (w : W) l, two_files l ->
    wp Plat.sensor_remove (fun _ σ => held σ = [] /\ None = (None : Plat.drvdata) /\ ledger σ = []) (KSt d w [] l)).
  { intros d w l (l1 & (l0 & <- & Hl0) & Hl1). unfold Plat.sensor_remove.
    destruct Hl0 as [->| ->], Hl1 as [->| ->]; reflexivity || (vm_compute; done). }
  destruct Hb as [->| ->]; split; try done; try apply _; eauto.
Qed.

Lemma of_bindable :
  (forall (w : W) n, k_of_u32 "my-reg" 1 w = Some n -> 8 <= n) ->
  (forall (w : W) v, k_of_u32 "threshold" 0 w = Some v -> 0 <= v < 2 ^ 32) ->
  Bindable of_bus of_bound (eq None) three_files.
Proof.
  intros Hsize Hthr. split; try done.
  - apply of_conforms.
  - intros d w <-. eapply wp_mono; [apply of_probe_spec|]. intros r σ (Hh & Hr). split; [done|].
    destruct Hr as [(Hneg & _ & Hl)|(-> & (base & size & w1 & w2 & Es & ->) & Hl)].
    + by rewrite (proj2 (Z.eqb_neq _ _)) by lia.
    + split; [|done]. eexists. split; [done|]. split; [by eapply Hsize|]. simpl.
      destruct (k_of_u32 "threshold" 0 w2) eqn:E; simpl; [by eapply Hthr | lia].
  - intros d w l _ (l2 & (l1 & (l0 & <- & Hl0) & Hl1) & Hl2). simpl. unfold Of.sensor_remove.
    destruct Hl0 as [->| ->], Hl1 as [->| ->], Hl2 as [->| ->]; reflexivity || (vm_compute; done).
Qed.

#[export] Instance power_bindable `{Power.RuntimePM W} :
  Bindable power_bus (fun _ => True) (fun _ => True) (eq [SysGroup]).
Proof.
  split; try done.
  - apply power_conforms.
  - intros d w _. simpl. unfold Power.power_probe. unfold_kernel.
    wp_auto; [by apply wp_call; intros [] w1 _; wp_auto|]. by rewrite (proj2 (Z.eqb_neq _ _)).
  - intros d w l _ <-. simpl. unfold Power.power_remove. unfold_kernel.
    wp_step. apply wp_call. intros [] w1 _. wp_red. wp_auto. done.
  - intros p e d w l [= <-] _. destruct e; simpl; unfold Power.power_suspend, Power.power_resume; by wp_auto.
Qed.
End Drivers.

(** C23. The sensors of 016, 017 and 018 and the device of 020 live through
    any order of binding and unbinding, sleeping and waking up, and accesses
    to any attribute at any time: there is no undefined behaviour, in
    particular no access to driver data or registers that are not there; while
    the device is not bound the driver owns nothing, so that no attribute is
    left; and every access is answered as sysfs expects. The register blocks
    that the platform reports hold two registers, the threshold of the device
    tree is a u32. *)
Theorem lifecycle_safe {W : Type} `{PlatformOk W} `{!ParseUint} `{GrantsOk W} `{Power.RuntimePM W}
    (Hres : forall (w : W) r, k_get_resource w = Some r -> 8 <= resource_size r)
    (Hreg : forall (w : W) n, k_of_u32 "my-reg" 1 w = Some n -> 8 <= n)
    (Hthr : forall (w : W) v, k_of_u32 "threshold" 0 w = Some v -> 0 <= v < 2 ^ 32) :
  lives (W := W) plat_bus plat_bound (eq None) two_files /\
  lives (W := W) dt_bus plat_bound (eq None) two_files /\
  lives (W := W) of_bus of_bound (eq None) three_files /\
  lives (W := W) power_bus (fun _ => True) (fun _ => True) (eq [SysGroup]).
Proof.
  split_and!; apply bindable_lives.
  - apply plat_bindable; [by left | done].
  - apply plat_bindable; [by right | done].
  - by apply of_bindable.
  - apply _.
Qed.

(** ** The drivers that do not *)

(** No invariant makes a device of the driver live that is not bound yet. *)
Definition astray {D} (b : bus_driver sim D) (d : D) : Prop :=
  forall (I idle : D -> Prop) (files : list resource -> Prop), idle d -> ~ lives b I idle files.

(** A history after which the device is not bound and the driver owns
    something. *)
Lemma leak_astray {D} (b : bus_driver sim D) d (w : sim) es :
  match run_events b es (KSt (Slot d false) w [] []) with
  | Done (_, σ) => is_bound (drv σ) = false /\ ledger σ <> []
  | Oops _ => False
  end -> astray b d.
Proof.
  intros Hleak I idle files Hd Hl. specialize (Hl es (Slot d false) w [] (conj Hd eq_refl)). unfold wp in Hl.
  destruct (run_events b es _) as [[rs σ]|]; [|done]. destruct Hl as (_ & Hin & _), Hleak as [Hu Hne].
  unfold in_life in Hin. rewrite Hu in Hin. by destruct Hin.
Qed.

#[local] Existing Instance Sysfs.sim_line.
#[local] Existing Instance Sysfs.no_parse.

(** The GPIO sensor of 019 and the GPIO LED of 007 do not live so,
    whatever one assumes of their variables: after a bind and an unbind of
    019 the attribute gpio_state is still there, without a device; when 007's
    probe fails for want of a kobject, its line stays taken. *)
Theorem leaky_bindings : astray pin_bus false /\ astray gpio_led_bus 0.
Proof.
  split.
  - apply (leak_astray _ _ (sim_at 0 []) [Bind; Unbind]). vm_compute. by split.
  - apply (leak_astray _ _ (Sim ∅ [] [0; -1] [] []) [Bind]). vm_compute. by split.
Qed.

(** The attribute of 019 answers without a device. *)
Example pin_stale_attribute :
  match run_events (W := sim) pin_bus [Bind; Unbind; Access (Cat "gpio_state"); Access (Cat "gpio_direction")]
          (KSt (Slot false false) (sim_at 0 []) [] []) with
  | Done (rs, _) => rs = [None; None; Some (Some 2, bytes_of "0" ++ [LF]); Some (Some (- ENOENT), [])]
  | Oops _ => False
  end.
Proof. vm_compute. reflexivity. Qed.

(** ** The device tree of 018 *)

(** temp_sens.dts: the properties of the node that are cells. *)
Definition temp_sens_dts : list (string * list Z) := [("reg"%string, [1342177280; 4096])].

Definition dts_u32 (node : list (string * list Z)) (prop : string) (i : Z) : option Z :=
  list_find (fun p => p.1 = prop) node ≫= fun p => zget p.2.2 i.

(** The driver asks for properties that the node of its own device tree does
    not have: its probe always fails. *)
Lemma of_probe_own_dts {W : Type} `{PlatformOk W} `{GrantsOk W} (w : W)
    (Hdts : forall (w : W) prop i, k_of_u32 prop i w = dts_u32 temp_sens_dts prop i) :
  wp Of.sensor_probe
     (fun r σ => (r = - EINVAL \/ r = - ENOMEM) /\ ledger σ = [] /\ drv σ = None) (KSt None w [] []).
Proof.
  unfold Of.sensor_probe, devm_kzalloc. wp_step. apply wp_call. intros rc w1 _. wp_red.
  destruct (negb (rc =? 0)); [apply wp_ret; split; [by right | done]|].
  wp_step. apply wp_call. intros o1 w2 [= <- <-]. wp_step. apply wp_call. intros o2 w2 [= <- <-].
  rewrite !Hdts. apply wp_ret. split; [by left | done].
Qed.

(** ** The properties at a concrete device *)

#[local] Existing Instance Power.sim_pm.

Definition sensor_life : list bus_event :=
  [Access (Cat "temp"); Bind; Access (Cat "temp"); Access (Echo "control" (bytes_of "57005"));
   Pm Suspend; Unbind; Access (Cat "temp")].

Lemma lifecycle_safe_witness :
  wp (run_events (W := sim) plat_bus sensor_life)
     (fun rs σ => held σ = [] /\ Forall2 event_answered sensor_life rs)
     (KSt (Slot None false) (sim_at 0 [Byte.x19; NUL; NUL; NUL]) [] []).
Proof.
  destruct (lifecycle_safe (W := sim)) as (Hp & _).
  - intros w r [= <-]. vm_compute. discriminate.
  - intros w n [= <-]. vm_compute. discriminate.
  - intros w v. discriminate.
  - eapply wp_mono.
    + apply (Hp sensor_life (Slot None false) (sim_at 0 [Byte.x19; NUL; NUL; NUL]) []). split; reflexivity.
    + intros rs σ (Hh & _ & Hr). split; assumption.
Defined.
