(* ===== verification/Demos.v ===== *)
(** * 000_hello_world, 001_driver_misc: modules that only write to the log

    The state is the kernel log, a list of lines. The clock and the layout of
    print_hex_dump are interfaces; panic does not return. *)

From S2P Require Import Prelude Kernel Wp Sim.

Abbreviation dmesg := (list (list byte)).

Definition line (s : list byte) : list byte := s ++ [LF].
Definition printk {W} (s : list byte) : M W dmesg unit := modify (fun l => l ++ [s]).

(** ** hello.c *)

Module Hello.
(** tv_sec of ktime_get_real_ts64. *)
Class Clock (W : Type) := { k_real_seconds : W -> Z * W }.

Section Init.
Context {W : Type} `{Clock W}.

Definition hello_init : M W dmesg Z :=
  tv_sec ← call k_real_seconds;
  printk (line (bytes_of "Module loaded at " ++ dec tv_sec ++ bytes_of " seconds since epoch"));;
  printk (line (bytes_of "Hello, Sk Anisuddin Ahmed!"));;
  mret 0.

Definition hello_exit : M W dmesg unit := printk (line (bytes_of "Goodbye, Module unloaded")).
End Init.

(** A load and an unload print three lines, the first with the time of the
    load. *)
Lemma hello_log {W} `{Clock W} (w : W) (log : dmesg) :
  let '(t, w') := k_real_seconds w in
  (rc ← hello_init; hello_exit;; mret rc) (KSt log w [] []) =
    Done (0, KSt (log ++ [ line (bytes_of "Module loaded at " ++ dec t ++ bytes_of " seconds since epoch");
                           line (bytes_of "Hello, Sk Anisuddin Ahmed!");
                           line (bytes_of "Goodbye, Module unloaded") ]) w' [] []).
Proof.
  destruct (k_real_seconds w) as [t w'] eqn:E.
  unfold hello_init, hello_exit, printk, modify, call, mbind, M_bind. simpl. rewrite E. simpl.
  by rewrite <- !app_assoc.
Qed.
End Hello.

(** ** hexdump.c *)

Module HexDump.
(** The lines of print_hex_dump(level, prefix, DUMP_PREFIX_OFFSET, rowsize,
    groupsize, buf, sizeof(buf), ascii). *)
Class Dump := { k_hex_dump : list byte -> Z -> Z -> list byte -> bool -> dmesg }.

Definition rx_buf : list byte :=
  byte_of_Z <$> [ 0x9F; 0xEF; 0x40; 0x18; 0xAA; 0x55; 0x01; 0x02;
                  0x10; 0x20; 0x30; 0x40; 0xDE; 0xAD; 0xBE; 0xEF ].

Section Init.
Context {W : Type} `{Dump}.

Definition spi_dump_init : M W dmesg Z :=
  printk (line (bytes_of "SPI RX buffer dump:"));;
  modify (fun l => l ++ k_hex_dump (bytes_of "spi_rx: ") 16 1 rx_buf true);;
  mret 0.

Definition spi_dump_exit : M W dmesg unit := printk (line (bytes_of "SPI dump module exit")).
End Init.
End HexDump.

(** ** init_exit_data.c *)

Module InitExit.
(** [init_val] lies in memory that the kernel frees after the init function,
    [exit_val] in memory that it keeps until the unload. *)
Record sections := Sections { init_val : option Z; exit_val : option Z; log : dmesg }.
Definition sections0 : sections := Sections (Some 10) (Some 20) [].

Section Init.
Context {W : Type}.

Definition pr_val (s : list byte) (v : Z) : M W sections unit :=
  modify (fun d => Sections (init_val d) (exit_val d) (log d ++ [line (s ++ dec v)])).

Definition my_init : M W sections Z :=
  d ← get; v ← value BadPointer (init_val d);
  pr_val (bytes_of "init: init_val=") v;;
  mret 0.

Definition my_exit : M W sections unit :=
  d ← get; v ← value BadPointer (exit_val d);
  pr_val (bytes_of "exit: exit_val=") v.

(** The module loader calls the init function and frees its section, and
    calls the exit function before it frees the rest. *)
Definition load : M W sections Z :=
  rc ← my_init; modify (fun d => Sections None (exit_val d) (log d));; mret rc.
Definition unload : M W sections unit :=
  my_exit;; modify (fun d => Sections (init_val d) None (log d)).
End Init.

(** No function reads a variable whose section is gone. *)
Lemma sections_alive {W} (w : W) :
  wp (rc ← load; unload;; mret rc)
     (fun rc σ => rc = 0 /\ log (drv σ) = [ line (bytes_of "init: init_val=10"); line (bytes_of "exit: exit_val=20") ])
     (KSt sections0 w [] []).
Proof. by unfold load, unload, my_init, my_exit, pr_val; wp_auto. Qed.

(** Reading the variable of the init function at the unload would. *)
Example init_section_gone {W} (w : W) :
  (load;; d ← get; value BadPointer (init_val d)) (KSt sections0 w [] []) = Oops BadPointer.
Proof. reflexivity. Qed.
End InitExit.

(** ** panic.c *)

Module Panic.
(** How a call ends: it returns, or the machine has stopped. *)
Inductive ending := Returned (rc : Z) | Panicked (why : list byte).

Section Init.
Context {W : Type}.

(** panic does not return, so the return behind it is never reached. *)
Definition panic (why : list byte) : M W dmesg ending := mret (Panicked why).

Definition panic_init : M W dmesg ending :=
  printk (line (bytes_of "kernel panic now"));;
  panic (bytes_of "simulated kernel panic").

Definition panic_exit : M W dmesg unit := printk (line (bytes_of "panic exit")).
End Init.

(** The module is never loaded. *)
Lemma panic_never_loads {W} (w : W) log rc :
  wp panic_init (fun r _ => r <> Returned rc) (KSt log w [] []).
Proof. done. Qed.
End Panic.
